(* ===== verification/_CoqProject ===== *)
-Q . S2P
Prelude.v
Prog.v
Conc.v
Sync.v
Seq.v
SeqLogic.v
SeqOnly.v
AdmissionGate.v
PoolAccounting.v
AccountingRefine.v
AccountingLogic.v
AccountingSpecs.v
Observers.v
Types.v
Hooks.v
PoolJob.v
FixedInner.v
FixedWorker.v
JobLifecycle.v
SeqPool.v
SeqView.v
Builder.v
FixedPool.v
UserSpecs.v
Concrete.v
FixedLogic.v
FixedBuild.v
FixedView.v
FixedSubmit.v
FixedDrain.v
FixedStop.v
FixedSpecs.v
FixedOps.v
FixedSafety.v
FixedTheorems.v
FixedLive.v
FixedLiveRules.v
FixedLiveJobs.v
FixedLiveWorker.v
FixedLiveCalls.v
FixedLiveBuild.v
FixedLiveness.v
FixedNoHang.v
DynState.v
DynInner.v
DynWorker.v
DynSubmit.v
DynPool.v
DynQueue.v
DynQueueList.v
DynTicket.v
DynAdmission.v
DynConfig.v
DynStop.v
DynBuild.v
DynDrain.v
DynRetire.v
DynCancel.v
DynLogic.v
DynEntryLogic.v
DynSpecs.v
DynWorkerSpecs.v
DynOps.v
DynSafety.v
DynTheorems.v
ShutdownRace.v
ClosedPool.v
