(* ===== verification/Prelude.v ===== *)
(** * A verification of the thread pools of [qubit-thread-pool]

    The crate offers two executors.  [FixedThreadPool] starts all its workers when
    it is built; [ThreadPool] (here: the dynamic pool) starts workers on demand
    between a core and a maximum size and retires idle ones.  Both admit jobs
    through a packed atomic word, count them in atomics, keep them in a queue,
    and park workers and waiting callers on one monitor.  This library translates
    that code into Rocq and proves what it does when it runs alone and under every
    interleaving of its threads.

    ** How the program maps to the files

    Language and libraries the code stands on:
    - [Prelude]: [Result], 64-bit words, lenses (how an operation reaches its field
      of the shared state), sums of contributions.
    - [Prog]: programs as trees of atomic actions with environment choices, thread
      creation, joins, loops and unwinding panics; [catch_unwind], destructors
      ([finally], [on_unwind]); the sequential interpreter [run].
    - [Conc]: configurations of threads over one state, the step function [cstep],
      schedules ([exec]), deadlock ([stuck]), and a program logic in which threads
      own ghost contributions ("tokens") that an invariant relates to the state.
    - [Sync]: atomics, mutexes, the monitor ([qubit_lock::ParkingLotMonitor], an
      interface with laws) and the injector queue ([crossbeam_deque], likewise);
      the application's callbacks are the interface [UserCode].
    - [Seq], [SeqLogic], [SeqPool], [SeqView]: rules for code that runs alone; [SeqView]
      states those about monitor and counters once, against the class [PoolView] that
      [FixedView] and [DynQueue] implement with what can be observed of each pool.
      [SeqOnly]: rules for what such code can do at most, also when it does not end.
    - [Builder]: argument validation ([qubit_argument], an interface with laws).

    Components, each file named after the source it translates:
    - [AdmissionGate] ([src/internal/admission_gate.rs]) and [PoolAccounting]
      ([pool_accounting.rs], [pool_counter_snapshot.rs]).
    - [Types] ([pool_job_submission_error.rs], [thread_pool_stats.rs] and the
      values of the executor library), [Hooks] ([thread_pool_hooks.rs]).
    - [PoolJob] ([pool_job.rs], [pool_job/internal/*]): jobs, queue-entry states.
    - [FixedInner] ([fixed_thread_pool_inner.rs], state, submit guard),
      [FixedWorker] ([fixed_worker.rs]), [FixedPool] ([fixed_thread_pool.rs],
      [fixed_thread_pool_builder.rs]).
    - [DynState], [DynInner], [DynSubmit] ([thread_pool_state.rs],
      [thread_pool_config.rs], [thread_pool_inner.rs], its guards,
      [pool_job_ticket.rs]), [DynWorker] ([thread_pool_worker.rs]), [DynPool]
      ([thread_pool.rs], [thread_pool_builder.rs]).

    A record field of the code is a record field here; a method is a [prog] with
    the method's name (prefixed [fixed_] or [tp_] where both pools have it) whose
    first argument is the lens of the object.  An atomic access, a statement on
    data behind a held lock, and a call of a third-party object are one action
    each; everything between two actions can be interleaved.

    ** What is proved

    - Components alone: the admission word implements an open flag and a counter
      ([AdmissionGate]); the counters implement a ledger of jobs per phase
      ([AccountingRefine]); every callback, task and completion endpoint of a job is
      consumed exactly once whatever panics ([JobLifecycle]).
    - Operations alone, branch by branch, with total correctness, as functions on the
      views: building ([FixedBuild], [DynBuild]), submitting ([FixedSubmit],
      [DynAdmission], with the tickets of [DynTicket]), stopping ([FixedStop],
      [DynStop]), a worker that drains the queue of a closed pool and ends
      ([FixedDrain], [DynDrain]), an idle worker that retires or stays ([DynRetire]),
      submitting and cancelling as a round trip
      ([DynCancel]), reconfiguring ([DynConfig]), the dynamic queue as a list
      ([DynQueue], [DynQueueList]).
    - Both pools under every schedule, for callbacks that may panic, write their own
      data and re-enter the pool: ghost accounting and its invariant
      ([AccountingLogic], [AccountingSpecs], [Observers], [UserSpecs]), the pools'
      invariants and the specifications of all their functions ([FixedLogic],
      [FixedSpecs], [FixedOps]; [DynLogic], [DynEntryLogic], [DynSpecs],
      [DynWorkerSpecs], [DynOps]), the systems built from them ([FixedSafety],
      [DynSafety]) and the theorems ([FixedTheorems], [DynTheorems]): no thread
      panics, the counters stay consistent, [join] and [wait_termination] wait for
      everything accepted before they were called. [ClosedPool]: after a shutdown or
      a stop every later submission is refused.
    - Deadlock freedom of the fixed pool: [FixedLive] says what each sleeping thread
      relies on (its conditions) and who owes it a wake-up (debts), [FixedLiveRules]
      gives the rules, taking over what the safety proofs say of code that only moves
      jobs, [FixedLiveJobs], [FixedLiveWorker], [FixedLiveCalls] and [FixedLiveBuild] verify
      every function against that invariant, [FixedLiveness] analyses configurations in
      which no thread can move, and [FixedNoHang] states the result: only idle workers and
      callers of [wait_termination] of a running pool with nothing left to do stay blocked,
      or a job is left behind by the race of [ShutdownRace].
    - [ShutdownRace]: runs of both pools in which a job accepted just before a
      shutdown is never run and the pool never terminates.
    [Concrete] instantiates every interface; the witnesses evaluate the theorems on
    pools whose tasks panic and submit further tasks.

    ** Bounds

    Counters wrap at 2^64 as in the code.  A statement about a run assumes fewer
    than [STEP_BOUND] = 2^62 steps ([in_time]), so that counters which move by one
    per step cannot wrap; nothing else is bounded.  [run] takes fuel for loop
    iterations; a statement with [runs] says some fuel suffices and more changes
    nothing ([run_mono]), so it includes termination.  The injector queue may answer
    Retry to a contended steal; the theorems on code that steals alone assume the
    class [PatientInjector], that it does so finitely often in a row.

    ** What is not modelled

    - The atomics are sequentially consistent; the code's weaker orderings are not.
    - Overflow checks and debug assertions are on (the build the tests use).  A
      second panic while one unwinds aborts the process in Rust; here it unwinds.
    - The [async-wait] feature, [Debug] output, the loom shim, and re-exports.
    - [TaskSlot::accept] of the executor library is taken not to panic.
    - Callbacks may use the pool but start no threads of their own; for deadlock freedom
      they do not wait for the pool they run on.
    - Deadlock freedom is proved for the fixed pool only, and says that somebody can
      move, not that a scheduler lets every thread move in the end.
    - Clients may run while the pool is still being built, which the real builder
      prevents: the theorems cover more schedules than can happen.
    - A cancellation ([OpCancel]) may name any entry, also one not yet submitted.
*)
From stdpp Require Export base list gmap strings pretty.
From Stdlib Require Export ZArith Lia.

Declare Scope prog_scope.
Delimit Scope prog_scope with prog.

(** ** Rust's [Result] *)

Inductive Result (T E : Type) : Type :=
| Ok (t : T)
| Err (e : E).
Arguments Ok {T E} t.
Arguments Err {T E} e.

#[export] Instance Result_eq_dec {T E} `{EqDecision T, EqDecision E} :
  EqDecision (Result T E).
Proof. solve_decision. Defined.

Definition is_ok {T E} (r : Result T E) : bool :=
  match r with Ok _ => true | Err _ => false end.

Definition map_err {T E F} (f : E -> F) (r : Result T E) : Result T F :=
  match r with Ok t => Ok t | Err e => Err (f e) end.

(** ** Machine integers

    [usize] is a 64-bit word, kept as a [Z] in [0, 2^64). *)

Definition USIZE_BITS : Z := 64.
Definition USIZE_MOD : Z := 2 ^ USIZE_BITS.
Definition USIZE_MAX : Z := USIZE_MOD - 1.

Definition wrap (x : Z) : Z := x mod USIZE_MOD.

Definition in_usize (x : Z) : Prop := (0 <= x < USIZE_MOD)%Z.

Definition checked_sub (x y : Z) : option Z :=
  if (y <=? x)%Z then Some (x - y)%Z else None.

Definition checked_add (x y : Z) : option Z :=
  if (x + y <? USIZE_MOD)%Z then Some (x + y)%Z else None.

Definition saturating_sub (x y : Z) : Z := Z.max 0 (x - y).

Lemma wrap_small (x : Z) : in_usize x -> wrap x = x.
Proof. intros H. apply Z.mod_small. exact H. Qed.

Lemma wrap_range (x : Z) : in_usize (wrap x).
Proof. apply Z.mod_pos_bound. reflexivity. Qed.

Lemma wrap_neg1 : wrap (0 - 1) = USIZE_MAX.
Proof. reflexivity. Qed.

(** ** Lenses: the field of a structure an operation works on *)

Record lens (S A : Type) : Type := Lens { get : S -> A; set : A -> S -> S }.
Arguments Lens {S A} get set.
Arguments get {S A} l s.
Arguments set {S A} l a s.

Definition lens_comp {S A B} (l : lens S A) (m : lens A B) : lens S B :=
  Lens (fun s => get m (get l s)) (fun b s => set l (set m b (get l s)) s).
Infix "⊚" := lens_comp (at level 40, left associativity).

Definition id_lens {S} : lens S S := Lens (fun s => s) (fun a _ => a).

Class LensLaws {S A} (l : lens S A) : Prop := {
  get_set : forall a s, get l (set l a s) = a;
  set_get : forall s, set l (get l s) s = s;
  set_set : forall a b s, set l a (set l b s) = set l a s;
}.

#[export] Instance id_lens_laws {S} : LensLaws (@id_lens S).
Proof. by split. Qed.

#[export] Instance lens_comp_laws {S A B} (l : lens S A) (m : lens A B)
  `{!LensLaws l, !LensLaws m} : LensLaws (l ⊚ m).
Proof.
  split; intros; cbn.
  - by rewrite !get_set.
  - by rewrite !set_get.
  - by rewrite get_set, !set_set.
Qed.

Ltac solve_lens := split; [reflexivity | intros []; reflexivity | reflexivity].

(** ** Sums over lists of contributions *)

Definition sum_with {A} (f : A -> nat) (l : list A) : nat := sum_list_with f l.

Section sums.
Context {A : Type}.
Implicit Types (f : A -> nat) (l : list A).

Lemma sum_with_insert f l i x y :
  l !! i = Some x -> sum_with f (<[i:=y]> l) + f x = sum_with f l + f y.
Proof.
  revert i; induction l as [|z l IH]; intros [|i] H; simplify_eq/=.
  - lia.
  - specialize (IH i H). unfold sum_with in *. lia.
Qed.

Lemma sum_with_lookup f l i x : l !! i = Some x -> f x <= sum_with f l.
Proof.
  revert i; induction l as [|z l IH]; intros [|i] H; simplify_eq/=.
  - unfold sum_with in *; cbn. lia.
  - specialize (IH i H). unfold sum_with in *; cbn. lia.
Qed.

Lemma sum_with_app f l1 l2 :
  sum_with f (l1 ++ l2) = sum_with f l1 + sum_with f l2.
Proof. unfold sum_with. apply sum_list_with_app. Qed.

Lemma sum_with_le f h l :
  (forall x, f x <= h x) -> sum_with f l <= sum_with h l.
Proof.
  intros H. unfold sum_with. induction l as [|x l IH]; simpl; [done|].
  specialize (H x). lia.
Qed.

Lemma sum_with_add f h l :
  sum_with (fun x => f x + h x) l = sum_with f l + sum_with h l.
Proof. unfold sum_with. induction l as [|x l IH]; simpl; lia. Qed.

Lemma sum_with_zero f l : (forall x, x ∈ l -> f x = 0) -> sum_with f l = 0.
Proof.
  intros H. unfold sum_with. induction l as [|x l IH]; simpl; [done|].
  rewrite (H x) by set_solver. rewrite IH by set_solver. done.
Qed.

Lemma sum_with_nonzero f l : sum_with f l <> 0 -> exists x, x ∈ l /\ f x <> 0.
Proof.
  induction l as [|x l IH]; unfold sum_with; simpl; [done|]. intros Hs. destruct (decide (f x = 0)) as [Hx|].
  - destruct IH as (y & ? & ?); [unfold sum_with; lia|]. exists y. set_solver.
  - exists x. set_solver.
Qed.
End sums.
#[global] Arguments sum_with : simpl never.
