(* ===== verification/Prog.v ===== *)
(** The language the code is modelled in: programs as trees of atomic actions
    on a shared state, with loops, thread creation and unwinding panics. *)
From S2P Require Import Prelude.
From Stdlib Require Import FunctionalExtensionality.

(** [prog S A]: a thread's code over shared state [S], returning an [A].
    - [Act f k]: one atomic action; [f t s = None] means thread [t] is blocked.
    - [Choose k]: an outcome the environment picks (timeout, spawn failure ...).
    - [Spawn name stack child k]: starts a thread, [k] gets its identifier.
    - [Join t k]: waits for thread [t] to end.
    - [Loop body x k]: iterates [body] from [x] until it answers [inr]. *)
Inductive prog (S A : Type) : Type :=
| Ret (a : A)
| Panic
| Act {B : Type} (f : nat -> S -> option (B * S)) (k : B -> prog S A)
| Choose (k : bool -> prog S A)
| Spawn (name : string) (stack : option Z) (child : prog S unit) (k : nat -> prog S A)
| Join (t : nat) (k : prog S A)
| Loop {X B : Type} (body : X -> prog S (X + B)) (x : X) (k : B -> prog S A).
Arguments Ret {S A} a.
Arguments Panic {S A}.
Arguments Act {S A B} f k.
Arguments Choose {S A} k.
Arguments Spawn {S A} name stack child k.
Arguments Join {S A} t k.
Arguments Loop {S A X B} body x k.

Fixpoint bind {S A B} (p : prog S A) (f : A -> prog S B) : prog S B :=
  match p with
  | Ret a => f a
  | Panic => Panic
  | Act g k => Act g (fun b => bind (k b) f)
  | Choose k => Choose (fun b => bind (k b) f)
  | Spawn n st c k => Spawn n st c (fun t => bind (k t) f)
  | Join t k => Join t (bind k f)
  | Loop body x k => Loop body x (fun b => bind (k b) f)
  end.

Notation "x <- p ;; q" := (bind p (fun x => q))
  (at level 100, p at next level, q at level 200, right associativity) : prog_scope.
Notation "p ;; q" := (bind p (fun _ => q))
  (at level 100, q at level 200, right associativity) : prog_scope.
Open Scope prog_scope.

(** [std::panic::catch_unwind]: [None] when the body panicked. *)
Fixpoint catch_unwind {S A} (p : prog S A) : prog S (option A) :=
  match p with
  | Ret a => Ret (Some a)
  | Panic => Ret None
  | Act g k => Act g (fun b => catch_unwind (k b))
  | Choose k => Choose (fun b => catch_unwind (k b))
  | Spawn n st c k => Spawn n st c (fun t => catch_unwind (k t))
  | Join t k => Join t (catch_unwind k)
  | Loop body x k =>
      Loop (fun x =>
              o <- catch_unwind (body x) ;;
              match o with
              | None => Ret (inr None)
              | Some (inl x') => Ret (inl x')
              | Some (inr b) => Ret (inr (Some b))
              end) x
           (fun o => match o with
                     | None => Ret None
                     | Some b => catch_unwind (k b)
                     end)
  end.

(** A value with a destructor: [fin] runs on return and on unwinding. *)
Definition finally {S A} (p : prog S A) (fin : prog S unit) : prog S A :=
  o <- catch_unwind p ;;
  fin ;;
  match o with Some a => Ret a | None => Panic end.

(** A destructor that runs on unwinding only (the value outlives [p]). *)
Definition on_unwind {S A} (p : prog S A) (fin : prog S unit) : prog S A :=
  o <- catch_unwind p ;;
  match o with Some a => Ret a | None => fin ;; Panic end.

Definition loop {S X B} (body : X -> prog S (X + B)) (x : X) : prog S B :=
  Loop body x Ret.

Definition choose {S} : prog S bool := Choose Ret.

Definition current_thread {S} : prog S nat := Act (fun t s => Some (t, s)) Ret.

(** [thread::Builder::spawn]: [None] when the operating system refuses. *)
Definition thread_spawn {S} (name : string) (stack : option Z) (child : prog S unit) :
    prog S (option nat) :=
  ok <- choose ;;
  if (ok : bool) then Spawn name stack child (fun t => Ret (Some t)) else Ret None.

Definition when {S} (b : bool) (p : prog S unit) : prog S unit :=
  if b then p else Ret tt.

(** Short-circuit conjunction and disjunction. *)
Definition andp {S} (p q : prog S bool) : prog S bool :=
  b <- p ;; if (b : bool) then q else Ret false.
Definition orp {S} (p q : prog S bool) : prog S bool :=
  b <- p ;; if (b : bool) then Ret true else q.

(** [assert!], [debug_assert!] and [Option::expect]. *)
Definition assert {S} (b : bool) : prog S unit := if b then Ret tt else Panic.
Definition expect {S A} (o : option A) : prog S A :=
  match o with Some a => Ret a | None => Panic end.

Fixpoint for_each {S X} (xs : list X) (f : X -> prog S unit) : prog S unit :=
  match xs with
  | [] => Ret tt
  | x :: xs => f x ;; for_each xs f
  end.

(** ** Sequential execution: one thread without interference *)

(** What a run carries besides the program: the shared state, the
    environment's next answers, and the threads started so far. *)
Record world (S : Type) : Type := World {
  w_state : S;
  w_oracle : list bool;
  w_spawned : list (string * option Z * prog S unit);
}.
Arguments World {S} w_state w_oracle w_spawned.
Arguments w_state {S} w.
Arguments w_oracle {S} w.
Arguments w_spawned {S} w.

Inductive outcome (S A : Type) : Type :=
| Returned (a : A) (w : world S)
| Panicked (w : world S)
| Blocked (w : world S)
| OutOfFuel.
Arguments Returned {S A} a w.
Arguments Panicked {S A} w.
Arguments Blocked {S A} w.
Arguments OutOfFuel {S A}.

Definition oracle_next (l : list bool) : bool * list bool :=
  match l with [] => (true, []) | b :: l => (b, l) end.

(** Fuel bounds the number of loop iterations. *)
Fixpoint run (fuel : nat) {S A} (t : nat) (p : prog S A) (w : world S) {struct fuel} : outcome S A :=
  (fix go (p : prog S A) (w : world S) {struct p} : outcome S A :=
     match p with
     | Ret a => Returned a w
     | Panic => Panicked w
     | Act f k =>
         match f t (w_state w) with
         | None => Blocked w
         | Some (b, s') => go (k b) (World s' (w_oracle w) (w_spawned w))
         end
     | Choose k =>
         let (b, orc) := oracle_next (w_oracle w) in
         go (k b) (World (w_state w) orc (w_spawned w))
     | Spawn n st c k =>
         go (k (Datatypes.S t + length (w_spawned w)))
            (World (w_state w) (w_oracle w) (w_spawned w ++ [(n, st, c)]))
     | Join _ _ => Blocked w
     | Loop body x k =>
         match fuel with
         | 0 => OutOfFuel
         | Datatypes.S fuel =>
             run fuel t (bind (body x) (fun r => match r with
                                                 | inl x' => Loop body x' k
                                                 | inr b => k b
                                                 end)) w
         end
     end) p w.

(** [runs t p w o]: run alone from [w], [p] ends with outcome [o]. *)
Definition runs {S A} (t : nat) (p : prog S A) (w : world S) (o : outcome S A) : Prop :=
  o <> OutOfFuel /\ exists fuel, run fuel t p w = o.

(** ** Equations of [bind], [catch_unwind] and [run] *)

Section prog_facts.
Context {S : Type}.

Lemma bind_ret_r {A} (p : prog S A) : bind p Ret = p.
Proof.
  induction p as [A a|A|A B f k IH|A k IH|A n st c _ k IH|A u k IH|A X B b IHb x k IH];
    cbn; f_equal; try apply functional_extensionality; auto.
Qed.

Lemma bind_assoc {A B C} (p : prog S A) (f : A -> prog S B) (h : B -> prog S C) :
  bind (bind p f) h = bind p (fun a => bind (f a) h).
Proof.
  induction p as [A a|A|A D g k IH|A k IH|A n st c _ k IH|A u k IH|A X D b IHb x k IH];
    cbn; f_equal; try apply functional_extensionality; auto.
Qed.

Lemma catch_bind {A B} (p : prog S A) (f : A -> prog S B) :
  catch_unwind (bind p f) =
  bind (catch_unwind p) (fun o => match o with
                                  | Some a => catch_unwind (f a)
                                  | None => Ret None
                                  end).
Proof.
  induction p as [A a|A|A D g k IH|A k IH|A n st c _ k IH|A u k IH|A X D b IHb x k IH];
    cbn; f_equal; try apply functional_extensionality; auto.
  intros [b'|]; cbn; auto.
Qed.

Implicit Types (w : world S).

Lemma run_ret n {A} t (a : A) w : run n t (Ret a) w = Returned a w.
Proof. by destruct n. Qed.

Lemma run_panic n {A} t w : run n t (Panic : prog S A) w = Panicked w.
Proof. by destruct n. Qed.

Lemma run_act n {A B} t (f : nat -> S -> option (B * S)) (k : B -> prog S A) w :
  run n t (Act f k) w =
  match f t (w_state w) with
  | None => Blocked w
  | Some (b, s') => run n t (k b) (World s' (w_oracle w) (w_spawned w))
  end.
Proof. by destruct n. Qed.

Lemma run_choose n {A} t (k : bool -> prog S A) w :
  run n t (Choose k) w =
  run n t (k (oracle_next (w_oracle w)).1)
    (World (w_state w) (oracle_next (w_oracle w)).2 (w_spawned w)).
Proof. destruct n; cbn; by destruct (oracle_next _). Qed.

Lemma run_spawn n {A} t nm st c (k : nat -> prog S A) w :
  run n t (Spawn nm st c k) w =
  run n t (k (Datatypes.S t + length (w_spawned w)))
    (World (w_state w) (w_oracle w) (w_spawned w ++ [(nm, st, c)])).
Proof. by destruct n. Qed.

Lemma run_join n {A} t u (k : prog S A) w : run n t (Join u k) w = Blocked w.
Proof. by destruct n. Qed.

Lemma run_loop n {A X B} t (body : X -> prog S (X + B)) x (k : B -> prog S A) w :
  run (Datatypes.S n) t (Loop body x k) w =
  run n t (bind (body x) (fun r => match r with
                                   | inl x' => Loop body x' k
                                   | inr b => k b
                                   end)) w.
Proof. reflexivity. Qed.

Lemma run_loop_0 {A X B} t (body : X -> prog S (X + B)) x (k : B -> prog S A) w :
  run 0 t (Loop body x k) w = OutOfFuel.
Proof. reflexivity. Qed.
End prog_facts.

Create Rewrite HintDb run.
#[export] Hint Rewrite @run_ret @run_panic @run_act @run_choose @run_spawn @run_join : run.

Section run_facts.
Context {S : Type}.
Implicit Types (w : world S).

(** More fuel does not change a result. *)
Lemma run_mono n m {A} t (p : prog S A) w o :
  run n t p w = o -> o <> OutOfFuel -> n <= m -> run m t p w = o.
Proof.
  revert m A p w o. induction n as [|n IHn]; intros m A p.
  all: induction p as [A a|A|A B f k IH|A k IH|A nm st c _ k IH|A u k IH|A X B b IHb x k IH];
    intros w o Hr Ho Hle.
  all: try (rewrite run_ret in Hr |- *; done); try (rewrite run_panic in Hr |- *; done).
  all: try (rewrite run_act in Hr |- *; destruct (f t (w_state w)) as [[b s']|]; [by eauto|done]).
  all: try (rewrite run_choose in Hr |- *; by eauto).
  all: try (rewrite run_spawn in Hr |- *; by eauto).
  all: try (rewrite run_join in Hr |- *; done).
  - rewrite run_loop_0 in Hr. congruence.
  - destruct m as [|m]; [lia|]. rewrite run_loop in Hr |- *. apply IHn; [done|done|lia].
Qed.

(** Sequencing: a returning prefix hands its world to the continuation. *)
Lemma run_bind n m {A B} t (p : prog S A) (f : A -> prog S B) w a w' :
  run n t p w = Returned a w' -> run m t (f a) w' <> OutOfFuel ->
  run (n + m) t (bind p f) w = run m t (f a) w'.
Proof.
  revert A p a w w' f. induction n as [|n IHn]; intros A p.
  all: induction p as [A a|A|A D g k IH|A k IH|A nm st c _ k IH|A u k IH|A X D b IHb x k IH];
    intros a' w w' h Hr Ho; cbn [bind].
  all: try (rewrite run_ret in Hr; simplify_eq; eapply run_mono; [done|done|lia]).
  all: try (rewrite run_panic in Hr; done).
  all: try (rewrite run_act in Hr |- *; destruct (g t (w_state w)) as [[b s']|]; [by eauto|done]).
  all: try (rewrite run_choose in Hr |- *; by eauto).
  all: try (rewrite run_spawn in Hr |- *; by eauto).
  all: try (rewrite run_join in Hr |- *; done).
  - rewrite run_loop_0 in Hr. done.
  - rewrite run_loop in Hr. cbn [Nat.add]. rewrite run_loop.
    specialize (IHn _ _ _ _ _ h Hr Ho). rewrite bind_assoc in IHn.
    rewrite <- IHn. f_equal. f_equal. apply functional_extensionality.
    by intros [x'|d].
Qed.

Lemma run_bind_panic n {A B} t (p : prog S A) (f : A -> prog S B) w w' :
  run n t p w = Panicked w' -> run n t (bind p f) w = Panicked w'.
Proof.
  revert A p w w' f. induction n as [|n IHn]; intros A p.
  all: induction p as [A a|A|A D g k IH|A k IH|A nm st c _ k IH|A u k IH|A X D b IHb x k IH];
    intros w w' h Hr; cbn [bind].
  all: try (rewrite run_ret in Hr; done).
  all: try (rewrite run_panic in Hr |- *; by simplify_eq).
  all: try (rewrite run_act in Hr |- *; destruct (g t (w_state w)) as [[b s']|]; [by eauto|done]).
  all: try (rewrite run_choose in Hr |- *; by eauto).
  all: try (rewrite run_spawn in Hr |- *; by eauto).
  all: try (rewrite run_join in Hr |- *; done).
  - rewrite run_loop_0 in Hr. done.
  - rewrite run_loop in Hr |- *.
    specialize (IHn _ _ _ _ h Hr). rewrite bind_assoc in IHn.
    rewrite <- IHn. f_equal. f_equal. apply functional_extensionality.
    by intros [x'|d].
Qed.

(** A sequence that returned: its prefix returned, then its continuation. *)
Lemma run_bind_inv n {A B} t (p : prog S A) (f : A -> prog S B) w b w2 :
  run n t (bind p f) w = Returned b w2 ->
  exists a w1 m, run n t p w = Returned a w1 /\ run m t (f a) w1 = Returned b w2.
Proof.
  revert A p w f. induction n as [|n IHn]; intros A p.
  all: induction p as [A a|A|A D g k IH|A k IH|A nm st c _ k IH|A u k IH|A X D body IHb x k IH];
    intros w h Hr; cbn [bind] in Hr.
  all: try (exists a, w; eexists; split; [apply run_ret|exact Hr]).
  all: try (rewrite run_panic in Hr; done).
  all: try (rewrite run_act in Hr |- *; destruct (g t (w_state w)) as [[d s']|]; [by eauto|done]).
  all: try (rewrite run_choose in Hr |- *; by eauto).
  all: try (rewrite run_spawn in Hr |- *; by eauto).
  all: try (rewrite run_join in Hr; done).
  - done.
  - rewrite run_loop in Hr |- *. apply IHn with (f := h). rewrite bind_assoc, <- Hr. f_equal. f_equal.
    apply functional_extensionality. by intros [x'|d].
Qed.

(** What [catch_unwind] makes of an outcome. *)
Definition caught {A} (o : outcome S A) : outcome S (option A) :=
  match o with
  | Returned a w => Returned (Some a) w
  | Panicked w => Returned None w
  | Blocked w => Blocked w
  | OutOfFuel => OutOfFuel
  end.

Lemma run_catch n {A} t (p : prog S A) w :
  run n t (catch_unwind p) w = caught (run n t p w).
Proof.
  revert A p w. induction n as [|n IHn]; intros A p.
  all: induction p as [A a|A|A D g k IH|A k IH|A nm st c _ k IH|A u k IH|A X D b IHb x k IH];
    intros w; cbn [catch_unwind].
  all: try (rewrite !run_ret; done); try (rewrite run_ret, run_panic; done).
  all: try (rewrite !run_act; destruct (g t (w_state w)) as [[b s']|]; [by eauto|done]).
  all: try (rewrite !run_choose; by eauto).
  all: try (rewrite !run_spawn; by eauto).
  all: try (rewrite !run_join; done).
  - done.
  - rewrite !run_loop, <- IHn, catch_bind, bind_assoc. f_equal. f_equal.
    apply functional_extensionality. by intros [[x'|d]|].
Qed.
End run_facts.
