(* ===== verification/Conc.v ===== *)
(** Interleaving semantics of several threads running [prog] code over one
    shared state, and the program logic used to prove invariants of it: each
    thread carries a ghost contribution ("token") of type [T]; the invariant
    relates the history of past states, the current state and all tokens. *)
From S2P Require Import Prelude Prog.

(** ** Configurations and steps *)

Record config (S : Type) : Type := Config {
  threads : list (prog S unit);
  shared : S;
}.
Arguments Config {S} threads shared.
Arguments threads {S} c.
Arguments shared {S} c.

Definition finished {S A} (p : prog S A) : bool :=
  match p with Ret _ | Panic => true | _ => false end.

(** One step of thread [t]; [b] answers a [Choose]. [None]: cannot step. *)
Definition step_prog {S A} (ths : list (prog S unit)) (t : nat) (b : bool)
    (p : prog S A) (s : S) : option (prog S A * S * list (prog S unit)) :=
  match p with
  | Ret _ | Panic => None
  | Act f k =>
      match f t s with
      | None => None
      | Some (a, s') => Some (k a, s', [])
      end
  | Choose k => Some (k b, s, [])
  | Spawn _ _ c k => Some (k (length ths), s, [c])
  | Join u k =>
      match ths !! u with
      | Some q => if finished q then Some (k, s, []) else None
      | None => None
      end
  | Loop body x k =>
      Some (bind (body x) (fun r => match r with
                                    | inl x' => Loop body x' k
                                    | inr y => k y
                                    end), s, [])
  end.

(** A scheduler event: the thread that moves and the environment's answer. *)
Definition cstep {S} (ev : nat * bool) (c : config S) : option (config S) :=
  match threads c !! ev.1 with
  | None => None
  | Some p =>
      match step_prog (threads c) ev.1 ev.2 p (shared c) with
      | None => None
      | Some (p', s', new) => Some (Config (<[ev.1 := p']> (threads c) ++ new) s')
      end
  end.

(** A run under a schedule; the history lists past states, latest first. *)
Fixpoint exec {S} (sched : list (nat * bool)) (h : list S) (c : config S) :
    option (list S * config S) :=
  match sched with
  | [] => Some (h, c)
  | ev :: sched =>
      match cstep ev c with
      | None => None
      | Some c' => exec sched (shared c :: h) c'
      end
  end.

(** [steps h c h' c']: [c'] is reachable from [c] by some schedule. *)
Definition steps {S} (h : list S) (c : config S) (h' : list S) (c' : config S) : Prop :=
  exists sched, exec sched h c = Some (h', c').

(** No thread can move, whatever the environment answers. *)
Definition stuck {S} (c : config S) : Prop := forall ev, cstep ev c = None.

Definition stuckb {S} (c : config S) : bool :=
  forallb (fun i => forallb (fun b => match cstep (i, b) c with None => true | Some _ => false end)
                      [true; false]) (seq 0 (length (threads c))).

Lemma stuckb_stuck {S} (c : config S) : stuckb c = true -> stuck c.
Proof.
  intros Hs [i b]. destruct (decide (i < length (threads c))) as [Hi|Hi].
  - unfold stuckb in Hs. rewrite forallb_forall in Hs. specialize (Hs i).
    rewrite forallb_forall in Hs. assert (In i (seq 0 (length (threads c)))) as Hin by (apply in_seq; lia).
    specialize (Hs Hin b). destruct (cstep (i, b) c); [|done].
    assert (In b [true; false]) as Hb by (destruct b; cbn; auto). by apply Hs in Hb.
  - unfold cstep. cbn. rewrite lookup_ge_None_2 by lia. done.
Qed.

(** A thread of [c] that ended by an uncaught panic. *)
Definition panicked {S} (c : config S) (i : nat) : Prop :=
  threads c !! i = Some Panic.

(** ** The program logic *)

(** The number of steps any run considered here may take: no counter that
    moves by one per step can wrap before. *)
Definition STEP_BOUND : Z := 2 ^ 62.

Definition in_time {S} (h : list S) : Prop := (Z.of_nat (length h) < STEP_BOUND)%Z.

Section logic.
Context {S T : Type}.
(** When a thread may be unable to move: [Blk t s g] at an action of thread [t]
    in state [s] holding [g], [JB u g] at a join of thread [u]. *)
Variables (Blk : nat -> S -> T -> Prop) (JB : nat -> T -> Prop).
Variable I : list S -> S -> list T -> Prop.
(** Tokens a thread may hold when it has ended, normally or by a panic. *)
Variables (Fin FinP : T -> Prop).

Fixpoint wp (n : nat) (t : nat) {A} (p : prog S A) (g : T)
    (Q : A -> T -> Prop) (E : T -> Prop) {struct n} : Prop :=
  match n with
  | 0 => True
  | Datatypes.S n =>
      match p with
      | Ret a => Q a g
      | Panic => E g
      | Act f k =>
          forall h s G, in_time h -> I h s G -> G !! t = Some g ->
          match f t s with
          | None => Blk t s g
          | Some (a, s') =>
              exists g', I (s :: h) s' (<[t := g']> G) /\ wp n t (k a) g' Q E
          end
      | Choose k => forall b, wp n t (k b) g Q E
      | Spawn _ _ c k =>
          forall h s G, in_time h -> I h s G -> G !! t = Some g ->
          exists g' gc, I (s :: h) s (<[t := g']> G ++ [gc]) /\
            wp n (length G) c gc (fun _ => Fin) FinP /\
            wp n t (k (length G)) g' Q E
      | Join u k => JB u g /\ wp n t k g Q E
      | Loop body x k =>
          wp n t (bind (body x) (fun r => match r with
                                          | inl x' => Loop body x' k
                                          | inr y => k y
                                          end)) g Q E
      end
  end.

Definition WPB (t : nat) {A} (p : prog S A) (g : T) (Q : A -> T -> Prop) (E : T -> Prop) : Prop :=
  forall n, wp n t p g Q E.

(** An invariant that stuttering steps keep. *)
Class Stutter : Prop := stutter : forall h s G, in_time h -> I h s G -> I (s :: h) s G.

(** A configuration all of whose threads are verified for [n] more steps;
    thread [i] is to end with [post i], threads to come with [Fin]. *)
Definition safeB (post : nat -> T -> Prop) (n : nat) (h : list S) (c : config S) (G : list T) : Prop :=
  I h (shared c) G /\ length G = length (threads c) /\
  (forall i, length (threads c) <= i -> post i = Fin) /\
  forall i p g, threads c !! i = Some p -> G !! i = Some g ->
    wp n i p g (fun _ => post i) FinP.
End logic.

Arguments Stutter {S T} I.

(** The logic without a claim about blocked threads. *)
Definition may_block {S T} : nat -> S -> T -> Prop := fun _ _ _ => True.
Definition may_join {T} : nat -> T -> Prop := fun _ _ => True.
Abbreviation WP := (WPB may_block may_join).
Abbreviation safe := (safeB may_block may_join).

(** Closes a goal that differs from [H] in the continuation of a [bind]. *)
Ltac same_continuation H :=
  match type of H with
  | context [bind _ ?h1] =>
      match goal with
      | |- context [bind _ ?h2] =>
          replace h2 with h1; [exact H|apply FunctionalExtensionality.functional_extensionality]
      end
  end.

(** ** Rules *)

Lemma exec_length {S} sched (h : list S) c h' c' :
  exec sched h c = Some (h', c') -> length h' = length h + length sched.
Proof.
  revert h c. induction sched as [|ev sched IH]; intros h c He; cbn in He.
  - simplify_eq. cbn. lia.
  - destruct (cstep ev c); [|done]. apply IH in He. cbn in He |- *. lia.
Qed.

Lemma exec_extends {S} sched (h : list S) c h' c' :
  exec sched h c = Some (h', c') ->
  exists pre, shared c' :: h' = pre ++ shared c :: h /\ length pre = length sched.
Proof.
  revert h c. induction sched as [|ev sched IH]; intros h c He; cbn in He.
  - simplify_eq. by exists [].
  - destruct (cstep ev c) as [c1|]; [|done]. destruct (IH _ _ He) as (pre & Hpre & Hlen).
    exists (pre ++ [shared c1]). rewrite <- app_assoc. split; [exact Hpre|].
    rewrite length_app, Hlen. cbn. lia.
Qed.

Section rules.
Context {S T : Type} {Blk : nat -> S -> T -> Prop} {JB : nat -> T -> Prop}.
Variable I : list S -> S -> list T -> Prop.
Variables (Fin FinP : T -> Prop).
Local Abbreviation wp := (wp Blk JB I Fin FinP).
Local Abbreviation WP := (WPB Blk JB I Fin FinP).
Local Abbreviation safe := (safeB Blk JB I Fin FinP).

Lemma wp_mono n m t {A} (p : prog S A) g (Q Q' : A -> T -> Prop) (E E' : T -> Prop) :
  wp n t p g Q E -> m <= n ->
  (forall a g', Q a g' -> Q' a g') -> (forall g', E g' -> E' g') ->
  wp m t p g Q' E'.
Proof.
  revert m t A p g Q Q' E E'. induction n as [|n IH]; intros m t A p g Q Q' E E' H Hle HQ HE.
  { by replace m with 0 by lia. }
  destruct m as [|m]; [done|]. assert (m <= n) by lia.
  destruct p; cbn in H |- *; eauto.
  - intros h s G Ht HI Hg. specialize (H h s G Ht HI Hg).
    destruct (f t s) as [[a s']|]; [|done]. destruct H as (g' & ? & ?). eauto 10.
  - intros h s G Ht HI Hg. destruct (H h s G Ht HI Hg) as (g' & gc & ? & ? & ?).
    exists g', gc. eauto 10.
  - destruct H. eauto.
Qed.

Lemma WP_mono t {A} (p : prog S A) g (Q Q' : A -> T -> Prop) (E E' : T -> Prop) :
  WP t p g Q E ->
  (forall a g', Q a g' -> Q' a g') -> (forall g', E g' -> E' g') ->
  WP t p g Q' E'.
Proof. intros H ?? n. eapply wp_mono; eauto. Qed.

Lemma WP_ret t {A} (a : A) g (Q : A -> T -> Prop) E : Q a g -> WP t (Ret a) g Q E.
Proof. by intros H [|n]. Qed.

Lemma WP_panic t {A} g (Q : A -> T -> Prop) (E : T -> Prop) : E g -> WP t Panic g Q E.
Proof. by intros H [|n]. Qed.

Lemma WP_act t {A B} (f : nat -> S -> option (B * S)) (k : B -> prog S A) g Q E :
  (forall h s G, in_time h -> I h s G -> G !! t = Some g ->
     match f t s with
     | None => Blk t s g
     | Some (b, s') => exists g', I (s :: h) s' (<[t := g']> G) /\ WP t (k b) g' Q E
     end) ->
  WP t (Act f k) g Q E.
Proof.
  intros H [|n]; cbn; [done|]. intros h s G Ht HI Hg. specialize (H h s G Ht HI Hg).
  destruct (f t s) as [[b s']|]; [|done]. destruct H as (g' & ? & Hk). eauto.
Qed.

Lemma WP_choose t {A} (k : bool -> prog S A) g Q E :
  (forall b, WP t (k b) g Q E) -> WP t (Choose k) g Q E.
Proof. intros H [|n]; cbn; [done|]. intros b. apply H. Qed.

Lemma WP_join t u {A} (k : prog S A) g Q E : JB u g -> WP t k g Q E -> WP t (Join u k) g Q E.
Proof. intros HJ H [|n]; cbn; [done|]. split; [exact HJ|apply H]. Qed.

Lemma WP_spawn t {A} nm st c (k : nat -> prog S A) g Q E :
  (forall h s G, in_time h -> I h s G -> G !! t = Some g ->
     exists g' gc, I (s :: h) s (<[t := g']> G ++ [gc]) /\
       WP (length G) c gc (fun _ => Fin) FinP /\ WP t (k (length G)) g' Q E) ->
  WP t (Spawn nm st c k) g Q E.
Proof.
  intros H [|n]; cbn; [done|]. intros h s G Ht HI Hg.
  destruct (H h s G Ht HI Hg) as (g' & gc & ? & ? & ?). exists g', gc. eauto.
Qed.

Lemma wp_bind n t {A B} (p : prog S A) (f : A -> prog S B) g Q E :
  wp n t p g (fun a g' => wp n t (f a) g' Q E) E -> wp n t (bind p f) g Q E.
Proof.
  revert A p f g. induction n as [|n IH]; intros A p f g H; [done|].
  assert (Hw : forall (p' : prog S A) g', wp n t p' g' (fun a g' => wp (Datatypes.S n) t (f a) g' Q E) E ->
    wp n t (bind p' f) g' Q E).
  { intros p' g' H'. apply IH. eapply wp_mono; [exact H'|lia| |done].
    intros a g2 H2. eapply wp_mono; [exact H2|lia|done|done]. }
  destruct p; cbn [bind]; try exact H.
  - cbn in H |- *. intros h s G Ht HI Hg. specialize (H h s G Ht HI Hg).
    destruct (f0 t s) as [[b s']|]; [|done]. destruct H as (g' & ? & ?). eauto.
  - cbn in H |- *. eauto.
  - cbn in H |- *. intros h s G Ht HI Hg. destruct (H h s G Ht HI Hg) as (g' & gc & ? & ? & ?).
    exists g', gc. eauto.
  - cbn in H |- *. destruct H. eauto.
  - cbn in H |- *. apply Hw in H. rewrite bind_assoc in H.
    same_continuation H. by intros [x'|y].
Qed.

Lemma WP_bind t {A B} (p : prog S A) (f : A -> prog S B) g Q E :
  WP t p g (fun a g' => WP t (f a) g' Q E) E -> WP t (bind p f) g Q E.
Proof.
  intros H n. apply wp_bind. eapply wp_mono; [apply (H n)|lia| |done].
  intros a g' Ha. apply Ha.
Qed.

Lemma WP_loop t {X A B} (body : X -> prog S (X + B)) x (k : B -> prog S A) g
    (J : X -> T -> Prop) Q E :
  (forall x g, J x g ->
     WP t (body x) g (fun r g' => match r with
                                  | inl x' => J x' g'
                                  | inr b => WP t (k b) g' Q E
                                  end) E) ->
  J x g -> WP t (Loop body x k) g Q E.
Proof.
  intros Hb HJ n. revert x g HJ. induction n as [|n IH]; intros x g HJ; cbn; [done|].
  apply wp_bind. eapply wp_mono; [apply (Hb x g HJ n)|lia| |done].
  intros [x'|b] g' Hr; [by apply IH|apply Hr].
Qed.

Lemma wp_catch n t {A} (p : prog S A) g (Q : option A -> T -> Prop) E :
  wp n t p g (fun a g' => Q (Some a) g') (fun g' => Q None g') ->
  wp n t (catch_unwind p) g Q E.
Proof.
  revert A p g Q. induction n as [|n IH]; intros A p g Q H; [done|].
  destruct p; cbn [catch_unwind]; try exact H.
  - cbn in H |- *. intros h s G Ht HI Hg. specialize (H h s G Ht HI Hg).
    destruct (f t s) as [[b s']|]; [|done]. destruct H as (g' & ? & ?). eauto.
  - cbn in H |- *. eauto.
  - cbn in H |- *. intros h s G Ht HI Hg. destruct (H h s G Ht HI Hg) as (g' & gc & ? & ? & ?).
    exists g', gc. eauto.
  - cbn in H |- *. destruct H. eauto.
  - cbn in H |- *. apply IH in H. rewrite catch_bind in H. rewrite bind_assoc.
    same_continuation H. by intros [[x'|y]|].
Qed.

Lemma WP_catch t {A} (p : prog S A) g (Q : option A -> T -> Prop) E :
  WP t p g (fun a g' => Q (Some a) g') (fun g' => Q None g') ->
  WP t (catch_unwind p) g Q E.
Proof. intros H n. by apply wp_catch. Qed.

Lemma WP_finally t {A} (p : prog S A) fin g (Q : A -> T -> Prop) (E : T -> Prop) :
  WP t p g (fun a g1 => WP t fin g1 (fun _ g2 => Q a g2) E)
           (fun g1 => WP t fin g1 (fun _ g2 => E g2) E) ->
  WP t (finally p fin) g Q E.
Proof.
  intros H. apply WP_bind, WP_catch. eapply WP_mono; [exact H|..].
  - intros a g1 H1. apply WP_bind. eapply WP_mono; [exact H1| |done].
    intros ? g2 H2. by apply WP_ret.
  - intros g1 H1. apply WP_bind. eapply WP_mono; [exact H1| |done].
    intros ? g2 H2. by apply WP_panic.
Qed.

Lemma WP_on_unwind t {A} (p : prog S A) fin g (Q : A -> T -> Prop) (E : T -> Prop) :
  WP t p g Q (fun g1 => WP t fin g1 (fun _ g2 => E g2) E) ->
  WP t (on_unwind p fin) g Q E.
Proof.
  intros H. apply WP_bind, WP_catch. eapply WP_mono; [exact H|..].
  - intros a g1 H1. by apply WP_ret.
  - intros g1 H1. apply WP_bind. eapply WP_mono; [exact H1| |done].
    intros ? g2 H2. by apply WP_panic.
Qed.

Lemma WP_for_each t {X} (xs : list X) (f : X -> prog S unit)
    (J : list X -> T -> Prop) (E : T -> Prop) g (Q : unit -> T -> Prop) :
  (forall x xs g, J (x :: xs) g -> WP t (f x) g (fun _ g' => J xs g') E) ->
  (forall g, J [] g -> Q tt g) ->
  J xs g -> WP t (for_each xs f) g Q E.
Proof.
  intros Hf HQ. revert g. induction xs as [|x xs IH]; intros g HJ; cbn.
  - by apply WP_ret, HQ.
  - apply WP_bind. eapply WP_mono; [apply Hf; exact HJ| |done]. intros ? g' ?. by apply IH.
Qed.

Lemma WP_when k (b : bool) (p : prog S unit) (g : T) (Q' : unit -> T -> Prop) E :
  Q' tt g -> WP k p g Q' E -> WP k (when b p) g Q' E.
Proof. intros HQ Hp. destruct b; [done|by apply WP_ret]. Qed.

Lemma WP_andp k (p1 p2 : prog S bool) (g : T) (Q' : bool -> T -> Prop) E :
  WP k p1 g (fun b g' => if b then WP k p2 g' Q' E else Q' false g') E -> WP k (andp p1 p2) g Q' E.
Proof.
  intros Hp. apply WP_bind. eapply WP_mono; [exact Hp| |done]. intros [] g' Hg'; [done|by apply WP_ret].
Qed.

Lemma WP_orp k (p1 p2 : prog S bool) (g : T) (Q' : bool -> T -> Prop) E :
  WP k p1 g (fun b g' => if b then Q' true g' else WP k p2 g' Q' E) E -> WP k (orp p1 p2) g Q' E.
Proof.
  intros Hp. apply WP_bind. eapply WP_mono; [exact Hp| |done]. intros [] g' Hg'; [by apply WP_ret|done].
Qed.

(** *** Adequacy: one step, then any schedule *)

Context `{!Stutter I}.

Lemma safe_step post n h c G ev c' :
  safe post (Datatypes.S n) h c G -> in_time h -> cstep ev c = Some c' ->
  exists G', safe post n (shared c :: h) c' G'.
Proof.
  intros (HI & Hlen & Hpost & Hth) Ht Hstep. unfold cstep in Hstep. destruct ev as [t b]; cbn in Hstep.
  destruct (threads c !! t) as [p|] eqn:Hp; [|done].
  assert (exists g, G !! t = Some g) as [g Hg].
  { apply lookup_lt_is_Some_2. rewrite Hlen. by eapply lookup_lt_Some. }
  pose proof (Hth t p g Hp Hg) as Hwp.
  assert (Hrest : forall G' p' g' s', I (shared c :: h) s' G' -> G' = <[t := g']> G ->
    wp n t p' g' (fun _ => post t) FinP ->
    exists G', safe post n (shared c :: h) (Config (<[t := p']> (threads c) ++ []) s') G').
  { intros G' p' g' s' HI' -> Hwp'. exists (<[t := g']> G). split; [done|]. cbn.
    rewrite app_nil_r. split; [by rewrite !length_insert|].
    split; [by rewrite length_insert|]. intros i q gi Hq Hgi.
    destruct (decide (i = t)) as [->|Hne].
    - rewrite list_lookup_insert_eq in Hq by (by eapply lookup_lt_Some).
      rewrite list_lookup_insert_eq in Hgi by (by eapply lookup_lt_Some). by simplify_eq.
    - rewrite list_lookup_insert_ne in Hq by done. rewrite list_lookup_insert_ne in Hgi by done.
      eapply wp_mono; [exact (Hth i _ _ Hq Hgi)|lia|done|done]. }
  assert (Hself : <[t := g]> G = G) by (by apply list_insert_id).
  destruct p as [a| |B f k|k|nm st child k|u k|X B body x k]; cbn in Hstep, Hwp.
  - done.
  - done.
  - specialize (Hwp h (shared c) G Ht HI Hg).
    destruct (f t (shared c)) as [[a s']|]; simplify_eq.
    destruct Hwp as (g' & HI' & Hk). eauto.
  - simplify_eq. eapply (Hrest G _ g); [by apply stutter|done|apply Hwp].
  - simplify_eq. destruct (Hwp h (shared c) G Ht HI Hg) as (g' & gc & HI' & Hc & Hk).
    exists (<[t := g']> G ++ [gc]). split; [done|]. cbn.
    split; [by rewrite !length_app, !length_insert, Hlen|].
    split; [intros i Hi; apply Hpost; rewrite length_app, length_insert in Hi; lia|].
    intros i q gi Hq Hgi. rewrite <- Hlen in Hq.
    destruct (decide (i = length G)) as [->|Hne].
    + rewrite lookup_app_r in Hq by (rewrite length_insert; lia).
      rewrite lookup_app_r in Hgi by (rewrite length_insert; lia).
      rewrite length_insert, Hlen, Nat.sub_diag in Hq. 
      rewrite length_insert, Nat.sub_diag in Hgi. cbn in Hq, Hgi. simplify_eq.
      rewrite Hpost by lia. done.
    + assert (i < length G).
      { apply lookup_lt_Some in Hgi. rewrite length_app, length_insert in Hgi. cbn in Hgi. lia. }
      rewrite lookup_app_l in Hq by (rewrite length_insert; lia).
      rewrite lookup_app_l in Hgi by (rewrite length_insert; lia).
      destruct (decide (i = t)) as [->|Hne'].
      * rewrite list_lookup_insert_eq in Hq by (by eapply lookup_lt_Some).
        rewrite list_lookup_insert_eq in Hgi by lia. simplify_eq. done.
      * rewrite list_lookup_insert_ne in Hq by done. rewrite list_lookup_insert_ne in Hgi by done.
        eapply wp_mono; [exact (Hth i _ _ Hq Hgi)|lia|done|done].
  - destruct (threads c !! u) as [q|]; [|done]. destruct (finished q); simplify_eq.
    eapply (Hrest G _ g); [by apply stutter|done|apply Hwp].
  - simplify_eq. eapply (Hrest G _ g); [by apply stutter|done|apply Hwp].
Qed.

(** Every reachable configuration satisfies the invariant, its ended threads
    hold what [Fin] and [FinP] allow, and it stays verified. *)
Lemma safe_exec post sched n h c G h' c' :
  safe post (length sched + n) h c G ->
  exec sched h c = Some (h', c') -> in_time h' ->
  exists G', safe post n h' c' G'.
Proof.
  revert h c G. induction sched as [|ev sched IH]; intros h c G Hs He Ht; cbn in He.
  - simplify_eq. by exists G.
  - destruct (cstep ev c) as [c1|] eqn:Hc; [|done].
    assert (in_time h) as Hth.
    { apply exec_length in He. unfold in_time in *. cbn in He. lia. }
    destruct (safe_step _ _ _ _ _ _ _ Hs Hth Hc) as [G1 HG1]. by eapply IH.
Qed.

Lemma safe_init h s G ps :
  I h s G -> Forall2 (fun p g => forall t, WP t p g (fun _ => Fin) FinP) ps G ->
  forall n, safe (fun _ => Fin) n h (Config ps s) G.
Proof.
  intros HI HF n. split; [done|]. split; [symmetry; exact (Forall2_length _ _ _ HF)|].
  split; [done|]. intros i p g Hp Hg. by apply (Forall2_lookup_lr _ _ _ _ _ _ HF Hp Hg).
Qed.

(** An ended thread holds what it was to end with, and none ends by a panic
    when nothing may. *)
Lemma safe_returned post n h c G i g :
  safe post (Datatypes.S n) h c G -> threads c !! i = Some (Ret tt) ->
  G !! i = Some g -> post i g.
Proof. intros (_ & _ & _ & Hth) Hp Hg. exact (Hth i _ _ Hp Hg). Qed.

Lemma safe_not_panicked post n h c G i :
  safe post (Datatypes.S n) h c G -> (forall g, ~ FinP g) -> ~ panicked c i.
Proof.
  intros (_ & Hlen & _ & Hth) HF Hp.
  assert (exists g, G !! i = Some g) as [g Hg].
  { apply lookup_lt_is_Some_2. rewrite Hlen. by eapply lookup_lt_Some. }
  exact (HF g (Hth i _ _ Hp Hg)).
Qed.

(** When nobody can move, every thread has ended or is blocked as allowed. *)
Lemma safe_stuck post n h c G i p g :
  safe post (Datatypes.S n) h c G -> in_time h -> stuck c ->
  threads c !! i = Some p -> G !! i = Some g ->
  (p = Ret tt /\ post i g) \/ (p = Panic /\ FinP g) \/ Blk i (shared c) g \/
  exists u, JB u g /\ forall q, threads c !! u = Some q -> finished q = false.
Proof.
  intros (HI & _ & _ & Hth) Ht Hst Hp Hg. pose proof (Hth i p g Hp Hg) as Hw.
  pose proof (Hst (i, true)) as Hs. unfold cstep in Hs. cbn in Hs. rewrite Hp in Hs.
  destruct p as [[]| |B f k|k|nm st child k|u k|X B body x k]; cbn in Hw, Hs; try discriminate Hs; auto.
  - specialize (Hw h (shared c) G Ht HI Hg). destruct (f i (shared c)) as [[a s']|]; [discriminate Hs|auto].
  - right; right; right. exists u. split; [apply Hw|]. intros q Hq. rewrite Hq in Hs.
    by destruct (finished q).
Qed.

(** A further thread joins a verified configuration. *)
Lemma safe_add post n h c G p g (Q : T -> Prop) :
  safe post n h c G -> I h (shared c) (G ++ [g]) ->
  (forall t, WP t p g (fun _ => Q) FinP) ->
  safe (fun i => if decide (i = length (threads c)) then Q else post i) n h
    (Config (threads c ++ [p]) (shared c)) (G ++ [g]).
Proof.
  intros (HI & Hlen & Hpost & Hth) HI' Hp. split; [done|].
  split; [cbn; rewrite !length_app, Hlen; done|]. split.
  - intros i Hi. cbn in Hi. rewrite length_app in Hi. cbn in Hi.
    rewrite decide_False by lia. apply Hpost. lia.
  - intros i q gi Hq Hgi. cbn in Hq. destruct (decide (i = length (threads c))) as [->|Hne].
    + rewrite lookup_app_r in Hq by lia. rewrite lookup_app_r in Hgi by lia.
      rewrite Hlen in Hgi. rewrite Nat.sub_diag in Hq, Hgi. cbn in Hq, Hgi. simplify_eq. apply Hp.
    + assert (i < length (threads c)).
      { apply lookup_lt_Some in Hq. rewrite length_app in Hq. cbn in Hq. lia. }
      rewrite lookup_app_l in Hq by lia. rewrite lookup_app_l in Hgi by lia. by apply (Hth i).
Qed.
End rules.
