(* ===== verification/Sync.v ===== *)
(** Shared-memory primitives of the standard library (atomics, mutexes,
    condition variables) as actions, and the interfaces of the third-party
    pieces the pools are built on: the monitor of [qubit_lock] and the
    injector queue of [crossbeam_deque].  Operations take the lens of the
    field they work on, called [self] in the components. *)
From S2P Require Import Prelude Prog.

(** ** Atomics

    Each access is one indivisible action (sequentially consistent
    interleaving; the weaker orderings of the source are not modelled). *)
Section atomics.
Context {S : Type}.

Definition load {A} (l : lens S A) : prog S A :=
  Act (fun _ s => Some (get l s, s)) Ret.

Definition store {A} (l : lens S A) (v : A) : prog S unit :=
  Act (fun _ s => Some (tt, set l v s)) Ret.

(** A read-modify-write that returns the previous value. *)
Definition fetch_modify {A} (l : lens S A) (f : A -> A) : prog S A :=
  Act (fun _ s => Some (get l s, set l (f (get l s)) s)) Ret.

Definition fetch_add (l : lens S Z) (n : Z) : prog S Z :=
  fetch_modify l (fun v => wrap (v + n)).
Definition fetch_sub (l : lens S Z) (n : Z) : prog S Z :=
  fetch_modify l (fun v => wrap (v - n)).
Definition fetch_or (l : lens S Z) (n : Z) : prog S Z :=
  fetch_modify l (fun v => Z.lor v n).

Definition fetch_update (l : lens S Z) (f : Z -> option Z) : prog S (Result Z Z) :=
  Act (fun _ s => match f (get l s) with
                  | Some v => Some (Ok (get l s), set l v s)
                  | None => Some (Err (get l s), s)
                  end) Ret.

(** [compare_exchange_weak]: may fail although the comparison holds. *)
Definition compare_exchange_weak (l : lens S Z) (current new : Z) : prog S (Result Z Z) :=
  genuine <- choose ;;
  Act (fun _ s => if (genuine : bool) && (get l s =? current)%Z
                  then Some (Ok (get l s), set l new s)
                  else Some (Err (get l s), s)) Ret.
End atomics.

(** ** Data behind a lock the thread holds

    Nobody else accesses it meanwhile, so one statement is one action. *)
Section guarded.
Context {S : Type}.

(** [*l += 1] with overflow checks *)
Definition guarded_incr (l : lens S Z) : prog S unit :=
  ok <- Act (fun _ s => match checked_add (get l s) 1 with
                        | Some v => Some (true, set l v s)
                        | None => Some (false, s)
                        end) Ret ;;
  assert ok.

(** [*l = l.checked_sub(1).expect(..)] *)
Definition guarded_decr (l : lens S Z) : prog S unit :=
  ok <- Act (fun _ s => match checked_sub (get l s) 1 with
                        | Some v => Some (true, set l v s)
                        | None => Some (false, s)
                        end) Ret ;;
  assert ok.
End guarded.

(** ** [std::sync::Mutex]

    A poisoned mutex is recovered by [PoisonError::into_inner] at every use,
    so only the owner and the data matter. *)
Record Mutex (A : Type) : Type := MkMutex {
  mutex_owner : option nat;
  mutex_data : A;
}.
Arguments MkMutex {A} mutex_owner mutex_data.
Arguments mutex_owner {A} m.
Arguments mutex_data {A} m.

Definition mutex_new {A} (a : A) : Mutex A := MkMutex None a.

Definition mutex_data_l {A} : lens (Mutex A) A :=
  Lens mutex_data (fun a m => MkMutex (mutex_owner m) a).

Section mutex.
Context {S A : Type}.
Variable self : lens S (Mutex A).

Definition mutex_lock : prog S unit :=
  Act (fun t s => match mutex_owner (get self s) with
                  | None => Some (tt, set self (MkMutex (Some t) (mutex_data (get self s))) s)
                  | Some _ => None
                  end) Ret.

Definition mutex_unlock : prog S unit :=
  Act (fun t s => Some (tt, set self (MkMutex None (mutex_data (get self s))) s)) Ret.

(** A block that owns the guard. *)
Definition with_mutex {B} (body : prog S B) : prog S B :=
  mutex_lock ;; finally body mutex_unlock.
End mutex.

(** ** [qubit_lock::ParkingLotMonitor]: a lock with one wait queue

    The type [M] of the lock and its queue is a parameter; the operations are
    the ones the pools call. *)
Class Monitor (M : Type) : Type := {
  mon_new : M;
  mon_owner : M -> option nat;
  (** thread is in the wait queue and nobody has notified it yet *)
  mon_asleep : M -> nat -> bool;
  mon_try_lock : nat -> M -> option M;
  mon_unlock : nat -> M -> M;
  (** [wait]: release the lock and enter the wait queue, in one step *)
  mon_park : nat -> M -> M;
  (** leave [wait] after a notification, holding the lock again *)
  mon_resume : nat -> M -> option M;
  (** leave [wait_for] because its timer fired, holding the lock again *)
  mon_expire : nat -> M -> option M;
  (** whether [wait_for] can register its timer *)
  mon_timer : M -> bool;
  mon_notify_all : M -> M;
}.

(** What the pools rely on. *)
Class MonitorLaws (M : Type) `{Monitor M} : Prop := {
  mon_new_free : mon_owner mon_new = None;
  mon_new_awake : forall t, mon_asleep mon_new t = false;
  mon_lock_some : forall t m m', mon_try_lock t m = Some m' ->
    mon_owner m = None /\ mon_owner m' = Some t /\ (forall u, mon_asleep m' u = mon_asleep m u);
  mon_lock_free : forall t m, mon_owner m = None -> is_Some (mon_try_lock t m);
  mon_unlock_free : forall t m, mon_owner m = Some t ->
    mon_owner (mon_unlock t m) = None /\ (forall u, mon_asleep (mon_unlock t m) u = mon_asleep m u);
  mon_park_asleep : forall t m, mon_owner m = Some t ->
    mon_owner (mon_park t m) = None /\ mon_asleep (mon_park t m) t = true /\
    (forall u, u <> t -> mon_asleep (mon_park t m) u = mon_asleep m u);
  mon_resume_some : forall t m m', mon_resume t m = Some m' ->
    mon_owner m = None /\ mon_owner m' = Some t /\ mon_asleep m' t = false /\
    (forall u, u <> t -> mon_asleep m' u = mon_asleep m u);
  mon_resume_free : forall t m, mon_owner m = None -> mon_asleep m t = false -> is_Some (mon_resume t m);
  mon_expire_some : forall t m m', mon_expire t m = Some m' ->
    mon_owner m = None /\ mon_owner m' = Some t /\ mon_asleep m' t = false /\
    (forall u, u <> t -> mon_asleep m' u = mon_asleep m u);
  mon_expire_free : forall t m, mon_owner m = None -> is_Some (mon_expire t m);
  mon_timer_registers : forall m, mon_timer m = true;
  mon_notify_wakes : forall m t, mon_asleep (mon_notify_all m) t = false;
  mon_notify_owner : forall m, mon_owner (mon_notify_all m) = mon_owner m;
}.

Record ParkingLotMonitor (M A : Type) : Type := MkMonitor {
  mon_sync : M;
  mon_data : A;
}.
Arguments MkMonitor {M A} mon_sync mon_data.
Arguments mon_sync {M A} p.
Arguments mon_data {M A} p.

Definition mon_sync_l {M A} : lens (ParkingLotMonitor M A) M :=
  Lens mon_sync (fun x m => MkMonitor x (mon_data m)).
Definition mon_data_l {M A} : lens (ParkingLotMonitor M A) A :=
  Lens mon_data (fun x m => MkMonitor (mon_sync m) x).

Definition monitor_new {M A} `{Monitor M} (a : A) : ParkingLotMonitor M A :=
  MkMonitor mon_new a.

Section monitor.
Context {S M A : Type} `{Monitor M}.
Variable self : lens S (ParkingLotMonitor M A).

Definition mon_try (f : nat -> M -> option M) : prog S unit :=
  Act (fun t s => match f t (mon_sync (get self s)) with
                  | None => None
                  | Some m => Some (tt, set (self ⊚ mon_sync_l) m s)
                  end) Ret.

Definition mon_do (f : nat -> M -> M) : prog S unit :=
  Act (fun t s => Some (tt, set (self ⊚ mon_sync_l) (f t (mon_sync (get self s))) s)) Ret.

Definition monitor_lock : prog S unit := mon_try mon_try_lock.
Definition monitor_unlock : prog S unit := mon_do mon_unlock.
Definition notify_all : prog S unit := mon_do (fun _ => mon_notify_all).

(** [guard.wait()] *)
Definition wait : prog S unit := mon_do mon_park ;; mon_try mon_resume.

(** A non-blocking attempt to leave the wait queue. *)
Definition mon_attempt (f : nat -> M -> option M) : prog S bool :=
  Act (fun t s => match f t (mon_sync (get self s)) with
                  | None => Some (false, s)
                  | Some m => Some (true, set (self ⊚ mon_sync_l) m s)
                  end) Ret.

(** [guard.wait_for(d)]: [Err] when the timer cannot be registered,
    otherwise whether it timed out; the environment decides when. *)
Definition wait_for : prog S (Result bool unit) :=
  ok <- Act (fun _ s => Some (mon_timer (mon_sync (get self s)), s)) Ret ;;
  if (ok : bool) then
    mon_do mon_park ;;
    loop (fun _ : unit =>
            notified <- choose ;;
            left <- mon_attempt (if (notified : bool) then mon_resume else mon_expire) ;;
            Ret (if (left : bool) then inr (Ok (negb notified)) else inl tt)) tt
  else Ret (Err tt).

(** A section that owns the guard: unwinding out of it drops the guard. *)
Definition holding {B} (body : prog S B) : prog S B := on_unwind body monitor_unlock.

(** [lock().notify_all()] *)
Definition lock_notify_all : prog S unit :=
  monitor_lock ;; notify_all ;; monitor_unlock.

(** [with_read], [with_write]: run [body] holding the lock. *)
Definition with_lock {B} (body : prog S B) : prog S B :=
  monitor_lock ;; finally body monitor_unlock.

Definition with_write_notify_all {B} (body : prog S B) : prog S B :=
  with_lock (b <- body ;; notify_all ;; Ret b).

Definition wait_until_ready (pred : prog S bool) : prog S unit :=
  with_lock (loop (fun _ : unit =>
                     ready <- pred ;;
                     if (ready : bool) then Ret (inr tt) else wait ;; Ret (inl tt)) tt).

(** The same for a limited time: [Ok] tells whether the state was ready,
    [Err] that no timer could be registered.  How much of the time has passed is
    up to the environment. *)
Definition wait_until_ready_with_total_timeout (pred : prog S bool) : prog S (Result bool unit) :=
  with_lock (loop (fun _ : unit =>
                     ready <- pred ;;
                     if (ready : bool) then Ret (inr (Ok true)) else
                     elapsed <- choose ;;
                     if (elapsed : bool) then Ret (inr (Ok false)) else
                     waited <- wait_for ;;
                     Ret (match waited with Ok _ => inl tt | Err e => inr (Err e) end)) tt).
End monitor.

(** [timeout.saturating_sub(started.elapsed()).is_zero()]: certain for the zero
    duration, otherwise the clock decides. *)
Definition time_is_over {S} (timeout : Z) : prog S bool :=
  if (timeout =? 0)%Z then Ret true else choose.

(** ** [crossbeam_deque::Injector]: a queue any thread may push to and steal from *)
Inductive Steal (J : Type) : Type := StealSuccess (j : J) | StealEmpty | StealRetry.
Arguments StealSuccess {J} j.
Arguments StealEmpty {J}.
Arguments StealRetry {J}.

(** [inj_steal contended q]: the result and the queue after it; contention
    is up to the environment. *)
Class Injector (Q J : Type) : Type := {
  inj_new : Q;
  inj_push : J -> Q -> Q;
  inj_steal : bool -> Q -> Steal J * Q;
  (** the jobs inside, for specifications *)
  inj_jobs : Q -> list J;
}.

Class InjectorLaws (Q J : Type) `{Injector Q J} : Prop := {
  inj_new_empty : inj_jobs inj_new = [];
  inj_push_jobs : forall j q, inj_jobs (inj_push j q) = inj_jobs q ++ [j];
  inj_steal_jobs : forall b q,
    match inj_steal b q with
    | (StealSuccess j, q') => inj_jobs q = j :: inj_jobs q'
    | (StealEmpty, q') => inj_jobs q = [] /\ inj_jobs q' = []
    | (StealRetry, q') => b = true /\ inj_jobs q' = inj_jobs q
    end;
}.

(** ** Code supplied by the application and by the executor library

    Closures, hooks, tasks and completion endpoints are named by numbers;
    what they do is a parameter, and any of them may panic. *)
Class UserCode (S : Type) : Type := {
  (** calling a boxed [FnOnce()] consumes it; dropping it runs the
      destructors of what it captured *)
  call_closure : nat -> prog S unit;
  drop_closure : nat -> prog S unit;
  (** a lifecycle hook [Fn(usize)] *)
  call_hook : nat -> Z -> prog S unit;
  (** [Runnable::run] and the destructor of a runnable *)
  runnable_run : nat -> prog S unit;
  drop_runnable : nat -> prog S unit;
  (** [TaskRunner::new(task).run(completion)] *)
  task_runner_run : nat -> nat -> prog S unit;
  (** [TaskSlot::accept], [TaskSlot::cancel_unstarted] *)
  task_slot_accept : nat -> prog S unit;
  task_slot_cancel_unstarted : nat -> prog S bool;
  (** destructors of a callable and of its completion endpoint *)
  drop_callable : nat -> prog S unit;
  drop_task_slot : nat -> prog S unit;
}.
