(* ===== verification/Seq.v ===== *)
(** Sequential execution of programs: rules for [runs], the total, single-thread
    semantics the functional theorems are stated with. *)
From S2P Require Import Prelude Prog Sync.
Local Open Scope Z_scope.

(** The world after an operation that only writes the component behind [self]. *)
Definition with_part {S A} (self : lens S A) (a : A) (w : world S) : world S :=
  World (set self a (w_state w)) (w_oracle w) (w_spawned w).
Definition part {S A} (self : lens S A) (w : world S) : A := get self (w_state w).

Section parts.
Context {S A : Type} (self : lens S A) `{!LensLaws self}.

Lemma part_with a w : part self (with_part self a w) = a.
Proof. apply get_set. Qed.

Lemma with_part_part w : with_part self (part self w) w = w.
Proof. destruct w. unfold with_part, part. cbn. by rewrite set_get. Qed.

Lemma with_part_twice a b w : with_part self a (with_part self b w) = with_part self a w.
Proof. unfold with_part. cbn. by rewrite set_set. Qed.

Lemma with_part_comp {B} (l : lens A B) v w :
  with_part (self ⊚ l) v w = with_part self (set l v (part self w)) w.
Proof. reflexivity. Qed.

Lemma part_comp {B} (l : lens A B) w : part (self ⊚ l) w = get l (part self w).
Proof. reflexivity. Qed.
End parts.

Section runs_rules.
Context {S : Type}.
Implicit Types (w : world S).

(** A run has one outcome. *)
Lemma runs_det {A} t (p : prog S A) w o1 o2 : runs t p w o1 -> runs t p w o2 -> o1 = o2.
Proof.
  intros [H1 [n Hn]] [H2 [m Hm]].
  pose proof (run_mono _ (n + m)%nat _ _ _ _ Hn H1 ltac:(lia)) as E1.
  pose proof (run_mono _ (n + m)%nat _ _ _ _ Hm H2 ltac:(lia)) as E2. congruence.
Qed.

Lemma runs_ret {A} t (a : A) w : runs t (Ret a) w (Returned a w).
Proof. split; [done|]. exists 0%nat. apply run_ret. Qed.

Lemma runs_panic {A} t w : runs t (Panic : prog S A) w (Panicked w).
Proof. split; [done|]. exists 0%nat. apply run_panic. Qed.

Lemma runs_act {A B} t (f : nat -> S -> option (B * S)) (k : B -> prog S A) w b s' o :
  f t (w_state w) = Some (b, s') ->
  runs t (k b) (World s' (w_oracle w) (w_spawned w)) o -> runs t (Act f k) w o.
Proof. intros Hf [Ho [n Hn]]. split; [done|]. exists n. by rewrite run_act, Hf. Qed.

Lemma runs_choose {A} t (k : bool -> prog S A) s orc sp o :
  runs t (k (oracle_next orc).1) (World s (oracle_next orc).2 sp) o ->
  runs t (Choose k) (World s orc sp) o.
Proof. intros [Ho [n Hn]]. split; [done|]. exists n. by rewrite run_choose. Qed.

Lemma runs_loop {A X B} t (body : X -> prog S (X + B)) x (k : B -> prog S A) w o :
  runs t (bind (body x) (fun r => match r with inl x' => Loop body x' k | inr b => k b end)) w o ->
  runs t (Loop body x k) w o.
Proof. intros [Ho [n Hn]]. split; [done|]. exists (Datatypes.S n). by rewrite run_loop. Qed.

Lemma runs_bind {A B} t (p : prog S A) (f : A -> prog S B) w a w' o :
  runs t p w (Returned a w') -> runs t (f a) w' o -> runs t (bind p f) w o.
Proof.
  intros [_ [n Hn]] [Ho [m Hm]]. split; [done|]. exists (n + m)%nat.
  erewrite run_bind; [exact Hm|exact Hn|congruence].
Qed.

Lemma runs_bind_panic {A B} t (p : prog S A) (f : A -> prog S B) w w' :
  runs t p w (Panicked w') -> runs t (bind p f) w (Panicked w').
Proof. intros [_ [n Hn]]. split; [done|]. exists n. by apply run_bind_panic. Qed.

Lemma runs_bind_inv {A B} t (p : prog S A) (f : A -> prog S B) w b w2 :
  runs t (bind p f) w (Returned b w2) ->
  exists a w1, runs t p w (Returned a w1) /\ runs t (f a) w1 (Returned b w2).
Proof.
  intros [_ [n Hn]]. destruct (run_bind_inv _ _ _ _ _ _ _ Hn) as (a & w1 & m & H1 & H2).
  exists a, w1. split; (split; [done|]); [by exists n|by exists m].
Qed.

Lemma runs_catch {A} t (p : prog S A) w o :
  runs t p w o -> runs t (catch_unwind p) w (caught o).
Proof.
  intros [Ho [n Hn]]. split; [by destruct o|]. exists n. by rewrite run_catch, Hn.
Qed.

Lemma runs_finally {A} t (p : prog S A) fin w a w1 w2 :
  runs t p w (Returned a w1) -> runs t fin w1 (Returned tt w2) ->
  runs t (finally p fin) w (Returned a w2).
Proof.
  intros Hp Hf. eapply runs_bind; [by apply runs_catch in Hp|].
  eapply runs_bind; [exact Hf|apply runs_ret].
Qed.

Lemma runs_finally_panic {A} t (p : prog S A) fin w w1 w2 :
  runs t p w (Panicked w1) -> runs t fin w1 (Returned tt w2) ->
  runs t (finally p fin) w (Panicked w2).
Proof.
  intros Hp Hf. eapply runs_bind; [by apply runs_catch in Hp|].
  eapply runs_bind; [exact Hf|apply runs_panic].
Qed.
End runs_rules.

(** *** Single accesses to a component *)
Section accesses.
Context {S A : Type} (self : lens S A) `{!LensLaws self}.
Implicit Types (w : world S).

Lemma runs_load {B} (l : lens A B) t w :
  runs t (load (self ⊚ l)) w (Returned (get l (part self w)) w).
Proof. eapply runs_act; [done|]. destruct w. apply runs_ret. Qed.

Lemma runs_store {B} (l : lens A B) v t w :
  runs t (store (self ⊚ l) v) w (Returned tt (with_part self (set l v (part self w)) w)).
Proof. eapply runs_act; [done|]. apply runs_ret. Qed.

Lemma runs_fetch_add (l : lens A Z) n t w :
  runs t (fetch_add (self ⊚ l) n) w
    (Returned (get l (part self w)) (with_part self (set l (wrap (get l (part self w) + n)) (part self w)) w)).
Proof. eapply runs_act; [done|]. apply runs_ret. Qed.

Lemma runs_fetch_sub (l : lens A Z) n t w :
  runs t (fetch_sub (self ⊚ l) n) w
    (Returned (get l (part self w)) (with_part self (set l (wrap (get l (part self w) - n)) (part self w)) w)).
Proof. eapply runs_act; [done|]. apply runs_ret. Qed.

Lemma runs_fetch_or (l : lens A Z) n t w :
  runs t (fetch_or (self ⊚ l) n) w
    (Returned (get l (part self w)) (with_part self (set l (Z.lor (get l (part self w)) n) (part self w)) w)).
Proof. eapply runs_act; [done|]. apply runs_ret. Qed.

Lemma runs_fetch_update (l : lens A Z) f t w :
  runs t (fetch_update (self ⊚ l) f) w
    (match f (get l (part self w)) with
     | Some v => Returned (Ok (get l (part self w))) (with_part self (set l v (part self w)) w)
     | None => Returned (Err (get l (part self w))) w
     end).
Proof.
  split; [by destruct (f _)|]. exists 0%nat. unfold fetch_update. rewrite run_act.
  change (get (self ⊚ l) (w_state w)) with (get l (part self w)).
  destruct (f (get l (part self w))); rewrite run_ret; [done|by destruct w].
Qed.

(** Reading a value computed from the component. *)
Lemma runs_read {B} (f : A -> B) t w :
  runs t (Act (fun _ s => Some (f (get self s), s)) Ret) w (Returned (f (part self w)) w).
Proof. eapply runs_act; [done|]. destruct w. apply runs_ret. Qed.

Lemma runs_guarded_incr (l : lens A Z) t w :
  get l (part self w) + 1 < USIZE_MOD ->
  runs t (guarded_incr (self ⊚ l)) w
    (Returned tt (with_part self (set l (get l (part self w) + 1) (part self w)) w)).
Proof.
  intros Hlt. unfold guarded_incr. cbn [bind]. eapply runs_act.
  { cbn. unfold checked_add. change (get self (w_state w)) with (part self w).
    destruct (Z.ltb_spec (get l (part self w) + 1) USIZE_MOD); [reflexivity|lia]. }
  apply runs_ret.
Qed.

Lemma runs_guarded_decr (l : lens A Z) t w :
  1 <= get l (part self w) ->
  runs t (guarded_decr (self ⊚ l)) w
    (Returned tt (with_part self (set l (get l (part self w) - 1) (part self w)) w)).
Proof.
  intros Hlt. unfold guarded_decr. cbn [bind]. eapply runs_act.
  { cbn. unfold checked_sub. change (get self (w_state w)) with (part self w).
    destruct (Z.leb_spec 1 (get l (part self w))); [reflexivity|lia]. }
  apply runs_ret.
Qed.
End accesses.

(** *** Critical sections, entered with the monitor free *)
Section monitors.
Context {S M A : Type} `{MonitorLaws M} (mon : lens S (ParkingLotMonitor M A)) `{!LensLaws mon}.
Implicit Types (w : world S).

Definition mon_free w : Prop := mon_owner (mon_sync (part mon w)) = None.

(** The world with another lock state and data behind the monitor. *)
Definition with_mon (m : M) (d : A) w : world S := with_part mon (MkMonitor m d) w.

Lemma runs_mon_try f t w m :
  f t (mon_sync (part mon w)) = Some m ->
  runs t (mon_try mon f) w (Returned tt (with_mon m (mon_data (part mon w)) w)).
Proof.
  intros Hf. eapply runs_act; [unfold part in Hf; by rewrite Hf|]. apply runs_ret.
Qed.

Lemma runs_mon_do f t w :
  runs t (mon_do mon f) w
    (Returned tt (with_mon (f t (mon_sync (part mon w))) (mon_data (part mon w)) w)).
Proof. eapply runs_act; [done|]. apply runs_ret. Qed.

(** The body runs with the lock held by [t] and may change the lock's wait
    queue ([g]) but not its owner. *)
Lemma runs_with_lock {B} (body : prog S B) t w b d' w1 (g : M -> M) :
  mon_free w ->
  (forall m, mon_owner (g m) = mon_owner m) ->
  (forall m, mon_owner m = Some t ->
     runs t body (with_mon m (mon_data (part mon w)) w) (Returned b (with_mon (g m) d' w1))) ->
  exists m', mon_owner m' = None /\
    runs t (with_lock mon body) w (Returned b (with_mon m' d' w1)).
Proof.
  intros Hf Hg Hb. destruct (mon_lock_free t _ Hf) as [m Hm].
  pose proof (mon_lock_some _ _ _ Hm) as (_ & Ho & _).
  exists (mon_unlock t (g m)). split; [apply mon_unlock_free; by rewrite Hg|].
  unfold with_lock. eapply runs_bind; [by apply runs_mon_try|].
  eapply runs_finally; [by apply Hb|].
  pose proof (runs_mon_do mon_unlock t (with_mon (g m) d' w1)) as Hu.
  unfold with_mon in *. rewrite !(part_with mon), !(with_part_twice mon) in Hu. exact Hu.
Qed.

Lemma runs_lock_notify_all t w :
  mon_free w ->
  exists m', mon_owner m' = None /\
    runs t (lock_notify_all mon) w (Returned tt (with_mon m' (mon_data (part mon w)) w)).
Proof.
  intros Hf. destruct (mon_lock_free t _ Hf) as [m Hm].
  pose proof (mon_lock_some _ _ _ Hm) as (_ & Ho & _).
  exists (mon_unlock t (mon_notify_all m)).
  split; [apply mon_unlock_free; by rewrite mon_notify_owner|].
  eapply runs_bind; [by apply runs_mon_try|].
  eapply runs_bind; [apply runs_mon_do|].
  unfold with_mon. rewrite !(part_with mon), !(with_part_twice mon). cbn [mon_sync mon_data].
  pose proof (runs_mon_do mon_unlock t
    (with_part mon (MkMonitor (mon_notify_all m) (mon_data (part mon w))) w)) as Hu.
  unfold with_mon in Hu. rewrite !(part_with mon), !(with_part_twice mon) in Hu. exact Hu.
Qed.
Lemma runs_with_write_notify_all {B} (body : prog S B) t w b d' w1 :
  mon_free w ->
  (forall m, mon_owner m = Some t ->
     runs t body (with_mon m (mon_data (part mon w)) w) (Returned b (with_mon m d' w1))) ->
  exists m', mon_owner m' = None /\
    runs t (with_write_notify_all mon body) w (Returned b (with_mon m' d' w1)).
Proof.
  intros Hf Hb. eapply runs_with_lock with (g := mon_notify_all); [exact Hf|apply mon_notify_owner|].
  intros m Hm. eapply runs_bind; [by apply Hb|]. eapply runs_bind; [apply runs_mon_do|].
  unfold with_mon. rewrite !(part_with mon), !(with_part_twice mon). apply runs_ret.
Qed.
End monitors.

(** *** Mutexes *)
Section mutexes.
Context {S A : Type} (l : lens S (Mutex A)) `{!LensLaws l}.
Implicit Types (w : world S).

Lemma runs_mutex_lock t w :
  mutex_owner (part l w) = None ->
  runs t (mutex_lock l) w (Returned tt (with_part l (MkMutex (Some t) (mutex_data (part l w))) w)).
Proof. intros Ho. eapply runs_act; [unfold part in Ho; by rewrite Ho|]. apply runs_ret. Qed.

Lemma runs_mutex_unlock t w :
  runs t (mutex_unlock l) w (Returned tt (with_part l (MkMutex None (mutex_data (part l w))) w)).
Proof. eapply runs_act; [done|]. apply runs_ret. Qed.

Lemma runs_with_mutex {B} (body : prog S B) t w b w1 :
  mutex_owner (part l w) = None ->
  runs t body (with_part l (MkMutex (Some t) (mutex_data (part l w))) w) (Returned b w1) ->
  runs t (with_mutex l body) w (Returned b (with_part l (MkMutex None (mutex_data (part l w1))) w1)).
Proof.
  intros Ho Hb. eapply runs_bind; [by apply runs_mutex_lock|].
  eapply runs_finally; [exact Hb|apply runs_mutex_unlock].
Qed.
End mutexes.

(** Everything in terms of one component of the world. *)
Ltac part_norm := repeat first
  [ rewrite part_comp | rewrite with_part_comp
  | rewrite part_with by apply _ | rewrite with_part_twice by apply _ ].
Ltac part_norm_in H := repeat first
  [ rewrite part_comp in H | rewrite with_part_comp in H
  | rewrite part_with in H by apply _ | rewrite with_part_twice in H by apply _ ].

(** Straight-line code over one component: one rule per access; assertions
    are decided by arithmetic. *)
Ltac seq_step :=
  match goal with
  | |- runs _ (bind (bind _ _) _) _ _ => rewrite bind_assoc
  | |- runs _ (bind (Ret _) _) _ _ => cbn [bind]
  | |- runs _ (bind Panic _) _ _ => cbn [bind]
  | |- runs _ (bind (load _) _) _ _ => eapply runs_bind; [apply runs_load; apply _|]
  | |- runs _ (bind (store _ _) _) _ _ => eapply runs_bind; [apply runs_store; apply _|]
  | |- runs _ (bind (fetch_add _ _) _) _ _ => eapply runs_bind; [apply runs_fetch_add; apply _|]
  | |- runs _ (bind (fetch_or _ _) _) _ _ => eapply runs_bind; [apply runs_fetch_or; apply _|]
  | |- runs _ (bind (fetch_sub _ _) _) _ _ => eapply runs_bind; [apply runs_fetch_sub; apply _|]
  | |- runs _ (bind (assert ?b) _) _ _ =>
      (replace b with true by (cbn in *; lia)) || (replace b with false by (cbn in *; lia));
      cbn [assert bind]
  | |- runs _ (assert ?b) _ _ =>
      (replace b with true by (cbn in *; lia)) || (replace b with false by (cbn in *; lia));
      cbn [assert bind]
  | |- runs _ (Ret _) _ _ => apply runs_ret
  | |- runs _ Panic _ _ => apply runs_panic
  end; rewrite ?part_with, ?with_part_twice by apply _.
