(* ===== verification/SeqLogic.v ===== *)
(** A small logic for code that runs alone: from a world with an abstract view,
    a program returns, and its result, the new view and the events it logs are
    related.  The components instantiate the view. *)
From S2P Require Import Prelude Prog Sync Seq.

(** A part of the state that is disjoint from another part. *)
Class Apart {S A B} (l : lens S A) (m : lens S B) : Prop := {
  apart_get : forall b s, get l (set m b s) = get l s;
  apart_get' : forall a s, get m (set l a s) = get m s;
}.

(** A pool and a log next to each other. *)
Definition fst_l {A B} : lens (A * B) A := Lens fst (fun x s => (x, s.2)).
Definition snd_l {A B} : lens (A * B) B := Lens snd (fun x s => (s.1, x)).
#[export] Instance fst_l_laws {A B} : LensLaws (@fst_l A B).
Proof. solve_lens. Qed.
#[export] Instance snd_l_laws {A B} : LensLaws (@snd_l A B).
Proof. solve_lens. Qed.
#[export] Instance fst_snd_apart {A B} : Apart (@fst_l A B) (@snd_l A B).
Proof. by split. Qed.

Section does.
Context {S V E : Type} (view_at : V -> world S -> Prop) (log : lens S (list E)).
(** What the view does not show and the code may do all the same. *)
Context (frame : world S -> world S -> Prop) `{!PreOrder frame}.
Implicit Types (w : world S) (v : V) (t : nat).

Definition does {R} (t : nat) (p : prog S R) v (Post : R -> V -> list E -> Prop) : Prop :=
  forall w, view_at v w ->
    exists r w' v' evs, runs t p w (Returned r w') /\ view_at v' w' /\
      part log w' = part log w ++ evs /\ frame w w' /\ Post r v' evs.

(** Nothing observed changed. *)
Definition keeps {R} v (_ : R) (v' : V) (e : list E) : Prop := v' = v /\ e = [].

Lemma does_ret {R} t (r : R) v (Post : R -> V -> list E -> Prop) :
  Post r v [] -> does t (Ret r) v Post.
Proof.
  intros HP w Hw. exists r, w, v, []. rewrite app_nil_r.
  split; [apply runs_ret|]. do 2 (split; [done|]). split; [reflexivity|done].
Qed.

Lemma does_bind {R R'} t (p : prog S R) (f : R -> prog S R') v Mid Post :
  does t p v Mid ->
  (forall r v1 e1, Mid r v1 e1 -> does t (f r) v1 (fun r' v2 e2 => Post r' v2 (e1 ++ e2))) ->
  does t (bind p f) v Post.
Proof.
  intros Hp Hf w Hw. destruct (Hp w Hw) as (r & w1 & v1 & e1 & Hr & Hv1 & Hl1 & Hs1 & HM).
  destruct (Hf _ _ _ HM w1 Hv1) as (r' & w2 & v2 & e2 & Hr2 & Hv2 & Hl2 & Hs2 & HP).
  exists r', w2, v2, (e1 ++ e2). split; [by eapply runs_bind|]. split; [done|].
  rewrite Hl2, Hl1, app_assoc. split; [done|]. split; [by etransitivity|done].
Qed.

Lemma does_mono {R} t (p : prog S R) v (P Post : R -> V -> list E -> Prop) :
  does t p v P -> (forall r v' e, P r v' e -> Post r v' e) -> does t p v Post.
Proof.
  intros Hp HP w Hw. destruct (Hp w Hw) as (r & w1 & v1 & e1 & Hr & Hv1 & Hl1 & Hs1 & HM).
  exists r, w1, v1, e1. eauto 10.
Qed.

Lemma does_finally {R} t (p : prog S R) fin v Mid Post :
  does t p v Mid ->
  (forall r v1 e1, Mid r v1 e1 -> does t fin v1 (fun _ v2 e2 => Post r v2 (e1 ++ e2))) ->
  does t (finally p fin) v Post.
Proof.
  intros Hp Hf w Hw. destruct (Hp w Hw) as (r & w1 & v1 & e1 & Hr & Hv1 & Hl1 & Hs1 & HM).
  destruct (Hf _ _ _ HM w1 Hv1) as ([] & w2 & v2 & e2 & Hr2 & Hv2 & Hl2 & Hs2 & HP).
  exists r, w2, v2, (e1 ++ e2). split; [by eapply runs_finally|]. split; [done|].
  rewrite Hl2, Hl1, app_assoc. split; [done|]. split; [by etransitivity|done].
Qed.

(** A single step known by its runs, which logs nothing. *)
Lemma does_runs {R} t (p : prog S R) v (Post : R -> V -> list E -> Prop) :
  (forall w, view_at v w -> exists r w' v', runs t p w (Returned r w') /\ view_at v' w' /\
     part log w' = part log w /\ frame w w' /\ Post r v' []) ->
  does t p v Post.
Proof.
  intros Hp w Hw. destruct (Hp w Hw) as (r & w' & v' & Hr & Hv & Hl & Hf & HP).
  exists r, w', v', []. rewrite app_nil_r. by do 4 (split; [done|]).
Qed.

(** A loop that iterates along a sequence of views: [n] bounds the rounds. *)
Lemma does_loop {X R R'} t (body : X -> prog S (X + R)) (k : R -> prog S R') (Inv : nat -> X -> V -> list E -> Prop)
    (Post : R' -> V -> list E -> Prop) :
  (forall n x v e, Inv n x v e ->
     does t (body x) v (fun r v' e' => match r with
       | inl x' => exists m, m < n /\ Inv m x' v' (e ++ e')
       | inr b => does t (k b) v' (fun r' v'' e'' => Post r' v'' (e ++ e' ++ e''))
       end)) ->
  forall n x v e, Inv n x v e -> does t (Loop body x k) v (fun r' v' e' => Post r' v' (e ++ e')).
Proof.
  intros Hb n. induction n as [n IH] using lt_wf_ind. intros x v e Hi w Hw.
  destruct (Hb n x v e Hi w Hw) as (r & w1 & v1 & e1 & Hr & Hv1 & Hl1 & Hf1 & HM).
  destruct r as [x'|b].
  - destruct HM as (m & Hm & Hi'). destruct (IH m Hm x' v1 _ Hi' w1 Hv1) as (r' & w2 & v2 & e2 & Hr2 & Hv2 & Hl2 & Hf2 & HP).
    exists r', w2, v2, (e1 ++ e2). split; [apply runs_loop; by eapply runs_bind|]. split; [done|].
    rewrite Hl2, Hl1, app_assoc. split; [done|]. split; [by etransitivity|]. by rewrite <- app_assoc in HP.
  - destruct (HM w1 Hv1) as (r' & w2 & v2 & e2 & Hr2 & Hv2 & Hl2 & Hf2 & HP).
    exists r', w2, v2, (e1 ++ e2). split; [apply runs_loop; by eapply runs_bind|]. split; [done|].
    rewrite Hl2, Hl1, app_assoc. split; [done|]. split; [by etransitivity|done].
Qed.
End does.
