(* ===== verification/SeqOnly.v ===== *)
(** What a program run alone can do at most: however long it runs and however
    the environment answers, it does not panic, and if it returns, its result and
    world satisfy a postcondition.  Unlike [runs], this says nothing about whether
    it returns, so a postcondition that never holds says that it does not. *)
From S2P Require Import Prelude Prog Sync Seq.
From Stdlib Require Import FunctionalExtensionality.

Section only.
Context {S : Type}.
Implicit Types (w : world S) (t n : nat).

Definition allows {A} (Post : A -> world S -> Prop) (o : outcome S A) : Prop :=
  match o with Returned a w => Post a w | Panicked _ => False | Blocked _ | OutOfFuel => True end.

Definition only {A} t (p : prog S A) w (Post : A -> world S -> Prop) : Prop :=
  forall n, allows Post (run n t p w).

Lemma only_returned {A} t (p : prog S A) w Post a w' : only t p w Post -> runs t p w (Returned a w') -> Post a w'.
Proof. intros Hp [_ [n Hn]]. specialize (Hp n). by rewrite Hn in Hp. Qed.

Lemma only_panicked {A} t (p : prog S A) w Post w' : only t p w Post -> ~ runs t p w (Panicked w').
Proof. intros Hp [_ [n Hn]]. specialize (Hp n). by rewrite Hn in Hp. Qed.

(** A known run is the only one. *)
Lemma only_runs {A} t (p : prog S A) w (Post : A -> world S -> Prop) a w' :
  runs t p w (Returned a w') -> Post a w' -> only t p w Post.
Proof.
  intros Hr HP n. destruct (run n t p w) as [b w2|w2|w2|] eqn:Hn; cbn; try done;
    (assert (Ho : runs t p w (run n t p w)) by (split; [by rewrite Hn|by exists n]);
     rewrite Hn in Ho; pose proof (runs_det _ _ _ _ _ Hr Ho) as Heq); by simplify_eq.
Qed.

Lemma only_mono {A} t (p : prog S A) w (Post Post' : A -> world S -> Prop) :
  only t p w Post -> (forall a w', Post a w' -> Post' a w') -> only t p w Post'.
Proof. intros Hp HP n. specialize (Hp n). destruct (run n t p w); cbn in *; auto. Qed.

Lemma only_ret {A} t (a : A) w (Post : A -> world S -> Prop) : Post a w -> only t (Ret a) w Post.
Proof. intros HP. eapply only_runs; [apply runs_ret|done]. Qed.

Lemma only_act {A B} t (f : nat -> S -> option (B * S)) (k : B -> prog S A) w Post :
  (forall b s', f t (w_state w) = Some (b, s') -> only t (k b) (World s' (w_oracle w) (w_spawned w)) Post) ->
  only t (Act f k) w Post.
Proof. intros Hk n. rewrite run_act. destruct (f t (w_state w)) as [[b s']|]; [by apply Hk|done]. Qed.

Lemma only_choose {A} t (k : bool -> prog S A) w Post :
  (forall b orc, only t (k b) (World (w_state w) orc (w_spawned w)) Post) -> only t (Choose k) w Post.
Proof. intros Hk n. rewrite run_choose. apply Hk. Qed.

(** How a sequence ends: in its prefix, or in its continuation with the fuel left. *)
Lemma run_bind_out n {A B} t (p : prog S A) (f : A -> prog S B) w :
  (exists a w1 m, run n t p w = Returned a w1 /\ m <= n /\ run n t (bind p f) w = run m t (f a) w1) \/
  (exists w1, run n t p w = Panicked w1) \/
  match run n t (bind p f) w with Blocked _ | OutOfFuel => True | _ => False end.
Proof.
  revert A p w f. induction n as [|n IHn]; intros A p.
  all: induction p as [A a|A|A D g k IH|A k IH|A nm st c _ k IH|A u k IH|A X D body IHb x k IH];
    intros w h; cbn [bind].
  all: try (left; exists a, w; eexists; split; [apply run_ret|split; [apply Nat.le_refl|done]]).
  all: try (right; left; eexists; apply run_panic).
  all: try (rewrite !run_act; destruct (g t (w_state w)) as [[d s']|]; [by eauto|by right; right]).
  all: try (rewrite !run_choose; by eauto).
  all: try (rewrite !run_spawn; by eauto).
  all: try (rewrite !run_join; by right; right).
  - by right; right.
  - rewrite !run_loop. destruct (IHn _ (bind (body x) (fun r => match r with
      inl x' => Loop body x' k | inr b => k b end)) w h) as [(a & w1 & m & H1 & H2 & H3)|[H1|H1]].
    + left. exists a, w1, m. split; [done|]. split; [lia|]. rewrite <- H3, bind_assoc. f_equal. f_equal.
      apply functional_extensionality. by intros [x'|d].
    + by right; left.
    + right; right. revert H1. rewrite bind_assoc.
      match goal with |- context [run n t (bind _ ?k1) w] => set (F := k1) end.
      match goal with |- _ -> match run n t (bind _ ?k2) w with _ => _ end => replace F with k2; [done|] end.
      apply functional_extensionality. by intros [x'|d].
Qed.

Lemma only_bind {A B} t (p : prog S A) (f : A -> prog S B) w Post :
  only t p w (fun a w1 => only t (f a) w1 Post) -> only t (bind p f) w Post.
Proof.
  intros Hp n. specialize (Hp n). destruct (run_bind_out n t p f w) as [(a & w1 & m & H1 & _ & H3)|[[w1 H1]|H1]].
  - rewrite H1 in Hp. rewrite H3. apply Hp.
  - by rewrite H1 in Hp.
  - by destruct (run n t (bind p f) w).
Qed.

Lemma only_catch {A} t (p : prog S A) w (Post : option A -> world S -> Prop) :
  only t p w (fun a w1 => Post (Some a) w1) -> only t (catch_unwind p) w Post.
Proof. intros Hp n. specialize (Hp n). rewrite run_catch. by destruct (run n t p w). Qed.

Lemma only_finally {A} t (p : prog S A) fin w Post :
  only t p w (fun a w1 => only t fin w1 (fun _ w2 => Post a w2)) -> only t (finally p fin) w Post.
Proof.
  intros Hp. apply only_bind, only_catch. eapply only_mono; [exact Hp|]. intros a w1 H1.
  apply only_bind. eapply only_mono; [exact H1|]. intros u w2 H2. by apply only_ret.
Qed.

(** A loop that keeps an invariant. *)
Lemma only_loop {A X B} t (body : X -> prog S (X + B)) (k : B -> prog S A) (I : X -> world S -> Prop) Post :
  (forall x w, I x w -> only t (body x) w (fun r w1 =>
     match r with inl x' => I x' w1 | inr b => only t (k b) w1 Post end)) ->
  forall x w, I x w -> only t (Loop body x k) w Post.
Proof.
  intros Hb x w Hi n. revert x w Hi.
  induction n as [n IH] using lt_wf_ind; intros x w Hi.
  destruct n as [|n]; [done|]. rewrite run_loop. specialize (Hb x w Hi n).
  match goal with |- allows _ (run _ _ (bind ?p ?f) _) =>
    destruct (run_bind_out n t p f w) as [(r & w1 & m & Hr1 & Hm & Hr3)|[[w1 Hr1]|Hr1]] end.
  - rewrite Hr1 in Hb. rewrite Hr3. destruct r as [x'|b]; [apply IH; [lia|done]|apply Hb].
  - by rewrite Hr1 in Hb.
  - revert Hr1. match goal with |- context [run n t ?p w] => by destruct (run n t p w) end.
Qed.
End only.
