(* ===== verification/AdmissionGate.v ===== *)
(** [src/internal/admission_gate.rs]: the packed admission word. *)
From S2P Require Import Prelude Prog Sync.
Local Open Scope Z_scope.

Definition CLOSED : Z := Z.shiftl 1 (USIZE_BITS - 1).
Definition COUNT_MASK : Z := CLOSED - 1.

Record AdmissionGate : Type := MkAdmissionGate { gate_state : Z }.

Definition gate_state_l : lens AdmissionGate Z :=
  Lens gate_state (fun x _ => MkAdmissionGate x).

#[export] Instance gate_state_l_laws : LensLaws gate_state_l.
Proof. solve_lens. Qed.

Definition admission_gate_new : AdmissionGate := MkAdmissionGate 0.

Section gate.
Context {S : Type}.
Variable self : lens S AdmissionGate.

Definition gate_try_enter : prog S bool :=
  current <- load (self ⊚ gate_state_l) ;;
  loop (fun current =>
          if negb (Z.land current CLOSED =? 0) then Ret (inr false)
          else
            assert (Z.land current COUNT_MASK <? COUNT_MASK) ;;
            r <- compare_exchange_weak (self ⊚ gate_state_l) current (current + 1) ;;
            Ret (match r with Ok _ => inr true | Err observed => inl observed end))
       current.

Definition gate_close : prog S unit :=
  fetch_or (self ⊚ gate_state_l) CLOSED ;; Ret tt.

Definition gate_leave : prog S bool :=
  previous <- fetch_sub (self ⊚ gate_state_l) 1 ;;
  assert (0 <? Z.land previous COUNT_MASK) ;;
  Ret (Z.land previous COUNT_MASK =? 1).

Definition gate_inflight_count : prog S Z :=
  v <- load (self ⊚ gate_state_l) ;; Ret (Z.land v COUNT_MASK).

Definition gate_is_open : prog S bool :=
  v <- load (self ⊚ gate_state_l) ;; Ret (Z.land v CLOSED =? 0).
End gate.

(** ** The abstract gate: an open flag and a number of submitters inside *)

Record GateSpec : Type := MkGateSpec { spec_open : bool; spec_inflight : Z }.

Inductive GateOp : Type := GTryEnter | GClose | GLeave | GInflight | GIsOpen.

Inductive GateReply : Type := RBool (b : bool) | RUnit | RCount (n : Z).

#[export] Instance GateReply_eq_dec : EqDecision GateReply.
Proof. solve_decision. Defined.

(** [None]: the operation panics. *)
Definition gate_spec (op : GateOp) (g : GateSpec) : option (GateReply * GateSpec) :=
  match op with
  | GTryEnter =>
      if spec_open g then
        if spec_inflight g <? COUNT_MASK
        then Some (RBool true, MkGateSpec true (spec_inflight g + 1)) else None
      else Some (RBool false, g)
  | GClose => Some (RUnit, MkGateSpec false (spec_inflight g))
  | GLeave =>
      if 0 <? spec_inflight g
      then Some (RBool (spec_inflight g =? 1), MkGateSpec (spec_open g) (spec_inflight g - 1))
      else None
  | GInflight => Some (RCount (spec_inflight g), g)
  | GIsOpen => Some (RBool (spec_open g), g)
  end.

Definition gate_op {S} (self : lens S AdmissionGate) (op : GateOp) : prog S GateReply :=
  match op with
  | GTryEnter => b <- gate_try_enter self ;; Ret (RBool b)
  | GClose => gate_close self ;; Ret RUnit
  | GLeave => b <- gate_leave self ;; Ret (RBool b)
  | GInflight => n <- gate_inflight_count self ;; Ret (RCount n)
  | GIsOpen => b <- gate_is_open self ;; Ret (RBool b)
  end.

(** A sequence of operations, answering all replies. *)
Fixpoint gate_ops {S} (self : lens S AdmissionGate) (ops : list GateOp) : prog S (list GateReply) :=
  match ops with
  | [] => Ret []
  | op :: ops => r <- gate_op self op ;; rs <- gate_ops self ops ;; Ret (r :: rs)
  end.

Fixpoint gate_specs (ops : list GateOp) (g : GateSpec) : option (list GateReply * GateSpec) :=
  match ops with
  | [] => Some ([], g)
  | op :: ops =>
      match gate_spec op g with
      | None => None
      | Some (r, g1) =>
          match gate_specs ops g1 with
          | None => None
          | Some (rs, g2) => Some (r :: rs, g2)
          end
      end
  end.

(** The word that packs an abstract gate. *)
Definition gate_word (g : GateSpec) : Z :=
  (if spec_open g then 0 else CLOSED) + spec_inflight g.

Definition gate_repr (g : GateSpec) (w : Z) : Prop :=
  0 <= spec_inflight g <= COUNT_MASK /\ w = gate_word g.

(** ** Bit facts *)

Lemma gate_word_count g w : gate_repr g w -> Z.land w COUNT_MASK = spec_inflight g.
Proof.
  intros [Hr ->]. change COUNT_MASK with (Z.ones 63) in *.
  rewrite Z.land_ones by lia. unfold gate_word. change CLOSED with (2 ^ 63).
  assert (spec_inflight g < 2 ^ 63) by (change (Z.ones 63) with (2 ^ 63 - 1) in Hr; lia).
  destruct (spec_open g).
  - rewrite Z.mod_small by lia. lia.
  - replace (2 ^ 63 + spec_inflight g) with (spec_inflight g + 1 * 2 ^ 63) by lia.
    rewrite Z.mod_add by lia. rewrite Z.mod_small by lia. lia.
Qed.

Lemma gate_word_bits g w i :
  gate_repr g w -> 0 <= i ->
  Z.testbit w i = if i =? 63 then negb (spec_open g) else Z.testbit (spec_inflight g) i && (i <? 63).
Proof.
  intros [Hr ->] Hi. unfold gate_word.
  assert (0 <= spec_inflight g < 2 ^ 63) as Hlt.
  { change COUNT_MASK with (2 ^ 63 - 1) in Hr. lia. }
  assert (Hhi : forall j, 63 <= j -> Z.testbit (spec_inflight g) j = false).
  { intros j Hj. destruct (Z.eq_dec (spec_inflight g) 0) as [->|]; [apply Z.bits_0|].
    apply Z.bits_above_log2; [lia|]. apply Z.log2_lt_pow2; [lia|].
    apply Z.lt_le_trans with (2 ^ 63); [lia|]. apply Z.pow_le_mono_r; lia. }
  destruct (spec_open g); cbn [negb].
  - rewrite Z.add_0_l. destruct (Z.eqb_spec i 63) as [->|]; [by apply Hhi|].
    destruct (Z.ltb_spec i 63); [by rewrite andb_true_r|]. rewrite Hhi by lia. done.
  - assert (Hdisj : Z.land CLOSED (spec_inflight g) = 0).
    { apply Z.bits_inj'. intros j Hj. rewrite Z.land_spec, Z.bits_0.
      change CLOSED with (2 ^ 63). rewrite Z.pow2_bits_eqb by lia.
      destruct (Z.eqb_spec 63 j) as [<-|]; [|done]. by rewrite Hhi. }
    rewrite Z.add_nocarry_lxor by exact Hdisj. rewrite Z.lxor_spec.
    change CLOSED with (2 ^ 63). rewrite Z.pow2_bits_eqb by lia.
    destruct (Z.eqb_spec i 63) as [->|].
    + by rewrite Hhi.
    + destruct (Z.eqb_spec 63 i); [lia|]. cbn.
      destruct (Z.ltb_spec i 63); [by rewrite andb_true_r|]. rewrite Hhi by lia. done.
Qed.

Lemma gate_word_closed g w : gate_repr g w -> (Z.land w CLOSED =? 0) = spec_open g.
Proof.
  intros Hg.
  assert (Z.land w CLOSED = if spec_open g then 0 else CLOSED) as ->.
  { apply Z.bits_inj'. intros i Hi. rewrite Z.land_spec, (gate_word_bits g) by done.
    change CLOSED with (2 ^ 63). rewrite Z.pow2_bits_eqb by lia. rewrite (Z.eqb_sym 63 i).
    destruct (Z.eqb_spec i 63) as [->|]; destruct (spec_open g); cbn [negb andb];
      rewrite ?andb_false_r, ?Z.bits_0, ?Z.pow2_bits_eqb by lia; try done.
    destruct (Z.eqb_spec 63 i); [lia|done]. }
  by destruct (spec_open g).
Qed.

Lemma gate_word_lor g w :
  gate_repr g w -> gate_repr (MkGateSpec false (spec_inflight g)) (Z.lor w CLOSED).
Proof.
  intros Hg. set (g' := MkGateSpec false (spec_inflight g)).
  assert (Hg' : gate_repr g' (gate_word g')) by (split; [apply Hg|done]).
  split; [apply Hg|]. apply Z.bits_inj'. intros i Hi.
  rewrite (gate_word_bits g' (gate_word g')) by done.
  rewrite Z.lor_spec, (gate_word_bits g) by done.
  change CLOSED with (2 ^ 63). rewrite Z.pow2_bits_eqb by lia. rewrite (Z.eqb_sym 63 i). cbn.
  destruct (Z.eqb_spec i 63); [by rewrite orb_true_r|by rewrite orb_false_r].
Qed.

Lemma gate_word_enter g w :
  gate_repr g w -> spec_inflight g < COUNT_MASK ->
  gate_repr (MkGateSpec (spec_open g) (spec_inflight g + 1)) (w + 1).
Proof. intros [Hr ->] Hlt. split; cbn; [lia|]. unfold gate_word; cbn. lia. Qed.

Lemma gate_word_leave g w :
  gate_repr g w -> 0 < spec_inflight g ->
  gate_repr (MkGateSpec (spec_open g) (spec_inflight g - 1)) (wrap (w - 1)).
Proof.
  intros [Hr ->] Hlt. split; cbn; [lia|]. unfold gate_word; cbn.
  rewrite wrap_small.
  - lia.
  - unfold in_usize. change USIZE_MOD with (2 * CLOSED). change COUNT_MASK with (CLOSED - 1) in Hr.
    destruct (spec_open g); change CLOSED with (2 ^ 63) in *; lia.
Qed.

(** ** The gate refines its abstraction *)

Lemma gate_repr_in_usize g w : gate_repr g w -> in_usize w.
Proof.
  intros [Hr ->]. unfold in_usize, gate_word. change USIZE_MOD with (2 * CLOSED).
  change COUNT_MASK with (CLOSED - 1) in Hr. change CLOSED with (2 ^ 63) in *.
  destruct (spec_open g); lia.
Qed.

Definition gate_at {S} (self : lens S AdmissionGate) (g : GateSpec) (w : world S) : Prop :=
  gate_repr g (gate_state (get self (w_state w))).

(** Nothing but the gate changed. *)
Definition only_gate {S} (self : lens S AdmissionGate) (w w' : world S) : Prop :=
  w_state w' = set self (get self (w_state w')) (w_state w) /\ w_spawned w' = w_spawned w.

Section refinement.
Context {S : Type} (self : lens S AdmissionGate) `{!LensLaws self}.

Lemma only_gate_refl w : only_gate self w w.
Proof. split; [by rewrite set_get|done]. Qed.

Lemma only_gate_trans w1 w2 w3 :
  only_gate self w1 w2 -> only_gate self w2 w3 -> only_gate self w1 w3.
Proof.
  intros [H1 H1'] [H2 H2']. split; [|congruence].
  rewrite H2 at 1. rewrite H1. by rewrite set_set.
Qed.

Lemma gate_at_set g w s orc orc' sp :
  gate_repr g w ->
  gate_at self g (World (set (self ⊚ gate_state_l) w s) orc sp) /\
  only_gate self (World s orc' sp) (World (set (self ⊚ gate_state_l) w s) orc sp).
Proof.
  intros Hg. unfold gate_at, only_gate. cbn. rewrite !get_set. done.
Qed.

(** The compare-exchange loop ends after as many rounds as the environment
    has spurious failures left. *)
Lemma gate_try_enter_run t w g :
  gate_at self g w ->
  exists fuel,
    match gate_spec GTryEnter g with
    | Some (r, g') => exists b w', r = RBool b /\
        run fuel t (gate_try_enter self) w = Returned b w' /\ gate_at self g' w' /\ only_gate self w w'
    | None => exists w', run fuel t (gate_try_enter self) w = Panicked w' /\ only_gate self w w'
    end.
Proof.
  destruct w as [s orc sp]. intros Hg. exists (Datatypes.S (length orc)).
  unfold gate_try_enter, loop, load. cbn [bind]. autorewrite with run.
  cbn [w_state w_oracle w_spawned get set lens_comp gate_state_l].
  induction orc as [|b orc IH]; rewrite run_loop; cbn [length].
  all: pose proof (gate_word_closed _ _ Hg) as Hc; pose proof (gate_word_count _ _ Hg) as Hn.
  all: cbn [w_state] in Hc, Hn; rewrite Hc, Hn; cbn [gate_spec].
  all: destruct (spec_open g) eqn:Ho; cbn [negb bind];
    [|autorewrite with run; exists false; eexists; split; [done|]; split; [done|]; split; [exact Hg|apply only_gate_refl]].
  all: destruct (Z.ltb_spec (spec_inflight g) COUNT_MASK) as [Hlt|Hge]; cbn [assert bind];
    [|autorewrite with run; eexists; split; [done|apply only_gate_refl]].
  all: unfold compare_exchange_weak, choose; cbn [bind]; autorewrite with run; cbn.
  all: pose proof (gate_word_enter _ _ Hg Hlt) as He; rewrite Ho in He; cbn [w_state] in He.
  - rewrite Z.eqb_refl. cbn [bind]. autorewrite with run.
    exists true. eexists. split; [done|]. split; [reflexivity|]. by apply gate_at_set.
  - destruct b; cbn [andb].
    + rewrite Z.eqb_refl. cbn [bind]. autorewrite with run.
      exists true. eexists. split; [done|]. split; [reflexivity|]. by apply gate_at_set.
    + cbn [bind]. specialize (IH Hg). cbn [gate_spec] in IH.
      rewrite ?Ho in IH. apply Z.ltb_lt in Hlt. rewrite Hlt in IH.
      destruct IH as (b & w' & Hb & Hr & Ha & [Hs Hsp]). exists b, w'.
      split; [done|]. split; [exact Hr|]. split; [exact Ha|]. split; done.
Qed.

Lemma gate_op_run t w g op :
  gate_at self g w ->
  exists fuel,
    match gate_spec op g with
    | Some (r, g') => exists w',
        run fuel t (gate_op self op) w = Returned r w' /\ gate_at self g' w' /\ only_gate self w w'
    | None => exists w', run fuel t (gate_op self op) w = Panicked w'
    end.
Proof.
  intros Hg. destruct op.
  - destruct (gate_try_enter_run t w g Hg) as [fuel H]. exists (fuel + 0)%nat.
    destruct (gate_spec GTryEnter g) as [[r g']|].
    + destruct H as (b & w' & -> & Hr & Ha & Ho). exists w'. split; [|done]. cbn [gate_op].
      by rewrite (run_bind _ _ _ _ _ _ _ _ Hr); rewrite run_ret.
    + destruct H as (w' & Hr & _). exists w'. cbn [gate_op]. rewrite Nat.add_0_r.
      by apply run_bind_panic.
  - exists 0%nat. cbn [gate_spec gate_op]. unfold gate_close, fetch_or, fetch_modify. cbn [bind].
    autorewrite with run. eexists. split; [done|]. cbn. unfold gate_at, only_gate. cbn.
    rewrite get_set. split; [by apply gate_word_lor|done].
  - exists 0%nat. cbn [gate_spec gate_op]. unfold gate_leave, fetch_sub, fetch_modify. cbn [bind].
    autorewrite with run. cbn. pose proof (gate_word_count _ _ Hg) as ->.
    destruct (Z.ltb_spec 0 (spec_inflight g)); cbn [assert bind]; autorewrite with run.
    + eexists. split; [done|]. unfold gate_at, only_gate. cbn. rewrite get_set.
      split; [by apply gate_word_leave|done].
    + by eexists.
  - exists 0%nat. cbn [gate_spec gate_op]. unfold gate_inflight_count, load. cbn [bind].
    autorewrite with run. cbn. pose proof (gate_word_count _ _ Hg) as ->.
    eexists. split; [done|]. split; [done|]. destruct w. split; cbn; by rewrite ?set_get.
  - exists 0%nat. cbn [gate_spec gate_op]. unfold gate_is_open, load. cbn [bind].
    autorewrite with run. cbn. pose proof (gate_word_closed _ _ Hg) as ->.
    eexists. split; [done|]. split; [done|]. destruct w. split; cbn; by rewrite ?set_get.
Qed.
End refinement.

(** ** Properties *)

(** C15. The packed word implements the abstract gate: any sequence of
    operations, run on a word that represents [g] and whatever spurious
    compare-exchange failures the environment injects, ends, gives the replies
    of the abstract gate, leaves a word that represents its final state and
    touches nothing else; it panics exactly where the abstract gate has no
    answer (count overflow on entry, underflow on leave). *)
Theorem gate_ops_refine {S} (self : lens S AdmissionGate) (HL : LensLaws self)
    (t : nat) (ops : list GateOp) (g : GateSpec) (w : world S) (Hg : gate_at self g w) :
  exists fuel,
    match gate_specs ops g with
    | Some (rs, g') => exists w',
        run fuel t (gate_ops self ops) w = Returned rs w' /\
        gate_at self g' w' /\ only_gate self w w'
    | None => exists w', run fuel t (gate_ops self ops) w = Panicked w'
    end.
Proof.
  revert g w Hg. induction ops as [|op ops IH]; intros g w Hg; cbn [gate_specs gate_ops].
  - exists 0%nat. exists w. rewrite run_ret. split; [done|]. split; [done|apply only_gate_refl; done].
  - destruct (gate_op_run self t w g op Hg) as [n Hop].
    destruct (gate_spec op g) as [[r g1]|]; cycle 1.
    { destruct Hop as [w' Hr]. exists n, w'. by apply run_bind_panic. }
    destruct Hop as (w1 & Hr & Hg1 & Ho1). destruct (IH g1 w1 Hg1) as [m Hops].
    destruct (gate_specs ops g1) as [[rs g2]|].
    + destruct Hops as (w2 & Hr2 & Hg2 & Ho2). exists (n + (m + 0))%nat, w2.
      split; [|split; [done|by eapply only_gate_trans]].
      rewrite (run_bind _ (m + 0) _ _ _ _ _ _ Hr); rewrite (run_bind _ 0 _ _ _ _ _ _ Hr2);
        by rewrite run_ret.
    + destruct Hops as (w2 & Hr2). exists (n + m)%nat, w2.
      rewrite (run_bind _ m _ _ _ _ _ _ Hr); by rewrite (run_bind_panic _ _ _ _ _ _ Hr2).
Qed.

Lemma gate_ops_refine_witness :
  let w := World (MkAdmissionGate 0) [false; true] [] in
  gate_at id_lens (MkGateSpec true 0) w /\
  exists fuel w',
    run fuel 0 (gate_ops id_lens [GTryEnter; GClose; GTryEnter; GInflight; GLeave]) w
      = Returned [RBool true; RUnit; RBool false; RCount 1; RBool true] w' /\
    gate_at id_lens (MkGateSpec false 0) w' /\ only_gate id_lens w w'.
Proof.
  intros w. assert (Hg : gate_at id_lens (MkGateSpec true 0) w).
  { split; [vm_compute; split; discriminate|reflexivity]. }
  split; [exact Hg|].
  exact (gate_ops_refine id_lens id_lens_laws 0
           [GTryEnter; GClose; GTryEnter; GInflight; GLeave] (MkGateSpec true 0) w Hg).
Defined.

(** C29. Leaving an empty gate is detected only after the word was already
    decremented: the call panics and an open gate is left reading closed with
    every count bit set, so no later submitter can enter. *)
Theorem gate_leave_underflow {S} (self : lens S AdmissionGate) (HL : LensLaws self)
    (t : nat) (w : world S) (Hg : gate_at self (MkGateSpec true 0) w) :
  exists w',
    run 0 t (gate_leave self) w = Panicked w' /\
    gate_at self (MkGateSpec false COUNT_MASK) w' /\
    run 1 t (gate_try_enter self) w' = Returned false w'.
Proof.
  assert (Hw : gate_state (get self (w_state w)) = 0) by apply Hg.
  exists (World (set (self ⊚ gate_state_l) USIZE_MAX (w_state w)) (w_oracle w) (w_spawned w)).
  assert (Hg' : forall orc sp,
    gate_at self (MkGateSpec false COUNT_MASK)
      (World (set (self ⊚ gate_state_l) USIZE_MAX (w_state w)) orc sp)).
  { intros orc sp. unfold gate_at. cbn. rewrite get_set. split; [|done]. split; [discriminate|reflexivity]. }
  split; [|split; [apply Hg'|]].
  - unfold gate_leave, fetch_sub, fetch_modify. cbn [bind]. autorewrite with run.
    cbn [get lens_comp gate_state_l]. rewrite Hw. reflexivity.
  - unfold gate_try_enter, loop, load. cbn [bind]. autorewrite with run.
    cbn [w_state w_oracle w_spawned]. rewrite run_loop.
    cbn [get lens_comp gate_state_l set]. rewrite get_set. cbn [bind gate_state].
    change (Z.land USIZE_MAX CLOSED =? 0) with false. cbn [negb bind]. by autorewrite with run.
Qed.

Lemma gate_leave_underflow_witness :
  let w := World (MkAdmissionGate 0) [] [] in
  gate_at id_lens (MkGateSpec true 0) w /\
  exists w',
    run 0 0 (gate_leave id_lens) w = Panicked w' /\
    gate_at id_lens (MkGateSpec false COUNT_MASK) w' /\
    run 1 0 (gate_try_enter id_lens) w' = Returned false w'.
Proof.
  intros w. assert (Hg : gate_at id_lens (MkGateSpec true 0) w).
  { split; [vm_compute; split; discriminate|reflexivity]. }
  split; [exact Hg|]. exact (gate_leave_underflow id_lens id_lens_laws 0 w Hg).
Defined.
