(* ===== verification/PoolAccounting.v ===== *)
(** [src/internal/pool_accounting.rs] and [pool_counter_snapshot.rs]:
    admission, queue-slot reservations and task counters. *)
From S2P Require Import Prelude Prog Sync AdmissionGate.
Local Open Scope Z_scope.

Record PoolAccounting : Type := MkPoolAccounting {
  admission : AdmissionGate;
  queue_capacity : option Z;
  queue_slot_count : Z;
  queued_task_count : Z;
  running_task_count : Z;
  cancelling_task_count : Z;
  submitted_task_count : Z;
  completed_task_count : Z;
  cancelled_task_count : Z;
}.

Record PoolCounterSnapshot : Type := MkPoolCounterSnapshot {
  inflight_submissions : Z;
  queued_tasks : Z;
  running_tasks : Z;
  cancelling_tasks : Z;
  submitted_tasks : Z;
  completed_tasks : Z;
  cancelled_tasks : Z;
}.

Definition admission_l : lens PoolAccounting AdmissionGate :=
  Lens admission (fun x a => MkPoolAccounting x (queue_capacity a) (queue_slot_count a)
    (queued_task_count a) (running_task_count a) (cancelling_task_count a)
    (submitted_task_count a) (completed_task_count a) (cancelled_task_count a)).
Definition queue_slot_count_l : lens PoolAccounting Z :=
  Lens queue_slot_count (fun x a => MkPoolAccounting (admission a) (queue_capacity a) x
    (queued_task_count a) (running_task_count a) (cancelling_task_count a)
    (submitted_task_count a) (completed_task_count a) (cancelled_task_count a)).
Definition queued_task_count_l : lens PoolAccounting Z :=
  Lens queued_task_count (fun x a => MkPoolAccounting (admission a) (queue_capacity a)
    (queue_slot_count a) x (running_task_count a) (cancelling_task_count a)
    (submitted_task_count a) (completed_task_count a) (cancelled_task_count a)).
Definition running_task_count_l : lens PoolAccounting Z :=
  Lens running_task_count (fun x a => MkPoolAccounting (admission a) (queue_capacity a)
    (queue_slot_count a) (queued_task_count a) x (cancelling_task_count a)
    (submitted_task_count a) (completed_task_count a) (cancelled_task_count a)).
Definition cancelling_task_count_l : lens PoolAccounting Z :=
  Lens cancelling_task_count (fun x a => MkPoolAccounting (admission a) (queue_capacity a)
    (queue_slot_count a) (queued_task_count a) (running_task_count a) x
    (submitted_task_count a) (completed_task_count a) (cancelled_task_count a)).
Definition submitted_task_count_l : lens PoolAccounting Z :=
  Lens submitted_task_count (fun x a => MkPoolAccounting (admission a) (queue_capacity a)
    (queue_slot_count a) (queued_task_count a) (running_task_count a)
    (cancelling_task_count a) x (completed_task_count a) (cancelled_task_count a)).
Definition completed_task_count_l : lens PoolAccounting Z :=
  Lens completed_task_count (fun x a => MkPoolAccounting (admission a) (queue_capacity a)
    (queue_slot_count a) (queued_task_count a) (running_task_count a)
    (cancelling_task_count a) (submitted_task_count a) x (cancelled_task_count a)).
Definition cancelled_task_count_l : lens PoolAccounting Z :=
  Lens cancelled_task_count (fun x a => MkPoolAccounting (admission a) (queue_capacity a)
    (queue_slot_count a) (queued_task_count a) (running_task_count a)
    (cancelling_task_count a) (submitted_task_count a) (completed_task_count a) x).

#[export] Instance admission_l_laws : LensLaws admission_l.
Proof. solve_lens. Qed.
#[export] Instance queue_slot_count_l_laws : LensLaws queue_slot_count_l.
Proof. solve_lens. Qed.
#[export] Instance queued_task_count_l_laws : LensLaws queued_task_count_l.
Proof. solve_lens. Qed.
#[export] Instance running_task_count_l_laws : LensLaws running_task_count_l.
Proof. solve_lens. Qed.
#[export] Instance cancelling_task_count_l_laws : LensLaws cancelling_task_count_l.
Proof. solve_lens. Qed.
#[export] Instance submitted_task_count_l_laws : LensLaws submitted_task_count_l.
Proof. solve_lens. Qed.
#[export] Instance completed_task_count_l_laws : LensLaws completed_task_count_l.
Proof. solve_lens. Qed.
#[export] Instance cancelled_task_count_l_laws : LensLaws cancelled_task_count_l.
Proof. solve_lens. Qed.

Definition pool_accounting_new (queue_capacity : option Z) : PoolAccounting :=
  MkPoolAccounting admission_gate_new queue_capacity 0 0 0 0 0 0 0.

Section accounting.
Context {S : Type}.
Variable self : lens S PoolAccounting.

Definition try_enter : prog S bool := gate_try_enter (self ⊚ admission_l).
Definition leave : prog S bool := gate_leave (self ⊚ admission_l).
Definition close_admission : prog S unit := gate_close (self ⊚ admission_l).
Definition is_admission_open : prog S bool := gate_is_open (self ⊚ admission_l).
Definition inflight_count : prog S Z := gate_inflight_count (self ⊚ admission_l).
Definition queued_count : prog S Z := load (self ⊚ queued_task_count_l).
Definition running_count : prog S Z := load (self ⊚ running_task_count_l).

Definition accounting_queue_capacity : prog S (option Z) :=
  Act (fun _ s => Some (queue_capacity (get self s), s)) Ret.

Definition reserve_worker_handoff_slot : prog S unit :=
  fetch_add (self ⊚ queue_slot_count_l) 1 ;; Ret tt.

Definition try_reserve_bounded_slot : prog S bool :=
  cap <- accounting_queue_capacity ;;
  match cap with
  | Some capacity =>
      r <- fetch_update (self ⊚ queue_slot_count_l)
             (fun current => if current <? capacity then Some (current + 1) else None) ;;
      Ret (is_ok r)
  | None => reserve_worker_handoff_slot ;; Ret true
  end.

Definition rollback_reserved_slot : prog S unit :=
  previous <- fetch_sub (self ⊚ queue_slot_count_l) 1 ;;
  assert (0 <? previous).

Definition publish_accepted_job : prog S unit :=
  fetch_add (self ⊚ submitted_task_count_l) 1 ;;
  fetch_add (self ⊚ queued_task_count_l) 1 ;;
  Ret tt.

Definition claim_queued_job : prog S unit :=
  previous <- fetch_sub (self ⊚ queued_task_count_l) 1 ;;
  assert (0 <? previous) ;;
  fetch_add (self ⊚ running_task_count_l) 1 ;;
  rollback_reserved_slot.

Definition begin_cancel_queued_job : prog S unit :=
  previous <- fetch_sub (self ⊚ queued_task_count_l) 1 ;;
  assert (0 <? previous) ;;
  fetch_add (self ⊚ cancelling_task_count_l) 1 ;;
  Ret tt.

Definition finish_cancelled_job : prog S unit :=
  fetch_add (self ⊚ cancelled_task_count_l) 1 ;;
  previous <- fetch_sub (self ⊚ cancelling_task_count_l) 1 ;;
  assert (0 <? previous) ;;
  rollback_reserved_slot.

Definition finish_running_job : prog S unit :=
  fetch_add (self ⊚ completed_task_count_l) 1 ;;
  previous <- fetch_sub (self ⊚ running_task_count_l) 1 ;;
  assert (0 <? previous).

Definition snapshot : prog S PoolCounterSnapshot :=
  inflight <- inflight_count ;;
  queued <- queued_count ;;
  running <- running_count ;;
  cancelling <- load (self ⊚ cancelling_task_count_l) ;;
  submitted <- load (self ⊚ submitted_task_count_l) ;;
  completed <- load (self ⊚ completed_task_count_l) ;;
  cancelled <- load (self ⊚ cancelled_task_count_l) ;;
  Ret (MkPoolCounterSnapshot inflight queued running cancelling submitted completed cancelled).

(** Four independent loads with short-circuit conjunction. *)
Definition is_idle : prog S bool :=
  inflight <- inflight_count ;;
  if negb (inflight =? 0) then Ret false else
  slots <- load (self ⊚ queue_slot_count_l) ;;
  if negb (slots =? 0) then Ret false else
  running <- running_count ;;
  if negb (running =? 0) then Ret false else
  cancelling <- load (self ⊚ cancelling_task_count_l) ;;
  Ret (cancelling =? 0).
End accounting.
