(* ===== verification/AccountingRefine.v ===== *)
(** The counters of [src/internal/pool_accounting.rs] implement an abstract
    ledger that only counts jobs per phase. *)
From S2P Require Import Prelude Prog Sync Seq AdmissionGate PoolAccounting.
Local Open Scope Z_scope.

(** ** The ledger: how many jobs are in each phase

    [led_reserved]: slots reserved for jobs that are not yet published. *)
Record Ledger : Type := MkLedger {
  led_gate : GateSpec;
  led_capacity : option Z;
  led_reserved : Z;
  led_queued : Z;
  led_running : Z;
  led_cancelling : Z;
  led_completed : Z;
  led_cancelled : Z;
}.

(** What the code stores in addition is determined by the phases. *)
Definition led_slots (a : Ledger) : Z := led_reserved a + led_queued a + led_cancelling a.
Definition led_submitted (a : Ledger) : Z :=
  led_queued a + led_running a + led_cancelling a + led_completed a + led_cancelled a.

(** A bounded queue without a free slot. *)
Definition saturated (a : Ledger) : bool :=
  match led_capacity a with Some c => c <=? led_slots a | None => false end.

Inductive LedgerOp : Type :=
| LEnter | LLeave | LClose
| LReserve | LHandoff | LRollback | LPublish | LClaim
| LBeginCancel | LFinishCancelled | LFinishRunning
| LSnapshot | LIsIdle.

Inductive LedgerReply : Type :=
| ReplyUnit
| ReplyBool (b : bool)
| ReplySnapshot (s : PoolCounterSnapshot).

(** [Misuse]: a call the protocol of the pools never makes. *)
Inductive LedgerResult (A : Type) : Type :=
| Answer (a : A) (l : Ledger)
| Panics
| Misuse.
Arguments Answer {A} a l.
Arguments Panics {A}.
Arguments Misuse {A}.

Definition led_set_gate (a : Ledger) (g : GateSpec) : Ledger :=
  MkLedger g (led_capacity a) (led_reserved a) (led_queued a) (led_running a)
    (led_cancelling a) (led_completed a) (led_cancelled a).
(** Moves jobs between phases. *)
Definition led_add (a : Ledger) (reserved queued running cancelling completed cancelled : Z) : Ledger :=
  MkLedger (led_gate a) (led_capacity a) (led_reserved a + reserved) (led_queued a + queued)
    (led_running a + running) (led_cancelling a + cancelling) (led_completed a + completed)
    (led_cancelled a + cancelled).

Lemma led_add_add a r q n c d x r' q' n' c' d' x' :
  led_add (led_add a r q n c d x) r' q' n' c' d' x' =
  led_add a (r + r') (q + q') (n + n') (c + c') (d + d') (x + x').
Proof. unfold led_add. cbn. f_equal; lia. Qed.

Lemma led_add_0 a : led_add a 0 0 0 0 0 0 = a.
Proof. destruct a. unfold led_add. cbn. f_equal; lia. Qed.

Definition gate_reply (r : GateReply) : LedgerReply :=
  match r with RBool b => ReplyBool b | _ => ReplyUnit end.

Definition led_through_gate (op : GateOp) (a : Ledger) : LedgerResult LedgerReply :=
  match gate_spec op (led_gate a) with
  | Some (r, g) => Answer (gate_reply r) (led_set_gate a g)
  | None => Panics
  end.

Definition led_snapshot (a : Ledger) : PoolCounterSnapshot :=
  MkPoolCounterSnapshot (spec_inflight (led_gate a)) (led_queued a) (led_running a)
    (led_cancelling a) (led_submitted a) (led_completed a) (led_cancelled a).

(** Nobody is submitting and every slot and phase before completion is empty. *)
Definition led_idle (a : Ledger) : bool :=
  (spec_inflight (led_gate a) =? 0) && (led_reserved a =? 0) && (led_queued a =? 0)
  && (led_running a =? 0) && (led_cancelling a =? 0).

Definition led_reserve (a : Ledger) : LedgerResult LedgerReply :=
  if led_slots a + 1 <? USIZE_MOD then Answer (ReplyBool true) (led_add a 1 0 0 0 0 0) else Misuse.

Definition led_step (op : LedgerOp) (a : Ledger) : LedgerResult LedgerReply :=
  match op with
  | LEnter => led_through_gate GTryEnter a
  | LLeave => led_through_gate GLeave a
  | LClose => led_through_gate GClose a
  | LReserve =>
      match led_capacity a with
      | Some capacity =>
          if led_slots a <? capacity then led_reserve a else Answer (ReplyBool false) a
      | None => led_reserve a
      end
  | LHandoff =>
      match led_reserve a with Answer _ a' => Answer ReplyUnit a' | r => r end
  | LRollback =>
      if 0 <? led_reserved a then Answer ReplyUnit (led_add a (-1) 0 0 0 0 0)
      else if led_slots a =? 0 then Panics else Misuse
  | LPublish =>
      if (0 <? led_reserved a) && (led_submitted a + 1 <? USIZE_MOD)
      then Answer ReplyUnit (led_add a (-1) 1 0 0 0 0) else Misuse
  | LClaim =>
      if 0 <? led_queued a then Answer ReplyUnit (led_add a 0 (-1) 1 0 0 0) else Panics
  | LBeginCancel =>
      if 0 <? led_queued a then Answer ReplyUnit (led_add a 0 (-1) 0 1 0 0) else Panics
  | LFinishCancelled =>
      if 0 <? led_cancelling a then Answer ReplyUnit (led_add a 0 0 0 (-1) 0 1)
      else Panics
  | LFinishRunning =>
      if 0 <? led_running a then Answer ReplyUnit (led_add a 0 0 (-1) 0 1 0) else Panics
  | LSnapshot => Answer (ReplySnapshot (led_snapshot a)) a
  | LIsIdle => Answer (ReplyBool (led_idle a)) a
  end.

Fixpoint led_steps (ops : list LedgerOp) (a : Ledger) : LedgerResult (list LedgerReply) :=
  match ops with
  | [] => Answer [] a
  | op :: ops =>
      match led_step op a with
      | Answer r a1 =>
          match led_steps ops a1 with
          | Answer rs a2 => Answer (r :: rs) a2
          | Panics => Panics
          | Misuse => Misuse
          end
      | Panics => Panics
      | Misuse => Misuse
      end
  end.

(** ** The code behind each operation *)
Definition accounting_op {S} (self : lens S PoolAccounting) (op : LedgerOp) : prog S LedgerReply :=
  match op with
  | LEnter => b <- try_enter self ;; Ret (ReplyBool b)
  | LLeave => b <- leave self ;; Ret (ReplyBool b)
  | LClose => close_admission self ;; Ret ReplyUnit
  | LReserve => b <- try_reserve_bounded_slot self ;; Ret (ReplyBool b)
  | LHandoff => reserve_worker_handoff_slot self ;; Ret ReplyUnit
  | LRollback => rollback_reserved_slot self ;; Ret ReplyUnit
  | LPublish => publish_accepted_job self ;; Ret ReplyUnit
  | LClaim => claim_queued_job self ;; Ret ReplyUnit
  | LBeginCancel => begin_cancel_queued_job self ;; Ret ReplyUnit
  | LFinishCancelled => finish_cancelled_job self ;; Ret ReplyUnit
  | LFinishRunning => finish_running_job self ;; Ret ReplyUnit
  | LSnapshot => s <- snapshot self ;; Ret (ReplySnapshot s)
  | LIsIdle => b <- is_idle self ;; Ret (ReplyBool b)
  end.

Fixpoint accounting_ops {S} (self : lens S PoolAccounting) (ops : list LedgerOp) :
    prog S (list LedgerReply) :=
  match ops with
  | [] => Ret []
  | op :: ops => r <- accounting_op self op ;; rs <- accounting_ops self ops ;; Ret (r :: rs)
  end.

(** ** Representation *)
Record ledger_repr (a : Ledger) (p : PoolAccounting) : Prop := {
  lr_gate : gate_repr (led_gate a) (gate_state (admission p));
  lr_capacity : queue_capacity p = led_capacity a;
  lr_nonneg : 0 <= led_reserved a /\ 0 <= led_queued a /\ 0 <= led_running a /\
    0 <= led_cancelling a /\ 0 <= led_completed a /\ 0 <= led_cancelled a;
  lr_bound : led_slots a < USIZE_MOD /\ led_submitted a < USIZE_MOD;
  lr_slots : queue_slot_count p = led_slots a;
  lr_queued : queued_task_count p = led_queued a;
  lr_running : running_task_count p = led_running a;
  lr_cancelling : cancelling_task_count p = led_cancelling a;
  lr_submitted : submitted_task_count p = led_submitted a;
  lr_completed : completed_task_count p = led_completed a;
  lr_cancelled : cancelled_task_count p = led_cancelled a;
}.

Definition ledger_at {S} (self : lens S PoolAccounting) (a : Ledger) (w : world S) : Prop :=
  ledger_repr a (part self w).

(** Nothing but the accounting changed. *)
Definition only_part {S A} (self : lens S A) (w w' : world S) : Prop :=
  w_state w' = set self (part self w') (w_state w) /\ w_spawned w' = w_spawned w.

Lemma only_part_refl {S A} (self : lens S A) `{!LensLaws self} w : only_part self w w.
Proof. split; [unfold part; by rewrite set_get|done]. Qed.

Lemma only_part_trans {S A} (self : lens S A) `{!LensLaws self} w1 w2 w3 :
  only_part self w1 w2 -> only_part self w2 w3 -> only_part self w1 w3.
Proof.
  intros [H1 H1'] [H2 H2']. split; [|congruence]. rewrite H2 at 1. rewrite H1. by rewrite set_set.
Qed.

Lemma only_part_with {S A} (self : lens S A) `{!LensLaws self} a w :
  only_part self w (with_part self a w).
Proof. split; [|done]. by rewrite (part_with self). Qed.

Lemma only_part_comp {S A B} (self : lens S A) (l : lens A B) `{!LensLaws self, !LensLaws l} w w' :
  only_part (self ⊚ l) w w' -> only_part self w w'.
Proof. intros [H Hs]. split; [|done]. unfold part in *. rewrite H. cbn. by rewrite !get_set. Qed.

Ltac ledger_repr_solve :=
  constructor; cbn in *; unfold led_slots, led_submitted in *; cbn in *; try done; try congruence;
  rewrite ?wrap_small by (unfold in_usize; lia); lia.

Section refinement.
Context {S : Type} (self : lens S PoolAccounting) `{!LensLaws self}.
Implicit Types (a : Ledger) (w : world S).

(** What one operation does to a world that represents [a]. *)
Definition implements {R} (t : nat) (p : prog S R) (res : LedgerResult R) w : Prop :=
  match res with
  | Answer r a' => exists w', runs t p w (Returned r w') /\ ledger_at self a' w' /\ only_part self w w'
  | Panics => exists w', runs t p w (Panicked w')
  | Misuse => True
  end.

(** Counter operations end in a world where only the accounting changed. *)
Lemma implements_answer {R} t (p : prog S R) w r a' p' :
  runs t p w (Returned r (with_part self p' w)) -> ledger_repr a' p' ->
  implements t p (Answer r a') w.
Proof.
  intros Hr Ha. eexists. split; [exact Hr|]. split; [|by apply only_part_with].
  unfold ledger_at. by rewrite part_with.
Qed.

Lemma implements_same {R} t (p : prog S R) w r a :
  runs t p w (Returned r w) -> ledger_at self a w -> implements t p (Answer r a) w.
Proof. intros Hr Ha. exists w. split; [done|]. split; [done|by apply only_part_refl]. Qed.

Lemma ledger_gate a w : ledger_at self a w -> gate_at (self ⊚ admission_l) (led_gate a) w.
Proof. intros Ha. apply (lr_gate _ _ Ha). Qed.

Lemma implements_gate t op (f : GateReply -> LedgerReply) (p : prog S LedgerReply) a w :
  ledger_at self a w ->
  (forall o, runs t (r <- gate_op (self ⊚ admission_l) op ;; Ret (f r)) w o -> runs t p w o) ->
  implements t p (match gate_spec op (led_gate a) with
                  | Some (r, g) => Answer (f r) (led_set_gate a g)
                  | None => Panics
                  end) w.
Proof.
  intros Ha Hp. destruct (gate_op_run (self ⊚ admission_l) t w _ op (ledger_gate _ _ Ha)) as [n Hn].
  destruct (gate_spec op (led_gate a)) as [[r g]|].
  - destruct Hn as (w' & Hr & Hg & [Ho Hs]). exists w'. split; [|split].
    + apply Hp. eapply runs_bind; [|apply runs_ret]. split; [done|]. by exists n.
    + unfold ledger_at, part, gate_at in *. rewrite Ho in Hg |- *. cbn in *. rewrite !get_set in *.
      destruct Ha. by constructor.
    + apply (only_part_comp self admission_l). by split.
  - destruct Hn as (w' & Hr). exists w'. apply Hp. apply runs_bind_panic. split; [done|]. by exists n.
Qed.

End refinement.

Section operations.
Context {S : Type} (self : lens S PoolAccounting) `{!LensLaws self}.
Implicit Types (a : Ledger) (w : world S).

Lemma count_ops_implement t op a w :
  ledger_at self a w ->
  op = LClaim \/ op = LBeginCancel \/ op = LFinishCancelled \/ op = LFinishRunning ->
  implements self t (accounting_op self op) (led_step op a) w.
Proof.
  intros Ha Hop. pose proof Ha as [Hg Hcap Hnn Hb E1 E2 E3 E4 E5 E6 E7].
  destruct Hop as [->|[->|[->| ->]]]; cbn [accounting_op led_step];
  unfold claim_queued_job, begin_cancel_queued_job, finish_cancelled_job, finish_running_job, rollback_reserved_slot;
  match goal with |- implements _ _ _ (if 0 <? ?x then _ else _) _ => destruct (Z.ltb_spec 0 x) end; unfold led_slots, led_submitted in *.
  all: first [eapply implements_answer; [apply _|repeat seq_step|]; ledger_repr_solve
             |eexists; repeat seq_step].
Qed.

Lemma reserve_implements {R} t (r : R) a w :
  ledger_at self a w ->
  implements self t (fetch_add (self ⊚ queue_slot_count_l) 1 ;; Ret r)
    (match led_reserve a with Answer _ a' => Answer r a' | _ => Misuse end) w.
Proof.
  intros Ha. pose proof Ha as [Hg Hcap Hnn Hb E1 E2 E3 E4 E5 E6 E7]. unfold led_reserve.
  destruct (Z.ltb_spec (led_slots a + 1) USIZE_MOD); [|done]. unfold led_slots, led_submitted in *.
  eapply implements_answer; [apply _|repeat seq_step|]. ledger_repr_solve.
Qed.

Lemma runs_capacity {B} t (k : option Z -> prog S B) a w o :
  ledger_at self a w -> runs t (k (led_capacity a)) w o -> runs t (bind (accounting_queue_capacity self) k) w o.
Proof.
  intros Ha Hk. eapply runs_bind; [apply (runs_read self queue_capacity)|].
  by rewrite (lr_capacity _ _ Ha).
Qed.

Lemma slot_ops_implement t op a w :
  ledger_at self a w ->
  op = LReserve \/ op = LHandoff \/ op = LRollback \/ op = LPublish ->
  implements self t (accounting_op self op) (led_step op a) w.
Proof.
  intros Ha Hop. pose proof Ha as [Hg Hcap Hnn Hb E1 E2 E3 E4 E5 E6 E7].
  destruct Hop as [->|[->|[->| ->]]]; cbn [accounting_op led_step].
  - unfold try_reserve_bounded_slot.
    assert (Hk : forall x (k : option Z -> prog S LedgerReply), implements self t (k (led_capacity a)) x w ->
      implements self t (bind (accounting_queue_capacity self) k) x w).
    { intros [r a'| |] k; cbn; [|intros (w' & Hr)|done]; [intros (w' & Hr & Hw)|]; exists w';
        [split; [|exact Hw]|]; by eapply runs_capacity. }
    rewrite bind_assoc. apply Hk. destruct (led_capacity a) as [c|] eqn:Hc.
    + rewrite bind_assoc. pose proof (runs_fetch_update self queue_slot_count_l
        (fun current => if current <? c then Some (current + 1) else None) t w) as Hf.
      cbn in Hf. rewrite E1 in Hf. destruct (Z.ltb_spec (led_slots a) c) as [Hlt|Hge].
      * unfold led_reserve. destruct (Z.ltb_spec (led_slots a + 1) USIZE_MOD); [|done].
        unfold led_slots, led_submitted in *. eapply implements_answer; [apply _| |].
        { eapply runs_bind; [exact Hf|cbn [bind is_ok]; apply runs_ret]. }
        ledger_repr_solve.
      * eapply implements_same; [apply _| |exact Ha].
        eapply runs_bind; [exact Hf|cbn [bind is_ok]; apply runs_ret].
    + unfold reserve_worker_handoff_slot. rewrite !bind_assoc. cbn [bind].
      pose proof (reserve_implements t (ReplyBool true) a w Ha) as Hr. unfold led_reserve in *.
      by destruct (_ <? _).
  - unfold reserve_worker_handoff_slot. rewrite !bind_assoc. cbn [bind].
    pose proof (reserve_implements t ReplyUnit a w Ha) as Hr. unfold led_reserve in *.
      by destruct (_ <? _).
  - unfold rollback_reserved_slot. destruct (Z.ltb_spec 0 (led_reserved a)).
    + unfold led_slots, led_submitted in *. eapply implements_answer; [apply _|repeat seq_step|].
      ledger_repr_solve.
    + destruct (Z.eqb_spec (led_slots a) 0); [|done]. eexists. repeat seq_step.
  - unfold publish_accepted_job. destruct (Z.ltb_spec 0 (led_reserved a)); [|done].
    destruct (Z.ltb_spec (led_submitted a + 1) USIZE_MOD); [|done]. cbn [andb].
    unfold led_slots, led_submitted in *. eapply implements_answer; [apply _|repeat seq_step|].
    ledger_repr_solve.
Qed.

Lemma runs_inflight {B} t (k : Z -> prog S B) a w o :
  ledger_at self a w -> runs t (k (spec_inflight (led_gate a))) w o ->
  runs t (bind (inflight_count self) k) w o.
Proof.
  intros Ha Hk. unfold inflight_count, gate_inflight_count. rewrite bind_assoc.
  eapply runs_bind; [apply runs_load; apply _|]. cbn [bind].
  change (get gate_state_l (part (self ⊚ admission_l) w)) with (gate_state (admission (part self w))).
  by rewrite (gate_word_count _ _ (lr_gate _ _ Ha)).
Qed.

Lemma read_ops_implement t op a w :
  ledger_at self a w -> op = LSnapshot \/ op = LIsIdle ->
  implements self t (accounting_op self op) (led_step op a) w.
Proof.
  intros Ha Hop. pose proof Ha as [Hg Hcap Hnn Hb E1 E2 E3 E4 E5 E6 E7].
  destruct Hop as [->| ->]; cbn [accounting_op led_step]; eapply implements_same; [apply _| |exact Ha|apply _| |exact Ha].
  - unfold snapshot, queued_count, running_count, led_snapshot. rewrite bind_assoc. eapply runs_inflight; [exact Ha|].
    rewrite <- E2, <- E3, <- E4, <- E5, <- E6, <- E7. repeat seq_step.
  - unfold is_idle, running_count, led_idle. rewrite bind_assoc. eapply runs_inflight; [exact Ha|].
    destruct (Z.eqb_spec (spec_inflight (led_gate a)) 0); cbn [negb andb]; [|repeat seq_step].
    repeat seq_step. cbn [get queue_slot_count_l]. rewrite E1. unfold led_slots.
    destruct (Z.eqb_spec (led_reserved a + led_queued a + led_cancelling a) 0) as [H0|H0]; cbn [negb].
    + replace (led_reserved a) with 0 by lia. replace (led_queued a) with 0 by lia.
      replace (led_cancelling a) with 0 by lia. repeat seq_step. cbn [get running_task_count_l]. rewrite E3.
      destruct (Z.eqb_spec (led_running a) 0); cbn [negb andb Z.eqb]; repeat seq_step.
      cbn [get cancelling_task_count_l]. rewrite E4. replace (led_cancelling a) with 0 by lia. apply runs_ret.
    + match goal with |- runs _ _ _ (Returned (ReplyBool ?b) _) => replace b with false by lia end. repeat seq_step.
Qed.

Lemma accounting_op_implements t op a w :
  ledger_at self a w -> implements self t (accounting_op self op) (led_step op a) w.
Proof.
  intros Ha. destruct op; try by (apply slot_ops_implement; tauto).
  all: try by (apply count_ops_implement; tauto).
  all: try by (apply read_ops_implement; tauto).
  all: eapply (implements_gate self t _ gate_reply); [exact Ha|]; intros o; cbn [gate_op accounting_op].
  all: rewrite bind_assoc; cbn [bind]; exact id.
Qed.

End operations.


(** A bounded ledger of capacity one through a rejection, a cancellation and a run. *)
Definition ledger_demo_ops : list LedgerOp :=
  [LEnter; LReserve; LReserve; LPublish; LHandoff; LPublish; LLeave; LClaim; LIsIdle; LBeginCancel;
   LFinishCancelled; LFinishRunning; LIsIdle; LClose; LEnter; LSnapshot].
Definition ledger_empty (cap : option Z) : Ledger := MkLedger (MkGateSpec true 0) cap 0 0 0 0 0 0.

