(* ===== verification/AccountingLogic.v ===== *)
(** Ghost accounting: which phase of its life every submission and job is in,
    who holds it, and the invariant that ties the counters to the phases. *)
From S2P Require Import Prelude Prog Conc Sync AdmissionGate PoolAccounting.
Local Open Scope Z_scope.

(** The life of a submission, one phase per atomic counter update:
    [Inside] admission; slot [Reserved]; [Published] (counted as submitted);
    [Waiting] in the queue; [Claimed] (off the queued counter), [Starting]
    (on the running counter, slot still held), [Running], [Finishing]
    (counted as completed); or [Dequeued], [Cancelling], [CancelCounted],
    [CancelDone] (slot still held). *)
Inductive phase : Type :=
| Inside | Reserved | Published | Waiting
| Claimed | Starting | Running | Finishing
| Dequeued | Cancelling | CancelCounted | CancelDone.

(** Contribution indices.  [Old]: the submission entered admission no later
    than the observed moment; [New]: after it.  [Late]: the holder knows that
    moment has passed.  [KnowInside], [KnowSlots], [KnowAll]: the holder has
    seen that no old submission is inside, none holds a slot, none is left.
    [KnowClosed]: the holder has seen admission closed. *)
Inductive idx : Type :=
| New (p : phase) | Old (p : phase)
| Late | KnowInside | KnowSlots | KnowAll | KnowClosed.

Definition phase_eqb (p q : phase) : bool :=
  match p, q with
  | Inside, Inside | Reserved, Reserved | Published, Published | Waiting, Waiting
  | Claimed, Claimed | Starting, Starting | Running, Running | Finishing, Finishing
  | Dequeued, Dequeued | Cancelling, Cancelling | CancelCounted, CancelCounted
  | CancelDone, CancelDone => true
  | _, _ => false
  end.

Definition idx_eqb (i j : idx) : bool :=
  match i, j with
  | New p, New q | Old p, Old q => phase_eqb p q
  | Late, Late | KnowInside, KnowInside | KnowSlots, KnowSlots | KnowAll, KnowAll
  | KnowClosed, KnowClosed => true
  | _, _ => false
  end.

Abbreviation tok := (idx -> nat) (only parsing).

Definition tok0 : tok := fun _ => 0%nat.
Definition one (i : idx) : tok := fun j => if idx_eqb i j then 1%nat else 0%nat.
Definition tadd (g h : tok) : tok := fun i => (g i + h i)%nat.

(** [o = true]: an old submission. *)
Definition ix (o : bool) (p : phase) : idx := if o then Old p else New p.
Definition tk (o : bool) (p : phase) : tok := one (ix o p).

Definition total (G : list tok) (i : idx) : nat := sum_with (fun g => g i) G.

Definition newp (t : tok) (p : phase) : nat := t (New p).
Definition oldp (t : tok) (p : phase) : nat := t (Old p).
Definition all (t : tok) (p : phase) : nat := (t (New p) + t (Old p))%nat.

Definition slots_of (f : phase -> nat) : nat :=
  (f Reserved + f Published + f Waiting + f Claimed + f Starting +
   f Dequeued + f Cancelling + f CancelCounted + f CancelDone)%nat.
Definition running_of (f : phase -> nat) : nat := (f Starting + f Running + f Finishing)%nat.
(** Published jobs not yet counted as completed or cancelled. *)
Definition unfinished_of (f : phase -> nat) : nat :=
  (f Published + f Waiting + f Claimed + f Starting + f Running + f Dequeued + f Cancelling)%nat.
Definition size_of (f : phase -> nat) : nat :=
  (f Inside + slots_of f + f Running + f Finishing)%nat.

(** The state at time [T] of a history (the latest state being [s]). *)
Definition at_time {S} (T : nat) (h : list S) (s : S) : option S :=
  if decide (T <= length h)%nat then (s :: h) !! (length h - T)%nat else None.

Lemma at_time_exec {S} sched (h : list S) c h' c' :
  exec sched h c = Some (h', c') -> at_time (length h) h' (shared c') = Some (shared c).
Proof.
  intros He. pose proof (exec_length _ _ _ _ _ He) as Hlen.
  destruct (exec_extends _ _ _ _ _ He) as (pre & Hpre & Hl). unfold at_time.
  rewrite decide_True by lia. rewrite Hpre, lookup_app_r by lia.
  replace (length h' - length h - length pre)%nat with 0%nat by lia. done.
Qed.

Section inv.
Context {S : Type}.
Variable self : lens S PoolAccounting.
(** the observed moment *)
Variable T : nat.
(** the queue limit the pool was built with *)
Variable cap : option Z.
(** whether every slot is reserved under the capacity limit *)
Variable strict : bool.

Record acct_inv (h : list S) (s : S) (t : tok) : Prop := {
  ai_gate : exists open,
    gate_repr (MkGateSpec open (Z.of_nat (all t Inside))) (gate_state (admission (get self s))) /\
    (t KnowClosed <> 0%nat -> open = false);
  ai_slots : queue_slot_count (get self s) = Z.of_nat (slots_of (all t));
  ai_queued : queued_task_count (get self s) = Z.of_nat (all t Waiting);
  ai_running : running_task_count (get self s) = Z.of_nat (running_of (all t));
  ai_cancelling : cancelling_task_count (get self s) =
    Z.of_nat (all t Cancelling + all t CancelCounted);
  ai_conserve : submitted_task_count (get self s) =
    completed_task_count (get self s) + cancelled_task_count (get self s)
    + Z.of_nat (unfinished_of (all t));
  ai_nonneg : 0 <= completed_task_count (get self s) /\ 0 <= cancelled_task_count (get self s);
  ai_time : Z.of_nat (size_of (all t)) <= Z.of_nat (length h) /\
    submitted_task_count (get self s) <= Z.of_nat (length h);
  ai_cap : queue_capacity (get self s) = cap;
  ai_strict : strict = true -> forall c, cap = Some c ->
    queue_slot_count (get self s) <= c \/ queue_slot_count (get self s) = 0;
  ai_fresh : (length h <= T)%nat -> size_of (newp t) = 0%nat;
  ai_past : forall sT, at_time T h s = Some sT ->
    submitted_task_count (get self sT) <=
    completed_task_count (get self s) + cancelled_task_count (get self s)
    + Z.of_nat (unfinished_of (oldp t));
  ai_late : t Late <> 0%nat -> (T <= length h)%nat;
  ai_know_inside : t KnowInside <> 0%nat -> (T <= length h)%nat /\ t (Old Inside) = 0%nat;
  ai_know_slots : t KnowSlots <> 0%nat ->
    (T <= length h)%nat /\ t (Old Inside) = 0%nat /\ slots_of (oldp t) = 0%nat;
  ai_know_all : t KnowAll <> 0%nat ->
    (T <= length h)%nat /\ t (Old Inside) = 0%nat /\ slots_of (oldp t) = 0%nat /\
    running_of (oldp t) = 0%nat;
}.

End inv.

Lemma total_insert G k g g' i :
  G !! k = Some g -> total (<[k := g']> G) i = (total G i - g i + g' i)%nat.
Proof.
  intros H. unfold total. pose proof (sum_with_insert (fun g => g i) G k g g' H) as Hs. cbn in Hs.
  pose proof (sum_with_lookup (fun g => g i) G k g H). cbn in *. lia.
Qed.

Lemma total_lookup G k g i : G !! k = Some g -> (g i <= total G i)%nat.
Proof. intros H. exact (sum_with_lookup (fun g => g i) G k g H). Qed.

Lemma at_time_cons {S} T (h : list S) s s' :
  (T <= length h)%nat -> at_time T (s :: h) s' = at_time T h s.
Proof.
  intros H. unfold at_time. cbn [length]. rewrite !decide_True by lia.
  by replace (Datatypes.S (length h) - T)%nat with (Datatypes.S (length h - T)) by lia.
Qed.

Lemma at_time_now {S} T (h : list S) s : length h = T -> at_time T h s = Some s.
Proof. intros <-. unfold at_time. rewrite decide_True by lia. by rewrite Nat.sub_diag. Qed.

Lemma at_time_past {S} T (h : list S) s : (length h < T)%nat -> at_time T h s = None.
Proof. intros H. unfold at_time. rewrite decide_False by lia. done. Qed.

(** ** Steps of the accounting *)

(** [t'] is [t] with [src] replaced by [dst]. *)
Definition moves (src dst t t' : tok) : Prop :=
  forall i, (src i <= t i)%nat /\ (t' i + src i = t i + dst i)%nat.

Lemma total_moves G k g g' src dst :
  G !! k = Some g -> moves src dst g g' -> moves src dst (total G) (total (<[k := g']> G)).
Proof.
  intros Hg Hm i. rewrite (total_insert _ _ _ _ _ Hg). pose proof (total_lookup _ _ _ i Hg).
  destruct (Hm i). split; lia.
Qed.

(** The quantities of the invariant are sums of contributions, so a move
    changes them by what it takes and what it adds. *)
Record moved (src dst t t' : tok) : Prop := {
  mv_inside : (all t' Inside + all src Inside = all t Inside + all dst Inside)%nat;
  mv_slots : (slots_of (all t') + slots_of (all src) = slots_of (all t) + slots_of (all dst))%nat;
  mv_waiting : (all t' Waiting + all src Waiting = all t Waiting + all dst Waiting)%nat;
  mv_running : (running_of (all t') + running_of (all src) = running_of (all t) + running_of (all dst))%nat;
  mv_cancelling : (all t' Cancelling + all t' CancelCounted + (all src Cancelling + all src CancelCounted) =
    all t Cancelling + all t CancelCounted + (all dst Cancelling + all dst CancelCounted))%nat;
  mv_unfinished : (unfinished_of (all t') + unfinished_of (all src) =
    unfinished_of (all t) + unfinished_of (all dst))%nat;
  mv_size : (size_of (all t') + size_of (all src) = size_of (all t) + size_of (all dst))%nat;
  mv_new : (size_of (newp t') + size_of (newp src) = size_of (newp t) + size_of (newp dst))%nat;
  mv_old_inside : (t' (Old Inside) + src (Old Inside) = t (Old Inside) + dst (Old Inside))%nat;
  mv_old_slots : (slots_of (oldp t') + slots_of (oldp src) = slots_of (oldp t) + slots_of (oldp dst))%nat;
  mv_old_running : (running_of (oldp t') + running_of (oldp src) =
    running_of (oldp t) + running_of (oldp dst))%nat;
  mv_old_unfinished : (unfinished_of (oldp t') + unfinished_of (oldp src) =
    unfinished_of (oldp t) + unfinished_of (oldp dst))%nat;
  mv_late : (t' Late + src Late = t Late + dst Late)%nat;
  mv_know_inside : (t' KnowInside + src KnowInside = t KnowInside + dst KnowInside)%nat;
  mv_know_slots : (t' KnowSlots + src KnowSlots = t KnowSlots + dst KnowSlots)%nat;
  mv_know_all : (t' KnowAll + src KnowAll = t KnowAll + dst KnowAll)%nat;
  mv_know_closed : (t' KnowClosed + src KnowClosed = t KnowClosed + dst KnowClosed)%nat;
  mv_le : (all src Inside <= all t Inside)%nat /\ (slots_of (all src) <= slots_of (all t))%nat /\
    (running_of (all src) <= running_of (all t))%nat /\ (src (Old Inside) <= t (Old Inside))%nat /\
    (slots_of (oldp src) <= slots_of (oldp t))%nat /\ (running_of (oldp src) <= running_of (oldp t))%nat /\
    (size_of (newp src) <= size_of (newp t))%nat;
}.

Lemma moves_moved src dst t t' : moves src dst t t' -> moved src dst t t'.
Proof.
  intros H.
  assert (HN : forall p, (newp src p <= newp t p /\ newp t' p + newp src p = newp t p + newp dst p)%nat)
    by (intros; apply H).
  assert (HO : forall p, (oldp src p <= oldp t p /\ oldp t' p + oldp src p = oldp t p + oldp dst p)%nat)
    by (intros; apply H).
  assert (HA : forall p, (all src p <= all t p /\ all t' p + all src p = all t p + all dst p)%nat).
  { intros p. specialize (HN p). specialize (HO p). unfold all, newp, oldp in *. lia. }
  assert (Hlin : forall f' fs f fd : phase -> nat,
    (forall p, (fs p <= f p /\ f' p + fs p = f p + fd p)%nat) ->
    (slots_of fs <= slots_of f)%nat /\ (running_of fs <= running_of f)%nat /\ (size_of fs <= size_of f)%nat /\
    (slots_of f' + slots_of fs = slots_of f + slots_of fd)%nat /\
    (running_of f' + running_of fs = running_of f + running_of fd)%nat /\
    (unfinished_of f' + unfinished_of fs = unfinished_of f + unfinished_of fd)%nat /\
    (size_of f' + size_of fs = size_of f + size_of fd)%nat).
  { intros f' fs f fd Hf. pose proof (Hf Inside); pose proof (Hf Reserved); pose proof (Hf Published).
    pose proof (Hf Waiting); pose proof (Hf Claimed); pose proof (Hf Starting).
    pose proof (Hf Running); pose proof (Hf Finishing); pose proof (Hf Dequeued).
    pose proof (Hf Cancelling); pose proof (Hf CancelCounted); pose proof (Hf CancelDone).
    unfold size_of, slots_of, running_of, unfinished_of. repeat split; lia. }
  pose proof (Hlin _ _ _ _ HA) as (?&?&?&?&?&?&?). pose proof (Hlin _ _ _ _ HN) as (?&?&?&?&?&?&?).
  pose proof (Hlin _ _ _ _ HO) as (?&?&?&?&?&?&?).
  split; try assumption; try apply HA; try apply H.
  - pose proof (HA Cancelling). pose proof (HA CancelCounted). lia.
  - repeat split; try assumption; try apply HA; apply H.
Qed.

Lemma all_split t :
  unfinished_of (all t) = (unfinished_of (newp t) + unfinished_of (oldp t))%nat /\
  (unfinished_of (newp t) <= size_of (newp t))%nat /\
  (unfinished_of (all t) <= size_of (all t))%nat /\
  (all t Inside <= size_of (all t))%nat /\
  (slots_of (all t) <= size_of (all t))%nat /\
  (all t Waiting <= slots_of (all t))%nat /\
  (running_of (all t) <= size_of (all t))%nat /\
  (all t Cancelling + all t CancelCounted <= slots_of (all t))%nat.
Proof. unfold unfinished_of, size_of, slots_of, running_of, all, newp, oldp. lia. Qed.

Lemma in_time_le {S} (h : list S) : in_time h -> Z.of_nat (length h) + 1 < 2 ^ 63.
Proof. unfold in_time, STEP_BOUND. lia. Qed.

Lemma wrap_time {S} n (h : list S) :
  in_time h -> 0 <= n <= Z.of_nat (length h) + 1 -> wrap n = n.
Proof.
  intros Ht Hn. apply in_time_le in Ht. apply wrap_small. unfold in_usize.
  change USIZE_MOD with (2 ^ 64). lia.
Qed.

(** Evaluates the measures of concrete contributions. *)
Ltac eval_measures :=
  cbn [all newp oldp tk ix one tok0 tadd slots_of running_of unfinished_of size_of
       idx_eqb phase_eqb Nat.add] in *;
  repeat match goal with
         | H : context [newp tok0 ?p] |- _ => change (newp tok0 p) with 0%nat in H
         | H : context [oldp tok0 ?p] |- _ => change (oldp tok0 p) with 0%nat in H
         | H : context [tok0 ?i] |- _ => change (tok0 i) with 0%nat in H
         end.

Section steps.
Context {S : Type} (self : lens S PoolAccounting) `{!LensLaws self} (T : nat) (cap : option Z) (strict : bool).
Local Abbreviation inv := (acct_inv self T cap strict).

(** What an update [a ==> a'] of the counters by a move has to satisfy. *)
Lemma acct_step h s s' t t' src dst :
  in_time h -> inv h s t -> moves src dst t t' ->
  let a := get self s in let a' := get self s' in
  (moved src dst t t' ->
   (exists open, gate_repr (MkGateSpec open (Z.of_nat (all t' Inside))) (gate_state (admission a')) /\
      (t' KnowClosed <> 0%nat -> open = false)) /\
   queue_slot_count a' = Z.of_nat (slots_of (all t')) /\
   queued_task_count a' = Z.of_nat (all t' Waiting) /\
   running_task_count a' = Z.of_nat (running_of (all t')) /\
   cancelling_task_count a' = Z.of_nat (all t' Cancelling + all t' CancelCounted) /\
   submitted_task_count a' = completed_task_count a' + cancelled_task_count a'
     + Z.of_nat (unfinished_of (all t')) /\
   completed_task_count a <= completed_task_count a' /\
   cancelled_task_count a <= cancelled_task_count a' /\
   completed_task_count a + cancelled_task_count a + Z.of_nat (unfinished_of (oldp t)) <=
     completed_task_count a' + cancelled_task_count a' + Z.of_nat (unfinished_of (oldp t')) /\
   submitted_task_count a' <= submitted_task_count a + 1 /\
   (size_of (all t') <= Datatypes.S (size_of (all t)))%nat /\
   queue_capacity a' = queue_capacity a /\
   (strict = true -> forall c, cap = Some c ->
      queue_slot_count a' <= c \/ queue_slot_count a' = 0)) ->
  ((Datatypes.S (length h) <= T)%nat -> size_of (newp t') = 0%nat) ->
  (t' Late <> 0%nat -> (T <= Datatypes.S (length h))%nat) ->
  (t' KnowInside <> 0%nat -> (T <= Datatypes.S (length h))%nat /\ t' (Old Inside) = 0%nat) ->
  (t' KnowSlots <> 0%nat -> (T <= Datatypes.S (length h))%nat /\ t' (Old Inside) = 0%nat /\
    slots_of (oldp t') = 0%nat) ->
  (t' KnowAll <> 0%nat -> (T <= Datatypes.S (length h))%nat /\ t' (Old Inside) = 0%nat /\
    slots_of (oldp t') = 0%nat /\ running_of (oldp t') = 0%nat) ->
  inv (s :: h) s' t'.
Proof.
  intros Ht Hi Hm a a'; subst a a'; intros Hc Hfr HL H1 H2 H3. apply moves_moved in Hm. specialize (Hc Hm).
  destruct Hc as (Hg & Hs & Hq & Hr & Hca & Hco & Hd1 & Hd2 & Hpast & Hsub & Hsz & Hcap & Hst).
  pose proof (ai_cap _ _ _ _ _ _ _ Hi).
  pose proof (ai_nonneg _ _ _ _ _ _ _ Hi). pose proof (ai_time _ _ _ _ _ _ _ Hi).
  constructor; try assumption; cbn [length]; try (exact H1 || exact H2 || exact H3).
  - lia.
  - lia.
  - congruence.
  - intros sT Hat. destruct (decide (T <= length h)%nat) as [Hp|Hp].
    + rewrite at_time_cons in Hat by done. pose proof (ai_past _ _ _ _ _ _ _ Hi sT Hat).
      lia.
    + destruct (decide (Datatypes.S (length h) = T)) as [Heq|].
      * rewrite at_time_now in Hat by done. simplify_eq.  rewrite Hco.
        specialize (Hfr ltac:(lia)). pose proof (all_split t'). lia.
      * rewrite at_time_past in Hat by (cbn; lia). done.
Qed.
End steps.

Ltac acct_open Hi Hm :=
  let Hg := fresh "Hgate" in
  pose proof Hi as Hi0; destruct Hi0 as [(op & Hg & Hkc) Hslots Hqueued Hrunning Hcanc Hcons [Hnn1 Hnn2]
    [Htm1 Htm2] Hcapacity Hstrict Hfresh _ Hlate Hki Hks Hka];
  pose proof (moves_moved _ _ _ _ Hm) as Hmv;
  destruct Hmv as [Hm1 Hm2 Hm3 Hm4 Hm5 Hm6 Hm7 Hm8 Hm9 Hm10 Hm11 Hm12 Hm13 Hm14 Hm15 Hm16 Hm17 Hmle].

Ltac acct_same_gate :=
  eexists; split; [|intros; match goal with Hkc : _ -> _ = false |- _ => apply Hkc; lia end];
  match goal with
  | Hg : gate_repr (MkGateSpec _ (Z.of_nat ?a)) ?w |- gate_repr (MkGateSpec _ (Z.of_nat ?b)) ?w =>
      replace b with a by lia; exact Hg
  end.

(** Closes the obligations of [acct_step] for an update of one counter. *)
Ltac acct_close :=
  eapply acct_step; [eassumption|eassumption|eassumption|..];
  cbn [set get lens_comp]; rewrite ?get_set; cbn;
  [ intros _; split; [ acct_same_gate | repeat split; try lia ] | try lia ..];
  try done.

Ltac acct_update o t h Ht Hi Hm :=
  acct_open Hi Hm; pose proof (all_split t);
  destruct o; eval_measures; cbn;
  match goal with |- context [wrap ?x] => rewrite (wrap_time x h Ht) by lia end;
  acct_close.

Section counter_steps.
Context {S : Type} (self : lens S PoolAccounting) `{!LensLaws self} (T : nat) (cap : option Z) (strict : bool).
Local Abbreviation inv := (acct_inv self T cap strict).
Implicit Types (h : list S) (s : S) (t : tok) (o : bool).

Local Abbreviation bump l n s := (set (self ⊚ l) (wrap (get (self ⊚ l) s + n)) s) (only parsing).
Local Abbreviation drop l n s := (set (self ⊚ l) (wrap (get (self ⊚ l) s - n)) s) (only parsing).

Lemma publish_submitted h s t t' o :
  in_time h -> inv h s t -> moves (tk o Reserved) (tk o Published) t t' ->
  inv (s :: h) (bump submitted_task_count_l 1 s) t'.
Proof. intros Ht Hi Hm. acct_update o t h Ht Hi Hm. Qed.

Lemma publish_queued h s t t' o :
  in_time h -> inv h s t -> moves (tk o Published) (tk o Waiting) t t' ->
  inv (s :: h) (bump queued_task_count_l 1 s) t'.
Proof. intros Ht Hi Hm. acct_update o t h Ht Hi Hm. Qed.

Lemma claim_queued h s t t' o :
  in_time h -> inv h s t -> moves (tk o Waiting) (tk o Claimed) t t' ->
  inv (s :: h) (drop queued_task_count_l 1 s) t'.
Proof. intros Ht Hi Hm. acct_update o t h Ht Hi Hm. Qed.

Lemma claim_running h s t t' o :
  in_time h -> inv h s t -> moves (tk o Claimed) (tk o Starting) t t' ->
  inv (s :: h) (bump running_task_count_l 1 s) t'.
Proof. intros Ht Hi Hm. acct_update o t h Ht Hi Hm. Qed.

Lemma cancel_dequeue h s t t' o :
  in_time h -> inv h s t -> moves (tk o Waiting) (tk o Dequeued) t t' ->
  inv (s :: h) (drop queued_task_count_l 1 s) t'.
Proof. intros Ht Hi Hm. acct_update o t h Ht Hi Hm. Qed.

Lemma cancel_cancelling h s t t' o :
  in_time h -> inv h s t -> moves (tk o Dequeued) (tk o Cancelling) t t' ->
  inv (s :: h) (bump cancelling_task_count_l 1 s) t'.
Proof. intros Ht Hi Hm. acct_update o t h Ht Hi Hm. Qed.

Lemma cancel_counted h s t t' o :
  in_time h -> inv h s t -> moves (tk o Cancelling) (tk o CancelCounted) t t' ->
  inv (s :: h) (bump cancelled_task_count_l 1 s) t'.
Proof. intros Ht Hi Hm. acct_update o t h Ht Hi Hm. Qed.

Lemma cancel_done h s t t' o :
  in_time h -> inv h s t -> moves (tk o CancelCounted) (tk o CancelDone) t t' ->
  inv (s :: h) (drop cancelling_task_count_l 1 s) t'.
Proof. intros Ht Hi Hm. acct_update o t h Ht Hi Hm. Qed.

Lemma finish_counted h s t t' o :
  in_time h -> inv h s t -> moves (tk o Running) (tk o Finishing) t t' ->
  inv (s :: h) (bump completed_task_count_l 1 s) t'.
Proof. intros Ht Hi Hm. acct_update o t h Ht Hi Hm. Qed.

Lemma finish_running h s t t' o :
  in_time h -> inv h s t -> moves (tk o Finishing) tok0 t t' ->
  inv (s :: h) (drop running_task_count_l 1 s) t'.
Proof. intros Ht Hi Hm. acct_update o t h Ht Hi Hm. Qed.

(** The three ways a slot is given back: acceptance failed, the job runs,
    its cancellation is over. *)
Lemma slot_rollback h s t t' o :
  in_time h -> inv h s t -> moves (tk o Reserved) tok0 t t' ->
  inv (s :: h) (drop queue_slot_count_l 1 s) t'.
Proof. intros Ht Hi Hm. acct_update o t h Ht Hi Hm. all: intros Hs c Hc; specialize (Hstrict Hs c Hc); lia. Qed.

Lemma slot_claim h s t t' o :
  in_time h -> inv h s t -> moves (tk o Starting) (tk o Running) t t' ->
  inv (s :: h) (drop queue_slot_count_l 1 s) t'.
Proof. intros Ht Hi Hm. acct_update o t h Ht Hi Hm. all: intros Hs c Hc; specialize (Hstrict Hs c Hc); lia. Qed.

Lemma slot_cancelled h s t t' o :
  in_time h -> inv h s t -> moves (tk o CancelDone) tok0 t t' ->
  inv (s :: h) (drop queue_slot_count_l 1 s) t'.
Proof. intros Ht Hi Hm. acct_update o t h Ht Hi Hm. all: intros Hs c Hc; specialize (Hstrict Hs c Hc); lia. Qed.
End counter_steps.

Section gate_steps.
Context {S : Type} (self : lens S PoolAccounting) `{!LensLaws self} (T : nat) (cap : option Z) (strict : bool).
Local Abbreviation inv := (acct_inv self T cap strict).
Implicit Types (h : list S) (s : S) (t : tok) (o : bool).

Local Abbreviation word s := (gate_state (admission (get self s))).
Local Abbreviation set_word x s := (set (self ⊚ admission_l ⊚ gate_state_l) x s).

Lemma moves_refl t : moves tok0 tok0 t t.
Proof. intros i. split; [apply Nat.le_0_l|done]. Qed.

(** Steps that leave the accounting alone. *)
Lemma acct_frame h s s' t :
  in_time h -> inv h s t -> get self s' = get self s -> inv (s :: h) s' t.
Proof.
  intros Ht Hi Hs. pose proof (moves_refl t) as Hm. acct_open Hi Hm. eval_measures.
  eapply acct_step; [eassumption|eassumption|exact Hm|..]; rewrite ?Hs; try lia.
  intros _. split; [acct_same_gate|]. repeat split; try lia. done.
Qed.

Lemma inside_count h s t : inv h s t ->
  Z.land (word s) COUNT_MASK = Z.of_nat (all t Inside).
Proof. intros Hi. destruct (ai_gate _ _ _ _ _ _ _ Hi) as (op & Hg & _). by rewrite (gate_word_count _ _ Hg). Qed.

Lemma inside_bound h s t : in_time h -> inv h s t -> Z.of_nat (all t Inside) < COUNT_MASK.
Proof.
  intros Ht Hi. destruct (ai_time _ _ _ _ _ _ _ Hi) as [Hsz _]. pose proof (all_split t).
  apply in_time_le in Ht. change COUNT_MASK with (2 ^ 63 - 1). lia.
Qed.

Lemma enter_step h s t t' o :
  in_time h -> inv h s t -> (Z.land (word s) CLOSED =? 0) = true ->
  o = (Datatypes.S (length h) <=? T)%nat -> moves tok0 (tk o Inside) t t' ->
  inv (s :: h) (set_word (word s + 1) s) t'.
Proof.
  intros Ht Hi Hopen Ho Hm. pose proof (inside_bound _ _ _ Ht Hi). acct_open Hi Hm.
  pose proof (all_split t). pose proof (gate_word_enter _ _ Hgate) as He. cbn in He.
  assert (all t' Inside = all t Inside + 1)%nat as Hin by (destruct o; eval_measures; lia).
  eapply acct_step; [eassumption|eassumption|exact Hm|..]; cbn; rewrite ?get_set; cbn.
  - intros _. split.
    { exists op. rewrite Hin, Nat2Z.inj_add. split; [apply He; lia|]. intros. apply Hkc.
      destruct o; eval_measures; lia. }
   
    destruct o; eval_measures; repeat split; try lia; done.
  - intros. destruct o; [|apply Nat.leb_nle in Ho || (symmetry in Ho; apply Nat.leb_nle in Ho); lia].
    eval_measures. lia.
  - destruct o; eval_measures; lia.
  - intros. destruct o; eval_measures; [symmetry in Ho; apply Nat.leb_le in Ho|]; lia.
  - intros. destruct o; eval_measures; [symmetry in Ho; apply Nat.leb_le in Ho|]; lia.
  - intros. destruct o; eval_measures; [symmetry in Ho; apply Nat.leb_le in Ho|]; lia.
Qed.

Lemma leave_step h s t t' o :
  in_time h -> inv h s t -> moves (tk o Inside) tok0 t t' ->
  (0 < Z.land (word s) COUNT_MASK) /\ inv (s :: h) (set_word (wrap (word s - 1)) s) t'.
Proof.
  intros Ht Hi Hm. rewrite (inside_count _ _ _ Hi). acct_open Hi Hm.
  pose proof (gate_word_leave _ _ Hgate) as He. cbn in He.
  assert (all t Inside = all t' Inside + 1)%nat as Hin by (destruct o; eval_measures; lia).
  split; [lia|].
  replace (Z.of_nat (all t Inside) - 1) with (Z.of_nat (all t' Inside)) in He by lia.
  eapply acct_step; [eassumption|eassumption|exact Hm|..]; cbn; rewrite ?get_set; cbn.
  - intros _. split.
    { exists op. split; [apply He; lia|]. intros. apply Hkc. destruct o; eval_measures; lia. }
    destruct o; eval_measures; repeat split; try lia; done.
  - destruct o; eval_measures; lia.
  - destruct o; eval_measures; lia.
  - destruct o; eval_measures; lia.
  - destruct o; eval_measures; lia.
  - destruct o; eval_measures; lia.
Qed.

Lemma close_step h s t :
  in_time h -> inv h s t -> inv (s :: h) (set_word (Z.lor (word s) CLOSED) s) t.
Proof.
  intros Ht Hi. pose proof (moves_refl t) as Hm. acct_open Hi Hm. eval_measures.
  pose proof (gate_word_lor _ _ Hgate) as He. cbn in He.
  eapply acct_step; [eassumption|eassumption|exact Hm|..]; cbn; rewrite ?get_set; cbn; try lia.
  intros _. split; [by exists false|]. repeat split; try lia. done.
Qed.

Lemma reserve_step h s t t' o :
  in_time h -> inv h s t -> (1 <= t (ix o Inside))%nat -> moves tok0 (tk o Reserved) t t' ->
  (strict = true -> forall c, cap = Some c -> queue_slot_count (get self s) < c) ->
  inv (s :: h) (set (self ⊚ queue_slot_count_l) (wrap (queue_slot_count (get self s) + 1)) s) t'.
Proof.
  intros Ht Hi Hin Hm Hcap. acct_open Hi Hm. pose proof (all_split t).
  rewrite (wrap_time (queue_slot_count (get self s) + 1) h Ht) by lia.
  assert (o = false -> (1 <= size_of (newp t))%nat).
  { intros ->. unfold size_of, newp. cbn [ix] in Hin. lia. }
  destruct o; eval_measures; acct_close; cbn [ix] in Hin; try lia.
  all: intros Hst c Hc; specialize (Hcap Hst c Hc); lia.
Qed.

(** *** What an idle check learns *)

Lemma know_inside h s t t' :
  in_time h -> inv h s t -> Z.land (word s) COUNT_MASK = 0 -> (1 <= t Late)%nat ->
  moves tok0 (one KnowInside) t t' -> inv (s :: h) s t'.
Proof.
  intros Ht Hi Hz Hl Hm. rewrite (inside_count _ _ _ Hi) in Hz. acct_open Hi Hm. eval_measures.
  assert (t (Old Inside) = 0)%nat by (unfold all in Hz; lia).
  eapply acct_step; [eassumption|eassumption|exact Hm|..]; try lia.
  intros _. split; [acct_same_gate|]. repeat split; try lia; done.
Qed.

Lemma know_slots h s t t' :
  in_time h -> inv h s t -> queue_slot_count (get self s) = 0 -> (1 <= t KnowInside)%nat ->
  moves tok0 (one KnowSlots) t t' -> inv (s :: h) s t'.
Proof.
  intros Ht Hi Hz Hl Hm. acct_open Hi Hm. eval_measures.
  assert (slots_of (oldp t) = 0)%nat by (rewrite Hslots in Hz; unfold slots_of, oldp, all in *; lia).
  eapply acct_step; [eassumption|eassumption|exact Hm|..]; try lia.
  intros _. split; [acct_same_gate|]. repeat split; try lia; done.
Qed.

Lemma know_all h s t t' :
  in_time h -> inv h s t -> running_task_count (get self s) = 0 -> (1 <= t KnowSlots)%nat ->
  moves tok0 (one KnowAll) t t' -> inv (s :: h) s t'.
Proof.
  intros Ht Hi Hz Hl Hm. acct_open Hi Hm. eval_measures.
  assert (running_of (oldp t) = 0)%nat by (rewrite Hrunning in Hz; unfold running_of, oldp, all in *; lia).
  eapply acct_step; [eassumption|eassumption|exact Hm|..]; try lia.
  intros _. split; [acct_same_gate|]. repeat split; try lia; done.
Qed.

(** What a closed gate teaches, for good. *)
Lemma know_closed h s t t' :
  inv h s t -> (Z.land (word s) CLOSED =? 0) = false -> moves tok0 (one KnowClosed) t t' -> inv h s t'.
Proof.
  intros Hi Hc Hm. acct_open Hi Hm. eval_measures.
  assert (op = false) as ->.
  { rewrite (gate_word_closed _ _ Hgate) in Hc. exact Hc. }
  assert (Hall : all t' = all t /\ newp t' = newp t /\ oldp t' = oldp t).
  { assert (Hix : forall i, i <> KnowClosed -> t' i = t i).
    { intros i Hne. destruct (Hm i) as [_ Hx]. unfold tok0, one in Hx. destruct i; cbn in Hx; (lia || done). }
    repeat split; apply FunctionalExtensionality.functional_extensionality; intros p; unfold all, newp, oldp;
      by rewrite !Hix by done. }
  destruct Hall as (Ea & En & Eo). destruct Hi.
  assert (Hix : forall p, t' (Old p) = t (Old p)) by (intros p; exact (f_equal (fun f => f p) Eo)).
  constructor; rewrite ?Ea, ?En, ?Eo, ?Hix; try done; try (intros; eauto; fail); try lia.
Qed.

Lemma closed_word h s t : inv h s t -> t KnowClosed <> 0%nat -> (Z.land (word s) CLOSED =? 0) = false.
Proof.
  intros Hi Hk. destruct (ai_gate _ _ _ _ _ _ _ Hi) as (op & Hg & Hkc). specialize (Hkc Hk) as ->.
  by rewrite (gate_word_closed _ _ Hg).
Qed.

(** The payoff: nothing old is left, so everything submitted by the
    observed moment has been completed or cancelled. *)
Lemma know_all_done h s t sT :
  inv h s t -> t KnowAll <> 0%nat -> at_time T h s = Some sT ->
  submitted_task_count (get self sT) <=
  completed_task_count (get self s) + cancelled_task_count (get self s).
Proof.
  intros Hi Hk Hat. pose proof (ai_past _ _ _ _ _ _ _ Hi _ Hat).
  destruct (ai_know_all _ _ _ _ _ _ _ Hi Hk) as (_ & _ & Hs & Hr).
  assert (unfinished_of (oldp t) = 0)%nat by (unfold unfinished_of, slots_of, running_of in *; lia).
  lia.
Qed.
End gate_steps.
