(* ===== verification/AccountingSpecs.v ===== *)
(** Specifications of the accounting functions under interleaving, proved once
    against an interface ([AcctClient]) that each pool's invariant implements. *)
From S2P Require Import Prelude Prog Conc Sync AdmissionGate PoolAccounting AccountingLogic.
Local Open Scope Z_scope.

(** A pool invariant built around the accounting: it contains the accounting
    invariant for a total that covers each thread's contribution, and survives
    any step that changes only the accounting and preserves that part. *)
Class AcctClient {S X : Type} (self : lens S PoolAccounting) (A : lens X tok)
    (T : nat) (cap : option Z) (strict : bool)
    (I : list S -> S -> list X -> Prop) : Prop :=
  acct_client : forall h s G k g, in_time h -> I h s G -> G !! k = Some g ->
    exists t, acct_inv self T cap strict h s t /\ (forall i, (get A g i <= t i)%nat) /\
      forall s' a' src dst,
        s' = set self (get self s') s ->
        moves src dst (get A g) a' ->
        (forall t', moves src dst t t' -> acct_inv self T cap strict (s :: h) s' t') ->
        I (s :: h) s' (<[k := set A a' g]> G).

(** [holds A g0 r g]: a thread that started with contribution [g0] now has the
    accounting contribution [r], everything else unchanged. *)
Definition holds {X} (A : lens X tok) (g0 : X) (r : tok) (g : X) : Prop :=
  (forall i, get A g i = r i) /\ g = set A (get A g) g0.

Lemma holds_ext {X} (A : lens X tok) g0 r r' g :
  (forall i, r i = r' i) -> holds A g0 r g -> holds A g0 r' g.
Proof. intros H [H1 H2]. split; [|done]. intros i. by rewrite H1. Qed.

Lemma holds_self {X} (A : lens X tok) `{!LensLaws A} g : holds A g (get A g) g.
Proof. split; [done|]. by rewrite set_get. Qed.

(** Rearranges a sum of contributions. *)
Ltac by_tok H := eapply holds_ext; [|exact H]; intros ?; unfold tadd, tok0; cbn beta; lia.

Lemma moves_tok0 (t t' : tok) : moves tok0 tok0 t t' -> t' = t.
Proof.
  intros H. apply FunctionalExtensionality.functional_extensionality. intros i.
  destruct (H i) as [_ Hi]. unfold tok0 in Hi. lia.
Qed.

Section specs.
Context {S X : Type} (self : lens S PoolAccounting) `{!LensLaws self}.
Context (A : lens X tok) `{!LensLaws A} (T : nat) (cap : option Z) (strict : bool).
Context (I : list S -> S -> list X -> Prop) (Fin FinP : X -> Prop).
Context `{!AcctClient self A T cap strict I}.
Local Abbreviation inv := (acct_inv self T cap strict).
Local Abbreviation WP := (WP I Fin FinP).
Local Abbreviation holds := (holds A).
Implicit Types (r : tok) (o : bool) (k : nat).

(** One atomic action on the accounting that turns [src] into [dst]. *)
Lemma WP_acct k {B R} (f : nat -> S -> option (B * S)) (kont : B -> prog S R) g0 g r src Q E :
  holds g0 (tadd r src) g ->
  (forall h s t, in_time h -> inv h s t -> (forall i, (r i + src i <= t i)%nat) ->
     match f k s with
     | None => True
     | Some (b, s') => s' = set self (get self s') s /\
         exists dst, (forall t', moves src dst t t' -> inv (s :: h) s' t') /\
           forall g', holds g0 (tadd r dst) g' -> WP k (kont b) g' Q E
     end) ->
  WP k (Act f kont) g Q E.
Proof.
  intros [Hown Hrest] H. apply WP_act. intros h s G Ht HI Hg.
  destruct (acct_client h s G k g Ht HI Hg) as (t & Hinv & Hle & Hupd).
  specialize (H h s t Ht Hinv). destruct (f k s) as [[b s']|]; [|done].
  destruct H as (Hs' & dst & Hstep & Hk).
  { intros i. specialize (Hle i). rewrite Hown in Hle. unfold tadd in Hle. done. }
  exists (set A (tadd r dst) g). split.
  - eapply Hupd; [exact Hs'| |exact Hstep]. intros i. rewrite Hown. unfold tadd. lia.
  - apply Hk. split; [intros i; by rewrite get_set|]. rewrite Hrest, !get_set, !set_set. done.
Qed.

(** An action that only reads. *)
Lemma WP_read k {B R} (f : S -> B) (kont : B -> prog S R) g0 g r Q E :
  holds g0 r g ->
  (forall h s t, in_time h -> inv h s t -> (forall i, (r i <= t i)%nat) ->
     forall g', holds g0 r g' -> WP k (kont (f s)) g' Q E) ->
  WP k (Act (fun _ s => Some (f s, s)) kont) g Q E.
Proof.
  intros Hg H. eapply (WP_acct k _ _ g0 g r tok0); [by_tok Hg|].
  intros h s t Ht Hi Hle. split; [by rewrite set_get|]. exists tok0. split.
  - intros t' Hm. rewrite (moves_tok0 _ _ Hm). by eapply acct_frame.
  - intros g' Hg'. eapply (H h s t); [done..| |by_tok Hg'].
    intros i. specialize (Hle i). unfold tok0 in Hle. lia.
Qed.

Lemma WP_inflight_count k g0 g r (Q : Z -> X -> Prop) E :
  holds g0 r g -> (forall n g', holds g0 r g' -> Q n g') -> WP k (inflight_count self) g Q E.
Proof.
  intros Hg HQ. unfold inflight_count, gate_inflight_count, load. cbn [bind].
  eapply WP_read; [exact Hg|]. intros. apply WP_ret. by apply HQ.
Qed.

Lemma WP_is_admission_open k g0 g r (Q : bool -> X -> Prop) E :
  holds g0 r g -> (forall b g', holds g0 r g' -> Q b g') -> WP k (is_admission_open self) g Q E.
Proof.
  intros Hg HQ. unfold is_admission_open, gate_is_open, load. cbn [bind].
  eapply WP_read; [exact Hg|]. intros. apply WP_ret. by apply HQ.
Qed.

Lemma WP_load k g0 g r {B} (l : lens PoolAccounting B) (Q : B -> X -> Prop) E :
  holds g0 r g -> (forall v g', holds g0 r g' -> Q v g') -> WP k (load (self ⊚ l)) g Q E.
Proof.
  intros Hg HQ. unfold load. eapply WP_read; [exact Hg|]. intros. apply WP_ret. by apply HQ.
Qed.

(** Entering admission: the compare-exchange loop never meets the overflow
    assertion and yields one [Inside] contribution. *)
Lemma WP_try_enter k g0 g r (Q : bool -> X -> Prop) E :
  holds g0 r g ->
  (forall o g', holds g0 (tadd r (tk o Inside)) g' -> Q true g') ->
  (forall g', holds g0 r g' -> Q false g') ->
  WP k (try_enter self) g Q E.
Proof.
  intros Hg HQt HQf. unfold try_enter, gate_try_enter, load. cbn [bind].
  eapply WP_read; [exact Hg|]. intros h s t Ht Hi _ g1 Hg1. unfold loop.
  apply (WP_loop _ _ _ _ _ _ _ _
    (fun current g => holds g0 r g /\ Z.land current COUNT_MASK < COUNT_MASK)); cycle 1.
  { split; [done|]. cbn. rewrite (inside_count self T cap strict _ _ _ Hi).
    by eapply inside_bound. }
  clear h s t Ht Hi g g1 Hg Hg1. intros current g [Hg Hcur].
  destruct (Z.land current CLOSED =? 0) eqn:Hopen; cbn [negb].
  2: { apply WP_ret, WP_ret. by apply HQf. }
  apply Z.ltb_lt in Hcur. rewrite Hcur. cbn [assert bind]. apply Z.ltb_lt in Hcur.
  unfold compare_exchange_weak, choose. cbn [bind]. apply WP_choose. intros genuine.
  eapply (WP_acct k _ _ g0 g r tok0); [by_tok Hg|]. intros h s t Ht Hi _.
  destruct (genuine && _)%bool eqn:Hcas.
  - apply andb_true_iff in Hcas as [_ Hcas]. apply Z.eqb_eq in Hcas. split.
    { cbn. by rewrite !get_set. }
    exists (tk (Datatypes.S (length h) <=? T)%nat Inside). split.
    + intros t' Hm. rewrite <- Hcas. cbn in Hcas.
      eapply enter_step; [done..|exact Hi| |reflexivity|exact Hm]. by rewrite Hcas.
    + intros g' Hg'. apply WP_ret. apply WP_ret. by eapply HQt.
  - split; [by rewrite set_get|]. exists tok0. split.
    + intros t' Hm. rewrite (moves_tok0 _ _ Hm). by eapply acct_frame.
    + intros g' Hg'. apply WP_ret. split; [by_tok Hg'|]. cbn.
      rewrite (inside_count self T cap strict _ _ _ Hi). by eapply inside_bound.
Qed.

(** Whoever knows admission closed is not admitted. *)
Lemma WP_try_enter_closed k g0 g r (Q : bool -> X -> Prop) E :
  (1 <= r KnowClosed)%nat -> holds g0 r g -> (forall g', holds g0 r g' -> Q false g') ->
  WP k (try_enter self) g Q E.
Proof.
  intros Hr Hg HQ. unfold try_enter, gate_try_enter, load. cbn [bind].
  eapply WP_read; [exact Hg|]. intros h s t Ht Hi Hle g1 Hg1. unfold loop. specialize (Hle KnowClosed).
  apply (WP_loop _ _ _ _ _ _ _ _ (fun current g => holds g0 r g /\ (Z.land current CLOSED =? 0) = false)); cycle 1.
  { split; [done|]. apply (closed_word self T cap strict _ _ _ Hi). lia. }
  clear h s t Ht Hi Hle g g1 Hg Hg1. intros current g [Hg Hcur]. rewrite Hcur. cbn [negb].
  apply WP_ret, WP_ret. by apply HQ.
Qed.

Lemma WP_leave k g0 g r o (Q : bool -> X -> Prop) E :
  holds g0 (tadd r (tk o Inside)) g ->
  (forall b g', holds g0 r g' -> Q b g') ->
  WP k (leave self) g Q E.
Proof.
  intros Hg HQ. unfold leave, gate_leave, fetch_sub, fetch_modify. cbn [bind].
  eapply WP_acct; [exact Hg|]. intros h s t Ht Hi Hle. split.
  { cbn. by rewrite !get_set. }
  exists tok0. split.
  - intros t' Hm. by eapply leave_step.
  - assert (0 < Z.land (gate_state (admission (get self s))) COUNT_MASK) as Hpos.
    { rewrite (inside_count self T cap strict _ _ _ Hi). unfold all.
      pose proof (Hle (ix o Inside)) as Hl. destruct o; cbn in Hl; lia. }
    intros g' Hg'. apply Z.ltb_lt in Hpos. cbn [get lens_comp admission_l gate_state_l].
    rewrite Hpos. cbn [assert bind]. apply WP_ret, HQ. by_tok Hg'.
Qed.

Lemma WP_close_admission k g0 g r (Q : unit -> X -> Prop) E :
  holds g0 r g -> (forall g', holds g0 r g' -> Q tt g') -> WP k (close_admission self) g Q E.
Proof.
  intros Hg HQ. unfold close_admission, gate_close, fetch_or, fetch_modify. cbn [bind].
  eapply (WP_acct k _ _ g0 g r tok0); [by_tok Hg|]. intros h s t Ht Hi _. split.
  { cbn. by rewrite !get_set. }
  exists tok0. split.
  - intros t' Hm. rewrite (moves_tok0 _ _ Hm). by eapply close_step.
  - intros g' Hg'. apply WP_ret, HQ. by_tok Hg'.
Qed.

(** One counter update, given as a step lemma of the accounting. *)
Lemma WP_counter k {R} (l : lens PoolAccounting Z) (f : Z -> Z) src dst
    (kont : Z -> prog S R) g0 g r Q E :
  holds g0 (tadd r src) g ->
  (forall h s t t', in_time h -> inv h s t -> moves src dst t t' ->
     inv (s :: h) (set (self ⊚ l) (f (get (self ⊚ l) s)) s) t') ->
  (forall h s t g', in_time h -> inv h s t -> (forall i, (src i <= t i)%nat) ->
     holds g0 (tadd r dst) g' -> WP k (kont (get (self ⊚ l) s)) g' Q E) ->
  WP k (bind (fetch_modify (self ⊚ l) f) kont) g Q E.
Proof.
  intros Hg Hstep Hk. unfold fetch_modify. cbn [bind].
  eapply WP_acct; [exact Hg|]. intros h s t Ht Hi Hle. split.
  { cbn. by rewrite !get_set. }
  exists dst. split; [intros t' Hm; by eapply Hstep|].
  intros g' Hg'. eapply (Hk h s t); [done..| |done]. intros i. specialize (Hle i). lia.
Qed.

Lemma WP_bounded_slot k g0 g r o (Q : bool -> X -> Prop) E :
  holds g0 (tadd r (tk o Inside)) g ->
  (forall g', holds g0 (tadd (tadd r (tk o Inside)) (tk o Reserved)) g' -> Q true g') ->
  (forall g', holds g0 (tadd r (tk o Inside)) g' -> Q false g') ->
  WP k (try_reserve_bounded_slot self) g Q E.
Proof.
  intros Hg HQt HQf. unfold try_reserve_bounded_slot, accounting_queue_capacity. cbn [bind].
  eapply WP_read; [exact Hg|]. intros h s t Ht Hi _ g1 Hg1.
  pose proof (ai_cap _ _ _ _ _ _ _ Hi) as Hcap.
  destruct (queue_capacity (get self s)) as [c|]; cbn [bind].
  - unfold fetch_update. cbn [bind]. eapply (WP_acct k _ _ g0 g1 (tadd r (tk o Inside)) tok0); [by_tok Hg1|].
    clear h s t Ht Hi. intros h s t Ht Hi Hle. cbn [get lens_comp queue_slot_count_l].
    destruct (Z.ltb_spec (queue_slot_count (get self s)) c) as [Hlt|Hge].
    + split; [cbn; by rewrite !get_set|]. exists (tk o Reserved). split.
      * intros t' Hm. cbn in Hlt.
        rewrite <- (wrap_time (queue_slot_count (get self s) + 1) h Ht).
        -- eapply reserve_step; [done..| |exact Hm|].
           ++ specialize (Hle (ix o Inside)). unfold tadd, tk, one in Hle. destruct o; cbn in *; lia.
           ++ intros _ c' Hc'. rewrite <- Hcap in Hc'. by simplify_eq.
        -- rewrite (ai_slots _ _ _ _ _ _ _ Hi). pose proof (ai_time _ _ _ _ _ _ _ Hi).
           pose proof (all_split t). lia.
      * intros g' Hg'. apply WP_ret. by apply HQt.
    + split; [by rewrite set_get|]. exists tok0. split.
      * intros t' Hm. rewrite (moves_tok0 _ _ Hm). by eapply acct_frame.
      * intros g' Hg'. apply WP_ret. apply HQf. by_tok Hg'.
  - unfold reserve_worker_handoff_slot, fetch_add. rewrite bind_assoc.
    eapply (WP_acct k _ _ g0 g1 (tadd r (tk o Inside)) tok0); [by_tok Hg1|]. cbn [bind].
    clear h s t Ht Hi. intros h s t Ht Hi Hle. split; [cbn; by rewrite !get_set|].
    exists (tk o Reserved). split.
    + intros t' Hm. eapply reserve_step; [done..| |exact Hm|intros _ c' Hc'; congruence].
      specialize (Hle (ix o Inside)). unfold tadd, tk, one in Hle. destruct o; cbn in *; lia.
    + intros g' Hg'. apply WP_ret. by apply HQt.
Qed.

Lemma WP_handoff_slot k g0 g r o (Q : unit -> X -> Prop) E :
  strict = false ->
  holds g0 (tadd r (tk o Inside)) g ->
  (forall g', holds g0 (tadd (tadd r (tk o Inside)) (tk o Reserved)) g' -> Q tt g') ->
  WP k (reserve_worker_handoff_slot self) g Q E.
Proof.
  intros Hst Hg HQ. unfold reserve_worker_handoff_slot, fetch_add, fetch_modify. cbn [bind].
  eapply (WP_acct k _ _ g0 g (tadd r (tk o Inside)) tok0); [by_tok Hg|]. intros h s t Ht Hi Hle.
  split; [cbn; by rewrite !get_set|]. exists (tk o Reserved). split.
  - intros t' Hm. eapply reserve_step; [done..| |exact Hm|by rewrite Hst].
    specialize (Hle (ix o Inside)). unfold tadd, tk, one in Hle. destruct o; cbn in *; lia.
  - intros g' Hg'. apply WP_ret. by apply HQ.
Qed.

(** Giving a slot back; the job it was for is in phase [p], and in [p']
    (or gone) afterwards. *)
Lemma WP_release_slot k g0 g r src dst (Q : unit -> X -> Prop) E :
  (forall h s t t', in_time h -> inv h s t -> moves src dst t t' ->
     inv (s :: h) (set (self ⊚ queue_slot_count_l) (wrap (get (self ⊚ queue_slot_count_l) s - 1)) s) t') ->
  (1 <= slots_of (all src))%nat ->
  holds g0 (tadd r src) g ->
  (forall g', holds g0 (tadd r dst) g' -> Q tt g') ->
  WP k (rollback_reserved_slot self) g Q E.
Proof.
  intros Hstep Hsrc Hg HQ. unfold rollback_reserved_slot, fetch_sub.
  eapply WP_counter; [exact Hg|exact Hstep|]. intros h s t g' Ht Hi Hle Hg'.
  assert (0 < queue_slot_count (get self s)) as Hpos.
  { rewrite (ai_slots _ _ _ _ _ _ _ Hi). 
    assert (slots_of (all src) <= slots_of (all t))%nat; [|lia].
    assert (forall p, (all src p <= all t p)%nat) as Ha.
    { intros p. unfold all. pose proof (Hle (New p)). pose proof (Hle (Old p)). lia. }
    unfold slots_of. pose proof (Ha Reserved); pose proof (Ha Published); pose proof (Ha Waiting);
    pose proof (Ha Claimed); pose proof (Ha Starting); pose proof (Ha Dequeued);
    pose proof (Ha Cancelling); pose proof (Ha CancelCounted); pose proof (Ha CancelDone). lia. }
  apply Z.ltb_lt in Hpos. cbn [get lens_comp queue_slot_count_l]. rewrite Hpos. cbn [assert].
  apply WP_ret. by apply HQ.
Qed.

Lemma WP_rollback_slot k g0 g r o (Q : unit -> X -> Prop) E :
  holds g0 (tadd r (tk o Reserved)) g -> (forall g', holds g0 r g' -> Q tt g') ->
  WP k (rollback_reserved_slot self) g Q E.
Proof.
  intros Hg HQ. eapply WP_release_slot; [..|exact Hg|].
  - intros. by eapply slot_rollback.
  - destruct o; cbn; lia.
  - intros g' Hg'. apply HQ. by_tok Hg'.
Qed.

Lemma WP_publish k g0 g r o (Q : unit -> X -> Prop) E :
  holds g0 (tadd r (tk o Reserved)) g -> (forall g', holds g0 (tadd r (tk o Waiting)) g' -> Q tt g') ->
  WP k (publish_accepted_job self) g Q E.
Proof.
  intros Hg HQ. unfold publish_accepted_job, fetch_add.
  eapply WP_counter; [exact Hg|intros; by eapply publish_submitted|]. intros _ _ _ g1 _ _ _ Hg1.
  eapply WP_counter; [exact Hg1|intros; by eapply publish_queued|]. intros _ _ _ g2 _ _ _ Hg2.
  apply WP_ret. by apply HQ.
Qed.

(** The decremented counter was positive. *)
Lemma queued_positive h s t o : inv h s t -> (forall i, (tk o Waiting i <= t i)%nat) ->
  (0 <? queued_task_count (get self s)) = true.
Proof.
  intros Hi Hle. apply Z.ltb_lt. rewrite (ai_queued _ _ _ _ _ _ _ Hi). unfold all.
  pose proof (Hle (ix o Waiting)) as Hl. destruct o; cbn in Hl; lia.
Qed.

Lemma WP_claim k g0 g r o (Q : unit -> X -> Prop) E :
  holds g0 (tadd r (tk o Waiting)) g -> (forall g', holds g0 (tadd r (tk o Running)) g' -> Q tt g') ->
  WP k (claim_queued_job self) g Q E.
Proof.
  intros Hg HQ. unfold claim_queued_job, fetch_sub, fetch_add.
  eapply WP_counter; [exact Hg|intros; by eapply claim_queued|]. intros h s t g1 Ht Hi Hle Hg1.
  cbn [get lens_comp queued_task_count_l]. rewrite (queued_positive _ _ _ _ Hi Hle). cbn [assert bind].
  eapply WP_counter; [exact Hg1|intros; by eapply claim_running|]. intros _ _ _ g2 _ _ _ Hg2.
  eapply WP_release_slot; [..|exact Hg2|exact HQ].
  - intros. by eapply slot_claim.
  - destruct o; cbn; lia.
Qed.

Lemma WP_begin_cancel k g0 g r o (Q : unit -> X -> Prop) E :
  holds g0 (tadd r (tk o Waiting)) g -> (forall g', holds g0 (tadd r (tk o Cancelling)) g' -> Q tt g') ->
  WP k (begin_cancel_queued_job self) g Q E.
Proof.
  intros Hg HQ. unfold begin_cancel_queued_job, fetch_sub, fetch_add.
  eapply WP_counter; [exact Hg|intros; by eapply cancel_dequeue|]. intros h s t g1 Ht Hi Hle Hg1.
  cbn [get lens_comp queued_task_count_l]. rewrite (queued_positive _ _ _ _ Hi Hle). cbn [assert bind].
  eapply WP_counter; [exact Hg1|intros; by eapply cancel_cancelling|]. intros _ _ _ g2 _ _ _ Hg2.
  apply WP_ret. by apply HQ.
Qed.

Lemma WP_finish_cancelled k g0 g r o (Q : unit -> X -> Prop) E :
  holds g0 (tadd r (tk o Cancelling)) g -> (forall g', holds g0 r g' -> Q tt g') ->
  WP k (finish_cancelled_job self) g Q E.
Proof.
  intros Hg HQ. unfold finish_cancelled_job, fetch_sub, fetch_add.
  eapply WP_counter; [exact Hg|intros; by eapply cancel_counted|]. intros _ _ _ g1 _ _ _ Hg1.
  eapply WP_counter; [exact Hg1|intros; by eapply cancel_done|]. intros h s t g2 Ht Hi Hle Hg2.
  assert (0 < cancelling_task_count (get self s)) as Hpos.
  { rewrite (ai_cancelling _ _ _ _ _ _ _ Hi). unfold all.
    pose proof (Hle (ix o CancelCounted)) as Hl. destruct o; cbn in Hl; lia. }
  apply Z.ltb_lt in Hpos. cbn [get lens_comp cancelling_task_count_l]. rewrite Hpos. cbn [assert bind].
  eapply WP_release_slot; [..|exact Hg2|].
  - intros. by eapply slot_cancelled.
  - destruct o; cbn; lia.
  - intros g' Hg'. apply HQ. by_tok Hg'.
Qed.

Lemma WP_finish_running k g0 g r o (Q : unit -> X -> Prop) E :
  holds g0 (tadd r (tk o Running)) g -> (forall g', holds g0 r g' -> Q tt g') ->
  WP k (finish_running_job self) g Q E.
Proof.
  intros Hg HQ. unfold finish_running_job, fetch_sub, fetch_add.
  eapply WP_counter; [exact Hg|intros; by eapply finish_counted|]. intros _ _ _ g1 _ _ _ Hg1.
  eapply WP_counter; [exact Hg1|intros; by eapply AccountingLogic.finish_running|].
  intros h s t g2 Ht Hi Hle Hg2.
  assert (0 < running_task_count (get self s)) as Hpos.
  { rewrite (ai_running _ _ _ _ _ _ _ Hi). unfold running_of, all.
    pose proof (Hle (ix o Finishing)) as Hl. destruct o; cbn in Hl; lia. }
  apply Z.ltb_lt in Hpos. cbn [get lens_comp running_task_count_l]. rewrite Hpos. cbn [assert].
  apply WP_ret, HQ. by_tok Hg2.
Qed.

(** An idle check, although made of four separate loads: whoever knows that
    the observed moment has passed learns from a positive answer that no
    submission of that moment is left unfinished. *)
Definition idle_gain (g0 : X) (r : tok) (b : bool) (g : X) : Prop :=
  exists e, holds g0 (tadd r e) g /\ (forall i p, i = New p \/ i = Old p \/ i = Late -> e i = 0%nat) /\
    (r Late = 0%nat -> forall i, e i = 0%nat) /\
    (b = true -> (1 <= r Late)%nat -> (1 <= e KnowAll)%nat).

Lemma idle_gain_none g0 r b e g :
  (b = true -> (1 <= r Late)%nat -> (1 <= e KnowAll)%nat) ->
  (r Late = 0%nat -> forall i, e i = 0%nat) ->
  (forall i p, i = New p \/ i = Old p \/ i = Late -> e i = 0%nat) ->
  holds g0 (tadd r e) g -> idle_gain g0 r b g.
Proof. intros H1 H0 H2 H3. by exists e. Qed.

Lemma WP_is_idle k g0 g r (Q : bool -> X -> Prop) E :
  holds g0 r g -> (forall b g', idle_gain g0 r b g' -> Q b g') -> WP k (is_idle self) g Q E.
Proof.
  intros Hg HQ. unfold is_idle, inflight_count, gate_inflight_count, running_count, load. cbn [bind].
  assert (Hno : forall e g', holds g0 (tadd r e) g' ->
    (forall i p, i = New p \/ i = Old p \/ i = Late -> e i = 0%nat) ->
    (r Late = 0%nat -> forall i, e i = 0%nat) -> Q false g').
  { intros e g' Hg' He Hz. apply HQ. by eapply idle_gain_none. }
  (* a load that may teach [i] when it reads zero *)
  assert (Hload : forall (f : S -> Z) (m : Z -> Z) (i : idx) (kont : Z -> prog S bool) g e,
    holds g0 (tadd r e) g ->
    (forall h s t t', in_time h -> inv h s t -> (forall j, (r j + e j <= t j)%nat) -> m (f s) = 0 ->
       (1 <= r Late)%nat -> moves tok0 (one i) t t' -> inv (s :: h) s t') ->
    (forall v g', m v <> 0 -> holds g0 (tadd r e) g' -> WP k (kont v) g' Q E) ->
    (forall v g', m v = 0 ->
       holds g0 (tadd r (if decide (1 <= r Late)%nat then tadd e (one i) else e)) g' ->
       WP k (kont v) g' Q E) ->
    WP k (Act (fun _ s => Some (f s, s)) kont) g Q E).
  { intros f m i kont g1 e Hg1 Hteach Hnz Hz.
    eapply (WP_acct k _ _ g0 g1 (tadd r e) tok0); [by_tok Hg1|]. intros h s t Ht Hi Hle.
    split; [by rewrite set_get|].
    assert (Hstay : forall t', moves tok0 tok0 t t' -> inv (s :: h) s t').
    { intros t' Hm. rewrite (moves_tok0 _ _ Hm). by eapply acct_frame. }
    destruct (Z.eq_dec (m (f s)) 0) as [Hfs|Hfs]; cycle 1.
    { exists tok0. split; [done|]. intros g' Hg'. apply Hnz; [done|]. by_tok Hg'. }
    destruct (decide (1 <= r Late)%nat) as [HL|HL].
    - exists (one i). split; [|intros g' Hg'; apply Hz; [done|]; by_tok Hg'].
      intros t' Hm. eapply Hteach; try done. intros j. specialize (Hle j). unfold tadd, tok0 in Hle. lia.
    - exists tok0. split; [done|]. intros g' Hg'. apply Hz; [done|]. by_tok Hg'. }
  assert (Hkeep : forall e e' : tok, (forall i p, i = New p \/ i = Old p \/ i = Late -> e i = 0%nat) ->
    (forall i p, i = New p \/ i = Old p \/ i = Late -> e' i = 0%nat) ->
    forall i p, i = New p \/ i = Old p \/ i = Late ->
      (if decide (1 <= r Late)%nat then tadd e e' else e) i = 0%nat).
  { intros e e' He He' i p Hi. destruct (decide _); [|by eapply He]. unfold tadd.
    rewrite (He i p Hi), (He' i p Hi). done. }
  assert (Hzero : forall e e' : tok, (r Late = 0%nat -> forall i, e i = 0%nat) ->
    (r Late = 0%nat -> forall i, (if decide (1 <= r Late)%nat then tadd e e' else e) i = 0%nat)).
  { intros e e' He HL i. rewrite decide_False by lia. by apply He. }
  assert (Hone : forall j, j = KnowInside \/ j = KnowSlots \/ j = KnowAll ->
    forall i p, i = New p \/ i = Old p \/ i = Late -> one j i = 0%nat).
  { intros j [->|[->| ->]] i p [->|[->| ->]]; done. }
  apply (Hload _ (fun w => Z.land w COUNT_MASK) KnowInside _ _ tok0); [by_tok Hg|..].
  { intros h s t t' Ht Hi Hle Hf HL Hm. pose proof (Hle Late). unfold tok0 in *.
    eapply know_inside; [done..|exact Hf|lia|exact Hm]. }
  { intros v g1 Hv Hg1. apply Z.eqb_neq in Hv. cbn. rewrite Hv. apply WP_ret.
    eapply Hno; [exact Hg1|done|done]. }
  intros v1 g1 Hv1 Hg1. cbn. rewrite Hv1. cbn.
  set (e1 := if decide (1 <= r Late)%nat then tadd tok0 (one KnowInside) else tok0) in *.
  assert (He1 : forall i p, i = New p \/ i = Old p \/ i = Late -> e1 i = 0%nat) by (apply Hkeep; [done|apply Hone; auto]).
  assert (Hz1 : r Late = 0%nat -> forall i, e1 i = 0%nat) by (by apply Hzero).
  apply (Hload _ (fun w => w) KnowSlots _ _ e1); [done|..].
  { intros h s t t' Ht Hi Hle Hf HL Hm. eapply know_slots; [done..|exact Hf| |exact Hm].
    specialize (Hle KnowInside). subst e1. rewrite decide_True in Hle by done.
    unfold tadd, one in Hle. cbn in Hle. lia. }
  { intros v g2 Hv Hg2. apply Z.eqb_neq in Hv. rewrite Hv. apply WP_ret. by eapply Hno. }
  intros v2 g2 -> Hg2. cbn.
  set (e2 := if decide (1 <= r Late)%nat then tadd e1 (one KnowSlots) else e1) in *.
  assert (He2 : forall i p, i = New p \/ i = Old p \/ i = Late -> e2 i = 0%nat) by (apply Hkeep; [done|apply Hone; auto]).
  assert (Hz2 : r Late = 0%nat -> forall i, e2 i = 0%nat) by (by apply Hzero).
  apply (Hload _ (fun w => w) KnowAll _ _ e2); [done|..].
  { intros h s t t' Ht Hi Hle Hf HL Hm. eapply know_all; [done..|exact Hf| |exact Hm].
    specialize (Hle KnowSlots). subst e2. rewrite decide_True in Hle by done.
    unfold tadd, one in Hle. cbn in Hle. lia. }
  { intros v g3 Hv Hg3. apply Z.eqb_neq in Hv. rewrite Hv. apply WP_ret. by eapply Hno. }
  intros v3 g3 -> Hg3. cbn. eapply WP_read; [exact Hg3|]. intros h s t Ht Hi _ g4 Hg4. apply WP_ret, HQ.
  eapply idle_gain_none; [|by apply Hzero|apply Hkeep; [done|apply Hone; auto]|exact Hg4].
  intros _ HL. rewrite decide_True by done. unfold tadd, one. cbn. lia.
Qed.

Lemma idle_gain_start g0 r g : holds g0 r g -> idle_gain g0 r false g.
Proof.
  intros Hg. exists tok0. split; [by_tok Hg|]. split; [done|]. split; [done|]. done.
Qed.

Lemma idle_gain_trans g0 r e b g :
  (forall i p, i = New p \/ i = Old p \/ i = Late -> e i = 0%nat) ->
  (r Late = 0%nat -> forall i, e i = 0%nat) ->
  idle_gain g0 (tadd r e) b g -> idle_gain g0 r b g.
Proof.
  intros He Hz (e' & Hg & He' & Hz' & Hk). exists (tadd e e'). split; [by_tok Hg|].
  assert (HLe : e Late = 0%nat) by (by apply (He Late Inside); auto).
  split; [|split].
  - intros i p Hi. unfold tadd. by rewrite (He i p Hi), (He' i p Hi).
  - intros HL i. unfold tadd in *. rewrite Hz, Hz' by lia. done.
  - intros Hb HL. unfold tadd in *. specialize (Hk Hb ltac:(lia)). lia.
Qed.

Lemma idle_gain_none0 g0 r b g : r Late = 0%nat -> idle_gain g0 r b g -> holds g0 r g.
Proof.
  intros Hr (e & Hg & _ & Hz & _). eapply holds_ext; [|exact Hg]. intros i. unfold tadd.
  rewrite Hz by done. lia.
Qed.

Lemma WP_is_idle_seen k g0 g r (Q' : bool -> X -> Prop) E :
  idle_gain g0 r false g -> (forall b g', idle_gain g0 r b g' -> Q' b g') ->
  WP k (is_idle self) g Q' E.
Proof.
  intros (e & Hg & He & Hz & _) HQ. eapply WP_is_idle; [exact Hg|]. intros b g' Hg'. apply HQ.
  by eapply idle_gain_trans.
Qed.

Lemma idle_gain_forget g0 r b g : idle_gain g0 r b g -> idle_gain g0 r false g.
Proof. intros (e & ? & ? & ? & _). by exists e. Qed.

Lemma WP_is_idle0 k g0 g r (Q' : bool -> X -> Prop) E :
  r Late = 0%nat -> holds g0 r g -> (forall b g', holds g0 r g' -> Q' b g') ->
  WP k (is_idle self) g Q' E.
Proof.
  intros Hr Hg HQ. eapply WP_is_idle; [exact Hg|]. intros b g' (e & Hg' & _ & He & _).
  apply HQ. eapply holds_ext; [|exact Hg']. intros i. unfold tadd. rewrite He by done. lia.
Qed.
End specs.

(** *** Contributions of several submissions *)

Lemma late_tadd r o p : r Late = 0%nat -> tadd r (tk o p) Late = 0%nat.
Proof. unfold tadd. destruct o; cbn; lia. Qed.

(** Several jobs of one phase. *)
Definition tks (os : list bool) (p : phase) : tok := fun i => sum_with (fun o => tk o p i) os.

Lemma tks_late os p : tks os p Late = 0%nat.
Proof. unfold tks. apply sum_with_zero. intros o _. by destruct o. Qed.

Lemma tks_nil p i : tks [] p i = 0%nat.
Proof. done. Qed.

Lemma tks_cons o os p i : tks (o :: os) p i = (tk o p i + tks os p i)%nat.
Proof. done. Qed.

Lemma tks_snoc o os p i : tks (os ++ [o]) p i = (tks os p i + tk o p i)%nat.
Proof. unfold tks. rewrite sum_with_app. unfold sum_with. cbn. lia. Qed.

Ltac by_tks Hg := eapply holds_ext; [|exact Hg]; intros ?; unfold tadd;
  rewrite ?tks_cons, ?tks_snoc; lia.

Lemma tks_all os : all (tks os Cancelling) Cancelling = length os.
Proof.
  induction os as [|o os IH]; [done|]. unfold all in *. rewrite !tks_cons. cbn [length].
  destruct o; cbn; lia.
Qed.
