(* ===== verification/Observers.v ===== *)
(** Threads that join a running system and learn, from an idle check, what had
    been submitted before they came: stated once for both pools. *)
From S2P Require Import Prelude Prog Conc Sync AdmissionGate PoolAccounting AccountingLogic.
From S2P Require Import AccountingSpecs.
Local Open Scope Z_scope.

(** A further thread may know that the observed moment has passed. *)
Lemma acct_inv_late {S} (self : lens S PoolAccounting) T cap strict h s t t' :
  (T <= length h)%nat -> acct_inv self T cap strict h s t -> (forall i, t' i = (t i + one Late i)%nat) ->
  acct_inv self T cap strict h s t'.
Proof.
  intros HT Ha Hat.
  assert (Hfun : all t' = all t /\ newp t' = newp t /\ oldp t' = oldp t).
  { repeat split; apply FunctionalExtensionality.functional_extensionality; intros ph;
      unfold all, newp, oldp; rewrite !Hat; cbn; lia. }
  destruct Hfun as (Ea & En & Eo). destruct Ha.
  constructor; rewrite ?Ea, ?En, ?Eo, ?Hat; cbn; rewrite ?Nat.add_0_r; try done; try lia.
Qed.

(** A further thread may know that admission is closed. *)
Definition admission_closed (p : PoolAccounting) : Prop :=
  Z.land (gate_state (admission p)) CLOSED <> 0.

Lemma acct_inv_closed {S} (self : lens S PoolAccounting) T cap strict h s t t' :
  admission_closed (get self s) -> acct_inv self T cap strict h s t ->
  (forall i, t' i = (t i + one KnowClosed i)%nat) -> acct_inv self T cap strict h s t'.
Proof.
  intros Hc Ha Hat. eapply know_closed; [exact Ha|by apply Z.eqb_neq|].
  intros i. rewrite Hat. unfold tok0. split; lia.
Qed.

(** A thread that joins a verified run with a contribution of its own and is
    verified not to panic does not. *)
Lemma joiner_never_panics {S X} (I : list S -> S -> list X -> Prop) `{!Stutter I} (anything nothing : X -> Prop)
    h1 c1 sched2 h2 c2 (p : prog S unit) joiner :
  (forall n, exists G, safe I anything nothing (fun _ => anything) n h1 c1 G) ->
  (forall G, I h1 (shared c1) G -> I h1 (shared c1) (G ++ [joiner])) ->
  (forall t, WP I anything nothing t p joiner (fun _ => anything) nothing) -> (forall g, ~ nothing g) ->
  exec sched2 h1 (Config (threads c1 ++ [p]) (shared c1)) = Some (h2, c2) -> in_time h2 ->
  forall i, ~ panicked c2 i.
Proof.
  intros Hreach Hjoin Hp Hn He2 Ht i. destruct (Hreach (length sched2 + 1)%nat) as [G HG].
  pose proof (safe_add _ anything nothing _ _ _ _ _ _ _ anything HG (Hjoin G (proj1 HG)) Hp) as Hsafe.
  destruct (safe_exec _ anything nothing _ _ 1 _ _ _ _ _ Hsafe He2 Ht) as [G2 HG2].
  by eapply safe_not_panicked.
Qed.

Section observer.
Context {S X : Type} (self : lens S PoolAccounting) (A : lens X tok).
Context (cap : option Z) (strict : bool).
(** the pool's invariant for an observed moment *)
Context (I : nat -> list S -> S -> list X -> Prop) `{HS : forall T, Stutter (I T)}.
Context (I_acct : forall T h s G, I T h s G -> exists t, acct_inv self T cap strict h s t /\
  forall k g i, G !! k = Some g -> (get A g i <= t i)%nat).
(** the contribution of a thread that has just joined *)
Context (late : X).
Context (I_late : forall T h s G, (T <= length h)%nat -> I T h s G -> I T h s (G ++ [late])).
Let anything (_ : X) : Prop := True.
Let nothing (_ : X) : Prop := False.

(** [p] joins after [h1] and ends knowing that nothing older is unfinished. *)
Lemma observer_learns h1 c1 sched2 h2 c2 (p : prog S unit) :
  (forall T n, exists G, safe (I T) anything nothing (fun _ => anything) n h1 c1 G) ->
  exec sched2 h1 (Config (threads c1 ++ [p]) (shared c1)) = Some (h2, c2) -> in_time h2 ->
  (forall t, WP (I (length h1)) anything nothing t p late (fun _ g => (1 <= get A g KnowAll)%nat) nothing) ->
  threads c2 !! length (threads c1) = Some (Ret tt) ->
  submitted_task_count (get self (shared c1)) <=
  completed_task_count (get self (shared c2)) + cancelled_task_count (get self (shared c2)).
Proof.
  intros Hreach He2 Ht HQ Hend.
  destruct (Hreach (length h1) (length sched2 + 1)%nat) as [G HG]. pose proof HG as (HI & Hlen & _).
  pose proof (safe_add _ anything nothing _ _ _ _ _ _ _ _ HG (I_late _ _ _ _ (le_n _) HI) HQ) as Hsafe.
  destruct (safe_exec _ anything nothing _ _ 1 _ _ _ _ _ Hsafe He2 Ht) as [G2 HG2].
  pose proof HG2 as (HI2 & Hlen2 & _). destruct (I_acct _ _ _ _ HI2) as (t & Ha & Hle).
  assert (exists g, G2 !! length (threads c1) = Some g) as [g Hg].
  { apply lookup_lt_is_Some_2. rewrite Hlen2. by eapply lookup_lt_Some. }
  pose proof (safe_returned _ anything nothing _ _ _ _ _ _ _ HG2 Hend Hg) as Hkn.
  cbn beta in Hkn. rewrite decide_True in Hkn by done.
  eapply (know_all_done self); [exact Ha| |exact (at_time_exec _ _ _ _ _ He2)].
  pose proof (Hle _ _ KnowAll Hg). lia.
Qed.
End observer.

(** What an observer's idle check yields when it starts knowing the moment. *)
Lemma idle_gain_knows {X} (A : lens X tok) g0 r g :
  (1 <= r Late)%nat -> idle_gain A g0 r true g -> (1 <= get A g KnowAll)%nat.
Proof.
  intros HL (e & [Hg _] & _ & _ & Hk). specialize (Hk eq_refl HL). rewrite Hg. unfold tadd. lia.
Qed.
