(* ===== verification/Types.v ===== *)
(** Values exchanged with callers: lifecycle, errors, reports and statistics.
    The executor library's enumerations have the constructors the pools use. *)
From S2P Require Import Prelude Prog.
Local Open Scope Z_scope.

(** [qubit_executor::service::ExecutorServiceLifecycle] *)
Module Lifecycle.
Inductive t : Type := Running | ShuttingDown | Stopping | Terminated.
#[export] Instance t_eq_dec : EqDecision t.
Proof. solve_decision. Defined.
End Lifecycle.
Export (hints) Lifecycle.
Abbreviation ExecutorServiceLifecycle := Lifecycle.t.

(** [SubmissionError]; the operating system's error value is not kept. *)
Inductive SubmissionError : Type := Shutdown | Saturated | WorkerSpawnFailed.

#[export] Instance SubmissionError_eq_dec : EqDecision SubmissionError.
Proof. solve_decision. Defined.

Inductive ExecutorServiceBuilderError : Type :=
| ZeroPoolSize
| ZeroMaximumPoolSize
| CorePoolSizeExceedsMaximum (core_pool_size maximum_pool_size : Z)
| ZeroQueueCapacity
| ZeroStackSize
| ZeroKeepAlive
| SpawnWorker (index : option Z)
| OtherBuilderError (code : nat).

Inductive PoolJobSubmissionError : Type :=
| Rejected (error : SubmissionError)
| AcceptancePanicked.

#[export] Instance PoolJobSubmissionError_eq_dec : EqDecision PoolJobSubmissionError.
Proof. solve_decision. Defined.

(** [PoolJobSubmissionError::into_submission_error] *)
Definition into_submission_error {S} (self : PoolJobSubmissionError) : prog S SubmissionError :=
  match self with
  | Rejected error => Ret error
  | AcceptancePanicked => Panic
  end.

(** [Result::map_err(PoolJobSubmissionError::into_submission_error)] *)
Definition map_submission_error {S T} (r : Result T PoolJobSubmissionError) :
    prog S (Result T SubmissionError) :=
  match r with
  | Ok t => Ret (Ok t)
  | Err e => e' <- into_submission_error e ;; Ret (Err e')
  end.

(** [StopReport::new(queued, running, cancelled)] *)
Record StopReport : Type := MkStopReport {
  report_queued : Z;
  report_running : Z;
  report_cancelled : Z;
}.

Record ThreadPoolStats : Type := MkThreadPoolStats {
  stats_lifecycle : ExecutorServiceLifecycle;
  stats_core_pool_size : Z;
  stats_maximum_pool_size : Z;
  stats_queue_capacity : option Z;
  stats_live_workers : Z;
  stats_idle_workers : Z;
  stats_queued_tasks : Z;
  stats_running_tasks : Z;
  stats_submitted_tasks : Z;
  stats_completed_tasks : Z;
  stats_cancelled_tasks : Z;
  stats_terminated : bool;
}.

Definition thread_pool_stats_default : ThreadPoolStats :=
  MkThreadPoolStats Lifecycle.Running 0 0 None 0 0 0 0 0 0 0 false.
