(* ===== verification/Hooks.v ===== *)
(** [src/thread_pool_hooks.rs]: optional observers run by worker threads. *)
From S2P Require Import Prelude Prog Conc Sync.
Local Open Scope Z_scope.

(** A hook [Arc<dyn Fn(usize)>] is named by a number. *)
Abbreviation HookCallback := nat (only parsing).

Record ThreadPoolHooks : Type := MkThreadPoolHooks {
  hook_before_worker_start : option HookCallback;
  hook_after_worker_stop : option HookCallback;
  hook_before_task : option HookCallback;
  hook_after_task : option HookCallback;
}.

Definition thread_pool_hooks_new : ThreadPoolHooks := MkThreadPoolHooks None None None None.

Definition before_worker_start (self : ThreadPoolHooks) (hook : HookCallback) : ThreadPoolHooks :=
  MkThreadPoolHooks (Some hook) (hook_after_worker_stop self) (hook_before_task self)
    (hook_after_task self).
Definition after_worker_stop (self : ThreadPoolHooks) (hook : HookCallback) : ThreadPoolHooks :=
  MkThreadPoolHooks (hook_before_worker_start self) (Some hook) (hook_before_task self)
    (hook_after_task self).
Definition before_task (self : ThreadPoolHooks) (hook : HookCallback) : ThreadPoolHooks :=
  MkThreadPoolHooks (hook_before_worker_start self) (hook_after_worker_stop self) (Some hook)
    (hook_after_task self).
Definition after_task (self : ThreadPoolHooks) (hook : HookCallback) : ThreadPoolHooks :=
  MkThreadPoolHooks (hook_before_worker_start self) (hook_after_worker_stop self)
    (hook_before_task self) (Some hook).

Definition has_task_hooks (self : ThreadPoolHooks) : bool :=
  bool_decide (is_Some (hook_before_task self)) || bool_decide (is_Some (hook_after_task self)).

Section hooks.
Context {S : Type} `{UserCode S}.
Variable self : ThreadPoolHooks.

Definition run_hook (hook : option HookCallback) (worker_index : Z) : prog S unit :=
  match hook with
  | Some hook => catch_unwind (call_hook hook worker_index) ;; Ret tt
  | None => Ret tt
  end.

Definition run_before_worker_start (worker_index : Z) : prog S unit :=
  run_hook (hook_before_worker_start self) worker_index.
Definition run_after_worker_stop (worker_index : Z) : prog S unit :=
  run_hook (hook_after_worker_stop self) worker_index.
Definition run_before_task (worker_index : Z) : prog S unit :=
  run_hook (hook_before_task self) worker_index.
Definition run_after_task (worker_index : Z) : prog S unit :=
  run_hook (hook_after_task self) worker_index.
End hooks.
