(* ===== verification/PoolJob.v ===== *)
(** [src/pool_job.rs], [src/pool_job/internal]: type-erased jobs and the
    ownership states of queue entries. *)
From S2P Require Import Prelude Prog Conc Sync.

(** [dyn PoolTask]: the two implementations.  [accept] is the content of the
    mutex the custom task keeps its acceptance callback in. *)
Inductive PoolTask : Type :=
| CustomPoolTask (accept : option nat) (run cancel : nat)
| CompletablePoolTask (task completion : nat).

(** [Detached { run }]: the closure [run] owns the runnable [task]. *)
Inductive PoolJobInner : Type :=
| Detached (task : nat)
| Completable (task : PoolTask).

(** [queued]: the identity of the entry shared with a ticket, if any. *)
Record PoolJob : Type := MkPoolJob {
  job_inner : PoolJobInner;
  job_queued : option nat;
}.

(** Allocated by [PoolJob::new] for the closure [|| {}]. *)
Definition with_accept (accept run cancel : nat) : PoolJob :=
  MkPoolJob (Completable (CustomPoolTask (Some accept) run cancel)) None.
Definition pool_job_new (no_op run cancel : nat) : PoolJob := with_accept no_op run cancel.
Definition from_task (task completion : nat) : PoolJob :=
  MkPoolJob (Completable (CompletablePoolTask task completion)) None.
Definition detached (task : nat) : PoolJob := MkPoolJob (Detached task) None.

(** Jobs made from tasks rather than from custom callbacks. *)
Definition standard (self : PoolJob) : bool :=
  match job_inner self with Completable (CustomPoolTask _ _ _) => false | _ => true end.

Definition take_queue_entry (self : PoolJob) : option nat * PoolJob :=
  (job_queued self, MkPoolJob (job_inner self) None).

(** [QueuedJobState] *)
Module QueuedJobState.
Inductive t : Type :=
| Prepared
| Accepting (owner : nat) (cancel_requested : bool)
| Queued (job : PoolJob)
| Taken
| Cancelling
| Cancelled
| Rejected.
End QueuedJobState.

(** [entry_changed]: the threads asleep on the condition variable.
    [entry_pool]: whether the entry was prepared for the pool under
    consideration; ordinary entries hold an empty weak pointer. *)
Record QueuedJob : Type := MkQueuedJob {
  entry_state : Mutex QueuedJobState.t;
  entry_changed : list nat;
  entry_pool : bool;
}.

Definition queued_job_prepared : QueuedJob :=
  MkQueuedJob (mutex_new QueuedJobState.Prepared) [] true.
Definition queued_job_new (job : PoolJob) : QueuedJob :=
  MkQueuedJob (mutex_new (QueuedJobState.Queued job)) [] false.
Definition belongs_to_pool (self : QueuedJob) : bool := entry_pool self.

(** [take_queued] on the locked state: the job taken and the state left. *)
Definition take_queued_state (state : QueuedJobState.t) : option PoolJob * QueuedJobState.t :=
  match state with
  | QueuedJobState.Queued job => (Some job, QueuedJobState.Taken)
  | previous => (None, previous)
  end.

Section jobs.
Context {S : Type} `{UserCode S}.

Definition drop_opt_closure (o : option nat) : prog S unit :=
  match o with Some c => drop_closure c | None => Ret tt end.

(** [CustomPoolTask::accept]: takes the callback out of its mutex; the
    caller is the only owner of the job, so the mutex is free. *)
Definition custom_accept (accept : option nat) : prog S (Result unit unit) :=
  match accept with
  | Some accept =>
      o <- catch_unwind (call_closure accept) ;;
      Ret (match o with Some _ => Ok tt | None => Err tt end)
  | None => Ret (Ok tt)
  end.

(** The callback runs; then the captures not moved out are dropped. *)
Definition custom_run (accept : option nat) (run cancel : nat) : prog S unit :=
  catch_unwind (call_closure run) ;;
  finally (drop_opt_closure accept) (drop_closure cancel).

Definition custom_cancel (accept : option nat) (run cancel : nat) : prog S unit :=
  catch_unwind (call_closure cancel) ;;
  finally (drop_opt_closure accept) (drop_closure run).

Definition completable_accept (completion : nat) : prog S (Result unit unit) :=
  task_slot_accept completion ;; Ret (Ok tt).

Definition completable_run (task completion : nat) : prog S unit :=
  task_runner_run task completion.

Definition completable_cancel (task completion : nat) : prog S unit :=
  finally (task_slot_cancel_unstarted completion ;; Ret tt) (drop_callable task).

Definition task_accept (self : PoolTask) : prog S (Result unit unit * PoolTask) :=
  match self with
  | CustomPoolTask accept run cancel =>
      r <- custom_accept accept ;; Ret (r, CustomPoolTask None run cancel)
  | CompletablePoolTask task completion =>
      r <- completable_accept completion ;; Ret (r, CompletablePoolTask task completion)
  end.

Definition task_run (self : PoolTask) : prog S unit :=
  match self with
  | CustomPoolTask accept run cancel => custom_run accept run cancel
  | CompletablePoolTask task completion => completable_run task completion
  end.

Definition task_cancel (self : PoolTask) : prog S unit :=
  match self with
  | CustomPoolTask accept run cancel => custom_cancel accept run cancel
  | CompletablePoolTask task completion => completable_cancel task completion
  end.

(** Destructors, fields in declaration order. *)
Definition drop_task (self : PoolTask) : prog S unit :=
  match self with
  | CustomPoolTask accept run cancel =>
      finally (finally (drop_opt_closure accept) (drop_closure run)) (drop_closure cancel)
  | CompletablePoolTask task completion =>
      finally (drop_callable task) (drop_task_slot completion)
  end.

Definition drop_inner (self : PoolJobInner) : prog S unit :=
  match self with
  | Detached task => drop_runnable task
  | Completable task => drop_task task
  end.

(** The closure [PoolJob::detached] builds. *)
Definition detached_run (task : nat) : prog S unit :=
  catch_unwind (runnable_run task) ;; drop_runnable task.

(** [PoolJob::accept]; the job comes back with its callback consumed. *)
Definition job_accept (self : PoolJob) : prog S (Result unit unit * PoolJob) :=
  match job_inner self with
  | Completable task =>
      r <- task_accept task ;;
      Ret (r.1, MkPoolJob (Completable r.2) (job_queued self))
  | Detached _ => Ret (Ok tt, self)
  end.

Definition job_run (self : PoolJob) : prog S unit :=
  match job_inner self with
  | Detached task => detached_run task
  | Completable task => task_run task
  end.

Definition discard (self : PoolJob) : prog S unit :=
  catch_unwind (drop_inner (job_inner self)) ;; Ret tt.

Definition job_cancel (self : PoolJob) : prog S unit :=
  catch_unwind (match job_inner self with
                | Completable task => task_cancel task
                | Detached task => drop_runnable task
                end) ;; Ret tt.
End jobs.
