(* ===== verification/FixedInner.v ===== *)
(** [src/fixed/fixed_thread_pool_inner.rs], [fixed_thread_pool_state.rs] and
    the submit guard: the state a fixed pool's workers and callers share. *)
From S2P Require Import Prelude Prog Sync AdmissionGate PoolAccounting Types Hooks PoolJob.
Local Open Scope Z_scope.

Record FixedThreadPoolState : Type := MkFixedThreadPoolState {
  fixed_lifecycle : ExecutorServiceLifecycle;
  fixed_live_workers : Z;
  fixed_idle_workers : Z;
}.

Definition fixed_thread_pool_state_new : FixedThreadPoolState :=
  MkFixedThreadPoolState Lifecycle.Running 0 0.

Definition fixed_lifecycle_l : lens FixedThreadPoolState ExecutorServiceLifecycle :=
  Lens fixed_lifecycle
    (fun x a => MkFixedThreadPoolState x (fixed_live_workers a) (fixed_idle_workers a)).
Definition fixed_live_workers_l : lens FixedThreadPoolState Z :=
  Lens fixed_live_workers
    (fun x a => MkFixedThreadPoolState (fixed_lifecycle a) x (fixed_idle_workers a)).
Definition fixed_idle_workers_l : lens FixedThreadPoolState Z :=
  Lens fixed_idle_workers
    (fun x a => MkFixedThreadPoolState (fixed_lifecycle a) (fixed_live_workers a) x).

Record FixedThreadPoolInner (M Q : Type) : Type := MkFixedThreadPoolInner {
  pool_size : Z;
  state : ParkingLotMonitor M FixedThreadPoolState;
  accounting : PoolAccounting;
  stop_now : bool;
  idle_worker_count : Z;
  pending_worker_wakes : Z;
  submit_waiter_count : Z;
  idle_waiter_count : Z;
  global_queue : Q;
  hooks : ThreadPoolHooks;
}.
Arguments MkFixedThreadPoolInner {M Q}.
Arguments pool_size {M Q}. Arguments state {M Q}. Arguments accounting {M Q}.
Arguments stop_now {M Q}. Arguments idle_worker_count {M Q}.
Arguments pending_worker_wakes {M Q}. Arguments submit_waiter_count {M Q}.
Arguments idle_waiter_count {M Q}. Arguments global_queue {M Q}. Arguments hooks {M Q}.

Section lenses.
Context {M Q : Type}.
Local Abbreviation Inner := (FixedThreadPoolInner M Q).

Definition state_l : lens Inner (ParkingLotMonitor M FixedThreadPoolState) :=
  Lens state (fun x a => MkFixedThreadPoolInner (pool_size a) x (accounting a) (stop_now a)
    (idle_worker_count a) (pending_worker_wakes a) (submit_waiter_count a)
    (idle_waiter_count a) (global_queue a) (hooks a)).
Definition accounting_l : lens Inner PoolAccounting :=
  Lens accounting (fun x a => MkFixedThreadPoolInner (pool_size a) (state a) x (stop_now a)
    (idle_worker_count a) (pending_worker_wakes a) (submit_waiter_count a)
    (idle_waiter_count a) (global_queue a) (hooks a)).
Definition stop_now_l : lens Inner bool :=
  Lens stop_now (fun x a => MkFixedThreadPoolInner (pool_size a) (state a) (accounting a) x
    (idle_worker_count a) (pending_worker_wakes a) (submit_waiter_count a)
    (idle_waiter_count a) (global_queue a) (hooks a)).
Definition idle_worker_count_l : lens Inner Z :=
  Lens idle_worker_count (fun x a => MkFixedThreadPoolInner (pool_size a) (state a)
    (accounting a) (stop_now a) x (pending_worker_wakes a) (submit_waiter_count a)
    (idle_waiter_count a) (global_queue a) (hooks a)).
Definition pending_worker_wakes_l : lens Inner Z :=
  Lens pending_worker_wakes (fun x a => MkFixedThreadPoolInner (pool_size a) (state a)
    (accounting a) (stop_now a) (idle_worker_count a) x (submit_waiter_count a)
    (idle_waiter_count a) (global_queue a) (hooks a)).
Definition submit_waiter_count_l : lens Inner Z :=
  Lens submit_waiter_count (fun x a => MkFixedThreadPoolInner (pool_size a) (state a)
    (accounting a) (stop_now a) (idle_worker_count a) (pending_worker_wakes a) x
    (idle_waiter_count a) (global_queue a) (hooks a)).
Definition idle_waiter_count_l : lens Inner Z :=
  Lens idle_waiter_count (fun x a => MkFixedThreadPoolInner (pool_size a) (state a)
    (accounting a) (stop_now a) (idle_worker_count a) (pending_worker_wakes a)
    (submit_waiter_count a) x (global_queue a) (hooks a)).
Definition global_queue_l : lens Inner Q :=
  Lens global_queue (fun x a => MkFixedThreadPoolInner (pool_size a) (state a) (accounting a)
    (stop_now a) (idle_worker_count a) (pending_worker_wakes a) (submit_waiter_count a)
    (idle_waiter_count a) x (hooks a)).
End lenses.

Definition fixed_with_hooks {M Q} `{Monitor M} `{Injector Q PoolJob}
    (pool_size : Z) (queue_capacity : option Z) (hooks : ThreadPoolHooks) :
    FixedThreadPoolInner M Q :=
  MkFixedThreadPoolInner pool_size (monitor_new fixed_thread_pool_state_new)
    (pool_accounting_new queue_capacity) false 0 0 0 0 inj_new hooks.

Section fixed.
Context {S M Q : Type} `{Monitor M} `{Injector Q PoolJob} `{UserCode S}.
Variable self : lens S (FixedThreadPoolInner M Q).

(** The monitor, its data, and the accounting, inside the whole state. *)
Definition mon : lens S (ParkingLotMonitor M FixedThreadPoolState) := self ⊚ state_l.
Definition locked {B} (l : lens FixedThreadPoolState B) : lens S B := mon ⊚ mon_data_l ⊚ l.
Definition acc : lens S PoolAccounting := self ⊚ accounting_l.

Definition get_hooks : prog S ThreadPoolHooks :=
  Act (fun _ s => Some (hooks (get self s), s)) Ret.
Definition get_pool_size : prog S Z :=
  Act (fun _ s => Some (pool_size (get self s), s)) Ret.

Definition fixed_queued_count : prog S Z := queued_count acc.
Definition fixed_running_count : prog S Z := running_count acc.
Definition fixed_inflight_count : prog S Z := inflight_count acc.
Definition fixed_is_admission_open : prog S bool := is_admission_open acc.

Definition notify_waiters_after_atomic_change : prog S unit := lock_notify_all mon.

Definition has_idle_waiters : prog S bool :=
  n <- load (self ⊚ idle_waiter_count_l) ;; Ret (0 <? n).

Definition notify_submitter_departure : prog S unit :=
  open <- is_admission_open acc ;;
  notify <- (if negb open then Ret true else has_idle_waiters) ;;
  when notify notify_waiters_after_atomic_change.

Definition begin_submit : prog S (Result unit SubmissionError) :=
  entered <- try_enter acc ;;
  Ret (if (entered : bool) then Ok tt else Err Shutdown).

(** [FixedSubmitGuard::drop] *)
Definition fixed_submit_guard_drop : prog S unit :=
  last <- leave acc ;;
  when last notify_submitter_departure.

Definition reserve_queue_slot : prog S bool := try_reserve_bounded_slot acc.
Definition release_queue_slot : prog S unit := rollback_reserved_slot acc.

Definition wake_one_idle_worker : prog S unit :=
  idle_workers <- load (self ⊚ idle_worker_count_l) ;;
  if idle_workers =? 0 then Ret tt else
  requested <- fetch_update (self ⊚ pending_worker_wakes_l)
    (fun pending_wakes =>
       if pending_wakes <? idle_workers then Some (pending_wakes + 1) else None) ;;
  when (is_ok requested) (lock_notify_all mon).

Definition queue_push (job : PoolJob) : prog S unit :=
  Act (fun _ s => Some (tt, set (self ⊚ global_queue_l) (inj_push job (global_queue (get self s))) s)) Ret.

Definition queue_steal (contended : bool) : prog S (Steal PoolJob) :=
  Act (fun _ s => let r := inj_steal contended (global_queue (get self s)) in
                  Some (r.1, set (self ⊚ global_queue_l) r.2 s)) Ret.

Definition enqueue_job (job : PoolJob) : prog S unit :=
  publish_accepted_job acc ;;
  queue_push job ;;
  wake_one_idle_worker.

(** [submit] once inside admission; [TaskSlot::accept] does not panic, so
    nothing unwinds between [accept] and the job's next owner. *)
Definition submit_admitted (job : PoolJob) : prog S (Result unit PoolJobSubmissionError) :=
  reserved <- reserve_queue_slot ;;
  if negb reserved then
    discard job ;; Ret (Err (Rejected Saturated))
  else
    accepted <- job_accept job ;;
    match accepted.1 with
    | Err _ =>
        release_queue_slot ;;
        notify_waiters_after_atomic_change ;;
        discard accepted.2 ;;
        Ret (Err AcceptancePanicked)
    | Ok _ => enqueue_job accepted.2 ;; Ret (Ok tt)
    end.

Definition fixed_submit (job : PoolJob) : prog S (Result unit PoolJobSubmissionError) :=
  entered <- begin_submit ;;
  match entered with
  | Err error => discard job ;; Ret (Err (Rejected error))
  | Ok _ => finally (submit_admitted job) fixed_submit_guard_drop
  end.

Definition has_pending_worker_wake : prog S bool :=
  n <- load (self ⊚ pending_worker_wakes_l) ;; Ret (0 <? n).

Definition consume_pending_worker_wake : prog S unit :=
  fetch_update (self ⊚ pending_worker_wakes_l) (fun current => checked_sub current 1) ;;
  Ret tt.

Definition mark_worker_idle : prog S unit :=
  fetch_add (self ⊚ idle_worker_count_l) 1 ;; Ret tt.

Definition unmark_worker_idle : prog S unit :=
  previous <- fetch_sub (self ⊚ idle_worker_count_l) 1 ;;
  assert (0 <? previous) ;;
  consume_pending_worker_wake.

Definition steal_one : prog S (option PoolJob) :=
  loop (fun _ : unit =>
          contended <- choose ;;
          r <- queue_steal contended ;;
          Ret (match r with
               | StealSuccess job => inr (Some job)
               | StealEmpty => inr None
               | StealRetry => inl tt
               end)) tt.

Definition mark_queued_job_running : prog S unit := claim_queued_job acc.
Definition fixed_begin_cancel_queued_job : prog S unit := begin_cancel_queued_job acc.

Definition fixed_finish_cancelled_job : prog S unit :=
  finish_cancelled_job acc ;;
  notify_waiters_after_atomic_change.

Definition cancel_claimed_job (job : PoolJob) : prog S unit :=
  fixed_begin_cancel_queued_job ;;
  job_cancel job ;;
  fixed_finish_cancelled_job.

Definition accept_claimed_job (job : PoolJob) : prog S (option PoolJob) :=
  stopping <- load (self ⊚ stop_now_l) ;;
  if (stopping : bool) then cancel_claimed_job job ;; Ret None
  else mark_queued_job_running ;; Ret (Some job).

Definition try_take_job : prog S (option PoolJob) :=
  stopping <- load (self ⊚ stop_now_l) ;;
  if (stopping : bool) then Ret None else
  stolen <- steal_one ;;
  match stolen with
  | Some job => accept_claimed_job job
  | None => Ret None
  end.

Definition is_idle_locked : prog S bool := is_idle acc.

Definition fixed_finish_running_job : prog S unit :=
  finish_running_job acc ;;
  idle <- is_idle acc ;;
  when idle notify_waiters_after_atomic_change.

Definition reserve_worker_slot : prog S unit :=
  with_lock mon (guarded_incr (locked fixed_live_workers_l)).

Definition rollback_worker_slot : prog S unit :=
  with_lock mon (guarded_decr (locked fixed_live_workers_l)).

Definition stop_after_failed_build : prog S unit :=
  close_admission acc ;;
  store (self ⊚ stop_now_l) true ;;
  with_write_notify_all mon (store (locked fixed_lifecycle_l) Lifecycle.Stopping).

Definition fixed_is_terminated_locked : prog S bool :=
  lifecycle <- load (locked fixed_lifecycle_l) ;;
  if bool_decide (lifecycle = Lifecycle.Running) then Ret false else
  live_workers <- load (locked fixed_live_workers_l) ;;
  if negb (live_workers =? 0) then Ret false else
  is_idle_locked.

Definition fixed_wait_for_termination : prog S unit :=
  wait_until_ready mon fixed_is_terminated_locked.

Definition fixed_wait_until_idle : prog S unit :=
  fetch_add (self ⊚ idle_waiter_count_l) 1 ;;
  with_lock mon (
    loop (fun _ : unit =>
            idle <- is_idle_locked ;;
            if (idle : bool) then Ret (inr tt) else wait mon ;; Ret (inl tt)) tt ;;
    previous <- fetch_sub (self ⊚ idle_waiter_count_l) 1 ;;
    assert (0 <? previous)).

Definition fixed_shutdown : prog S unit :=
  close_admission acc ;;
  with_lock mon (
    lifecycle <- load (locked fixed_lifecycle_l) ;;
    when (bool_decide (lifecycle = Lifecycle.Running))
      (store (locked fixed_lifecycle_l) Lifecycle.ShuttingDown) ;;
    notify_all mon).

Definition drain_global_queue (jobs : list PoolJob) : prog S (list PoolJob) :=
  loop (fun jobs : list PoolJob =>
          stolen <- steal_one ;;
          Ret (match stolen with
               | Some job => inl (jobs ++ [job])
               | None => inr jobs
               end)) jobs.

Definition drain_visible_queued_jobs : prog S (list PoolJob) := drain_global_queue [].

(** The wait for submitters inside [stop], holding the monitor. *)
Definition wait_for_submitters : prog S unit :=
  inflight <- fixed_inflight_count ;;
  when (0 <? inflight) (
    fetch_add (self ⊚ submit_waiter_count_l) 1 ;;
    loop (fun _ : unit =>
            inflight <- fixed_inflight_count ;;
            if 0 <? inflight then wait mon ;; Ret (inl tt) else Ret (inr tt)) tt ;;
    previous <- fetch_sub (self ⊚ submit_waiter_count_l) 1 ;;
    assert (0 <? previous)).

(** The block of [stop] under the monitor: (jobs, queued, running). *)
Definition stop_locked (before_stop : PoolCounterSnapshot) : prog S (list PoolJob * Z * Z) :=
  lifecycle <- load (locked fixed_lifecycle_l) ;;
  let is_new_stop := bool_decide (lifecycle = Lifecycle.Running \/
                                  lifecycle = Lifecycle.ShuttingDown) in
  when is_new_stop (store (locked fixed_lifecycle_l) Lifecycle.Stopping) ;;
  wait_for_submitters ;;
  running <- fixed_running_count ;;
  jobs <- drain_visible_queued_jobs ;;
  let drained := Z.of_nat (length jobs) in
  for_each jobs (fun _ => fixed_begin_cancel_queued_job) ;;
  counters <- snapshot acc ;;
  let cancelling_since_stop :=
    saturating_sub (cancelling_tasks counters) (cancelling_tasks before_stop) in
  let cancelled_since_stop :=
    saturating_sub (cancelled_tasks counters) (cancelled_tasks before_stop) in
  let queued :=
    if is_new_stop
    then drained + saturating_sub cancelling_since_stop drained + cancelled_since_stop
    else drained in
  assert (queued <? USIZE_MOD) ;;
  notify_all mon ;;
  Ret (jobs, queued, running).

Definition fixed_stop : prog S StopReport :=
  before_stop <- snapshot acc ;;
  close_admission acc ;;
  store (self ⊚ stop_now_l) true ;;
  stopped <- with_lock mon (stop_locked before_stop) ;;
  let '(jobs, queued, running) := (stopped : list PoolJob * Z * Z) in
  for_each jobs (fun job => job_cancel job ;; fixed_finish_cancelled_job) ;;
  lock_notify_all mon ;;
  Ret (MkStopReport queued running queued).

Definition fixed_is_not_running : prog S bool :=
  with_lock mon (
    lifecycle <- load (locked fixed_lifecycle_l) ;;
    Ret (negb (bool_decide (lifecycle = Lifecycle.Running)))).

Definition observed_lifecycle : prog S ExecutorServiceLifecycle :=
  terminated <- fixed_is_terminated_locked ;;
  if (terminated : bool) then Ret Lifecycle.Terminated else load (locked fixed_lifecycle_l).

Definition fixed_lifecycle_of : prog S ExecutorServiceLifecycle :=
  with_lock mon observed_lifecycle.

Definition fixed_is_terminated : prog S bool := with_lock mon fixed_is_terminated_locked.

Definition fixed_wait_for_termination_timeout (timeout : Z) : prog S bool :=
  loop (fun _ : unit =>
          over <- time_is_over timeout ;;
          if (over : bool) then
            terminated <- fixed_is_terminated ;; Ret (inr terminated)
          else
            waited <- wait_until_ready_with_total_timeout mon fixed_is_terminated_locked ;;
            match waited with
            | Ok true => Ret (inr true)
            | Ok false => Ret (inl tt)
            | Err _ => terminated <- fixed_is_terminated ;; Ret (inr terminated)
            end) tt.

Definition fixed_stats : prog S ThreadPoolStats :=
  counters <- snapshot acc ;;
  with_lock mon (
    lifecycle <- observed_lifecycle ;;
    size <- get_pool_size ;;
    capacity <- accounting_queue_capacity acc ;;
    live_workers <- load (locked fixed_live_workers_l) ;;
    idle_workers <- load (locked fixed_idle_workers_l) ;;
    terminated <- fixed_is_terminated_locked ;;
    Ret (MkThreadPoolStats lifecycle size size capacity live_workers idle_workers
           (queued_tasks counters) (running_tasks counters) (submitted_tasks counters)
           (completed_tasks counters) (cancelled_tasks counters) terminated)).
End fixed.
