(* ===== verification/FixedWorker.v ===== *)
(** [src/fixed/fixed_worker.rs], [fixed_worker_runtime.rs]: the loop of a
    fixed pool's worker thread. *)
From S2P Require Import Prelude Prog Sync AdmissionGate PoolAccounting Types Hooks PoolJob.
From S2P Require Import FixedInner.
Local Open Scope Z_scope.

Definition IDLE_SPIN_LIMIT : nat := 256.

Record FixedWorkerRuntime : Type := MkFixedWorkerRuntime { worker_index : Z }.

Section worker.
Context {S M Q : Type} `{Monitor M} `{Injector Q PoolJob} `{UserCode S}.
Variable self : lens S (FixedThreadPoolInner M Q).
Local Abbreviation mon := (mon self).

Definition run_without_hooks (job : PoolJob) : prog S unit :=
  catch_unwind (job_run job) ;; Ret tt.

Definition run_with_task_hooks (job : PoolJob) (hooks : ThreadPoolHooks) (worker_index : Z) :
    prog S unit :=
  run_before_task hooks worker_index ;;
  run_without_hooks job ;;
  run_after_task hooks worker_index.

(** The probing loop, [n] iterations left. *)
Fixpoint spin_probes (n : nat) : prog S bool :=
  match n with
  | O => Ret false
  | Datatypes.S n =>
      queued <- fixed_queued_count self ;;
      visible <- (if 0 <? queued then Ret true else has_pending_worker_wake self) ;;
      if (visible : bool) then Ret true else
      open <- fixed_is_admission_open self ;;
      if negb open then Ret false else spin_probes n
  end.

Definition spin_for_fixed_pool_work : prog S bool :=
  size <- get_pool_size self ;;
  if size <=? 4 then Ret false else spin_probes IDLE_SPIN_LIMIT.

Definition mark_fixed_worker_idle : prog S unit :=
  guarded_incr (locked self fixed_idle_workers_l) ;;
  mark_worker_idle self.

Definition unmark_fixed_worker_idle : prog S unit :=
  guarded_decr (locked self fixed_idle_workers_l) ;;
  unmark_worker_idle self.

(** The idle section of the [Running] state, entered with the monitor held:
    whether the worker leaves the wait at once. *)
Definition park_running : prog S bool :=
  mark_fixed_worker_idle ;;
  queued <- fixed_queued_count self ;;
  visible <- (if 0 <? queued then Ret true else has_pending_worker_wake self) ;;
  if (visible : bool) then unmark_fixed_worker_idle ;; Ret true
  else wait mon ;; unmark_fixed_worker_idle ;; Ret false.

Definition park_shutting_down : prog S unit :=
  mark_fixed_worker_idle ;;
  queued <- fixed_queued_count self ;;
  (if queued =? 0 then
     inflight <- fixed_inflight_count self ;;
     when (0 <? inflight) (wait mon)
   else Ret tt) ;;
  unmark_fixed_worker_idle.

(** One iteration of the waiting loop; the monitor is held at its start and
    when it continues, and released when it answers. *)
Definition wait_iteration (_ : unit) : prog S (unit + bool) :=
  lifecycle <- load (locked self fixed_lifecycle_l) ;;
  match lifecycle with
  | Lifecycle.Running =>
      queued <- fixed_queued_count self ;;
      if 0 <? queued then monitor_unlock mon ;; Ret (inr true) else
      monitor_unlock mon ;;
      found <- spin_for_fixed_pool_work ;;
      if (found : bool) then Ret (inr true) else
      monitor_lock mon ;;
      lifecycle <- load (locked self fixed_lifecycle_l) ;;
      if negb (bool_decide (lifecycle = Lifecycle.Running)) then Ret (inl tt) else
      leave <- holding mon park_running ;;
      if (leave : bool) then monitor_unlock mon ;; Ret (inr true) else Ret (inl tt)
  | Lifecycle.ShuttingDown =>
      queued <- fixed_queued_count self ;;
      if 0 <? queued then monitor_unlock mon ;; Ret (inr true) else
      inflight <- fixed_inflight_count self ;;
      if inflight =? 0 then monitor_unlock mon ;; Ret (inr false) else
      holding mon park_shutting_down ;; Ret (inl tt)
  | Lifecycle.Stopping | Lifecycle.Terminated =>
      monitor_unlock mon ;; Ret (inr false)
  end.

Definition wait_for_fixed_pool_work : prog S bool :=
  monitor_lock mon ;;
  loop wait_iteration tt.

Definition worker_exited (_worker_index : Z) : prog S unit :=
  with_write_notify_all mon (guarded_decr (locked self fixed_live_workers_l)).

(** One iteration of the worker loop: [inr] to leave it. *)
Definition worker_iteration (has_hooks : bool) (worker_index : Z) (_ : unit) : prog S (unit + unit) :=
  taken <- try_take_job self ;;
  match taken with
  | Some job =>
      (if has_hooks then
         hooks <- get_hooks self ;; run_with_task_hooks job hooks worker_index
       else run_without_hooks job) ;;
      fixed_finish_running_job self ;;
      Ret (inl tt)
  | None =>
      again <- wait_for_fixed_pool_work ;;
      Ret (if (again : bool) then inl tt else inr tt)
  end.

Definition fixed_worker_run (worker_runtime : FixedWorkerRuntime) : prog S unit :=
  let index := worker_index worker_runtime in
  hooks <- get_hooks self ;;
  run_before_worker_start hooks index ;;
  loop (worker_iteration (has_task_hooks hooks) index) tt ;;
  run_after_worker_stop hooks index ;;
  worker_exited index.
End worker.
