(* ===== verification/JobLifecycle.v ===== *)
(** What happens to the pieces of a job: each callback, task and completion
    endpoint handed to [src/pool_job.rs] is consumed exactly once, whichever of
    them panic. *)
From S2P Require Import Prelude Prog Sync Seq Hooks PoolJob FixedInner FixedWorker.

(** ** An application that records what is done to its pieces *)
Inductive Event : Type :=
| Called (closure : nat) | DroppedClosure (closure : nat)
| RunnableRan (task : nat) | RunnableDropped (task : nat)
| TaskRan (task completion : nat)
| SlotAccepted (completion : nat) | SlotCancelled (completion : nat)
| CallableDropped (task : nat) | SlotDropped (completion : nat)
| HookCalled (hook : nat) (worker_index : Z).

(** [log]: the part of the state the application writes its log to. *)
Definition record_event {S} (log : lens S (list Event)) (e : Event) : prog S unit :=
  Act (fun _ s => Some (tt, set log (get log s ++ [e]) s)) Ret.

(** [panics]: which of the application's callbacks and destructors panic. *)
Definition recording {S} (log : lens S (list Event)) (panics : Event -> bool) : UserCode S :=
  let act e := record_event log e ;; if panics e then Panic else Ret tt in
  {| call_closure c := act (Called c);
     drop_closure c := act (DroppedClosure c);
     call_hook h i := act (HookCalled h i);
     runnable_run t := act (RunnableRan t);
     drop_runnable t := act (RunnableDropped t);
     task_runner_run t c := act (TaskRan t c);
     task_slot_accept c := record_event log (SlotAccepted c);
     task_slot_cancel_unstarted c := act (SlotCancelled c) ;; Ret true;
     drop_callable t := act (CallableDropped t);
     drop_task_slot c := act (SlotDropped c) |}.

(** ** The lives of a job *)

(** Jobs as callers make them. *)
Inductive JobSpec : Type :=
| SpecDetached (task : nat)
| SpecTask (task completion : nat)
| SpecCustom (accept run cancel : nat).

Definition new_job (j : JobSpec) : PoolJob :=
  match j with
  | SpecDetached task => detached task
  | SpecTask task completion => from_task task completion
  | SpecCustom accept run cancel => with_accept accept run cancel
  end.

(** A job is rejected before acceptance, or accepted and then run by a worker
    or cancelled; a failed acceptance discards it. *)
Inductive Fate : Type := Refused | Executed | CancelledInQueue.

Definition live {S} `{UserCode S} (fate : Fate) (job : PoolJob) : prog S unit :=
  match fate with
  | Refused => discard job
  | _ =>
      accepted <- job_accept job ;;
      match accepted.1 with
      | Err _ => discard accepted.2
      | Ok _ => match fate with
                | Executed => run_without_hooks accepted.2
                | _ => job_cancel accepted.2
                end
      end
  end.

(** The pieces a job owns, and the pieces an event consumes: a completion
    endpoint is consumed by the task's run, by the cancellation or by dropping it,
    a runnable by dropping it. *)
Inductive Piece : Type := Closure (n : nat) | Task (n : nat) | Completion (n : nat).

Definition pieces (j : JobSpec) : list Piece :=
  match j with
  | SpecDetached task => [Task task]
  | SpecTask task completion => [Task task; Completion completion]
  | SpecCustom accept run cancel => [Closure accept; Closure run; Closure cancel]
  end.

Definition consumes (e : Event) : list Piece :=
  match e with
  | Called c | DroppedClosure c => [Closure c]
  | RunnableDropped t | CallableDropped t => [Task t]
  | TaskRan t c => [Task t; Completion c]
  | SlotCancelled c | SlotDropped c => [Completion c]
  | RunnableRan _ | SlotAccepted _ | HookCalled _ _ => []
  end.

(** What the job does for the application. *)
Definition acceptance_fails (panics : Event -> bool) (j : JobSpec) : bool :=
  match j with SpecCustom accept _ _ => panics (Called accept) | _ => false end.

Definition visible (panics : Event -> bool) (fate : Fate) (j : JobSpec) : list Event :=
  match fate, j with
  | Refused, _ => []
  | Executed, SpecDetached task => [RunnableRan task]
  | CancelledInQueue, SpecDetached _ => []
  | Executed, SpecTask task completion => [SlotAccepted completion; TaskRan task completion]
  | CancelledInQueue, SpecTask _ completion => [SlotAccepted completion; SlotCancelled completion]
  | _, SpecCustom accept run cancel =>
      Called accept ::
      if panics (Called accept) then []
      else [Called (match fate with Executed => run | _ => cancel end)]
  end.

Definition is_destructor (e : Event) : bool :=
  match e with
  | DroppedClosure _ | RunnableDropped _ | CallableDropped _ | SlotDropped _ => true
  | _ => false
  end.

(** The events [p] adds to the log when run from any world. *)
Definition logs {S A} (log : lens S (list Event)) (p : prog S A) (a : A) (evs : list Event) : Prop :=
  forall t w, runs t p w (Returned a (with_part log (part log w ++ evs) w)).

(** Evaluates straight-line callback code, the answers of [panics] being in
    the context. *)
Ltac answer :=
  match goal with H : ?panics ?e = _ |- context [?panics ?e] => rewrite H end; cbn.
Ltac evaluate :=
  let w := fresh "w" in
  intros ? w; split; [discriminate|exists 0%nat; destruct w; unfold with_part, part; cbn;
    repeat first [answer | rewrite get_set by apply _ | rewrite set_set by apply _];
    rewrite <- ?app_assoc; reflexivity].
Ltac life :=
  eexists; split; [evaluate|split; [cbn; solve_Permutation|cbn; repeat answer; reflexivity]].

Lemma job_life {S} (log : lens S (list Event)) `{!LensLaws log}
    (panics : Event -> bool) (fate : Fate) (j : JobSpec) :
  exists evs,
    logs log (live (H := recording log panics) fate (new_job j)) tt evs /\
    concat (map consumes evs) ≡ₚ pieces j /\
    filter (fun e => is_destructor e = false) evs = visible panics fate j.
Proof.
  destruct j as [x|x c|a r c].
  - destruct fate, (panics (RunnableRan x)) eqn:?, (panics (RunnableDropped x)) eqn:?; life.
  - destruct fate, (panics (TaskRan x c)) eqn:?, (panics (SlotCancelled c)) eqn:?,
      (panics (CallableDropped x)) eqn:?, (panics (SlotDropped c)) eqn:?; life.
  - destruct fate, (panics (Called a)) eqn:?, (panics (Called r)) eqn:?, (panics (Called c)) eqn:?,
      (panics (DroppedClosure a)) eqn:?, (panics (DroppedClosure r)) eqn:?, (panics (DroppedClosure c)) eqn:?;
      life.
Qed.

(** ** Acceptance and refusal of a fresh job *)
Definition accepted_job (panics : Event -> bool) (j : JobSpec) : Result unit unit * PoolJob :=
  match j with
  | SpecCustom accept run cancel =>
      (if panics (Called accept) then Err tt else Ok tt,
       MkPoolJob (Completable (CustomPoolTask None run cancel)) None)
  | _ => (Ok tt, new_job j)
  end.

Definition accept_events (j : JobSpec) : list Event :=
  match j with
  | SpecDetached _ => []
  | SpecTask _ completion => [SlotAccepted completion]
  | SpecCustom accept _ _ => [Called accept]
  end.

Section jobs.
Context {S : Type} (log : lens S (list Event)) `{!LensLaws log} (panics : Event -> bool).
Definition job_user : UserCode S := recording log panics.
#[local] Existing Instance job_user.


Lemma accept_logs j : logs log (job_accept (new_job j)) (accepted_job panics j) (accept_events j).
Proof.
  destruct j as [x|x c|a r c]; cbn [accepted_job accept_events];
    [intros t w; rewrite app_nil_r, with_part_part by apply _; apply runs_ret|evaluate|].
  destruct (panics (Called a)) eqn:?; evaluate.
Qed.

Lemma accepted_job_result j :
  (accepted_job panics j).1 = if acceptance_fails panics j then Err tt else Ok tt.
Proof. by destruct j. Qed.

Lemma accept_events_visible j :
  filter (fun e => is_destructor e = false) (accept_events j) = accept_events j.
Proof. by destruct j. Qed.

(** A discarded job loses all its pieces and runs no callback. *)
Definition discarded (j : JobSpec) (evs : list Event) : Prop :=
  concat (map consumes evs) ≡ₚ pieces j /\ filter (fun e => is_destructor e = false) evs = [].

Lemma discard_logs j : exists evs, logs log (discard (new_job j)) tt evs /\ discarded j evs.
Proof.
  destruct (job_life log panics Refused j) as (evs & H1 & H2 & H3).
  exists evs. split; [exact H1|]. split; [exact H2|]. by destruct j.
Qed.

(** A job whose acceptance failed loses what is left of it. *)
Lemma discard_failed_logs j :
  acceptance_fails panics j = true ->
  exists evs, logs log (discard (accepted_job panics j).2) tt evs /\
    concat (map consumes (accept_events j ++ evs)) ≡ₚ pieces j /\
    filter (fun e => is_destructor e = false) evs = [].
Proof.
  destruct j as [x|x c|a r c]; cbn [acceptance_fails]; [done..|]. intros Ha.
  destruct (panics (DroppedClosure r)) eqn:?, (panics (DroppedClosure c)) eqn:?; life.
Qed.

(** An accepted job that is cancelled: its cancel callback runs, never its run
    callback, and the pieces left by acceptance are consumed. *)
Definition cancel_events (j : JobSpec) : list Event :=
  match j with
  | SpecDetached _ => []
  | SpecTask _ completion => [SlotCancelled completion]
  | SpecCustom _ _ cancel => [Called cancel]
  end.

Definition cancelled (j : JobSpec) (evs : list Event) : Prop :=
  concat (map consumes (accept_events j ++ evs)) ≡ₚ pieces j /\
  filter (fun e => is_destructor e = false) evs = cancel_events j.

Lemma cancel_logs j : exists evs, logs log (job_cancel (accepted_job panics j).2) tt evs /\ cancelled j evs.
Proof.
  destruct j as [x|x c|a r c].
  - destruct (panics (RunnableDropped x)) eqn:?; life.
  - destruct (panics (SlotCancelled c)) eqn:?, (panics (CallableDropped x)) eqn:?; life.
  - destruct (panics (Called c)) eqn:?, (panics (DroppedClosure r)) eqn:?; life.
Qed.

(** An accepted job that is run: its run callback runs, never its cancel
    callback, and the pieces left by acceptance are consumed. *)
Definition run_events (j : JobSpec) : list Event :=
  match j with
  | SpecDetached task => [RunnableRan task]
  | SpecTask task completion => [TaskRan task completion]
  | SpecCustom _ run _ => [Called run]
  end.

Definition executed (j : JobSpec) (evs : list Event) : Prop :=
  concat (map consumes (accept_events j ++ evs)) ≡ₚ pieces j /\
  filter (fun e => is_destructor e = false) evs = run_events j.

Lemma run_logs j : exists o evs,
  logs log (catch_unwind (job_run (accepted_job panics j).2)) o evs /\ executed j evs.
Proof.
  destruct j as [x|x c|a r c].
  - destruct (panics (RunnableRan x)) eqn:?, (panics (RunnableDropped x)) eqn:?; eexists; life.
  - destruct (panics (TaskRan x c)) eqn:?; eexists; life.
  - destruct (panics (Called r)) eqn:?, (panics (DroppedClosure c)) eqn:?; eexists; life.
Qed.

(** A hook is called once, and a panic of its stays inside. *)
Definition hook_events (hook : option nat) (worker_index : Z) : list Event :=
  match hook with Some h => [HookCalled h worker_index] | None => [] end.

Lemma hook_logs hook i : logs log (run_hook hook i) tt (hook_events hook i).
Proof.
  destruct hook as [h|]; cbn [hook_events].
  - destruct (panics (HookCalled h i)) eqn:?; evaluate.
  - intros t w. rewrite app_nil_r, with_part_part by apply _. apply runs_ret.
Qed.
End jobs.

(** ** What happens to a sequence of jobs *)

(** One cancellation per job, in order. *)
Definition all_cancelled (js : list JobSpec) (evs : list Event) : Prop :=
  exists parts, Forall2 cancelled js parts /\ evs = concat parts.

(** What worker [i] does for a job: its hooks around one run. *)
Definition served (hooks : ThreadPoolHooks) (i : Z) (j : JobSpec) (evs : list Event) : Prop :=
  exists es, executed j es /\
    evs = hook_events (hook_before_task hooks) i ++ es ++ hook_events (hook_after_task hooks) i.

Definition all_served (hooks : ThreadPoolHooks) (i : Z) (js : list JobSpec) (evs : list Event) : Prop :=
  exists parts, Forall2 (served hooks i) js parts /\ evs = concat parts.


