(* ===== verification/SeqPool.v ===== *)
(** The logic of [SeqLogic] for code over one pool, its accounting, its locks
    and the application's log. *)
From S2P Require Import Prelude Prog Sync Seq SeqLogic AdmissionGate PoolAccounting.
From S2P Require Import AccountingRefine PoolJob JobLifecycle.
Local Open Scope Z_scope.

#[export] Instance mutex_data_l_laws {A} : LensLaws (@mutex_data_l A).
Proof. solve_lens. Qed.

Section pool.
Context {S P : Type} (self : lens S P) (log : lens S (list Event)).
Context `{!LensLaws self, !LensLaws log, !Apart self log}.
Implicit Types (w : world S) (p : P) (t : nat).

(** The view: the pool's value and the threads started so far. *)
Record Seen : Type := MkSeen {
  seen_pool : P;
  seen_threads : list (string * option Z * prog S unit);
}.

Definition seen_at (v : Seen) w : Prop := part self w = seen_pool v /\ w_spawned w = seen_threads v.

(** The environment's future answers are not part of the view. *)
Definition any_frame (_ _ : world S) : Prop := True.
#[export] Instance any_frame_preorder : PreOrder any_frame.
Proof. by split. Qed.

Definition pdoes {R} t (p : prog S R) (v : Seen) (Post : R -> Seen -> list Event -> Prop) : Prop :=
  does seen_at log any_frame t p v Post.

Definition with_pool (p : P) (v : Seen) : Seen := MkSeen p (seen_threads v).

Lemma pdoes_ret {R} t (r : R) v (Post : R -> Seen -> list Event -> Prop) :
  Post r v [] -> pdoes t (Ret r) v Post.
Proof. apply (does_ret seen_at log any_frame). Qed.

Lemma pdoes_bind {R R'} t (p : prog S R) (f : R -> prog S R') v Post :
  pdoes t p v (fun r v1 e1 => pdoes t (f r) v1 (fun r' v2 e2 => Post r' v2 (e1 ++ e2))) ->
  pdoes t (bind p f) v Post.
Proof. intros Hp. eapply (does_bind seen_at log any_frame); [exact Hp|]. by intros. Qed.

Lemma pdoes_mono {R} t (p : prog S R) v (Q Post : R -> Seen -> list Event -> Prop) :
  pdoes t p v Q -> (forall r v' e, Q r v' e -> Post r v' e) -> pdoes t p v Post.
Proof. apply (does_mono seen_at log any_frame). Qed.

Lemma pdoes_finally {R} t (p : prog S R) fin v Post :
  pdoes t p v (fun r v1 e1 => pdoes t fin v1 (fun _ v2 e2 => Post r v2 (e1 ++ e2))) ->
  pdoes t (finally p fin) v Post.
Proof. intros Hp. eapply (does_finally seen_at log any_frame); [exact Hp|]. by intros. Qed.

(** A destructor that only unwinding reaches. *)
Lemma pdoes_on_unwind {R} t (p : prog S R) fin v Post :
  pdoes t p v Post -> pdoes t (on_unwind p fin) v Post.
Proof.
  intros Hp w Hw. destruct (Hp w Hw) as (r & w' & v' & e & Hr & Hrest). exists r, w', v', e.
  split; [|exact Hrest]. eapply runs_bind; [by apply runs_catch in Hr|]. apply runs_ret.
Qed.

(** Code that writes the pool only. *)
Lemma pdoes_part {R} t (p : prog S R) v (r : R) p' (Post : R -> Seen -> list Event -> Prop) :
  (forall w, seen_at v w -> runs t p w (Returned r (with_part self p' w))) ->
  Post r (with_pool p' v) [] -> pdoes t p v Post.
Proof.
  intros Hp HP w Hw. exists r, (with_part self p' w), (with_pool p' v), [].
  rewrite app_nil_r. split; [by apply Hp|]. split; [split; [apply part_with; apply _|apply Hw]|].
  split; [unfold part, with_part; cbn; apply apart_get'|]. done.
Qed.

(** Application code writes the log only. *)
Lemma pdoes_user {R} t (p : prog S R) v r evs (Post : R -> Seen -> list Event -> Prop) :
  logs log p r evs -> Post r v evs -> pdoes t p v Post.
Proof.
  intros Hp HP w [Hw Hs]. exists r, (with_part log (part log w ++ evs) w), v, evs.
  split; [apply Hp|]. split; [split; [unfold part, with_part in *; cbn; by rewrite apart_get|done]|].
  rewrite part_with by apply _. done.
Qed.

(** Fields *)
Lemma pdoes_load {B} t (l : lens P B) v (Post : B -> Seen -> list Event -> Prop) :
  Post (get l (seen_pool v)) v [] -> pdoes t (load (self ⊚ l)) v Post.
Proof.
  intros HP w [Hw Hs]. exists (get l (seen_pool v)), w, v, []. rewrite app_nil_r, <- Hw.
  split; [apply runs_load; apply _|]. rewrite Hw. done.
Qed.

Lemma pdoes_read {B} t (f : P -> B) v (Post : B -> Seen -> list Event -> Prop) :
  Post (f (seen_pool v)) v [] -> pdoes t (Act (fun _ s => Some (f (get self s), s)) Ret) v Post.
Proof.
  intros HP w [Hw Hs]. exists (f (seen_pool v)), w, v, []. rewrite app_nil_r, <- Hw.
  split; [apply runs_read|]. rewrite Hw. done.
Qed.

Lemma pdoes_store {B} t (l : lens P B) x v (Post : unit -> Seen -> list Event -> Prop) :
  Post tt (with_pool (set l x (seen_pool v)) v) [] -> pdoes t (store (self ⊚ l) x) v Post.
Proof. intros HP. eapply pdoes_part; [|exact HP]. intros w [Hw _]. rewrite <- Hw. apply runs_store. Qed.

Lemma pdoes_fetch_add t (l : lens P Z) n v (Post : Z -> Seen -> list Event -> Prop) :
  Post (get l (seen_pool v)) (with_pool (set l (wrap (get l (seen_pool v) + n)) (seen_pool v)) v) [] ->
  pdoes t (fetch_add (self ⊚ l) n) v Post.
Proof. intros HP. eapply pdoes_part; [|exact HP]. intros w [Hw _]. rewrite <- Hw. apply runs_fetch_add. Qed.

Lemma pdoes_fetch_sub t (l : lens P Z) n v (Post : Z -> Seen -> list Event -> Prop) :
  Post (get l (seen_pool v)) (with_pool (set l (wrap (get l (seen_pool v) - n)) (seen_pool v)) v) [] ->
  pdoes t (fetch_sub (self ⊚ l) n) v Post.
Proof. intros HP. eapply pdoes_part; [|exact HP]. intros w [Hw _]. rewrite <- Hw. apply runs_fetch_sub. Qed.

Lemma pdoes_fetch_update t (l : lens P Z) f v (Post : Result Z Z -> Seen -> list Event -> Prop) :
  match f (get l (seen_pool v)) with
  | Some x => Post (Ok (get l (seen_pool v))) (with_pool (set l x (seen_pool v)) v) []
  | None => Post (Err (get l (seen_pool v))) v []
  end ->
  pdoes t (fetch_update (self ⊚ l) f) v Post.
Proof.
  intros HP. destruct (f (get l (seen_pool v))) as [x|] eqn:Hf.
  - eapply pdoes_part; [|exact HP]. intros w [Hw _].
    pose proof (runs_fetch_update self l f t w) as Hr. rewrite Hw, Hf in Hr. exact Hr.
  - intros w [Hw Hs]. pose proof (runs_fetch_update self l f t w) as Hr. rewrite Hw, Hf in Hr.
    exists (Err (get l (seen_pool v))), w, v, []. rewrite app_nil_r. done.
Qed.

Lemma pdoes_guarded_incr t (l : lens P Z) v (Post : unit -> Seen -> list Event -> Prop) :
  get l (seen_pool v) + 1 < USIZE_MOD ->
  Post tt (with_pool (set l (get l (seen_pool v) + 1) (seen_pool v)) v) [] ->
  pdoes t (guarded_incr (self ⊚ l)) v Post.
Proof.
  intros Hlt HP. eapply pdoes_part; [|exact HP]. intros w [Hw _]. rewrite <- Hw in *.
  by apply runs_guarded_incr.
Qed.

Lemma pdoes_guarded_decr t (l : lens P Z) v (Post : unit -> Seen -> list Event -> Prop) :
  1 <= get l (seen_pool v) ->
  Post tt (with_pool (set l (get l (seen_pool v) - 1) (seen_pool v)) v) [] ->
  pdoes t (guarded_decr (self ⊚ l)) v Post.
Proof.
  intros Hlt HP. eapply pdoes_part; [|exact HP]. intros w [Hw _]. rewrite <- Hw in *.
  by apply runs_guarded_decr.
Qed.

(** Accounting operations, by the ledger they implement. *)
Lemma pdoes_acc {R} t (l : lens P PoolAccounting) `{!LensLaws l} op (p : prog S R) (f : R -> LedgerReply)
    a r a' v (Post : R -> Seen -> list Event -> Prop) :
  accounting_op (self ⊚ l) op = bind p (fun r => Ret (f r)) ->
  (forall x y, f x = f y -> x = y) ->
  ledger_repr a (get l (seen_pool v)) ->
  led_step op a = Answer (f r) a' ->
  (forall x, ledger_repr a' x -> Post r (with_pool (set l x (seen_pool v)) v) []) ->
  pdoes t p v Post.
Proof.
  intros Heq Hinj Ha Hstep HP w [Hw Hs].
  pose proof (accounting_op_implements (self ⊚ l) t op a w) as Hop.
  unfold ledger_at in Hop at 1. rewrite part_comp, Hw in Hop. specialize (Hop Ha).
  rewrite Hstep, Heq in Hop. destruct Hop as (w' & Hr & Ha' & Ho).
  destruct (runs_bind_inv _ _ _ _ _ _ Hr) as (r' & w1 & Hp1 & Hp2).
  pose proof (runs_det _ _ _ _ _ Hp2 (runs_ret t (f r') w1)) as [= Hf ->].
  apply Hinj in Hf as <-. pose proof (only_part_comp self l w w1 Ho) as [Ho1 Hs1].
  unfold ledger_at in Ha'. rewrite part_comp in Ha'.
  exists r, w1, (with_pool (set l (get l (part self w1)) (seen_pool v)) v), [].
  rewrite app_nil_r. split; [done|]. split; [split; [|cbn; congruence]|].
  - cbn. destruct Ho as [Ho _]. unfold part in *. rewrite Ho. cbn. rewrite !get_set. by rewrite Hw.
  - split; [|split; [done|by apply HP]]. unfold part at 1. rewrite Ho1. apply apart_get'.
Qed.

Lemma pdoes_loop {X B R} t (body : X -> prog S (X + B)) x (k : B -> prog S R) v Post :
  pdoes t (bind (body x) (fun r => match r with inl x' => Loop body x' k | inr b => k b end)) v Post ->
  pdoes t (Loop body x k) v Post.
Proof.
  intros Hb w Hw. destruct (Hb w Hw) as (r & w' & v' & e & Hr & H). exists r, w', v', e.
  split; [by apply runs_loop|exact H].
Qed.

Lemma pdoes_current_thread t v (Post : nat -> Seen -> list Event -> Prop) :
  Post t v [] -> pdoes t current_thread v Post.
Proof.
  intros HP w Hw. exists t, w, v, []. rewrite app_nil_r. split; [|done].
  eapply runs_act; [done|]. destruct w. apply runs_ret.
Qed.

(** The environment's answer. *)
Lemma pdoes_choose t v (Post : bool -> Seen -> list Event -> Prop) :
  (forall b, Post b v []) -> pdoes t choose v Post.
Proof.
  intros HP [st orc sp] [Hw Hs]. exists (oracle_next orc).1, (World st (oracle_next orc).2 sp), v, [].
  rewrite app_nil_r. split; [apply runs_choose, runs_ret|]. done.
Qed.

(** Starting a thread, or not: the operating system decides. *)
Lemma pdoes_thread_spawn t name stack child v (Post : option nat -> Seen -> list Event -> Prop) :
  Post None v [] ->
  (forall h, Post (Some h) (MkSeen (seen_pool v) (seen_threads v ++ [(name, stack, child)])) []) ->
  pdoes t (thread_spawn name stack child) v Post.
Proof.
  intros HN HS [st orc sp] [Hw Hs]. cbn in Hs. subst sp. unfold thread_spawn, choose. cbn [bind].
  destruct (oracle_next orc).1 eqn:Hb.
  - eexists (Some (Datatypes.S t + length (seen_threads v))%nat),
      (World st (oracle_next orc).2 (seen_threads v ++ [(name, stack, child)])), _, [].
    rewrite app_nil_r. split; [|split; [|split; [|split; [done|apply HS]]]].
    + apply runs_choose. rewrite Hb. cbn [bind]. split; [done|]. exists 0%nat. rewrite run_spawn, run_ret. reflexivity.
    + by split.
    + done.
  - eexists None, _, v, []. rewrite app_nil_r. split; [apply runs_choose; rewrite Hb; apply runs_ret|].
    split; [split; [exact Hw|done]|]. done.
Qed.

(** Critical sections *)
Lemma pdoes_with_mutex {A B} t (l : lens P (Mutex A)) `{!LensLaws l} (body : prog S B) v Post :
  mutex_owner (get l (seen_pool v)) = None ->
  pdoes t body (with_pool (set l (MkMutex (Some t) (mutex_data (get l (seen_pool v)))) (seen_pool v)) v)
    (fun r v1 e => Post r (with_pool (set l (MkMutex None (mutex_data (get l (seen_pool v1)))) (seen_pool v1)) v1) e) ->
  pdoes t (with_mutex (self ⊚ l) body) v Post.
Proof.
  intros Ho Hb. apply pdoes_bind. eapply pdoes_part.
  { intros w [Hw _]. pose proof (runs_mutex_lock (self ⊚ l) t w) as Hr.
    rewrite with_part_comp, part_comp, Hw in Hr. exact (Hr Ho). }
  apply pdoes_finally. eapply pdoes_mono; [exact Hb|]. intros r v1 e HP.
  eapply pdoes_part.
  { intros w [Hw _]. pose proof (runs_mutex_unlock (self ⊚ l) t w) as Hr.
    rewrite with_part_comp, part_comp, Hw in Hr. exact Hr. }
  by rewrite app_nil_r.
Qed.

Section monitors.
Context {M A : Type} `{MonitorLaws M} (m : lens P (ParkingLotMonitor M A)) `{!LensLaws m}.

Definition mon_owned (o : option nat) (v : Seen) : Prop := mon_owner (mon_sync (get m (seen_pool v))) = o.
Definition with_sync (x : M) (v : Seen) : Seen :=
  with_pool (set m (MkMonitor x (mon_data (get m (seen_pool v)))) (seen_pool v)) v.

Lemma pdoes_notify_all t v (Post : unit -> Seen -> list Event -> Prop) :
  Post tt (with_sync (mon_notify_all (mon_sync (get m (seen_pool v)))) v) [] ->
  pdoes t (notify_all (self ⊚ m)) v Post.
Proof.
  intros HP. eapply pdoes_part; [|exact HP]. intros w [Hw _].
  pose proof (runs_mon_do (self ⊚ m) (fun _ => mon_notify_all) t w) as Hr.
  unfold with_mon in Hr. rewrite with_part_comp, part_comp, Hw in Hr. exact Hr.
Qed.

Lemma pdoes_monitor_lock t v (Post : unit -> Seen -> list Event -> Prop) :
  mon_owned None v ->
  (forall x, mon_owner x = Some t -> Post tt (with_sync x v) []) ->
  pdoes t (monitor_lock (self ⊚ m)) v Post.
Proof.
  intros Hf HP. unfold mon_owned in Hf. destruct (mon_lock_free t _ Hf) as [x Hx].
  pose proof (mon_lock_some _ _ _ Hx) as (_ & Ho & _).
  eapply pdoes_part; [|by apply HP]. intros w [Hw _].
  pose proof (runs_mon_try (self ⊚ m) mon_try_lock t w x) as Hr.
  unfold with_mon in Hr. rewrite with_part_comp, part_comp, Hw in Hr. exact (Hr Hx).
Qed.

Lemma pdoes_monitor_unlock t v (Post : unit -> Seen -> list Event -> Prop) :
  mon_owned (Some t) v ->
  (forall x, mon_owner x = None -> Post tt (with_sync x v) []) ->
  pdoes t (monitor_unlock (self ⊚ m)) v Post.
Proof.
  intros Hf HP. unfold mon_owned in Hf.
  eapply pdoes_part; [|apply HP; apply mon_unlock_free; exact Hf]. intros w [Hw _].
  pose proof (runs_mon_do (self ⊚ m) mon_unlock t w) as Hr.
  unfold with_mon in Hr. rewrite with_part_comp, part_comp, Hw in Hr. exact Hr.
Qed.

Lemma pdoes_with_lock {B} t (body : prog S B) v Post :
  mon_owned None v ->
  (forall x, mon_owner x = Some t ->
     pdoes t body (with_sync x v) (fun r v1 e => mon_owned (Some t) v1 /\
       forall y, mon_owner y = None -> Post r (with_sync y v1) e)) ->
  pdoes t (with_lock (self ⊚ m) body) v Post.
Proof.
  intros Hf Hb. apply pdoes_bind. apply pdoes_monitor_lock; [done|]. intros x Hx.
  apply pdoes_finally. eapply pdoes_mono; [by apply Hb|]. intros r v1 e [Ho HP].
  apply pdoes_monitor_unlock; [done|]. intros y Hy. cbn [app]. rewrite app_nil_r. by apply HP.
Qed.

Lemma pdoes_lock_notify_all t v (Post : unit -> Seen -> list Event -> Prop) :
  mon_owned None v ->
  (forall x, mon_owner x = None -> Post tt (with_sync x v) []) ->
  pdoes t (lock_notify_all (self ⊚ m)) v Post.
Proof.
  intros Hf HP. apply pdoes_bind. apply pdoes_monitor_lock; [done|]. intros x Hx.
  apply pdoes_bind. apply pdoes_notify_all. apply pdoes_monitor_unlock.
  { unfold mon_owned, with_sync. cbn. rewrite !get_set. cbn. by rewrite mon_notify_owner. }
  intros y Hy. cbn [app]. specialize (HP y Hy). unfold with_sync in *. cbn in *.
  rewrite !get_set, !set_set. exact HP.
Qed.
End monitors.
End pool.
#[global] Arguments Seen : clear implicits.

(** The view of a world. *)
Definition seen_of {S P} (self : lens S P) (w : world S) : Seen S P := MkSeen (part self w) (w_spawned w).
