(* ===== verification/SeqView.v ===== *)
(** Views of a pool: what the sequential theorems observe of either pool, and the
    rules for its monitor and its accounting in terms of a view. *)
From S2P Require Import Prelude Prog Sync Seq SeqLogic AdmissionGate PoolAccounting.
From S2P Require Import AccountingRefine PoolJob JobLifecycle SeqPool.
Local Open Scope Z_scope.
#[local] Arguments bind : simpl never.

(** A pool of type [P] has a monitor around data [A], an accounting, and is
    described by views of type [V]; [pv_fits] says which ledgers agree with the rest
    of a view. *)
Class PoolView (V P M A : Type) : Type := {
  pv_monitor : lens P (ParkingLotMonitor M A);
  pv_accounting : lens P PoolAccounting;
  pv_of : V -> P -> Prop;
  pv_state : V -> A;
  pv_with_state : A -> V -> V;
  pv_ledger : V -> Ledger;
  pv_with_ledger : Ledger -> V -> V;
  pv_fits : Ledger -> V -> Prop;
}.

(** The view says that nobody holds the monitor, what it guards and what is
    counted, and follows changes of each. *)
Class PoolViewLaws (V P M A : Type) `{Monitor M} `{!PoolView V P M A} : Prop := {
  pv_monitor_laws :: LensLaws (pv_monitor (V := V) (P := P) (M := M) (A := A));
  pv_accounting_laws :: LensLaws (pv_accounting (V := V) (P := P) (M := M) (A := A));
  pv_apart : forall m x (p : P),
    set (pv_accounting (V := V) (M := M) (A := A)) x (set pv_monitor m p) = set pv_monitor m (set pv_accounting x p);
  pv_accounting_monitor : forall m (p : P),
    get (pv_accounting (V := V) (M := M) (A := A)) (set pv_monitor m p) = get pv_accounting p;
  pv_monitor_accounting : forall x (p : P),
    get (pv_monitor (V := V) (M := M) (A := A)) (set pv_accounting x p) = get pv_monitor p;
  pv_free : forall (v : V) (p : P), pv_of v p -> mon_owner (mon_sync (get pv_monitor p)) = None;
  pv_data : forall (v : V) (p : P), pv_of v p -> mon_data (get pv_monitor p) = pv_state v;
  pv_counts : forall (v : V) (p : P), pv_of v p -> ledger_repr (pv_ledger v) (get pv_accounting p);
  pv_sync : forall (v : V) (p : P) x, pv_of v p -> mon_owner x = None ->
    pv_of v (set pv_monitor (MkMonitor x (mon_data (get pv_monitor p))) p);
  pv_set_state : forall (v : V) (p : P) a, pv_of v p -> pv_of (pv_with_state a v) (set (pv_monitor ⊚ mon_data_l) a p);
  pv_set_ledger : forall (v : V) (p : P) a x, pv_of v p -> ledger_repr a x ->
    pv_fits a v -> pv_of (pv_with_ledger a v) (set pv_accounting x p);
  pv_fits_same : forall (v : V) a, led_queued a = led_queued (pv_ledger v) -> pv_fits a v;
  pv_with_ledger_id : forall v : V, pv_with_ledger (pv_ledger v) v = v;
}.

(** Reserving a slot: refused exactly when a bounded queue is full. *)
Lemma led_step_reserve a : led_slots a + 1 < USIZE_MOD ->
  led_step LReserve a =
    Answer (ReplyBool (negb (saturated a))) (if saturated a then a else led_add a 1 0 0 0 0 0).
Proof.
  intros Hroom. apply Z.ltb_lt in Hroom. cbn. unfold saturated, led_reserve.
  destruct (led_capacity a) as [c|]; [|by rewrite Hroom].
  rewrite Z.leb_antisym. destruct (led_slots a <? c); cbn; by rewrite ?Hroom.
Qed.

(** Entering an open gate that is not full, and a closed one. *)
Lemma led_step_enter a : 0 <= spec_inflight (led_gate a) < COUNT_MASK ->
  led_step LEnter a =
    Answer (ReplyBool (spec_open (led_gate a)))
      (if spec_open (led_gate a)
       then led_set_gate a (MkGateSpec true (spec_inflight (led_gate a) + 1)) else a).
Proof.
  intros Hn. cbn. unfold led_through_gate. cbn. destruct (spec_open (led_gate a)) eqn:Ho.
  - destruct (Z.ltb_spec (spec_inflight (led_gate a)) COUNT_MASK); [done|lia].
  - cbn. by destruct a.
Qed.

Lemma led_step_leave a b n : led_gate a = MkGateSpec b (n + 1) -> 0 <= n ->
  exists last, led_step LLeave a = Answer (ReplyBool last) (led_set_gate a (MkGateSpec b n)).
Proof.
  intros Hg Hn. cbn. unfold led_through_gate. rewrite Hg. cbn. destruct (Z.ltb_spec 0 (n + 1)); [|lia].
  cbn. replace (n + 1 - 1) with n by lia. by eexists.
Qed.

Section views.
Context {S V P M A : Type} `{MonitorLaws M} `{!PoolView V P M A, !PoolViewLaws V P M A}.
Context (self : lens S P) (log : lens S (list Event)).
Context `{!LensLaws self, !LensLaws log, !Apart self log}.
Implicit Types (v : V) (t : nat).
Local Abbreviation Seen := (Seen S P).
Implicit Types (s : Seen).
Local Abbreviation mon := (self ⊚ pv_monitor (V := V) (P := P) (M := M) (A := A)).
Local Abbreviation acc := (self ⊚ pv_accounting (V := V) (P := P) (M := M) (A := A)).
Local Abbreviation view_of := (pv_of (V := V) (P := P) (M := M) (A := A)).
Local Abbreviation fits := (pv_fits (V := V) (P := P) (M := M) (A := A)).
Local Abbreviation m := (pv_monitor (V := V) (P := P) (M := M) (A := A)).

(** *** Holding the monitor *)

(** The view while thread [t] holds the monitor. *)
Definition held t v s : Prop :=
  mon_owned m (Some t) s /\
  forall x, mon_owner x = None -> view_of v (seen_pool (with_sync m x s)).

Lemma held_with_sync t v s x : view_of v (seen_pool s) -> mon_owner x = Some t -> held t v (with_sync m x s).
Proof.
  intros Hv Hx. split; [unfold mon_owned, with_sync; cbn; by rewrite get_set|]. intros y Hy.
  unfold with_sync. cbn. rewrite get_set, set_set. cbn. by apply pv_sync.
Qed.

Lemma pdoes_held {B} t (body : prog S B) v s (Post : B -> Seen -> list Event -> Prop) :
  view_of v (seen_pool s) ->
  (forall s1, held t v s1 -> seen_threads s1 = seen_threads s ->
     pdoes self log t body s1 (fun r s2 e => exists v2, held t v2 s2 /\
       forall s3, view_of v2 (seen_pool s3) -> seen_threads s3 = seen_threads s2 -> Post r s3 e)) ->
  pdoes self log t (with_lock mon body) s Post.
Proof.
  intros Hv Hb. apply (pdoes_with_lock self log m); [by eapply pv_free|].
  intros x Hx. eapply pdoes_mono; [apply Hb; [by apply held_with_sync|done]|].
  intros r s2 e (v2 & [Ho Hv2] & HP). split; [exact Ho|]. intros y Hy. apply HP; [by apply Hv2|done].
Qed.

(** Any view of the data seen from inside. *)
Lemma held_view t v s : held t v s -> exists x, view_of v (seen_pool (with_sync m x s)).
Proof. intros [_ Hv]. exists mon_new. apply Hv, mon_new_free. Qed.

Lemma held_state t v s : held t v s -> mon_data (get m (seen_pool s)) = pv_state v.
Proof.
  intros (x & Hv)%held_view. apply pv_data in Hv. unfold with_sync in Hv. cbn in Hv. by rewrite get_set in Hv.
Qed.

Lemma held_counts t v s : held t v s -> ledger_repr (pv_ledger v) (get pv_accounting (seen_pool s)).
Proof.
  intros (x & Hv)%held_view. apply pv_counts in Hv. unfold with_sync in Hv. cbn in Hv.
  by rewrite pv_accounting_monitor in Hv.
Qed.

Lemma held_set_state t v s a :
  held t v s -> held t (pv_with_state a v) (with_pool (set (m ⊚ mon_data_l) a (seen_pool s)) s).
Proof.
  intros [Ho Hv]. split; [unfold mon_owned in *; cbn; by rewrite get_set|]. intros y Hy.
  pose proof (pv_set_state _ _ a (Hv y Hy)) as Hs. unfold with_sync in *. cbn in *.
  rewrite !get_set, !set_set in *. exact Hs.
Qed.

Lemma held_ledger t v s a x :
  held t v s -> ledger_repr a x -> fits a v ->
  held t (pv_with_ledger a v) (with_pool (set pv_accounting x (seen_pool s)) s).
Proof.
  intros [Ho Hv] Hx Ha. split; [unfold mon_owned in *; cbn; by rewrite pv_monitor_accounting|]. intros y Hy.
  pose proof (pv_set_ledger _ _ a x (Hv y Hy) Hx Ha) as Hs. unfold with_sync in *. cbn in *.
  rewrite pv_monitor_accounting, <- pv_apart. exact Hs.
Qed.

(** Taking and releasing the lock by hand. *)
Lemma pdoes_lock t v s (Post : unit -> Seen -> list Event -> Prop) :
  view_of v (seen_pool s) ->
  (forall s', held t v s' -> seen_threads s' = seen_threads s -> Post tt s' []) ->
  pdoes self log t (monitor_lock mon) s Post.
Proof.
  intros Hv HP. apply (pdoes_monitor_lock self log m); [by eapply pv_free|].
  intros x Hx. apply HP; [by apply held_with_sync|done].
Qed.

Lemma pdoes_unlock t v s (Post : unit -> Seen -> list Event -> Prop) :
  held t v s ->
  (forall s', view_of v (seen_pool s') -> seen_threads s' = seen_threads s -> Post tt s' []) ->
  pdoes self log t (monitor_unlock mon) s Post.
Proof.
  intros [Ho Hv] HP. apply (pdoes_monitor_unlock self log m); [exact Ho|].
  intros y Hy. apply HP; [by apply Hv|done].
Qed.

(** *** Data behind the lock *)
Lemma pdoes_locked_load {B} t (l : lens A B) v s (Post : B -> Seen -> list Event -> Prop) :
  held t v s -> Post (get l (pv_state v)) s [] -> pdoes self log t (load (mon ⊚ mon_data_l ⊚ l)) s Post.
Proof.
  intros Hv HP. apply (pdoes_load self log t (m ⊚ mon_data_l ⊚ l)). cbn.
  by rewrite (held_state _ _ _ Hv).
Qed.

Lemma pdoes_locked_read {B} t (f : A -> B) v s (Post : B -> Seen -> list Event -> Prop) :
  held t v s -> Post (f (pv_state v)) s [] ->
  pdoes self log t (Act (fun _ x => Some (f (get (mon ⊚ mon_data_l) x), x)) Ret) s Post.
Proof.
  intros Hv HP. apply (pdoes_read self log t (fun p => f (mon_data (get m p)))).
  by rewrite (held_state _ _ _ Hv).
Qed.

Lemma held_set_field {B} t v s (l : lens A B) x :
  held t v s ->
  held t (pv_with_state (set l x (pv_state v)) v) (with_pool (set (m ⊚ mon_data_l ⊚ l) x (seen_pool s)) s).
Proof.
  intros Hv. pose proof (held_set_state _ _ _ (set l x (pv_state v)) Hv) as Hs.
  rewrite <- (held_state _ _ _ Hv) in Hs at 2. exact Hs.
Qed.

Lemma pdoes_locked_store {B} t (l : lens A B) x v s (Post : unit -> Seen -> list Event -> Prop) :
  held t v s ->
  (forall s', held t (pv_with_state (set l x (pv_state v)) v) s' -> seen_threads s' = seen_threads s -> Post tt s' []) ->
  pdoes self log t (store (mon ⊚ mon_data_l ⊚ l) x) s Post.
Proof.
  intros Hv HP. apply (pdoes_store self log t (m ⊚ mon_data_l ⊚ l)). apply HP; [|done]. by apply held_set_field.
Qed.

Lemma pdoes_locked_incr t (l : lens A Z) v s (Post : unit -> Seen -> list Event -> Prop) :
  held t v s -> get l (pv_state v) + 1 < USIZE_MOD ->
  (forall s', held t (pv_with_state (set l (get l (pv_state v) + 1) (pv_state v)) v) s' ->
     seen_threads s' = seen_threads s -> Post tt s' []) ->
  pdoes self log t (guarded_incr (mon ⊚ mon_data_l ⊚ l)) s Post.
Proof.
  intros Hv Hlt HP. pose proof (held_state _ _ _ Hv) as Hd.
  apply (pdoes_guarded_incr self log t (m ⊚ mon_data_l ⊚ l)); cbn [get lens_comp mon_data_l]; rewrite Hd; [done|].
  apply HP; [|done]. by apply held_set_field.
Qed.

Lemma pdoes_locked_decr t (l : lens A Z) v s (Post : unit -> Seen -> list Event -> Prop) :
  held t v s -> 1 <= get l (pv_state v) ->
  (forall s', held t (pv_with_state (set l (get l (pv_state v) - 1) (pv_state v)) v) s' ->
     seen_threads s' = seen_threads s -> Post tt s' []) ->
  pdoes self log t (guarded_decr (mon ⊚ mon_data_l ⊚ l)) s Post.
Proof.
  intros Hv Hlt HP. pose proof (held_state _ _ _ Hv) as Hd.
  apply (pdoes_guarded_decr self log t (m ⊚ mon_data_l ⊚ l)); cbn [get lens_comp mon_data_l]; rewrite Hd; [done|].
  apply HP; [|done]. by apply held_set_field.
Qed.

(** *** Notifications *)
Lemma pdoes_held_notify_all t v s (Post : unit -> Seen -> list Event -> Prop) :
  held t v s ->
  (forall s', held t v s' -> seen_threads s' = seen_threads s -> Post tt s' []) ->
  pdoes self log t (notify_all mon) s Post.
Proof.
  intros [Ho Hv] HP. apply (pdoes_notify_all self log m). apply HP; [|done].
  split; [unfold mon_owned, with_sync in *; cbn; rewrite get_set; cbn; by rewrite mon_notify_owner|].
  intros y Hy. specialize (Hv y Hy). unfold with_sync in *. cbn in *. by rewrite get_set, set_set.
Qed.

Lemma pdoes_held_when t v s b (Post : unit -> Seen -> list Event -> Prop) :
  held t v s ->
  (forall s', held t v s' -> seen_threads s' = seen_threads s -> Post tt s' []) ->
  pdoes self log t (when b (notify_all mon)) s Post.
Proof.
  intros Hv HP. destruct b; cbn [when]; [by eapply pdoes_held_notify_all|apply pdoes_ret; by apply HP].
Qed.

Lemma pdoes_notify t v s (Post : unit -> Seen -> list Event -> Prop) :
  view_of v (seen_pool s) ->
  (forall s', view_of v (seen_pool s') -> seen_threads s' = seen_threads s -> Post tt s' []) ->
  pdoes self log t (lock_notify_all mon) s Post.
Proof.
  intros Hv HP. apply (pdoes_lock_notify_all self log m); [by eapply pv_free|].
  intros x Hx. apply HP; [by apply pv_sync|done].
Qed.

(** *** Accounting *)

(** An operation on the counters, outside the lock and inside. *)
Lemma pdoes_ledger {R} t op (p : prog S R) (f : R -> LedgerReply) r a' v s (Post : R -> Seen -> list Event -> Prop) :
  accounting_op acc op = bind p (fun r => Ret (f r)) -> (forall x y, f x = f y -> x = y) ->
  view_of v (seen_pool s) -> led_step op (pv_ledger v) = Answer (f r) a' ->
  fits a' v ->
  (forall s', view_of (pv_with_ledger a' v) (seen_pool s') -> seen_threads s' = seen_threads s -> Post r s' []) ->
  pdoes self log t p s Post.
Proof.
  intros Hop Hf Hv Hstep Hq HP.
  eapply (pdoes_acc self log t pv_accounting op p f); [exact Hop|exact Hf|by apply pv_counts|exact Hstep|].
  intros x Hx. apply HP; [by apply pv_set_ledger|done].
Qed.

Lemma pdoes_held_ledger {R} t op (p : prog S R) (f : R -> LedgerReply) r a' v s (Post : R -> Seen -> list Event -> Prop) :
  accounting_op acc op = bind p (fun r => Ret (f r)) -> (forall x y, f x = f y -> x = y) ->
  held t v s -> led_step op (pv_ledger v) = Answer (f r) a' ->
  fits a' v ->
  (forall s', held t (pv_with_ledger a' v) s' -> seen_threads s' = seen_threads s -> Post r s' []) ->
  pdoes self log t p s Post.
Proof.
  intros Hop Hf Hv Hstep Hq HP.
  eapply (pdoes_acc self log t pv_accounting op p f); [exact Hop|exact Hf|by eapply held_counts|exact Hstep|].
  intros x Hx. apply HP; [by apply held_ledger|done].
Qed.

(** Entering and leaving the gate. *)
Lemma pdoes_try_enter t v s (Post : bool -> Seen -> list Event -> Prop) :
  view_of v (seen_pool s) -> 0 <= spec_inflight (led_gate (pv_ledger v)) < COUNT_MASK ->
  (forall s', seen_threads s' = seen_threads s ->
     if spec_open (led_gate (pv_ledger v))
     then view_of (pv_with_ledger (led_set_gate (pv_ledger v)
            (MkGateSpec true (spec_inflight (led_gate (pv_ledger v)) + 1))) v) (seen_pool s') -> Post true s' []
     else view_of v (seen_pool s') -> Post false s' []) ->
  pdoes self log t (try_enter acc) s Post.
Proof.
  intros Hv Hn HP.
  eapply (pdoes_ledger t LEnter _ ReplyBool); [reflexivity|by intros ? ? [=]|exact Hv|by apply led_step_enter| |].
  - apply pv_fits_same. by destruct (spec_open (led_gate (pv_ledger v))).
  - intros s1 Hv1 Hs1. specialize (HP s1 Hs1). destruct (spec_open (led_gate (pv_ledger v))); apply HP; [exact Hv1|].
    by rewrite pv_with_ledger_id in Hv1.
Qed.

Lemma pdoes_leave t v s b n (Post : bool -> Seen -> list Event -> Prop) :
  view_of v (seen_pool s) -> led_gate (pv_ledger v) = MkGateSpec b (n + 1) -> 0 <= n ->
  (forall last s', view_of (pv_with_ledger (led_set_gate (pv_ledger v) (MkGateSpec b n)) v) (seen_pool s') ->
     seen_threads s' = seen_threads s -> Post last s' []) ->
  pdoes self log t (leave acc) s Post.
Proof.
  intros Hv Hg Hn HP. destruct (led_step_leave _ _ _ Hg Hn) as [last Hstep].
  eapply (pdoes_ledger t LLeave _ ReplyBool); [reflexivity|by intros ? ? [=]|exact Hv|exact Hstep|by apply pv_fits_same|].
  intros s1. apply HP.
Qed.

(** Reading whether the gate is open, without interest in the answer. *)
Lemma pdoes_is_open t s (Post : bool -> Seen -> list Event -> Prop) :
  (forall b, Post b s []) -> pdoes self log t (is_admission_open acc) s Post.
Proof.
  intros HP. apply pdoes_bind. apply (pdoes_load self log t (pv_accounting ⊚ admission_l ⊚ gate_state_l)).
  apply pdoes_ret. apply HP.
Qed.

Lemma pdoes_notify_when t v s b (Post : unit -> Seen -> list Event -> Prop) :
  view_of v (seen_pool s) ->
  (forall s', view_of v (seen_pool s') -> seen_threads s' = seen_threads s -> Post tt s' []) ->
  pdoes self log t (when b (lock_notify_all mon)) s Post.
Proof.
  intros Hv HP. destruct b; cbn [when]; [by eapply pdoes_notify|apply pdoes_ret; by apply HP].
Qed.

Lemma pdoes_held_idle t v s (Post : bool -> Seen -> list Event -> Prop) :
  held t v s ->
  (forall s', held t v s' -> seen_threads s' = seen_threads s -> Post (led_idle (pv_ledger v)) s' []) ->
  pdoes self log t (is_idle acc) s Post.
Proof.
  intros Hv HP. eapply (pdoes_held_ledger t LIsIdle _ ReplyBool); [reflexivity|by intros ? ? [=]|exact Hv|reflexivity|by apply pv_fits_same|].
  intros s'. rewrite pv_with_ledger_id. apply HP.
Qed.

(** A counter that may have made the pool idle. *)
Lemma pdoes_finish t op (p : prog S unit) a' v s (Post : unit -> Seen -> list Event -> Prop) :
  accounting_op acc op = bind p (fun _ => Ret ReplyUnit) ->
  view_of v (seen_pool s) -> led_step op (pv_ledger v) = Answer ReplyUnit a' ->
  fits a' v ->
  (forall s', view_of (pv_with_ledger a' v) (seen_pool s') -> seen_threads s' = seen_threads s -> Post tt s' []) ->
  pdoes self log t (p ;; idle <- is_idle acc ;; when idle (lock_notify_all mon)) s Post.
Proof.
  intros Hop Hv Hstep Hq HP. apply pdoes_bind.
  eapply (pdoes_ledger t op p (fun _ => ReplyUnit) tt a'); [exact Hop|by intros [] []|exact Hv|exact Hstep|exact Hq|].
  intros s1 Hv1 Hs1. apply pdoes_bind.
  eapply (pdoes_ledger t LIsIdle _ ReplyBool); [reflexivity|by intros ? ? [=]|exact Hv1|reflexivity|by apply pv_fits_same|].
  rewrite pv_with_ledger_id. intros s2 Hv2 Hs2. cbn [app]. destruct (led_idle _); cbn [when].
  - eapply pdoes_notify; [exact Hv2|]. intros s3 Hv3 Hs3. apply HP; [done|congruence].
  - apply pdoes_ret. apply HP; [done|congruence].
Qed.
End views.
