(* ===== verification/Builder.v ===== *)
(** Argument validation shared by the builders: the interface of
    [qubit_argument], and [std::thread::available_parallelism]. *)
From S2P Require Import Prelude Prog Types.
Local Open Scope Z_scope.

(** The validators return the argument or an error the builders discard. *)
Class Arguments : Type := {
  require_positive : string -> Z -> Result Z unit;
  require_at_most : string -> Z -> Z -> Result Z unit;
  (** a [Duration], in nanoseconds *)
  duration_require_positive : string -> Z -> Result Z unit;
  validate_some : (Z -> Result Z unit) -> option Z -> Result (option Z) unit;
  (** [available_parallelism().map(usize::from)] *)
  available_parallelism : Result Z unit;
}.

Class ArgumentsLaws `{Arguments} : Prop := {
  require_positive_ok : forall name n, is_ok (require_positive name n) = (0 <? n);
  require_at_most_ok : forall name n m, is_ok (require_at_most name n m) = (n <=? m);
  duration_require_positive_ok : forall name d,
    is_ok (duration_require_positive name d) = (0 <? d);
  validate_some_ok : forall f o,
    is_ok (validate_some f o) = match o with Some n => is_ok (f n) | None => true end;
  available_parallelism_positive : forall n, available_parallelism = Ok n -> 0 < n;
}.

Definition map_argument_error {T} (result : Result T unit) (error : ExecutorServiceBuilderError) :
    Result T ExecutorServiceBuilderError :=
  map_err (fun _ => error) result.

(** The [?] operator. *)
Definition and_then {T U E} (r : Result T E) (k : T -> Result U E) : Result U E :=
  match r with Ok t => k t | Err e => Err e end.
Notation "r ?;; k" := (and_then r (fun _ => k))
  (at level 100, k at level 200, right associativity) : prog_scope.

Definition default_parallelism `{Arguments} : Z :=
  match available_parallelism with Ok n => n | Err _ => 1 end.

(** Optional positive arguments are accepted when absent. *)
Definition positive_or_absent (o : option Z) : bool :=
  match o with Some n => 0 <? n | None => true end.

Lemma validate_some_positive `{ArgumentsLaws} name o :
  is_ok (validate_some (require_positive name) o) = positive_or_absent o.
Proof. rewrite validate_some_ok. destruct o; [apply require_positive_ok|done]. Qed.

(** A failed check decides the result, a passed one is forgotten. *)
Lemma validate_check {T U} (r : Result T unit) (test : bool) e
    (k : Result U ExecutorServiceBuilderError) :
  is_ok r = test ->
  and_then (map_argument_error r e) (fun _ => k) = if test then k else Err e.
Proof. intros <-. by destruct r. Qed.

(** Names given to worker threads. *)
Definition worker_thread_name (prefix : string) (index : Z) : string :=
  (prefix +:+ "-" +:+ pretty (Z.to_N index))%string.

Lemma worker_thread_name_inj prefix i j :
  0 <= i -> 0 <= j -> worker_thread_name prefix i = worker_thread_name prefix j -> i = j.
Proof.
  intros Hi Hj. unfold worker_thread_name. intros Heq.
  apply (inj (String.append prefix)) in Heq. apply (inj (String.append "-")) in Heq.
  apply (inj pretty) in Heq. lia.
Qed.
