(* ===== verification/FixedPool.v ===== *)
(** [src/fixed/fixed_thread_pool.rs], [fixed_thread_pool_builder.rs]: the
    public fixed pool and its builder. *)
From S2P Require Import Prelude Prog Sync AdmissionGate PoolAccounting Types Hooks PoolJob.
From S2P Require Import FixedInner FixedWorker Builder.
Local Open Scope Z_scope.

Definition DEFAULT_FIXED_THREAD_NAME_PREFIX : string := "qubit-fixed-thread-pool".

Record FixedThreadPoolBuilder : Type := MkFixedThreadPoolBuilder {
  fb_pool_size : Z;
  fb_queue_capacity : option Z;
  fb_thread_name_prefix : string;
  fb_stack_size : option Z;
  fb_hooks : ThreadPoolHooks;
}.

Module FixedBuilder.
Definition default `{Arguments} : FixedThreadPoolBuilder :=
  MkFixedThreadPoolBuilder default_parallelism None DEFAULT_FIXED_THREAD_NAME_PREFIX None
    thread_pool_hooks_new.

Definition pool_size (self : FixedThreadPoolBuilder) (n : Z) : FixedThreadPoolBuilder :=
  MkFixedThreadPoolBuilder n (fb_queue_capacity self) (fb_thread_name_prefix self)
    (fb_stack_size self) (fb_hooks self).
Definition queue_capacity (self : FixedThreadPoolBuilder) (capacity : Z) : FixedThreadPoolBuilder :=
  MkFixedThreadPoolBuilder (fb_pool_size self) (Some capacity) (fb_thread_name_prefix self)
    (fb_stack_size self) (fb_hooks self).
Definition unbounded_queue (self : FixedThreadPoolBuilder) : FixedThreadPoolBuilder :=
  MkFixedThreadPoolBuilder (fb_pool_size self) None (fb_thread_name_prefix self)
    (fb_stack_size self) (fb_hooks self).
Definition thread_name_prefix (self : FixedThreadPoolBuilder) (prefix : string) : FixedThreadPoolBuilder :=
  MkFixedThreadPoolBuilder (fb_pool_size self) (fb_queue_capacity self) prefix
    (fb_stack_size self) (fb_hooks self).
Definition stack_size (self : FixedThreadPoolBuilder) (n : Z) : FixedThreadPoolBuilder :=
  MkFixedThreadPoolBuilder (fb_pool_size self) (fb_queue_capacity self)
    (fb_thread_name_prefix self) (Some n) (fb_hooks self).
Definition set_hooks (self : FixedThreadPoolBuilder) (hooks : ThreadPoolHooks) : FixedThreadPoolBuilder :=
  MkFixedThreadPoolBuilder (fb_pool_size self) (fb_queue_capacity self)
    (fb_thread_name_prefix self) (fb_stack_size self) hooks.
Definition before_worker_start (self : FixedThreadPoolBuilder) (hook : nat) : FixedThreadPoolBuilder :=
  set_hooks self (Hooks.before_worker_start (fb_hooks self) hook).
Definition after_worker_stop (self : FixedThreadPoolBuilder) (hook : nat) : FixedThreadPoolBuilder :=
  set_hooks self (Hooks.after_worker_stop (fb_hooks self) hook).
Definition before_task (self : FixedThreadPoolBuilder) (hook : nat) : FixedThreadPoolBuilder :=
  set_hooks self (Hooks.before_task (fb_hooks self) hook).
Definition after_task (self : FixedThreadPoolBuilder) (hook : nat) : FixedThreadPoolBuilder :=
  set_hooks self (Hooks.after_task (fb_hooks self) hook).

Definition validate `{Arguments} (self : FixedThreadPoolBuilder) :
    Result unit ExecutorServiceBuilderError :=
  map_argument_error (require_positive "pool_size" (fb_pool_size self)) ZeroPoolSize ?;;
  map_argument_error
    (validate_some (require_positive "queue_capacity") (fb_queue_capacity self)) ZeroQueueCapacity ?;;
  map_argument_error
    (validate_some (require_positive "stack_size") (fb_stack_size self)) ZeroStackSize ?;;
  Ok tt.
End FixedBuilder.

Section pool.
Context {S M Q : Type} `{Monitor M} `{Injector Q PoolJob} `{UserCode S}.
Variable self : lens S (FixedThreadPoolInner M Q).

(** [join] on each handle; its result is ignored. *)
Fixpoint join_started_workers (worker_handles : list nat) : prog S unit :=
  match worker_handles with
  | [] => Ret tt
  | h :: hs => Join h (join_started_workers hs)
  end.

(** The spawn loop of [new_with_builder], runtimes left to start. *)
Fixpoint start_workers (prefix : string) (stack_size : option Z)
    (worker_runtimes : list FixedWorkerRuntime) (worker_handles : list nat) :
    prog S (Result unit ExecutorServiceBuilderError) :=
  match worker_runtimes with
  | [] => Ret (Ok tt)
  | worker_runtime :: rest =>
      let index := worker_index worker_runtime in
      reserve_worker_slot self ;;
      spawned <- thread_spawn (worker_thread_name prefix index) stack_size
                   (fixed_worker_run self worker_runtime) ;;
      match spawned with
      | Some handle => start_workers prefix stack_size rest (worker_handles ++ [handle])
      | None =>
          rollback_worker_slot self ;;
          stop_after_failed_build self ;;
          join_started_workers worker_handles ;;
          Ret (Err (SpawnWorker (Some index)))
      end
  end.

Definition new_worker_runtimes (pool_size : Z) : list FixedWorkerRuntime :=
  map (fun i => MkFixedWorkerRuntime (Z.of_nat i)) (seq 0 (Z.to_nat pool_size)).

(** [Arc::new] creates the shared state the lens [self] then refers to. *)
Definition new_with_builder (builder : FixedThreadPoolBuilder) :
    prog S (Result unit ExecutorServiceBuilderError) :=
  store self (fixed_with_hooks (fb_pool_size builder) (fb_queue_capacity builder) (fb_hooks builder)) ;;
  start_workers (fb_thread_name_prefix builder) (fb_stack_size builder)
    (new_worker_runtimes (fb_pool_size builder)) [].

Definition build `{Arguments} (builder : FixedThreadPoolBuilder) :
    prog S (Result unit ExecutorServiceBuilderError) :=
  match FixedBuilder.validate builder with
  | Ok _ => new_with_builder builder
  | Err e => Ret (Err e)
  end.

Definition fixed_thread_pool_new `{Arguments} (n : Z) : prog S (Result unit ExecutorServiceBuilderError) :=
  build (FixedBuilder.pool_size FixedBuilder.default n).

Definition fixed_thread_pool_default `{Arguments} : prog S unit :=
  r <- build FixedBuilder.default ;; assert (is_ok r).

(** *** The methods of the handle *)

Definition live_worker_count : prog S Z :=
  with_lock (mon self) (load (locked self fixed_live_workers_l)).
Definition join : prog S unit := fixed_wait_until_idle self.
Definition drop_pool : prog S unit := fixed_shutdown self.

Definition submit (task : nat) : prog S (Result unit SubmissionError) :=
  r <- fixed_submit self (detached task) ;; map_submission_error r.

(** The task and the two ends of its completion pair are named by numbers;
    the caller keeps the handle [handle]. *)
Definition submit_callable (task completion handle : nat) : prog S (Result nat SubmissionError) :=
  r <- fixed_submit self (from_task task completion) ;;
  r <- map_submission_error r ;;
  Ret (match r with Ok _ => Ok handle | Err e => Err e end).

Definition submit_tracked_callable (task completion handle : nat) :
    prog S (Result nat SubmissionError) :=
  r <- fixed_submit self (from_task task completion) ;;
  r <- map_submission_error r ;;
  Ret (match r with Ok _ => Ok handle | Err e => Err e end).
End pool.
