(* ===== verification/UserSpecs.v ===== *)
(** The application's callbacks under interleaving: what a pool's invariant asks
    of them, and what follows for the code that runs, cancels or drops jobs. *)
From S2P Require Import Prelude Prog Conc Sync Hooks PoolJob.

Section user.
Context {S X : Type} `{UserCode S}.
Context (Blk : nat -> S -> X -> Prop) (JB : nat -> X -> Prop).
Context (I : list S -> S -> list X -> Prop) (Fin FinP : X -> Prop).
(** when a thread may run code of the application *)
Context (calm : X -> Prop).
Local Abbreviation WP := (WPB Blk JB I Fin FinP).
Implicit Types (k : nat) (g : X).

(** Code that keeps the pool's invariant and its thread's contribution. *)
Definition quietB {A} (p : prog S A) : Prop :=
  forall k g, calm g -> WP k p g (fun _ g' => g' = g) (fun g' => g' = g).

Local Abbreviation quiet := quietB.

(** What is required of the application's callbacks: they may do anything
    to the world outside the pool, use the pool, and panic; the completion
    endpoint's [accept] does not panic. *)
Class UserSafeB : Prop := {
  us_call_closure : forall c, quiet (call_closure c);
  us_drop_closure : forall c, quiet (drop_closure c);
  us_call_hook : forall c i, quiet (call_hook c i);
  us_runnable_run : forall c, quiet (runnable_run c);
  us_drop_runnable : forall c, quiet (drop_runnable c);
  us_task_runner_run : forall c d, quiet (task_runner_run c d);
  us_cancel_unstarted : forall c, quiet (task_slot_cancel_unstarted c);
  us_drop_callable : forall c, quiet (drop_callable c);
  us_drop_task_slot : forall c, quiet (drop_task_slot c);
  us_slot_accept : forall c k g, calm g ->
    WP k (task_slot_accept c) g (fun _ g' => g' = g) (fun _ => False);
}.

Lemma quiet_ret {A} (a : A) : quiet (Ret a).
Proof. intros k g _. by apply WP_ret. Qed.

Lemma quiet_panic {A} : quiet (Panic : prog S A).
Proof. intros k g _. by apply WP_panic. Qed.

Lemma quiet_bind {A B} (p : prog S A) (f : A -> prog S B) :
  quiet p -> (forall a, quiet (f a)) -> quiet (bind p f).
Proof.
  intros Hp Hf k g Hg. apply WP_bind. eapply WP_mono; [by apply Hp| |by intros ? ->].
  intros a g' ->. by apply Hf.
Qed.

Lemma quiet_finally {A} (p : prog S A) fin : quiet p -> quiet fin -> quiet (finally p fin).
Proof.
  intros Hp Hf k g Hg. apply WP_finally.
  eapply WP_mono; [by apply Hp|intros a g' ->|intros g' ->];
    (eapply WP_mono; [by apply Hf|by intros ? ? ->|by intros ? ->]).
Qed.

(** Contained, such code cannot panic either. *)
Lemma WP_contained k {A} (p : prog S A) g (Q' : option A -> X -> Prop) E :
  quiet p -> calm g -> (forall v, Q' v g) -> WP k (catch_unwind p) g Q' E.
Proof.
  intros Hp Hg HQ. apply WP_catch. eapply WP_mono; [by apply Hp|intros a ? ->|intros ? ->]; apply HQ.
Qed.

Lemma quiet_catch {A} (p : prog S A) : quiet p -> quiet (catch_unwind p).
Proof. intros Hp k g Hg. by apply WP_contained. Qed.

Context `{!UserSafeB}.

Lemma quiet_drop_opt c : quiet (drop_opt_closure c).
Proof. destruct c; [apply us_drop_closure|apply quiet_ret]. Qed.

Lemma quiet_drop_inner j : quiet (drop_inner j).
Proof.
  destruct j as [t|[a r c|t c]]; cbn.
  - apply us_drop_runnable.
  - repeat apply quiet_finally; auto using quiet_drop_opt, us_drop_closure.
  - apply quiet_finally; [apply us_drop_callable|apply us_drop_task_slot].
Qed.

Lemma quiet_job_run job : quiet (job_run job).
Proof.
  destruct job as [[t|[a r c|t c]] e]; cbn.
  - apply quiet_bind; [apply quiet_catch, us_runnable_run|intros; apply us_drop_runnable].
  - apply quiet_bind; [apply quiet_catch, us_call_closure|intros].
    apply quiet_finally; [apply quiet_drop_opt|apply us_drop_closure].
  - apply us_task_runner_run.
Qed.

Lemma quiet_task_cancel t : quiet (task_cancel t).
Proof.
  destruct t as [a r c|t c]; cbn.
  - apply quiet_bind; [apply quiet_catch, us_call_closure|intros].
    apply quiet_finally; [apply quiet_drop_opt|apply us_drop_closure].
  - apply quiet_finally; [|apply us_drop_callable].
    apply quiet_bind; [apply us_cancel_unstarted|intros; apply quiet_ret].
Qed.

Lemma WP_discard k job g (Q' : unit -> X -> Prop) E :
  calm g -> Q' tt g -> WP k (discard job) g Q' E.
Proof.
  intros Hg HQ. apply WP_bind, WP_contained; [apply quiet_drop_inner|done|].
  intros. by apply WP_ret.
Qed.

Lemma WP_job_cancel k job g (Q' : unit -> X -> Prop) E :
  calm g -> Q' tt g -> WP k (job_cancel job) g Q' E.
Proof.
  intros Hg HQ. apply WP_bind, WP_contained; [|done|intros; by apply WP_ret].
  destruct (job_inner job); [apply us_drop_runnable|apply quiet_task_cancel].
Qed.

(** A contained run of a job, as both worker loops perform it. *)
Lemma WP_contained_run k job g (Q' : unit -> X -> Prop) E :
  calm g -> Q' tt g -> WP k (catch_unwind (job_run job) ;; Ret tt) g Q' E.
Proof.
  intros Hg HQ. apply WP_bind, WP_contained; [apply quiet_job_run|done|].
  intros. by apply WP_ret.
Qed.

Lemma WP_run_hook k hook i g (Q' : unit -> X -> Prop) E :
  calm g -> Q' tt g -> WP k (run_hook hook i) g Q' E.
Proof.
  intros Hg HQ. destruct hook as [hk|]; cbn; [|by apply WP_ret].
  apply WP_bind, WP_contained; [apply us_call_hook|done|intros; by apply WP_ret].
Qed.

Lemma WP_job_accept k job g (Q' : Result unit unit * PoolJob -> X -> Prop) E :
  calm g -> (forall v, (standard job = true -> is_ok v.1 = true) -> Q' v g) ->
  WP k (job_accept job) g Q' E.
Proof.
  intros Hg HQ. destruct job as [[t|[a r c|t c]] e]; unfold job_accept; cbn [job_inner task_accept].
  - apply WP_ret. by apply HQ.
  - rewrite bind_assoc. apply WP_bind. unfold custom_accept. destruct a as [a|].
    + apply WP_bind, WP_contained; [apply us_call_closure|done|]. intros.
      repeat apply WP_ret; by apply HQ.
    + repeat apply WP_ret; by apply HQ.
  - unfold completable_accept. rewrite !bind_assoc. apply WP_bind.
    eapply WP_mono; [by apply us_slot_accept| |done].
    intros ? ? ->. repeat apply WP_ret; by apply HQ.
Qed.
End user.

#[global] Arguments quiet_ret {S X} {Blk JB} I Fin FinP calm {A}.
#[global] Arguments quiet_panic {S X} {Blk JB} I Fin FinP calm {A}.
#[global] Arguments quiet_bind {S X} {Blk JB} I Fin FinP calm {A B}.
#[global] Arguments quiet_finally {S X} {Blk JB} I Fin FinP calm {A}.
#[global] Arguments WP_contained {S X} {Blk JB} I Fin FinP calm k {A}.
#[global] Arguments quiet_catch {S X} {Blk JB} I Fin FinP calm {A}.
#[global] Arguments quiet_drop_opt {S X H} {Blk JB}.
#[global] Arguments quiet_drop_inner {S X H} {Blk JB}.
#[global] Arguments quiet_job_run {S X H} {Blk JB}.
#[global] Arguments quiet_task_cancel {S X H} {Blk JB}.
#[global] Arguments WP_discard {S X H} {Blk JB}.
#[global] Arguments WP_job_cancel {S X H} {Blk JB}.
#[global] Arguments WP_contained_run {S X H} {Blk JB}.
#[global] Arguments WP_run_hook {S X H} {Blk JB}.
#[global] Arguments WP_job_accept {S X H} {Blk JB}.

Abbreviation quiet := (quietB may_block may_join).
Abbreviation UserSafe := (UserSafeB may_block may_join).
