(* ===== verification/Concrete.v ===== *)
(** Concrete instances of the interfaces, used to exhibit the theorems'
    hypotheses: a monitor, a queue, argument checks, an application whose
    tasks submit further tasks and panic, and a fair scheduler. *)
From S2P Require Import Prelude Prog Conc Sync Types Hooks PoolJob Builder UserSpecs.

(** *** A monitor: its owner and the threads asleep in its wait queue *)
Record CMon : Type := MkCMon { cm_owner : option nat; cm_asleep : list nat }.

Definition cm_acquire (t : nat) (m : CMon) : option CMon :=
  match cm_owner m with
  | None => Some (MkCMon (Some t) (filter (fun u => u <> t) (cm_asleep m)))
  | Some _ => None
  end.

#[export] Instance cmon : Monitor CMon := {
  mon_new := MkCMon None [];
  mon_owner := cm_owner;
  mon_asleep m t := bool_decide (t ∈ cm_asleep m);
  mon_try_lock t m :=
    match cm_owner m with None => Some (MkCMon (Some t) (cm_asleep m)) | Some _ => None end;
  mon_unlock t m := MkCMon None (cm_asleep m);
  mon_park t m := MkCMon None (t :: cm_asleep m);
  mon_resume t m := if bool_decide (t ∈ cm_asleep m) then None else cm_acquire t m;
  mon_expire t m := cm_acquire t m;
  mon_timer m := true;
  mon_notify_all m := MkCMon (cm_owner m) [];
}.

Lemma cm_acquire_some t m m' : cm_acquire t m = Some m' ->
  cm_owner m = None /\ cm_owner m' = Some t /\ bool_decide (t ∈ cm_asleep m') = false /\
  (forall u, u <> t -> bool_decide (u ∈ cm_asleep m') = bool_decide (u ∈ cm_asleep m)).
Proof.
  unfold cm_acquire. destruct m as [[o|] l]; cbn; [done|]. intros [= <-]. cbn.
  split; [done|]. split; [done|]. split.
  - apply bool_decide_eq_false. rewrite list_elem_of_filter. by intros [].
  - intros u Hu. apply bool_decide_ext. rewrite list_elem_of_filter. tauto.
Qed.

#[export] Instance cmon_laws : MonitorLaws CMon.
Proof.
  split; cbn.
  - done.
  - done.
  - intros t [[o|] l] m' Hm; cbn in *; simplify_eq. done.
  - intros t [[o|] l] Hm; cbn in *; simplify_eq. by eexists.
  - done.
  - intros t [o l] Hm. cbn. split; [done|]. split; [apply bool_decide_eq_true; set_solver|].
    intros u Hu. apply bool_decide_ext. set_solver.
  - intros t m m'. case_bool_decide; [done|]. apply cm_acquire_some.
  - intros t m Ho Hb. rewrite Hb. unfold cm_acquire. rewrite Ho. by eexists.
  - intros t m m'. apply cm_acquire_some.
  - intros t m Ho. unfold cm_acquire. rewrite Ho. by eexists.
  - done.
  - intros m t. apply bool_decide_eq_false. set_solver.
  - done.
Qed.

(** *** A queue that sometimes asks to retry *)
#[export] Instance cqueue {J} : Injector (list J) J := {
  inj_new := [];
  inj_push j q := q ++ [j];
  inj_steal contended q :=
    match q with
    | [] => (StealEmpty, [])
    | j :: q' => if contended then (StealRetry, q) else (StealSuccess j, q')
    end;
  inj_jobs q := q;
}.

#[export] Instance cqueue_laws {J} : InjectorLaws (list J) J.
Proof. split; cbn; [done|done|]. by intros [] [|j q]. Qed.

(** *** Argument checks *)
Definition check_arg (b : bool) (n : Z) : Result Z unit := if b then Ok n else Err tt.

#[export] Instance cargs : Arguments := {
  require_positive _ n := check_arg (0 <? n)%Z n;
  require_at_most _ n m := check_arg (n <=? m)%Z n;
  duration_require_positive _ d := check_arg (0 <? d)%Z d;
  validate_some f o :=
    match o with
    | Some n => match f n with Ok v => Ok (Some v) | Err e => Err e end
    | None => Ok None
    end;
  available_parallelism := Ok 8%Z;
}.

#[export] Instance cargs_laws : ArgumentsLaws.
Proof.
  split; cbn.
  - intros _ n. unfold check_arg. by destruct (0 <? n)%Z.
  - intros _ n m. unfold check_arg. by destruct (n <=? m)%Z.
  - intros _ d. unfold check_arg. by destruct (0 <? d)%Z.
  - intros f [n|]; [|done]. by destruct (f n).
  - intros n [= <-]. lia.
Qed.

(** *** The state: a pool of type [P] and the application's log *)
Record CState (P : Type) : Type := MkCState { cs_pool : P; cs_log : list nat }.
Arguments MkCState {P}. Arguments cs_pool {P}. Arguments cs_log {P}.

Definition cs_pool_l {P} : lens (CState P) P := Lens cs_pool (fun x s => MkCState x (cs_log s)).
#[export] Instance cs_pool_l_laws {P} : LensLaws (@cs_pool_l P).
Proof. solve_lens. Qed.

Definition note {P} (n : nat) : prog (CState P) unit :=
  Act (fun _ s => Some (tt, MkCState (cs_pool s) (n :: cs_log s))) Ret.

(** Callbacks that write to the log; those of number 0 panic. *)
Definition noisy {P} (n : nat) : prog (CState P) unit :=
  note n ;; if (n =? 0)%nat then Panic else Ret tt.

Definition log_user {P} : UserCode (CState P) := {|
  call_closure := noisy;
  drop_closure := noisy;
  call_hook h _ := noisy h;
  runnable_run := noisy;
  drop_runnable := note;
  task_runner_run t _ := note t;
  task_slot_accept := note;
  task_slot_cancel_unstarted c := note c ;; Ret true;
  drop_callable := note;
  drop_task_slot := note;
|}.

(** Such callbacks are acceptable to any invariant that ignores the log. *)
Lemma log_user_safe_if {P X} Blk JB (I : list (CState P) -> CState P -> list X -> Prop) Fin FinP (calm : X -> Prop) :
  (forall n k g, calm g -> WPB Blk JB I Fin FinP k (note n) g (fun _ g' => g' = g) (fun _ => False)) ->
  UserSafeB (H := log_user) Blk JB I Fin FinP calm.
Proof.
  intros Hn.
  assert (Hq : forall n, quietB Blk JB I Fin FinP calm (note (P := P) n)).
  { intros n k g Hg. eapply WP_mono; [by apply Hn|done|done]. }
  assert (Hy : forall n, quietB Blk JB I Fin FinP calm (noisy (P := P) n)).
  { intros n. apply quiet_bind; [apply Hq|]. intros _.
    destruct (n =? 0)%nat; [apply quiet_panic|apply quiet_ret]. }
  split; cbn; try (intros c; first [apply Hq|apply Hy]); try (intros c d; first [apply Hq|apply Hy]).
  - intros c. apply (quiet_bind I Fin FinP calm (note c) _ (Hq c)). intros _. apply quiet_ret.
  - intros c k g Hg. by apply Hn.
Qed.

(** *** A scheduler: the next enabled thread in turn *)
Definition enabled {S} (c : config S) (ev : nat * bool) : bool :=
  match cstep ev c with Some _ => true | None => false end.

Fixpoint first_enabled {S} (c : config S) (b : bool) (i n : nat) : option nat :=
  match n with
  | O => None
  | Datatypes.S n =>
      let j := Nat.modulo i (length (threads c)) in
      if enabled c (j, b) then Some j else first_enabled c b (Datatypes.S i) n
  end.

(** The choice alternates, so no retry loop goes on for ever. *)
Fixpoint fair {S} (fuel i : nat) (b : bool) (c : config S) : list (nat * bool) :=
  match fuel with
  | O => []
  | Datatypes.S fuel =>
      match first_enabled c b i (length (threads c)) with
      | None => []
      | Some j =>
          match cstep (j, b) c with
          | None => []
          | Some c' => (j, b) :: fair fuel (Datatypes.S j) (negb b) c'
          end
      end
  end.

(** The same with the environment always answering yes. *)
Fixpoint steady {S} (fuel i : nat) (c : config S) : list (nat * bool) :=
  match fuel with
  | O => []
  | Datatypes.S fuel =>
      match first_enabled c true i (length (threads c)) with
      | None => []
      | Some j =>
          match cstep (j, true) c with
          | None => []
          | Some c' => (j, true) :: steady fuel (Datatypes.S j) c'
          end
      end
  end.

(** Where a schedule leads, a thread that joins, and threads that have ended. *)
Definition after {S} (c : config S) (sched : list (nat * bool)) : config S :=
  match exec sched [] c with Some (_, c') => c' | None => c end.
Definition with_observer {S} (p : prog S unit) (c : config S) : config S :=
  Config (threads c ++ [p]) (shared c).
Definition ended {S} (p : prog S unit) : bool := match p with Ret _ => true | _ => false end.
