(* ===== verification/FixedLogic.v ===== *)
(** Ghost ownership for the fixed pool: every thread's submissions, jobs and
    worker counts, the pool invariant, and the basic rules under it. *)
From S2P Require Import Prelude Prog Conc Sync AdmissionGate PoolAccounting AccountingLogic.
From S2P Require Import AccountingSpecs Types Hooks PoolJob FixedInner.
Local Open Scope Z_scope.

(** Counters outside the accounting that must not underflow. *)
Inductive cidx : Type := CLive | CIdle | CIdleAtomic | CSubmitWaiter | CIdleWaiter.

#[export] Instance cidx_eq_dec : EqDecision cidx.
Proof. solve_decision. Defined.

(** A thread's contribution; [pt_budget]: workers it may still start. *)
Record ptok : Type := MkPtok { pt_acct : tok; pt_count : cidx -> nat; pt_budget : nat }.

Definition pt_acct_l : lens ptok tok :=
  Lens pt_acct (fun x p => MkPtok x (pt_count p) (pt_budget p)).
#[export] Instance pt_acct_l_laws : LensLaws pt_acct_l.
Proof. solve_lens. Qed.

Definition ptok0 : ptok := MkPtok tok0 (fun _ => 0%nat) 0.

Definition count_total (c : cidx) (G : list ptok) : nat := sum_with (fun g => pt_count g c) G.
Definition budget_total (G : list ptok) : nat := sum_with pt_budget G.
Definition acct_total (G : list ptok) : tok := fun i => sum_with (fun g => pt_acct g i) G.

#[export] Instance state_l_laws {M Q} : LensLaws (@state_l M Q).
Proof. solve_lens. Qed.
#[export] Instance accounting_l_laws {M Q} : LensLaws (@accounting_l M Q).
Proof. solve_lens. Qed.
#[export] Instance mon_data_l_laws {M A} : LensLaws (@mon_data_l M A).
Proof. solve_lens. Qed.

Definition counter_l {M Q} (c : cidx) : lens (FixedThreadPoolInner M Q) Z :=
  match c with
  | CLive => state_l ⊚ mon_data_l ⊚ fixed_live_workers_l
  | CIdle => state_l ⊚ mon_data_l ⊚ fixed_idle_workers_l
  | CIdleAtomic => idle_worker_count_l
  | CSubmitWaiter => submit_waiter_count_l
  | CIdleWaiter => idle_waiter_count_l
  end.

#[export] Instance counter_l_laws {M Q} c : LensLaws (@counter_l M Q c).
Proof.
  destruct c; (split; [intros; reflexivity| |intros; reflexivity]); intros s; destruct s as [? [? []]];
    reflexivity.
Qed.

Section inv.
Context {S M Q : Type} `{Monitor M} `{Injector Q PoolJob}.
Variable self : lens S (FixedThreadPoolInner M Q).
Context `{!LensLaws self}.
(** observed moment, queue limit, number of workers, immutable hooks *)
Variables (T : nat) (cap : option Z) (size : nat).

(** [q]: the jobs in the queue, by age. *)
Record pool_inv_at (q : tok) (h : list S) (s : S) (G : list ptok) : Prop := {
  pi_queue : forall i, (forall o, i <> ix o Waiting) -> q i = 0%nat;
  pi_jobs : all q Waiting = length (inj_jobs (global_queue (get self s)));
  pi_acct : acct_inv (acc self) T cap true h s (tadd (acct_total G) q);
  pi_count : forall c, get (self ⊚ counter_l c) s = Z.of_nat (count_total c G) /\
    Z.of_nat (count_total c G) <= Z.of_nat (length h);
  pi_size : (count_total CLive G + budget_total G <= size)%nat;
}.

Definition pool_inv (h : list S) (s : S) (G : list ptok) : Prop :=
  exists q, pool_inv_at q h s G.

(** What the invariant depends on. *)
Definition same_core (s s' : S) : Prop :=
  get (acc self) s' = get (acc self) s /\
  inj_jobs (global_queue (get self s')) = inj_jobs (global_queue (get self s)) /\
  forall c, get (self ⊚ counter_l c) s' = get (self ⊚ counter_l c) s.

Lemma pool_inv_frame h s s' G :
  in_time h -> pool_inv h s G -> same_core s s' -> pool_inv (s :: h) s' G.
Proof.
  intros Ht (q & [Hq Hj Ha Hc Hs]) (Hacc & Hjobs & Hcnt). exists q. split; [done|congruence| | |done].
  - by eapply acct_frame.
  - intros c. rewrite Hcnt. destruct (Hc c) as [-> ?]. split; [done|]. cbn [length]. lia.
Qed.

#[export] Instance pool_inv_stutter : Stutter pool_inv.
Proof. intros h s G Ht HI. by eapply pool_inv_frame. Qed.

Lemma acct_total_insert G k g g' i :
  G !! k = Some g -> (acct_total (<[k:=g']> G) i + pt_acct g i = acct_total G i + pt_acct g' i)%nat.
Proof. intros Hg. unfold acct_total. by apply (sum_with_insert (fun g => pt_acct g i)). Qed.

Lemma count_total_insert c G k g g' :
  G !! k = Some g -> (count_total c (<[k:=g']> G) + pt_count g c = count_total c G + pt_count g' c)%nat.
Proof. intros Hg. unfold count_total. by apply (sum_with_insert (fun g => pt_count g c)). Qed.

Lemma budget_total_insert G k g g' :
  G !! k = Some g -> (budget_total (<[k:=g']> G) + pt_budget g = budget_total G + pt_budget g')%nat.
Proof. intros Hg. unfold budget_total. by apply (sum_with_insert pt_budget). Qed.

Lemma acct_total_lookup G k g i : G !! k = Some g -> (pt_acct g i <= acct_total G i)%nat.
Proof. intros Hg. unfold acct_total. by apply (sum_with_lookup (fun g => pt_acct g i)) in Hg. Qed.

Lemma count_total_lookup c G k g : G !! k = Some g -> (pt_count g c <= count_total c G)%nat.
Proof. intros Hg. unfold count_total. by apply (sum_with_lookup (fun g => pt_count g c)) in Hg. Qed.

(** A move within one thread is a move of the whole. *)
Lemma acct_total_moves G k g src dst a' q q' :
  G !! k = Some g ->
  (forall i, (src i <= pt_acct g i + q i)%nat /\ (a' i + q' i + src i = pt_acct g i + q i + dst i)%nat) ->
  forall g', pt_acct g' = a' ->
  moves src dst (tadd (acct_total G) q) (tadd (acct_total (<[k:=g']> G)) q').
Proof.
  intros Hg Hm g' <- i. destruct (Hm i) as [Hs He].
  pose proof (acct_total_insert G k g g' i Hg). pose proof (acct_total_lookup G k g i Hg).
  unfold tadd. lia.
Qed.

#[export] Instance acc_laws : LensLaws (acc self).
Proof. unfold acc. apply _. Qed.

#[export] Instance pool_acct_client : AcctClient (acc self) pt_acct_l T cap true pool_inv.
Proof.
  intros h s G k g Ht (q & [Hq Hj Ha Hc Hs]) Hg. exists (tadd (acct_total G) q).
  split; [done|]. split.
  { intros i. pose proof (acct_total_lookup G k g i Hg). unfold tadd. cbn. lia. }
  intros s' a' src dst Hs' Hm Hstep. exists q.
  assert (Hother : global_queue (get self s') = global_queue (get self s) /\
    forall c, get (self ⊚ counter_l c) s' = get (self ⊚ counter_l c) s).
  { rewrite Hs'. unfold acc. cbn [get set lens_comp]. rewrite !get_set. cbn. split; [done|].
    by intros []. }
  destruct Hother as [Hqueue Hcount]. split; [done|by rewrite Hqueue| | |].
  - apply Hstep. eapply (acct_total_moves G k g src dst a'); [exact Hg| |reflexivity].
    intros i. destruct (Hm i) as [H1 H2]. cbn in H1, H2. lia.
  - intros c. rewrite Hcount. pose proof (count_total_insert c G k g (set pt_acct_l a' g) Hg) as He.
    cbn in He. replace (count_total c (<[k:=set pt_acct_l a' g]> G)) with (count_total c G) by (cbn; lia).
    destruct (Hc c) as [-> ?]. split; [done|]. cbn [length]. lia.
  - pose proof (count_total_insert CLive G k g (set pt_acct_l a' g) Hg).
    pose proof (budget_total_insert G k g (set pt_acct_l a' g) Hg). cbn in *. lia.
Qed.
End inv.

(** Contributions with one more or one less of counter [c]. *)
Definition inc (c : cidx) (g : ptok) : ptok :=
  MkPtok (pt_acct g) (fun c' => pt_count g c' + if decide (c' = c) then 1 else 0)%nat (pt_budget g).
Definition dec (c : cidx) (g : ptok) : ptok :=
  MkPtok (pt_acct g) (fun c' => pt_count g c' - if decide (c' = c) then 1 else 0)%nat (pt_budget g).

Lemma dec_inc c g : dec c (inc c g) = g.
Proof.
  destruct g as [a n b]. unfold dec, inc. cbn. f_equal.
  apply FunctionalExtensionality.functional_extensionality. intros c'. destruct (decide _); lia.
Qed.

Lemma inc_has c g : (1 <= pt_count (inc c g) c)%nat.
Proof. cbn. rewrite decide_True by done. lia. Qed.

#[export] Hint Resolve inc_has : core.

Section rules.
Context {S M Q : Type} `{Monitor M} `{Injector Q PoolJob}.
Context `{!InjectorLaws Q PoolJob}.
Variable self : lens S (FixedThreadPoolInner M Q).
Context `{!LensLaws self} (T : nat) (cap : option Z) (size : nat).
Context (Fin FinP : ptok -> Prop).
Local Abbreviation I := (pool_inv self T cap size).
Local Abbreviation WP := (WP I Fin FinP).
Local Abbreviation holds := (holds pt_acct_l).
Implicit Types (r : tok) (o : bool) (k : nat) (g : ptok).

(** An action outside the counters and the queue. *)
Lemma WP_core k {B R} (f : nat -> S -> option (B * S)) (kont : B -> prog S R) g Q' E :
  (forall s, match f k s with
             | None => True
             | Some (b, s') => same_core self s s' /\ WP k (kont b) g Q' E
             end) ->
  WP k (Act f kont) g Q' E.
Proof.
  intros Hf. apply WP_act. intros h s G Ht HI Hg. specialize (Hf s).
  destruct (f k s) as [[b s']|]; [|done]. destruct Hf as [Hcore Hk]. exists g. split; [|done].
  rewrite list_insert_id by done. by eapply pool_inv_frame.
Qed.

(** An update of counter [c] that exchanges contribution [g0] for [g1]. *)
Lemma WP_count k {B R} (f : nat -> S -> option (B * S)) (kont : B -> prog S R) c g0 g1 g r Q' E :
  holds g0 r g ->
  (forall c', c' <> c -> pt_count g1 c' = pt_count g0 c') ->
  (pt_count g1 CLive + pt_budget g1 <= pt_count g0 CLive + pt_budget g0)%nat ->
  (forall s n, get (self ⊚ counter_l c) s = Z.of_nat n -> (pt_count g0 c <= n)%nat ->
     Z.of_nat n < 2 ^ 62 ->
     exists b n', f k s = Some (b, set (self ⊚ counter_l c) (Z.of_nat n') s) /\
       (n' + pt_count g0 c = n + pt_count g1 c)%nat /\ (n' <= n + 1)%nat /\
       forall g', holds g1 r g' -> WP k (kont b) g' Q' E) ->
  WP k (Act f kont) g Q' E.
Proof.
  intros [Hown Hrest] Hc Hb Hf. apply WP_act. intros h s G Ht (q & [Hq Hj Ha Hcnt Hs]) Hg.
  destruct (Hcnt c) as [Hcv Hcb].
  pose proof (count_total_lookup c G k g Hg) as Hle.
  assert (Hgc : forall c', pt_count g c' = pt_count g0 c') by (rewrite Hrest; done).
  assert (Hgb : pt_budget g = pt_budget g0) by (rewrite Hrest; done).
  unfold in_time, STEP_BOUND in Ht.
  destruct (Hf s (count_total c G) Hcv) as (b & n' & -> & Hn' & Hn1 & Hk); [rewrite <- Hgc; done|lia|].
  set (g' := set pt_acct_l (pt_acct g) g1). exists g'. split; cycle 1.
  { apply Hk. split; [done|]. subst g'. cbn. done. }
  assert (Htot : forall c', count_total c' (<[k:=g']> G) = if decide (c' = c) then n' else count_total c' G).
  { intros c'. pose proof (count_total_insert c' G k g g' Hg) as He.
    assert (Ec : pt_count g' c' = pt_count g1 c') by done. rewrite Hgc, Ec in He.
    destruct (decide (c' = c)) as [->|Hne]; [lia|]. rewrite (Hc c' Hne) in He. lia. }
  exists q. split; [done| | | |].
  - rewrite Hj. cbn. rewrite get_set. by destruct c.
  - assert (acct_total (<[k:=g']> G) = acct_total G) as ->.
    { apply FunctionalExtensionality.functional_extensionality. intros i.
      pose proof (acct_total_insert G k g g' i Hg). subst g'. cbn in *. lia. }
    eapply acct_frame; [done|exact Ha|]. unfold acc. cbn. rewrite get_set. by destruct c.
  - intros c'. rewrite Htot. destruct (decide (c' = c)) as [->|Hne].
    + split; [by rewrite get_set|]. cbn [length]. lia.
    + destruct (Hcnt c') as [Hv Hb']. rewrite <- Hv. split; [|cbn [length]; lia].
      cbn. rewrite get_set. by destruct c, c'.
  - pose proof (budget_total_insert G k g g' Hg) as He. pose proof (Htot CLive) as Hl.
    pose proof (count_total_insert CLive G k g g' Hg) as He'.
    assert (Eb : pt_budget g' = pt_budget g1) by done.
    assert (Ec : pt_count g' CLive = pt_count g1 CLive) by done.
    rewrite Hgb, Eb in He. rewrite Hgc, Ec in He'. lia.
Qed.

(** *** Counter operations *)

Lemma WP_fetch_add_count k c g0 g r (Q' : Z -> ptok -> Prop) E :
  c <> CLive -> holds g0 r g ->
  (forall v g', holds (inc c g0) r g' -> Q' v g') ->
  WP k (fetch_add (self ⊚ counter_l c) 1) g Q' E.
Proof.
  intros Hc Hg HQ. unfold fetch_add, fetch_modify. eapply (WP_count _ _ _ c g0 (inc c g0)); [exact Hg|..].
  - intros c' Hne. cbn. rewrite decide_False by done. lia.
  - cbn. rewrite decide_False by done. lia.
  - intros s n -> Hle Hn. eexists _, (n + 1)%nat. split.
    { f_equal. f_equal. f_equal. rewrite wrap_small; [lia|].
      unfold in_usize. change USIZE_MOD with (2 ^ 64). lia. }
    split; [cbn; rewrite decide_True by done; lia|]. split; [lia|].
    intros g' Hg'. apply WP_ret. by apply HQ.
Qed.

Lemma WP_fetch_sub_count k c g0 g r (Q' : Z -> ptok -> Prop) E :
  c <> CLive -> (1 <= pt_count g0 c)%nat -> holds g0 r g ->
  (forall v g', 0 < v -> holds (dec c g0) r g' -> Q' v g') ->
  WP k (fetch_sub (self ⊚ counter_l c) 1) g Q' E.
Proof.
  intros Hc H1 Hg HQ. unfold fetch_sub, fetch_modify. eapply (WP_count _ _ _ c g0 (dec c g0)); [exact Hg|..].
  - intros c' Hne. cbn. rewrite decide_False by done. lia.
  - cbn. rewrite decide_False by done. lia.
  - intros s n -> Hle Hn. eexists _, (n - 1)%nat. split.
    { f_equal. f_equal. f_equal. rewrite wrap_small; [lia|].
      unfold in_usize. change USIZE_MOD with (2 ^ 64). lia. }
    split; [cbn; rewrite decide_True by done; lia|]. split; [lia|].
    intros g' Hg'. apply WP_ret. apply HQ; [lia|done].
Qed.

Lemma WP_guarded_incr_count k c g0 g r (Q' : unit -> ptok -> Prop) E :
  c <> CLive -> holds g0 r g ->
  (forall g', holds (inc c g0) r g' -> Q' tt g') ->
  WP k (guarded_incr (self ⊚ counter_l c)) g Q' E.
Proof.
  intros Hc Hg HQ. unfold guarded_incr. cbn [bind].
  eapply (WP_count _ _ _ c g0 (inc c g0)); [exact Hg|..].
  - intros c' Hne. cbn. rewrite decide_False by done. lia.
  - cbn. rewrite decide_False by done. lia.
  - intros s n -> Hle Hn. exists true, (n + 1)%nat. unfold checked_add.
    destruct (Z.ltb_spec (Z.of_nat n + 1) USIZE_MOD) as [_|Hlt];
      [|change USIZE_MOD with (2 ^ 64) in Hlt; lia].
    split; [by rewrite Nat2Z.inj_add|].
    split; [cbn; rewrite decide_True by done; lia|]. split; [lia|].
    intros g' Hg'. apply WP_ret. by apply HQ.
Qed.

Lemma WP_guarded_decr_count k c g0 g r (Q' : unit -> ptok -> Prop) E :
  (1 <= pt_count g0 c)%nat -> holds g0 r g ->
  (forall g', holds (dec c g0) r g' -> Q' tt g') ->
  WP k (guarded_decr (self ⊚ counter_l c)) g Q' E.
Proof.
  intros H1 Hg HQ. unfold guarded_decr. cbn [bind].
  eapply (WP_count _ _ _ c g0 (dec c g0)); [exact Hg|..].
  - intros c' Hne. cbn. rewrite decide_False by done. lia.
  - cbn. destruct (decide _); lia.
  - intros s n -> Hle Hn. exists true, (n - 1)%nat. unfold checked_sub.
    destruct (Z.leb_spec 1 (Z.of_nat n)) as [_|Hlt]; [|lia].
    split; [by rewrite Nat2Z.inj_sub by lia|].
    split; [cbn; rewrite decide_True by done; lia|]. split; [lia|].
    intros g' Hg'. apply WP_ret. by apply HQ.
Qed.

(** A worker slot is counted against the number of workers allowed. *)
Definition spend (g : ptok) : ptok := MkPtok (pt_acct g) (pt_count g) (pt_budget g - 1).

Lemma WP_reserve_live k g0 g r (Q' : unit -> ptok -> Prop) E :
  (1 <= pt_budget g0)%nat -> holds g0 r g ->
  (forall g', holds (inc CLive (spend g0)) r g' -> Q' tt g') ->
  WP k (guarded_incr (self ⊚ counter_l CLive)) g Q' E.
Proof.
  intros H1 Hg HQ. unfold guarded_incr. cbn [bind].
  eapply (WP_count _ _ _ CLive g0 (inc CLive (spend g0))); [exact Hg|..].
  - intros c' Hne. cbn. rewrite decide_False by done. lia.
  - unfold inc, spend. cbn [pt_count pt_budget]. rewrite decide_True by done. lia.
  - intros s n -> Hle Hn. exists true, (n + 1)%nat. unfold checked_add.
    destruct (Z.ltb_spec (Z.of_nat n + 1) USIZE_MOD) as [_|Hlt];
      [|change USIZE_MOD with (2 ^ 64) in Hlt; lia].
    split; [by rewrite Nat2Z.inj_add|]. split; [unfold inc, spend; cbn [pt_count]; rewrite decide_True by done; lia|]. split; [lia|].
    intros g' Hg'. apply WP_ret. by apply HQ.
Qed.

(** *** The queue *)

(** A thread and the queue exchange jobs. *)
Lemma WP_exchange k {B R} (f : nat -> S -> option (B * S)) (kont : B -> prog S R) g0 g r Q' E :
  holds g0 r g ->
  (forall s (q : tok), (forall i, (forall o, i <> ix o Waiting) -> q i = 0%nat) ->
     all q Waiting = length (inj_jobs (global_queue (get self s))) ->
     exists b v (q' r' : tok), f k s = Some (b, set (self ⊚ global_queue_l) v s) /\
       (forall i, (forall o, i <> ix o Waiting) -> q' i = 0%nat) /\
       all q' Waiting = length (inj_jobs v) /\
       (forall i, (r' i + q' i = r i + q i)%nat) /\
       forall g', holds g0 r' g' -> WP k (kont b) g' Q' E) ->
  WP k (Act f kont) g Q' E.
Proof.
  intros [Hown Hrest] Hf. apply WP_act. intros h s G Ht (q & [Hq Hj Ha Hcnt Hs]) Hg.
  destruct (Hf s q Hq Hj) as (b & v & q' & r' & -> & Hq' & Hv & Hex & Hk).
  set (g' := set pt_acct_l r' g). exists g'. split; cycle 1.
  { apply Hk. split; [done|]. subst g'. by rewrite Hrest. }
  assert (Hc : forall c, count_total c (<[k:=g']> G) = count_total c G).
  { intros c. pose proof (count_total_insert c G k g g' Hg) as He.
    assert (Ec : pt_count g' c = pt_count g c) by done. lia. }
  exists q'. split; [done| | | |].
  - rewrite Hv. cbn. by rewrite get_set.
  - assert (tadd (acct_total (<[k:=g']> G)) q' = tadd (acct_total G) q) as ->.
    { apply FunctionalExtensionality.functional_extensionality. intros i. unfold tadd.
      pose proof (acct_total_insert G k g g' i Hg) as He. pose proof (acct_total_lookup G k g i Hg).
      assert (Ea : pt_acct g' i = r' i) by done. specialize (Hown i). specialize (Hex i).
      cbn in Hown. lia. }
    eapply acct_frame; [done|exact Ha|]. unfold acc. cbn. by rewrite get_set.
  - intros c. rewrite Hc. destruct (Hcnt c) as [<- ?]. split; [|cbn [length]; lia].
    cbn. rewrite get_set. by destruct c.
  - rewrite Hc. pose proof (budget_total_insert G k g g' Hg) as He.
    assert (Eb : pt_budget g' = pt_budget g) by done. lia.
Qed.

Lemma WP_push k o job g0 g r (Q' : unit -> ptok -> Prop) E :
  holds g0 (tadd r (tk o Waiting)) g -> (forall g', holds g0 r g' -> Q' tt g') ->
  WP k (queue_push self job) g Q' E.
Proof.
  intros Hg HQ. unfold queue_push. eapply WP_exchange; [exact Hg|]. intros s q Hq Hj.
  eexists tt, _, (tadd q (tk o Waiting)), r. split; [reflexivity|]. split; [|split; [|split]].
  - intros i Hi. unfold tadd. rewrite Hq by done. specialize (Hi o). unfold tk, one.
    destruct o, i as [[]|[]| | | | |]; done.
  - rewrite inj_push_jobs, length_app, <- Hj. unfold all, tadd. destruct o; cbn; lia.
  - intros i. unfold tadd. lia.
  - intros g' Hg'. apply WP_ret. by apply HQ.
Qed.

Lemma WP_queue_steal k b g0 g r (Q' : Steal PoolJob -> ptok -> Prop) E :
  holds g0 r g ->
  (forall job o g', holds g0 (tadd r (tk o Waiting)) g' -> Q' (StealSuccess job) g') ->
  (forall g', holds g0 r g' -> Q' StealEmpty g') ->
  (forall g', holds g0 r g' -> Q' StealRetry g') ->
  WP k (queue_steal self b) g Q' E.
Proof.
  intros Hg HQs HQe HQr. unfold queue_steal. eapply WP_exchange; [exact Hg|]. intros s q Hq Hj.
  pose proof (inj_steal_jobs b (global_queue (get self s))) as Hst.
  destruct (inj_steal b (global_queue (get self s))) as [[job| |] v] eqn:He; cbn [fst snd].
  - assert (exists o, (1 <= q (ix o Waiting))%nat) as [o Ho].
    { rewrite Hst in Hj. cbn in Hj. unfold all in Hj.
      destruct (q (New Waiting)) eqn:?; [exists true|exists false]; cbn; lia. }
    eexists _, v, (fun i => q i - tk o Waiting i)%nat, (tadd r (tk o Waiting)).
    split; [reflexivity|]. split; [|split; [|split]].
    + intros i Hi. by rewrite Hq.
    + rewrite Hst in Hj. cbn in Hj. unfold all in *. destruct o; cbn in *; lia.
    + intros i. unfold tadd. unfold tk, one. destruct (idx_eqb (ix o Waiting) i) eqn:Hi; [|lia].
      assert (i = ix o Waiting) as -> by (destruct o, i as [[]|[]| | | | |]; done). lia.
    + intros g' Hg'. apply WP_ret. by eapply HQs.
  - destruct Hst as [H1 H2]. eexists _, v, q, r. split; [reflexivity|].
    split; [done|]. split; [by rewrite Hj, H1, H2|]. split; [done|].
    intros g' Hg'. apply WP_ret. by apply HQe.
  - destruct Hst as [_ H2]. eexists _, v, q, r. split; [reflexivity|].
    split; [done|]. split; [by rewrite Hj, H2|]. split; [done|].
    intros g' Hg'. apply WP_ret. by apply HQr.
Qed.
End rules.
