(* ===== verification/FixedBuild.v ===== *)
(** Building a fixed pool: which configurations are refused and with which
    error, and what a build that runs alone leaves behind. *)
From S2P Require Import Prelude Prog Sync Seq AdmissionGate PoolAccounting Types Hooks PoolJob.
From S2P Require Import FixedInner FixedWorker FixedLogic Builder FixedPool Concrete.
Local Open Scope Z_scope.

(** The first rule a configuration breaks, in the order of the checks. *)
Definition fixed_first_error (b : FixedThreadPoolBuilder) : option ExecutorServiceBuilderError :=
  if negb (0 <? fb_pool_size b) then Some ZeroPoolSize
  else if negb (positive_or_absent (fb_queue_capacity b)) then Some ZeroQueueCapacity
  else if negb (positive_or_absent (fb_stack_size b)) then Some ZeroStackSize
  else None.

Lemma fixed_validate_first_error `{ArgumentsLaws} b :
  FixedBuilder.validate b = match fixed_first_error b with Some e => Err e | None => Ok tt end.
Proof.
  unfold FixedBuilder.validate, fixed_first_error.
  rewrite (validate_check _ _ _ _ (require_positive_ok _ _)).
  rewrite !(validate_check _ _ _ _ (validate_some_positive _ _)).
  destruct (0 <? fb_pool_size b); [|done].
  destruct (positive_or_absent (fb_queue_capacity b)); [|done].
  by destruct (positive_or_absent (fb_stack_size b)).
Qed.

Lemma runtimes_names_distinct prefix k n :
  NoDup (map (fun r => worker_thread_name prefix (worker_index r))
           (map (fun i => MkFixedWorkerRuntime (Z.of_nat i)) (seq k n))).
Proof.
  rewrite map_map. apply NoDup_fmap_2_strong; [|apply NoDup_seq].
  intros i j _ _ Heq. apply worker_thread_name_inj in Heq; cbn in *; lia.
Qed.

Section build.
Context {S M Q : Type} `{MonitorLaws M} `{Injector Q PoolJob} `{UserCode S}.
Context (self : lens S (FixedThreadPoolInner M Q)) `{!LensLaws self}.
Implicit Types (b : FixedThreadPoolBuilder) (w : world S).

(** The shared state while the workers of [b] are started: [n] so far. *)
Definition starting b (m : M) (n : Z) : FixedThreadPoolInner M Q :=
  MkFixedThreadPoolInner (fb_pool_size b) (MkMonitor m (MkFixedThreadPoolState Lifecycle.Running n 0))
    (pool_accounting_new (fb_queue_capacity b)) false 0 0 0 0 inj_new (fb_hooks b).

(** The state a build leaves when a worker cannot be started and none runs. *)
Definition abandoned b (m : M) : FixedThreadPoolInner M Q :=
  MkFixedThreadPoolInner (fb_pool_size b) (MkMonitor m (MkFixedThreadPoolState Lifecycle.Stopping 0 0))
    (MkPoolAccounting (MkAdmissionGate CLOSED) (fb_queue_capacity b) 0 0 0 0 0 0 0)
    true 0 0 0 0 inj_new (fb_hooks b).

(** The thread of one worker. *)
Definition worker_thread b (r : FixedWorkerRuntime) : string * option Z * prog S unit :=
  (worker_thread_name (fb_thread_name_prefix b) (worker_index r), fb_stack_size b, fixed_worker_run self r).

Lemma locked_part {B} (l : lens FixedThreadPoolState B) w :
  part (mon self ⊚ mon_data_l) w = mon_data (state (part self w)).
Proof. reflexivity. Qed.

Lemma runs_reserve_worker b t w m n :
  part self w = starting b m n -> mon_owner m = None -> n + 1 < USIZE_MOD ->
  exists m', mon_owner m' = None /\
    runs t (reserve_worker_slot self) w (Returned tt (with_part self (starting b m' (n + 1)) w)).
Proof.
  intros Hp Hm Hn1.
  destruct (runs_with_lock (mon self) (guarded_incr (locked self fixed_live_workers_l)) t w tt
    (MkFixedThreadPoolState Lifecycle.Running (n + 1) 0) w id) as (m' & Hm' & Hr).
  - unfold mon_free, mon. rewrite part_comp, Hp. done.
  - done.
  - intros m0 _. unfold with_mon, mon. rewrite !with_part_comp, part_comp, Hp.
    pose proof (runs_guarded_incr (mon self ⊚ mon_data_l) fixed_live_workers_l t
      (with_part self (starting b m0 n) w)) as Hr.
    unfold mon in Hr. part_norm_in Hr. apply Hr. exact Hn1.
  - exists m'. split; [done|]. unfold with_mon, mon in Hr. rewrite with_part_comp, Hp in Hr. exact Hr.
Qed.

Lemma runs_start_workers b t rts :
  forall m n w handles,
  part self w = starting b m n -> mon_owner m = None -> n + Z.of_nat (length rts) < USIZE_MOD ->
  Forall (eq true) (take (length rts) (w_oracle w)) ->
  exists m' w', mon_owner m' = None /\
    runs t (start_workers self (fb_thread_name_prefix b) (fb_stack_size b) rts handles) w
      (Returned (Ok tt) w') /\
    w_state w' = set self (starting b m' (n + Z.of_nat (length rts))) (w_state w) /\
    w_spawned w' = w_spawned w ++ map (worker_thread b) rts.
Proof.
  induction rts as [|r rts IH]; intros m n w handles Hp Hm Hlt Hor.
  - exists m, w. split; [done|]. split; [apply runs_ret|]. rewrite app_nil_r. cbn [length].
    rewrite Z.add_0_r, <- Hp. unfold part. by rewrite set_get.
  - destruct (runs_reserve_worker b t w m n Hp Hm) as (m1 & Hm1 & Hr); [cbn [length] in Hlt; lia|].
    set (w1 := World (set self (starting b m1 (n + 1)) (w_state w)) (oracle_next (w_oracle w)).2
                 (w_spawned w ++ [worker_thread b r])).
    destruct (IH m1 (n + 1) w1 (handles ++ [Datatypes.S t + length (w_spawned w)])%nat)
      as (m' & w' & Hm' & Hr' & Hs' & Hsp').
    + unfold part, w1. cbn. by rewrite get_set.
    + done.
    + cbn [length] in Hlt. lia.
    + unfold w1. cbn. destruct (w_oracle w) as [|o orc]; cbn in *; [by rewrite take_nil|by inversion Hor].
    + exists m', w'. split; [done|]. split; [|split].
      * cbn [start_workers]. eapply runs_bind; [exact Hr|]. unfold thread_spawn, choose. cbn [bind].
        unfold with_part. apply runs_choose.
        replace (oracle_next (w_oracle w)).1 with true.
        2:{ destruct (w_oracle w) as [|o orc]; cbn in *; [done|]. by inversion Hor. }
        cbn [bind]. destruct Hr' as [Ho [k Hk]]. split; [done|]. exists k. rewrite run_spawn. exact Hk.
      * rewrite Hs'. unfold w1. cbn [w_state]. rewrite set_set. cbn [length]. f_equal. f_equal. lia.
      * rewrite Hsp'. unfold w1. cbn [w_spawned map]. by rewrite <- app_assoc.
Qed.

Lemma runs_failed_start b t w m :
  part self w = starting b m 1 -> mon_owner m = None ->
  exists m', mon_owner m' = None /\
    runs t (rollback_worker_slot self ;; stop_after_failed_build self) w
      (Returned tt (with_part self (abandoned b m') w)).
Proof.
  intros Hp Hm.
  destruct (runs_with_lock (mon self) (guarded_decr (locked self fixed_live_workers_l)) t w tt
    (MkFixedThreadPoolState Lifecycle.Running 0 0) w id) as (m1 & Hm1 & Hr1).
  { unfold mon_free, mon. by rewrite part_comp, Hp. }
  { done. }
  { intros m0 _. unfold with_mon, mon. rewrite !with_part_comp, part_comp, Hp.
    pose proof (runs_guarded_decr (mon self ⊚ mon_data_l) fixed_live_workers_l t
      (with_part self (starting b m0 1) w)) as Hr.
    unfold mon in Hr. part_norm_in Hr. by apply Hr. }
  unfold with_mon, mon in Hr1. rewrite with_part_comp, Hp in Hr1.
  set (w1 := with_part self (starting b m1 0) w) in *.
  set (p2 := MkFixedThreadPoolInner (fb_pool_size b) (MkMonitor m1 (MkFixedThreadPoolState Lifecycle.Running 0 0))
    (MkPoolAccounting (MkAdmissionGate CLOSED) (fb_queue_capacity b) 0 0 0 0 0 0 0)
    true 0 0 0 0 (inj_new (Q := Q) (J := PoolJob)) (fb_hooks b)).
  destruct (runs_with_write_notify_all (mon self) (store (locked self fixed_lifecycle_l) Lifecycle.Stopping)
    t (with_part self p2 w) tt (MkFixedThreadPoolState Lifecycle.Stopping 0 0) (with_part self p2 w))
    as (m3 & Hm3 & Hr3).
  { unfold mon_free, mon. part_norm. exact Hm1. }
  { intros m0 _. unfold with_mon, mon. part_norm.
    pose proof (runs_store (mon self ⊚ mon_data_l) fixed_lifecycle_l Lifecycle.Stopping t
      (with_part self (set state_l (MkMonitor m0 (MkFixedThreadPoolState Lifecycle.Running 0 0)) p2) w)) as Hr.
    unfold mon in Hr. part_norm_in Hr. exact Hr. }
  exists m3. split; [done|]. eapply runs_bind; [exact Hr1|].
  unfold stop_after_failed_build, close_admission, gate_close. repeat seq_step. fold w1.
  unfold acc, w1. part_norm. unfold with_mon, mon in Hr3. part_norm_in Hr3. exact Hr3.
Qed.

Lemma runs_new_started b t w :
  0 < fb_pool_size b < USIZE_MOD ->
  Forall (eq true) (take (Z.to_nat (fb_pool_size b)) (w_oracle w)) ->
  exists m w' new, mon_owner m = None /\ runs t (new_with_builder self b) w (Returned (Ok tt) w') /\
    part self w' = starting b m (fb_pool_size b) /\ w_spawned w' = w_spawned w ++ new /\
    new = map (worker_thread b) (new_worker_runtimes (fb_pool_size b)) /\
    Z.of_nat (length new) = fb_pool_size b /\ NoDup (map (fun th => th.1.1) new).
Proof.
  intros Hsize Hor. set (w0 := with_part self (starting b mon_new 0) w).
  assert (Hw0 : part self w0 = starting b mon_new 0) by (unfold w0; by rewrite part_with).
  assert (Hlen : length (new_worker_runtimes (fb_pool_size b)) = Z.to_nat (fb_pool_size b)).
  { unfold new_worker_runtimes. by rewrite length_map, length_seq. }
  destruct (runs_start_workers b t (new_worker_runtimes (fb_pool_size b)) _ _ w0 []
    Hw0 mon_new_free) as (m & w' & Hm & Hr & Hs & Hsp); rewrite ?Hlen; [lia|done|].
  exists m, w', (map (worker_thread b) (new_worker_runtimes (fb_pool_size b))).
  split; [done|]. split; [eapply runs_bind; [apply (runs_act _ _ _ _ tt _ _ eq_refl); apply runs_ret|exact Hr]|].
  split; [|split; [exact Hsp|split; [done|]]].
  - unfold part. rewrite Hs, get_set, Hlen. f_equal. lia.
  - split; [rewrite length_map; lia|]. rewrite map_map. apply runtimes_names_distinct.
Qed.

Lemma runs_new_refused b t w :
  0 < fb_pool_size b < USIZE_MOD -> head (w_oracle w) = Some false ->
  exists m w', mon_owner m = None /\
    runs t (new_with_builder self b) w (Returned (Err (SpawnWorker (Some 0))) w') /\
    part self w' = abandoned b m /\ w_spawned w' = w_spawned w.
Proof.
  intros Hsize Hor. set (w0 := with_part self (starting b mon_new 0) w).
  assert (Hw0 : part self w0 = starting b mon_new 0) by (unfold w0; by rewrite part_with).
  unfold new_with_builder. set (rts := new_worker_runtimes (fb_pool_size b)).
  assert (exists rest, rts = MkFixedWorkerRuntime 0 :: rest) as [rest Hrts].
  { unfold rts, new_worker_runtimes. destruct (Z.to_nat (fb_pool_size b)) eqn:?; [lia|]. by eexists. }
  rewrite Hrts. destruct (runs_reserve_worker b t w0 _ _ Hw0 mon_new_free) as (m1 & Hm1 & Hr1); [done|].
  set (w1 := World (set self (starting b m1 1) (w_state w)) (oracle_next (w_oracle w)).2 (w_spawned w)).
  destruct (runs_failed_start b t w1 m1) as (m & Hm & Hr); [unfold part, w1; cbn; by rewrite get_set|done|].
  exists m, (with_part self (abandoned b m) w1). split; [done|]. split; [|by rewrite part_with].
  eapply runs_bind; [apply (runs_act _ _ _ _ tt _ _ eq_refl); apply runs_ret|].
  cbn [start_workers]. eapply runs_bind; [exact Hr1|]. unfold thread_spawn, choose. cbn [bind].
  unfold w0. rewrite (with_part_twice self). unfold with_part. apply runs_choose.
  replace (oracle_next (w_oracle w)).1 with false.
  2:{ destruct (w_oracle w) as [|o orc]; cbn in *; congruence. }
  cbn [bind]. rewrite <- bind_assoc. eapply runs_bind; [exact Hr|]. cbn [join_started_workers bind].
  apply runs_ret.
Qed.

(** An abandoned pool counts as terminated. *)
Lemma runs_abandoned_terminated b t w m :
  part self w = abandoned b m -> runs t (fixed_is_terminated_locked self) w (Returned true w).
Proof.
  intros Hp.
  unfold fixed_is_terminated_locked, is_idle_locked, is_idle, inflight_count, gate_inflight_count, running_count, locked, mon, acc.
  repeat first
    [ match goal with |- runs _ (if ?c then _ else _) _ _ => change c with false; cbn beta iota end
    | seq_step; part_norm; rewrite ?Hp ].
Qed.
End build.

(** C28. Building a fixed pool, run alone. A configuration that breaks a rule is
    refused with the error of the first rule it breaks and nothing is created. A
    valid one, when every thread can be started, yields a running, empty pool with
    exactly [pool_size] live workers: one thread per index, all with different
    names made of the prefix and the index. When the first thread cannot be
    started the build fails with the index, and what it leaves is a closed pool
    without workers that counts as terminated. *)
Theorem fixed_build_alone {S M Q} `{Monitor M} `{Injector Q PoolJob} `{UserCode S} `{Arguments}
    (HM : MonitorLaws M) (HA : ArgumentsLaws) (self : lens S (FixedThreadPoolInner M Q)) (HL : LensLaws self)
    (t : nat) (b : FixedThreadPoolBuilder) (w : world S) (Hsize : in_usize (fb_pool_size b)) :
  match fixed_first_error b with
  | Some e => runs t (build self b) w (Returned (Err e) w)
  | None =>
      (Forall (eq true) (take (Z.to_nat (fb_pool_size b)) (w_oracle w)) ->
       exists m w' new, mon_owner m = None /\ runs t (build self b) w (Returned (Ok tt) w') /\
         part self w' = starting b m (fb_pool_size b) /\ w_spawned w' = w_spawned w ++ new /\
         new = map (worker_thread self b) (new_worker_runtimes (fb_pool_size b)) /\
         Z.of_nat (length new) = fb_pool_size b /\ NoDup (map (fun th => th.1.1) new)) /\
      (head (w_oracle w) = Some false ->
       exists m w', mon_owner m = None /\
         runs t (build self b) w (Returned (Err (SpawnWorker (Some 0))) w') /\
         part self w' = abandoned b m /\ w_spawned w' = w_spawned w /\
         runs t (fixed_is_terminated_locked self) w' (Returned true w'))
  end.
Proof.
  unfold build. rewrite fixed_validate_first_error.
  destruct (fixed_first_error b) as [e|] eqn:He; [apply runs_ret|].
  assert (Hpos : 0 < fb_pool_size b < USIZE_MOD).
  { unfold fixed_first_error in He. destruct (Z.ltb_spec 0 (fb_pool_size b)); [|discriminate].
    unfold in_usize in Hsize. lia. }
  split; intros Hor; [by apply runs_new_started|].
  destruct (runs_new_refused self b t w Hpos Hor) as (m & w' & Hm & Hr & Hp & Hsp).
  exists m, w'. do 4 (split; [done|]). by eapply runs_abandoned_terminated.
Qed.

(** Two workers, then a machine that refuses to start any thread. *)
Lemma fixed_build_alone_witness :
  let b := MkFixedThreadPoolBuilder 2 (Some 3) "w" None thread_pool_hooks_new in
  let w orc := World (MkCState (fixed_with_hooks 7 None thread_pool_hooks_new) []) orc [] :
    world (CState (FixedThreadPoolInner CMon (list PoolJob))) in
  let new := @build _ _ _ _ _ log_user cs_pool_l _ b in
  in_usize (fb_pool_size b) /\
  (exists w', runs 0 new (w [true; true]) (Returned (Ok tt) w') /\
    map (fun th => th.1.1) (w_spawned w') = ["w-0"%string; "w-1"%string]) /\
  (exists w', runs 0 new (w [false]) (Returned (Err (SpawnWorker (Some 0))) w') /\ w_spawned w' = []).
Proof.
  intros b w new. assert (Hsize : in_usize (fb_pool_size b)) by (split; [discriminate|reflexivity]).
  split; [exact Hsize|]. split.
  - destruct (fixed_build_alone (H1 := log_user) _ _ cs_pool_l _ 0 b (w [true; true]) Hsize) as [Hok _].
    destruct Hok as (m & w' & th & _ & Hr & _ & Hsp & -> & _).
    { cbn. by repeat constructor. }
    exists w'. split; [exact Hr|]. rewrite Hsp. vm_compute. reflexivity.
  - destruct (fixed_build_alone (H1 := log_user) _ _ cs_pool_l _ 0 b (w [false]) Hsize) as [_ Hfail].
    destruct (Hfail eq_refl) as (m & w' & _ & Hr & _ & Hsp & _). exists w'. split; [exact Hr|exact Hsp].
Defined.
