(* ===== verification/FixedView.v ===== *)
(** What the sequential theorems observe of a fixed pool, and the rules for its
    queue. *)
From S2P Require Import Prelude Prog Sync Seq SeqLogic AdmissionGate PoolAccounting.
From S2P Require Import AccountingRefine Types Hooks PoolJob JobLifecycle SeqPool SeqView FixedInner FixedLogic.
Local Open Scope Z_scope.
#[local] Arguments bind : simpl never.

#[export] Instance fixed_queue_l_laws {M Q} : LensLaws (@global_queue_l M Q).
Proof. solve_lens. Qed.

(** A thread that uses the queue alone is told to retry finitely often. *)
Class PatientInjector (Q J : Type) `{Injector Q J} : Type := {
  inj_patience : Q -> nat;
  inj_retry : forall b q q', inj_steal b q = (StealRetry, q') -> (inj_patience q' < inj_patience q)%nat;
}.

(** ** The abstract pool: its ledger, queue, locked data, stop flag and hooks *)
Record View : Type := MkView {
  v_ledger : Ledger;
  v_jobs : list PoolJob;
  v_state : FixedThreadPoolState;
  v_stop : bool;
  v_hooks : ThreadPoolHooks;
}.

(** A view with one part replaced. *)
Definition set_ledger (a : Ledger) (v : View) : View := MkView a (v_jobs v) (v_state v) (v_stop v) (v_hooks v).
Definition set_queue (a : Ledger) (jobs : list PoolJob) (v : View) : View :=
  MkView a jobs (v_state v) (v_stop v) (v_hooks v).
Definition set_state (st : FixedThreadPoolState) (v : View) : View :=
  MkView (v_ledger v) (v_jobs v) st (v_stop v) (v_hooks v).
Definition set_stop (b : bool) (v : View) : View :=
  MkView (v_ledger v) (v_jobs v) (v_state v) b (v_hooks v).
(** The queue is as long as the ledger's count of queued jobs. *)
Definition queue_counted (v : View) : Prop := led_queued (v_ledger v) = Z.of_nat (length (v_jobs v)).
Definition v_gate (v : View) : GateSpec := led_gate (v_ledger v).
Definition set_gate (g : GateSpec) (v : View) : View := set_ledger (led_set_gate (v_ledger v) g) v.

Section view.
Context {M Q : Type} `{Monitor M} `{Injector Q PoolJob}.
Implicit Types (v : View) (p : FixedThreadPoolInner M Q).

(** Nobody holds the monitor. *)
Record view_of v p : Prop := {
  va_counts : ledger_repr (v_ledger v) (accounting p);
  va_jobs : inj_jobs (global_queue p) = v_jobs v;
  va_free : mon_owner (mon_sync (state p)) = None;
  va_state : mon_data (state p) = v_state v;
  va_stop : stop_now p = v_stop v;
  va_hooks : hooks p = v_hooks v;
}.

#[export] Instance fixed_view : PoolView View (FixedThreadPoolInner M Q) M FixedThreadPoolState := {|
  pv_monitor := state_l;
  pv_accounting := accounting_l;
  pv_of := view_of;
  pv_state := v_state;
  pv_with_state := set_state;
  pv_ledger := v_ledger;
  pv_with_ledger := set_ledger;
  pv_fits _ _ := True;
|}.

#[export] Instance fixed_view_laws : PoolViewLaws View (FixedThreadPoolInner M Q) M FixedThreadPoolState.
Proof.
  split; try apply _; cbn; try done.
  - intros v p Hv. apply (va_free _ _ Hv).
  - intros v p Hv. apply (va_state _ _ Hv).
  - intros v p Hv. apply (va_counts _ _ Hv).
  - intros v p x [] Hx. by split.
  - intros v p st []. by split.
  - intros v p a x [] Hx Ha. split; cbn; first [done|congruence].
  - by intros [].
Qed.
End view.

(** The rules of [SeqView] for this view. *)
Abbreviation held := (SeqView.held (PoolView0 := fixed_view)) (only parsing).
Abbreviation pdoes_held := (SeqView.pdoes_held (PoolView0 := fixed_view)) (only parsing).
Abbreviation pdoes_lock := (SeqView.pdoes_lock (PoolView0 := fixed_view)) (only parsing).
Abbreviation pdoes_unlock := (SeqView.pdoes_unlock (PoolView0 := fixed_view)) (only parsing).
Abbreviation held_counts := (SeqView.held_counts (PoolView0 := fixed_view)) (only parsing).
Abbreviation pdoes_locked_load := (SeqView.pdoes_locked_load (PoolView0 := fixed_view)) (only parsing).
Abbreviation pdoes_locked_store := (SeqView.pdoes_locked_store (PoolView0 := fixed_view)) (only parsing).
Abbreviation pdoes_locked_incr := (SeqView.pdoes_locked_incr (PoolView0 := fixed_view)) (only parsing).
Abbreviation pdoes_locked_decr := (SeqView.pdoes_locked_decr (PoolView0 := fixed_view)) (only parsing).
Abbreviation pdoes_held_notify_all := (SeqView.pdoes_held_notify_all (PoolView0 := fixed_view)) (only parsing).
Abbreviation pdoes_notify := (SeqView.pdoes_notify (PoolView0 := fixed_view)) (only parsing).
Abbreviation pdoes_notify_when := (SeqView.pdoes_notify_when (PoolView0 := fixed_view)) (only parsing).
Abbreviation pdoes_ledger := (SeqView.pdoes_ledger (PoolView0 := fixed_view)) (only parsing).
Abbreviation pdoes_held_ledger := (SeqView.pdoes_held_ledger (PoolView0 := fixed_view)) (only parsing).
Abbreviation pdoes_held_idle := (SeqView.pdoes_held_idle (PoolView0 := fixed_view)) (only parsing).
Abbreviation pdoes_finish := (SeqView.pdoes_finish (PoolView0 := fixed_view)) (only parsing).
Abbreviation pdoes_try_enter := (SeqView.pdoes_try_enter (PoolView0 := fixed_view)) (only parsing).
Abbreviation pdoes_leave := (SeqView.pdoes_leave (PoolView0 := fixed_view)) (only parsing).
Abbreviation pdoes_is_open := (SeqView.pdoes_is_open (PoolView0 := fixed_view)) (only parsing).

Section queue.
Context {S M Q : Type} `{MonitorLaws M} `{InjectorLaws Q PoolJob}.
Context (self : lens S (FixedThreadPoolInner M Q)) (log : lens S (list Event)).
Context `{!LensLaws self, !LensLaws log, !Apart self log}.
Implicit Types (v : View) (t : nat).
Local Abbreviation Seen := (Seen S (FixedThreadPoolInner M Q)).
Implicit Types (s : Seen).

Lemma fdoes_hooks t v s (Post : ThreadPoolHooks -> Seen -> list Event -> Prop) :
  view_of v (seen_pool s) -> Post (v_hooks v) s [] -> pdoes self log t (get_hooks self) s Post.
Proof. intros Hv HP. apply (pdoes_read self log t hooks). by rewrite (va_hooks _ _ Hv). Qed.

(** *** The queue itself *)
Definition with_queue (q : Q) s : Seen := with_pool (set global_queue_l q (seen_pool s)) s.

Lemma pdoes_queue_push t job s (Post : unit -> Seen -> list Event -> Prop) :
  Post tt (with_queue (inj_push job (global_queue (seen_pool s))) s) [] ->
  pdoes self log t (queue_push self job) s Post.
Proof.
  intros HP. eapply pdoes_part; [apply _..| |exact HP]. intros w [Hw _]. eapply runs_act; [|apply runs_ret].
  unfold with_part, part in *. cbn. by rewrite Hw.
Qed.

Lemma pdoes_queue_steal t b s (Post : Steal PoolJob -> Seen -> list Event -> Prop) :
  (let r := inj_steal b (global_queue (seen_pool s)) in Post r.1 (with_queue r.2 s) []) ->
  pdoes self log t (queue_steal self b) s Post.
Proof.
  intros HP. eapply pdoes_part; [apply _..| |exact HP]. intros w [Hw _]. eapply runs_act; [|apply runs_ret].
  unfold with_part, part in *. cbn. by rewrite Hw.
Qed.

(** Stealing: the retries end, and the front job comes out. *)
Lemma pdoes_steal_one `{!PatientInjector Q PoolJob} t n : forall s (Post : option PoolJob -> Seen -> list Event -> Prop),
  (inj_patience (global_queue (seen_pool s)) < n)%nat ->
  (forall q', match inj_jobs (global_queue (seen_pool s)) with
     | [] => inj_jobs q' = [] -> Post None (with_queue q' s) []
     | job :: jobs => inj_jobs q' = jobs -> Post (Some job) (with_queue q' s) []
     end) ->
  pdoes self log t (steal_one self) s Post.
Proof.
  induction n as [|n IH]; intros s Post Hn HP; [lia|]. apply pdoes_loop, pdoes_bind, pdoes_bind.
  apply pdoes_choose. intros b. apply pdoes_bind. apply pdoes_queue_steal.
  pose proof (inj_steal_jobs b (global_queue (seen_pool s))) as Hl.
  destruct (inj_steal b (global_queue (seen_pool s))) as [r q'] eqn:Hst. cbn [fst snd].
  apply pdoes_ret. cbn [app]. destruct r as [job| |].
  - apply pdoes_ret. specialize (HP q'). rewrite Hl in HP. by apply HP.
  - apply pdoes_ret. destruct Hl as [Hl Hl']. specialize (HP q'). rewrite Hl in HP. by apply HP.
  - destruct Hl as [-> Hl]. apply IH.
    + cbn. pose proof (inj_retry _ _ _ Hst). lia.
    + intros q2. cbn. rewrite Hl. apply HP.
Qed.
End queue.
