(* ===== verification/FixedSubmit.v ===== *)
(** Submitting to a fixed pool, run alone: the result, the counters, the queue
    and the callbacks of every branch of [FixedThreadPoolInner::submit]. *)
From S2P Require Import Prelude Prog Sync Seq SeqLogic AdmissionGate PoolAccounting.
From S2P Require Import AccountingRefine Types Hooks PoolJob JobLifecycle SeqPool SeqView.
From S2P Require Import FixedInner FixedView Concrete.
Local Open Scope Z_scope.
#[local] Arguments bind : simpl never.

(** The counters have room for one more job: no machine word wraps. *)
Definition room (v : View) : Prop :=
  led_slots (v_ledger v) + 1 < USIZE_MOD /\ led_submitted (v_ledger v) + 1 < USIZE_MOD /\
  0 <= led_reserved (v_ledger v).

Section submit.
Context {S M Q : Type} `{MonitorLaws M} `{InjectorLaws Q PoolJob}.
Context (self : lens S (FixedThreadPoolInner M Q)) (log : lens S (list Event)).
Context `{!LensLaws self, !LensLaws log, !Apart self log} (panics : Event -> bool).
Implicit Types (v : View) (t : nat).
Definition submit_user : UserCode S := recording log panics.
#[local] Existing Instance submit_user.
Local Abbreviation Seen := (Seen S (FixedThreadPoolInner M Q)).
Implicit Types (s : Seen).

(** *** Publishing an accepted job *)
Lemma fdoes_wake t v s (Post : unit -> Seen -> list Event -> Prop) :
  view_of v (seen_pool s) ->
  (forall s', view_of v (seen_pool s') -> seen_threads s' = seen_threads s -> Post tt s' []) ->
  pdoes self log t (wake_one_idle_worker self) s Post.
Proof.
  intros Hv HP. unfold wake_one_idle_worker. apply pdoes_bind. apply pdoes_load. cbn [app].
  destruct (_ =? 0); [apply pdoes_ret; by apply HP|].
  apply pdoes_bind. apply pdoes_fetch_update; [apply _..|]. cbn.
  destruct (pending_worker_wakes (seen_pool s) <? idle_worker_count (seen_pool s)); cbn [is_ok].
  - eapply (pdoes_notify_when self log t v _ true); [destruct Hv; constructor; cbn; done|].
    intros s' Hv' Hs'. by apply HP.
  - apply pdoes_ret. by apply HP.
Qed.

Lemma pdoes_enqueue t v s job (Post : unit -> Seen -> list Event -> Prop) :
  view_of v (seen_pool s) -> led_submitted (v_ledger v) + 1 < USIZE_MOD -> 0 < led_reserved (v_ledger v) ->
  (forall s', view_of (set_queue (led_add (v_ledger v) (-1) 1 0 0 0 0) (v_jobs v ++ [job]) v) (seen_pool s') ->
     seen_threads s' = seen_threads s -> Post tt s' []) ->
  pdoes self log t (enqueue_job self job) s Post.
Proof.
  intros Hv Hs Hr HP. apply Z.ltb_lt in Hs, Hr. apply pdoes_bind.
  eapply (pdoes_ledger self log t LPublish _ (fun _ => ReplyUnit) tt);
    [reflexivity|by intros [] []|exact Hv|cbn; by rewrite Hr, Hs|done|].
  intros s1 Hv1 Hs1. apply pdoes_bind. apply (pdoes_queue_push self log). cbn [app].
  set (s2 := with_queue _ s1).
  assert (Hv2 : view_of (set_queue (led_add (v_ledger v) (-1) 1 0 0 0 0) (v_jobs v ++ [job]) v) (seen_pool s2)).
  { destruct Hv1 as [Hc Hj Hf Hst Hsp Hh]. split; cbn in *; try done. by rewrite inj_push_jobs, Hj. }
  eapply fdoes_wake; [exact Hv2|]. intros s3 Hv3 Hs3. apply HP; [exact Hv3|cbn in *; congruence].
Qed.

(** *** What [submit] answers, and what it does to the pool and to the job *)
Definition submit_result (a : Ledger) (j : JobSpec) : Result unit PoolJobSubmissionError :=
  if negb (spec_open (led_gate a)) then Err (Rejected Shutdown)
  else if saturated a then Err (Rejected Saturated)
  else if acceptance_fails panics j then Err AcceptancePanicked
  else Ok tt.

Definition submit_effect v (j : JobSpec) (r : Result unit PoolJobSubmissionError) (v' : View)
    (evs : list Event) : Prop :=
  match r with
  | Ok _ =>
      v' = set_queue (led_add (v_ledger v) 0 1 0 0 0 0) (v_jobs v ++ [(accepted_job panics j).2]) v /\
      evs = accept_events j
  | Err (Rejected _) => v' = v /\ discarded j evs
  | Err AcceptancePanicked =>
      v' = v /\ concat (map consumes evs) ≡ₚ pieces j /\
      filter (fun e => is_destructor e = false) evs = accept_events j
  end.

Definition submit_post v s (j : JobSpec) (r : Result unit PoolJobSubmissionError) s' (evs : list Event) : Prop :=
  r = submit_result (v_ledger v) j /\ seen_threads s' = seen_threads s /\
  exists v', submit_effect v j r v' evs /\ view_of v' (seen_pool s').

Lemma set_ledger_back v a : set_ledger (led_add (led_add (v_ledger v) 1 0 0 0 0 0) (-1) 0 0 0 0 0) (set_ledger a v) = v.
Proof. destruct v. unfold set_ledger. cbn. rewrite led_add_add, led_add_0. done. Qed.

Lemma fdoes_discard t s j (Post : unit -> Seen -> list Event -> Prop) :
  (forall evs, discarded j evs -> Post tt s evs) -> pdoes self log t (discard (new_job j)) s Post.
Proof.
  intros HP. destruct (discard_logs log panics j) as (evs & Hd & Hde).
  eapply (pdoes_user self log); [exact Hd|by apply HP].
Qed.

Lemma pdoes_submit_admitted t v s j :
  view_of v (seen_pool s) -> room v -> spec_open (v_gate v) = true ->
  pdoes self log t (submit_admitted self (new_job j)) s (submit_post v s j).
Proof.
  intros Hv (Hr1 & Hr2 & Hr3) Ho. unfold submit_post, submit_result, v_gate in *. rewrite Ho. cbn [negb].
  apply pdoes_bind.
  eapply (pdoes_ledger self log t LReserve _ ReplyBool);
    [reflexivity|by intros ? ? [=]|exact Hv|by apply led_step_reserve|done|].
  intros s1 Hv1 Hs1. cbn in Hv1. cbn [pv_ledger fixed_view]. destruct (saturated (v_ledger v)); cbn [negb app].
  { apply pdoes_bind. apply fdoes_discard. intros evs Hd. apply pdoes_ret. rewrite app_nil_r.
    split; [done|]. split; [done|]. exists v. split; [done|]. by destruct v. }
  apply pdoes_bind. eapply (pdoes_user self log); [apply accept_logs; apply _|]. rewrite accepted_job_result.
  set (v1 := set_ledger _ v) in Hv1. destruct (acceptance_fails panics j) eqn:Hacc.
  - assert (Hroll : led_step LRollback (v_ledger v1) = Answer ReplyUnit (led_add (v_ledger v1) (-1) 0 0 0 0 0)).
    { cbn. destruct (Z.ltb_spec 0 (led_reserved (v_ledger v) + 1)); [done|lia]. }
    apply pdoes_bind. eapply (pdoes_ledger self log t LRollback _ (fun _ => ReplyUnit) tt);
      [reflexivity|by intros [] []|exact Hv1|exact Hroll|done|]. intros s2 Hv2 Hs2.
    apply pdoes_bind. eapply (pdoes_notify self log); [exact Hv2|]. intros s3 Hv3 Hs3.
    destruct (discard_failed_logs log panics j Hacc) as (evs & Hd & Hc & Hf).
    apply pdoes_bind. eapply (pdoes_user self log); [exact Hd|]. apply pdoes_ret. cbn [app]. rewrite app_nil_r.
    split; [done|]. split; [congruence|]. exists v. split.
    + split; [done|]. split; [exact Hc|]. rewrite filter_app, Hf, app_nil_r. apply accept_events_visible.
    + replace v with (set_ledger (led_add (led_add (v_ledger v) 1 0 0 0 0 0) (-1) 0 0 0 0 0) v1) by apply set_ledger_back.
      exact Hv3.
  - apply pdoes_bind. eapply pdoes_enqueue; [exact Hv1|unfold led_submitted in *; cbn; lia|cbn; lia|].
    intros s2 Hv2 Hs2. apply pdoes_ret. cbn [app]. rewrite app_nil_r. split; [done|]. split; [congruence|].
    eexists. split; [done|]. cbn in Hv2. rewrite led_add_add in Hv2. exact Hv2.
Qed.

(** *** The gate around it *)
Lemma fdoes_guard_drop t v s b n (Post : unit -> Seen -> list Event -> Prop) :
  view_of v (seen_pool s) -> v_gate v = MkGateSpec b (n + 1) -> 0 <= n ->
  (forall s', view_of (set_gate (MkGateSpec b n) v) (seen_pool s') -> seen_threads s' = seen_threads s -> Post tt s' []) ->
  pdoes self log t (fixed_submit_guard_drop self) s Post.
Proof.
  intros Hv Hg Hn HP. apply pdoes_bind. eapply (pdoes_leave self log); [exact Hv|exact Hg|exact Hn|].
  intros last s1 Hv1 Hs1. cbn [app].
  assert (Hend : forall c, pdoes self log t (when c (notify_waiters_after_atomic_change self)) s1 Post).
  { intros c. eapply (pdoes_notify_when self log); [exact Hv1|]. intros s2 Hv2 Hs2. apply HP; [exact Hv2|congruence]. }
  destruct last; cbn [when]; [|apply pdoes_ret; by apply HP].
  unfold notify_submitter_departure. apply pdoes_bind. apply (pdoes_is_open self log). intros open.
  cbn [app]. apply pdoes_bind. destruct (negb open).
  - apply pdoes_ret. apply Hend.
  - unfold has_idle_waiters. apply pdoes_bind. apply pdoes_load. apply pdoes_ret. apply Hend.
Qed.

(** Leaving the gate after [submit] restores the count of submitters. *)
Lemma submit_effect_leave v n j r v' evs :
  v_gate v = MkGateSpec true n -> submit_effect (set_gate (MkGateSpec true (n + 1)) v) j r v' evs ->
  v_gate v' = MkGateSpec true (n + 1) /\ submit_effect v j r (set_gate (MkGateSpec true n) v') evs.
Proof.
  destruct v as [[g cap r0 q0 n0 c0 d0 x0] jobs st stop hk]. unfold v_gate. cbn. intros ->.
  destruct r as [[]|[e|]]; cbn; intros [-> He]; done.
Qed.

Lemma fdoes_submit t v s j :
  view_of v (seen_pool s) -> 0 <= spec_inflight (v_gate v) < COUNT_MASK -> room v ->
  pdoes self log t (fixed_submit self (new_job j)) s (submit_post v s j).
Proof.
  intros Hv Hn Hroom. unfold fixed_submit, begin_submit. apply pdoes_bind, pdoes_bind.
  eapply (pdoes_try_enter self log); [exact Hv|exact Hn|]. intros s1 Hs1. cbn [pv_ledger pv_with_ledger pv_of fixed_view].
  fold (v_gate v). destruct (spec_open (v_gate v)) eqn:Ho; intros Hv1; apply pdoes_ret; cbn [app].
  - assert (Hg : v_gate v = MkGateSpec true (spec_inflight (v_gate v))).
    { destruct (v_gate v). cbn in *. by subst. }
    apply pdoes_finally. eapply pdoes_mono; [apply (pdoes_submit_admitted t _ s1 j Hv1); [exact Hroom|done]|].
    intros r s2 evs (Hr & Hs2 & v2 & Heff & Hv2). destruct (submit_effect_leave _ _ _ _ _ _ Hg Heff) as [Hg2 Heff2].
    eapply fdoes_guard_drop; [exact Hv2|exact Hg2|lia|]. intros s3 Hv3 Hs3. rewrite app_nil_r.
    split; [|split; [congruence|by eexists]]. rewrite Hr. unfold submit_result, v_gate in *. cbn. by rewrite Ho.
  - apply pdoes_bind. apply fdoes_discard. intros evs Hd. apply pdoes_ret. rewrite app_nil_r.
    unfold submit_post, submit_result. fold (v_gate v). rewrite Ho. cbn.
    split; [done|]. split; [done|]. by exists v.
Qed.
End submit.

(** C27. [submit] on a fixed pool, run alone from any consistent state with room
    for one more job. A closed pool answers [Shutdown] and a full bounded queue
    [Saturated], before the acceptance callback is called; a panicking acceptance
    answers [AcceptancePanicked]; in these cases counters, queue and submitter
    count are as before and the job has lost each of its pieces exactly once.
    Otherwise the job is queued last, counted once as submitted, queued and
    holding a slot, and only its acceptance callback has run. *)
Theorem fixed_submit_alone {S M Q} `{Monitor M} `{Injector Q PoolJob}
    (HM : MonitorLaws M) (HQ : InjectorLaws Q PoolJob)
    (self : lens S (FixedThreadPoolInner M Q)) (log : lens S (list Event))
    (HL : LensLaws self) (HLl : LensLaws log) (HA : Apart self log)
    (panics : Event -> bool) (t : nat) (v : View) (j : JobSpec) (w : world S)
    (Hv : view_of v (part self w)) (Hn : 0 <= spec_inflight (v_gate v) < COUNT_MASK) (Hroom : room v) :
  exists w' v' evs,
    runs t (fixed_submit (H1 := recording log panics) self (new_job j)) w
      (Returned (submit_result panics (v_ledger v) j) w') /\
    view_of v' (part self w') /\ part log w' = part log w ++ evs /\ w_spawned w' = w_spawned w /\
    submit_effect panics v j (submit_result panics (v_ledger v) j) v' evs.
Proof.
  destruct (fdoes_submit self log panics t v (seen_of self w) j Hv Hn Hroom w)
    as (r & w' & s' & evs & Hr & [Hp Hs] & Hl & _ & -> & Hth & v' & Heff & Hv'); [by split|].
  rewrite <- Hp in Hv'. exists w', v', evs. split; [exact Hr|]. split; [exact Hv'|]. split; [exact Hl|].
  split; [rewrite Hs; exact Hth|exact Heff].
Qed.

(** A pool with room for one job, whose acceptance callbacks numbered 0 panic. *)
Definition submit_demo_pool : FixedThreadPoolInner CMon (list PoolJob) :=
  fixed_with_hooks 2 (Some 1) thread_pool_hooks_new.
Definition submit_demo_view : View :=
  MkView (ledger_empty (Some 1)) [] fixed_thread_pool_state_new false thread_pool_hooks_new.
Definition zero_panics (e : Event) : bool := match e with Called 0 => true | _ => false end.

Lemma fixed_submit_alone_witness :
  let w := World (submit_demo_pool, []) [false] [] in
  view_of submit_demo_view (part fst_l w) /\
  (exists w', runs 0 (fixed_submit (H1 := recording snd_l zero_panics) fst_l (with_accept 1 2 3)) w
      (Returned (Ok tt) w') /\ length (global_queue w'.(w_state).1) = 1%nat) /\
  (exists w', runs 0 (fixed_submit (H1 := recording snd_l zero_panics) fst_l (with_accept 0 2 3)) w
      (Returned (Err AcceptancePanicked) w') /\ global_queue w'.(w_state).1 = []).
Proof.
  intros w.
  assert (Hw : view_of submit_demo_view (part fst_l w)).
  { split; [|done..]. constructor; try done; vm_compute; repeat split; discriminate || reflexivity. }
  assert (Hn : 0 <= spec_inflight (v_gate submit_demo_view) < COUNT_MASK) by (vm_compute; split; [discriminate|reflexivity]).
  assert (Hr : room submit_demo_view) by (vm_compute; repeat split; discriminate || reflexivity).
  split; [exact Hw|]. split.
  - destruct (fixed_submit_alone _ _ fst_l snd_l _ _ _ zero_panics 0 _ (SpecCustom 1 2 3) w Hw Hn Hr)
      as (w' & v' & evs & Hrun & Hv & _ & _ & -> & _).
    exists w'. split; [exact Hrun|]. pose proof (va_jobs _ _ Hv) as Hj. unfold part in Hj. cbn in Hj. rewrite Hj. done.
  - destruct (fixed_submit_alone _ _ fst_l snd_l _ _ _ zero_panics 0 _ (SpecCustom 0 2 3) w Hw Hn Hr)
      as (w' & v' & evs & Hrun & Hv & _ & _ & -> & _).
    exists w'. split; [exact Hrun|]. pose proof (va_jobs _ _ Hv) as Hj. exact Hj.
Defined.
