(* ===== verification/FixedDrain.v ===== *)
(** A worker of a fixed pool that is shut down or stopped, run alone: it runs what
    is queued, oldest first, and ends. *)
From S2P Require Import Prelude Prog Sync Seq SeqLogic AdmissionGate PoolAccounting.
From S2P Require Import AccountingRefine Types Hooks PoolJob JobLifecycle SeqPool SeqView.
From S2P Require Import FixedInner FixedWorker FixedView Concrete.
Local Open Scope Z_scope.
#[local] Arguments bind : simpl never.

Section drain.
Context {S M Q : Type} `{MonitorLaws M} `{InjectorLaws Q PoolJob} `{!PatientInjector Q PoolJob}.
Context (self : lens S (FixedThreadPoolInner M Q)) (log : lens S (list Event)).
Context `{!LensLaws self, !LensLaws log, !Apart self log} (panics : Event -> bool).
Implicit Types (v : View) (t : nat) (i n : Z) (js : list JobSpec).
Definition drain_user : UserCode S := recording log panics.
#[local] Existing Instance drain_user.
Local Abbreviation Seen := (Seen S (FixedThreadPoolInner M Q)).
Implicit Types (s : Seen).

(** *** Serving one job *)
Lemma fdoes_serve t v s i j (Post : unit -> Seen -> list Event -> Prop) :
  view_of v (seen_pool s) -> (forall evs, served (v_hooks v) i j evs -> Post tt s evs) ->
  pdoes self log t
    (if has_task_hooks (v_hooks v)
     then hooks <- get_hooks self ;; run_with_task_hooks (accepted_job panics j).2 hooks i
     else run_without_hooks (accepted_job panics j).2) s Post.
Proof.
  intros Hv HP. destruct (run_logs log panics j) as (o & es & Hlog & Hex).
  assert (Hs : served (v_hooks v) i j
    (hook_events (hook_before_task (v_hooks v)) i ++ es ++ hook_events (hook_after_task (v_hooks v)) i)) by by exists es.
  assert (Hrun : forall (Post' : unit -> Seen -> list Event -> Prop), Post' tt s es ->
    pdoes self log t (run_without_hooks (accepted_job panics j).2) s Post').
  { intros Post' HP'. apply pdoes_bind. eapply (pdoes_user self log); [exact Hlog|].
    apply pdoes_ret. by rewrite app_nil_r. }
  destruct (has_task_hooks (v_hooks v)) eqn:Hh.
  - apply pdoes_bind. eapply (fdoes_hooks self log); [exact Hv|]. unfold run_with_task_hooks.
    apply pdoes_bind. eapply (pdoes_user self log); [apply hook_logs; apply _|].
    apply pdoes_bind. apply Hrun.
    eapply (pdoes_user self log); [apply hook_logs; apply _|]. by apply HP.
  - apply Hrun. apply HP. unfold has_task_hooks in Hh.
    apply orb_false_iff in Hh as [Hb Ha]. apply bool_decide_eq_false in Hb, Ha.
    destruct (hook_before_task (v_hooks v)); [by destruct Hb|].
    destruct (hook_after_task (v_hooks v)); [by destruct Ha|]. cbn in Hs. by rewrite app_nil_r in Hs.
Qed.

(** *** Taking a job *)
Definition queue_of js : list PoolJob := map (fun j => (accepted_job panics j).2) js.

Lemma pdoes_load_stop t v s (Post : bool -> Seen -> list Event -> Prop) :
  view_of v (seen_pool s) -> Post (v_stop v) s [] -> pdoes self log t (load (self ⊚ stop_now_l)) s Post.
Proof. intros Hv HP. apply (pdoes_load self log t stop_now_l). cbn. by rewrite (va_stop _ _ Hv). Qed.

Lemma pdoes_steal t v s (Post : option PoolJob -> Seen -> list Event -> Prop) :
  view_of v (seen_pool s) ->
  (forall s', seen_threads s' = seen_threads s ->
     match v_jobs v with
     | [] => view_of v (seen_pool s') -> Post None s' []
     | job :: jobs => view_of (set_queue (v_ledger v) jobs v) (seen_pool s') -> Post (Some job) s' []
     end) ->
  pdoes self log t (steal_one self) s Post.
Proof.
  intros Hv HP. eapply (pdoes_steal_one self log t); [apply Nat.lt_succ_diag_r|]. intros q'.
  specialize (HP (with_queue q' s) eq_refl). rewrite (va_jobs _ _ Hv).
  destruct Hv as [Hc Hj Hf Hst Hsp Hh]. destruct (v_jobs v) as [|job jobs] eqn:Hjobs; intros Hq; apply HP;
    split; cbn; congruence.
Qed.

Lemma pdoes_take_none t v s (Post : option PoolJob -> Seen -> list Event -> Prop) :
  view_of v (seen_pool s) -> v_stop v = true \/ v_jobs v = [] ->
  (forall s', view_of v (seen_pool s') -> seen_threads s' = seen_threads s -> Post None s' []) ->
  pdoes self log t (try_take_job self) s Post.
Proof.
  intros Hv He HP. apply pdoes_bind. eapply pdoes_load_stop; [exact Hv|]. destruct (v_stop v); [apply pdoes_ret; by apply HP|].
  destruct He as [|He]; [done|]. apply pdoes_bind. eapply pdoes_steal; [exact Hv|]. rewrite He. intros s1 Hs1 Hv1.
  apply pdoes_ret. by apply HP.
Qed.

Lemma pdoes_take_some t v s job jobs (Post : option PoolJob -> Seen -> list Event -> Prop) :
  view_of v (seen_pool s) -> v_stop v = false -> v_jobs v = job :: jobs -> 0 < led_queued (v_ledger v) ->
  (forall s', view_of (set_queue (led_add (v_ledger v) 0 (-1) 1 0 0 0) jobs v) (seen_pool s') ->
     seen_threads s' = seen_threads s -> Post (Some job) s' []) ->
  pdoes self log t (try_take_job self) s Post.
Proof.
  intros Hv Hst Hj Hpos HP. apply Z.ltb_lt in Hpos. apply pdoes_bind.
  eapply pdoes_load_stop; [exact Hv|]. rewrite Hst. apply pdoes_bind. eapply pdoes_steal; [exact Hv|].
  rewrite Hj. intros s1 Hs1 Hv1. cbn [app]. apply pdoes_bind. eapply pdoes_load_stop; [exact Hv1|]. cbn [v_stop set_queue].
  rewrite Hst. apply pdoes_bind. eapply (pdoes_ledger self log t LClaim _ (fun _ => ReplyUnit) tt);
    [reflexivity|by intros [] []|exact Hv1|cbn; by rewrite Hpos|done|].
  intros s2 Hv2 Hs2. apply pdoes_ret. cbn [app]. apply HP; [exact Hv2|congruence].
Qed.

(** *** Leaving *)
Definition winding_down v : Prop :=
  (fixed_lifecycle (v_state v) = Lifecycle.ShuttingDown /\ spec_inflight (v_gate v) = 0) \/
  fixed_lifecycle (v_state v) = Lifecycle.Stopping \/ fixed_lifecycle (v_state v) = Lifecycle.Terminated.

Lemma pdoes_wait_over t v s (Post : bool -> Seen -> list Event -> Prop) :
  view_of v (seen_pool s) -> winding_down v -> led_queued (v_ledger v) = 0 ->
  (forall s', view_of v (seen_pool s') -> seen_threads s' = seen_threads s -> Post false s' []) ->
  pdoes self log t (wait_for_fixed_pool_work self) s Post.
Proof.
  intros Hv Hw Hq HP. apply pdoes_bind. eapply (pdoes_lock self log); [exact Hv|]. intros s1 Hv1 Hs1.
  apply pdoes_loop, pdoes_bind. unfold wait_iteration. cbn [app].
  assert (Hleave : pdoes self log t (monitor_unlock (mon self) ;; Ret (inr false)) s1 (fun r s2 e1 =>
    pdoes self log t (match r with
      | inl x => Loop (wait_iteration self) x Ret
      | inr b => Ret b
      end) s2 (fun r' s3 e2 => Post r' s3 (e1 ++ e2)))).
  { apply pdoes_bind. eapply (pdoes_unlock self log); [exact Hv1|]. intros s2 Hv2 Hs2. apply pdoes_ret, pdoes_ret.
    apply HP; [exact Hv2|congruence]. }
  apply pdoes_bind. eapply (pdoes_locked_load self log); [exact Hv1|]. cbn [get fixed_lifecycle_l pv_state fixed_view app].
  destruct Hw as [[-> Hin]|[->| ->]]; [|exact Hleave..].
  pose proof (held_counts _ _ _ Hv1) as Hled. cbn in Hled.
  apply pdoes_bind. unfold fixed_queued_count, queued_count.
  apply (pdoes_load self log t (accounting_l ⊚ queued_task_count_l)).
  cbn [get lens_comp accounting_l queued_task_count_l app]. rewrite (lr_queued _ _ Hled), Hq. cbn [Z.ltb Z.compare].
  apply pdoes_bind. unfold fixed_inflight_count, inflight_count, gate_inflight_count.
  apply pdoes_bind. apply (pdoes_load self log t (accounting_l ⊚ admission_l ⊚ gate_state_l)). apply pdoes_ret.
  cbn [app get lens_comp accounting_l admission_l gate_state_l]. unfold v_gate in Hin.
  rewrite (gate_word_count _ _ (lr_gate _ _ Hled)), Hin. exact Hleave.
Qed.

(** The worker gone. *)
Definition v_exited v : View :=
  set_state (set fixed_live_workers_l (fixed_live_workers (v_state v) - 1) (v_state v)) v.

Lemma pdoes_worker_exited t v s i (Post : unit -> Seen -> list Event -> Prop) :
  view_of v (seen_pool s) -> 1 <= fixed_live_workers (v_state v) ->
  (forall s', view_of (v_exited v) (seen_pool s') -> seen_threads s' = seen_threads s -> Post tt s' []) ->
  pdoes self log t (worker_exited self i) s Post.
Proof.
  intros Hv Hl HP. apply (pdoes_held self log t _ v); [exact Hv|]. intros s1 Hv1 Hs1.
  apply pdoes_bind. eapply (pdoes_locked_decr self log); [exact Hv1|exact Hl|]. intros s2 Hv2 Hs2.
  apply pdoes_bind. eapply (pdoes_held_notify_all self log); [exact Hv2|]. intros s3 Hv3 Hs3. apply pdoes_ret.
  exists (v_exited v). split; [exact Hv3|]. intros s4 Hv4 Hs4. apply HP; [exact Hv4|cbn in *; congruence].
Qed.

(** *** The loop *)

(** [n] queued jobs were run. *)
Definition v_ran n v (jobs : list PoolJob) : View := set_queue (led_add (v_ledger v) 0 (- n) 0 0 n 0) jobs v.

Lemma fixed_ran_more n v (q1 q2 : list PoolJob) : v_ran n (v_ran 1 v q1) q2 = v_ran (n + 1) v q2.
Proof. unfold v_ran, set_queue. cbn. rewrite led_add_add. do 2 f_equal; lia. Qed.

Lemma v_ran_nothing v : v_jobs v = [] -> v_ran 0 v [] = v.
Proof. destruct v. unfold v_ran, set_queue. cbn. intros ->. by rewrite led_add_0. Qed.

Lemma fdoes_worker_loop t i js : forall v s (Post : unit -> Seen -> list Event -> Prop),
  view_of v (seen_pool s) -> winding_down v -> queue_counted v ->
  v_jobs v = queue_of js -> (v_stop v = true -> js = []) ->
  (forall s' evs, all_served (v_hooks v) i js evs ->
     view_of (v_ran (Z.of_nat (length js)) v []) (seen_pool s') -> seen_threads s' = seen_threads s ->
     Post tt s' evs) ->
  pdoes self log t (loop (worker_iteration self (has_task_hooks (v_hooks v)) i) tt) s Post.
Proof.
  induction js as [|j js IH]; intros v s Post Hv Hw Hc Hq Hstop HP; apply pdoes_loop, pdoes_bind;
    unfold worker_iteration; apply pdoes_bind; unfold queue_counted in Hc; rewrite Hq in Hc.
  - eapply pdoes_take_none; [exact Hv|by right|]. intros s1 Hv1 Hs1.
    apply pdoes_bind. eapply pdoes_wait_over; [exact Hv1|exact Hw|exact Hc|]. intros s2 Hv2 Hs2.
    apply pdoes_ret, pdoes_ret. cbn [app]. apply HP; [by exists []| |congruence].
    cbn [length]. by rewrite v_ran_nothing.
  - assert (Hst : v_stop v = false) by (destruct (v_stop v); [by specialize (Hstop eq_refl)|done]).
    unfold queue_of in Hc. cbn [map length] in Hc. rewrite length_map in Hc.
    eapply pdoes_take_some; [exact Hv|exact Hst|exact Hq|lia|]. cbn [fst snd]. intros s1 Hv1 Hs1.
    apply pdoes_bind. eapply (fdoes_serve t (set_queue _ _ v)); [exact Hv1|]. intros evs1 Hev1.
    apply pdoes_bind. pose proof (lr_nonneg _ _ (va_counts _ _ Hv)) as Hnn.
    eapply (pdoes_finish self log t LFinishRunning); [reflexivity|exact Hv1| |done|].
    { cbn. destruct (Z.ltb_spec 0 (led_running (v_ledger v) + 1)); [reflexivity|lia]. }
    intros s2 Hv2 Hs2. apply pdoes_ret. cbn [app]. rewrite app_nil_r.
    assert (Hv2' : view_of (v_ran 1 v (queue_of js)) (seen_pool s2)).
    { revert Hv2. unfold v_ran, set_queue, set_ledger. cbn. by rewrite led_add_add. }
    eapply (IH (v_ran 1 v (queue_of js))); [exact Hv2'|done| |done|cbn; by rewrite Hst|].
    { unfold queue_counted, queue_of. cbn. rewrite length_map. lia. }
    intros s3 evs3 (parts & Hparts & ->) Hv3 Hs3. rewrite fixed_ran_more in Hv3.
    apply HP; [|by replace (Z.of_nat (length (j :: js))) with (Z.of_nat (length js) + 1) by (cbn [length]; lia)|congruence].
    exists (evs1 :: parts). split; [by constructor|done].
Qed.

Lemma fdoes_worker_run t v s i js :
  view_of v (seen_pool s) -> winding_down v -> queue_counted v -> 1 <= fixed_live_workers (v_state v) ->
  v_jobs v = queue_of js -> (v_stop v = true -> js = []) ->
  pdoes self log t (fixed_worker_run self (MkFixedWorkerRuntime i)) s (fun _ s' evs => exists es,
    evs = hook_events (hook_before_worker_start (v_hooks v)) i ++ es ++ hook_events (hook_after_worker_stop (v_hooks v)) i /\
    all_served (v_hooks v) i js es /\ seen_threads s' = seen_threads s /\
    view_of (v_exited (v_ran (Z.of_nat (length js)) v [])) (seen_pool s')).
Proof.
  intros Hv Hw Hc Hl Hq Hstop. unfold fixed_worker_run. apply pdoes_bind. eapply (fdoes_hooks self log); [exact Hv|].
  apply pdoes_bind. eapply (pdoes_user self log); [apply hook_logs; apply _|]. cbn [app].
  apply pdoes_bind. eapply fdoes_worker_loop; [done..|]. intros s1 evs Hevs Hv1 Hs1.
  apply pdoes_bind. eapply (pdoes_user self log); [apply hook_logs; apply _|].
  eapply pdoes_worker_exited; [exact Hv1|exact Hl|]. intros s2 Hv2 Hs2. exists evs.
  rewrite app_nil_r. split; [done|]. split; [done|]. split; [congruence|exact Hv2].
Qed.

(** What [is_terminated] answers of a pool that is not running. *)
Lemma fdoes_is_terminated t v s (Post : bool -> Seen -> list Event -> Prop) :
  view_of v (seen_pool s) -> fixed_lifecycle (v_state v) <> Lifecycle.Running ->
  (forall s', view_of v (seen_pool s') -> seen_threads s' = seen_threads s ->
     Post ((fixed_live_workers (v_state v) =? 0) && led_idle (v_ledger v)) s' []) ->
  pdoes self log t (fixed_is_terminated self) s Post.
Proof.
  intros Hv Hr HP. apply (pdoes_held self log t _ v); [exact Hv|]. intros s1 Hv1 Hs1.
  assert (Hend : forall b s2, held t v s2 -> seen_threads s2 = seen_threads s1 ->
    b = (fixed_live_workers (v_state v) =? 0) && led_idle (v_ledger v) -> exists v2, held t v2 s2 /\
       forall s3, view_of v2 (seen_pool s3) -> seen_threads s3 = seen_threads s2 -> Post b s3 []).
  { intros b s2 Hv2 Hs2 ->. exists v. split; [exact Hv2|]. intros s3 Hv3 Hs3. apply HP; [exact Hv3|congruence]. }
  apply pdoes_bind. eapply (pdoes_locked_load self log); [exact Hv1|]. cbn [get fixed_lifecycle_l pv_state fixed_view].
  rewrite bool_decide_false by done. cbn [app].
  apply pdoes_bind. eapply (pdoes_locked_load self log); [exact Hv1|]. cbn [get fixed_live_workers_l pv_state fixed_view app].
  destruct (fixed_live_workers (v_state v) =? 0); cbn [negb]; [|apply pdoes_ret; by apply Hend].
  eapply (pdoes_held_idle self log); [exact Hv1|]. intros s2 Hv2 Hs2. by apply Hend.
Qed.
End drain.

(** C20. A worker of a fixed pool that is shut down with nobody inside admission, or
    stopped with its queue drained, run alone, ends: it calls its start hook, runs
    every queued job once, oldest first, between its task hooks and whatever any of
    them panics with, calls its stop hook, and leaves, for any number of queued
    jobs. It counts each job as completed and itself as gone, and changes nothing
    else. Afterwards the pool reports termination exactly when this was the last
    worker and no job, submitter or slot is left. The queue may answer Retry to a
    steal, finitely often. *)
Theorem fixed_worker_drains_and_ends {S M Q} `{Monitor M} `{Injector Q PoolJob} (HM : MonitorLaws M)
    (HQ : InjectorLaws Q PoolJob) (HP : PatientInjector Q PoolJob)
    (self : lens S (FixedThreadPoolInner M Q)) (log : lens S (list Event))
    (HL : LensLaws self) (HLl : LensLaws log) (HA : Apart self log)
    (panics : Event -> bool) (t : nat) (i : Z) (v : View) (js : list JobSpec) (w : world S)
    (Hv : view_of v (part self w)) (Hw : winding_down v) (Hc : queue_counted v)
    (Hlive : 1 <= fixed_live_workers (v_state v))
    (Hq : v_jobs v = queue_of panics js) (Hstop : v_stop v = true -> js = []) :
  let hooks := v_hooks v in let a := v_ledger v in
  exists w' evs,
    runs t (fixed_worker_run (H1 := recording log panics) self (MkFixedWorkerRuntime i)) w (Returned tt w') /\
    part log w' = part log w ++ hook_events (hook_before_worker_start hooks) i ++ evs
                  ++ hook_events (hook_after_worker_stop hooks) i /\
    all_served hooks i js evs /\ w_spawned w' = w_spawned w /\
    view_of (v_exited (v_ran (Z.of_nat (length js)) v [])) (part self w') /\
    exists w2, runs t (fixed_is_terminated self) w'
      (Returned ((fixed_live_workers (v_state v) =? 1) && (spec_inflight (v_gate v) =? 0) &&
         (led_reserved a =? 0) && (led_running a =? 0) && (led_cancelling a =? 0)) w2).
Proof.
  intros hooks a.
  destruct (fdoes_worker_run self log panics t v (seen_of self w) i js Hv Hw Hc Hlive Hq Hstop w)
    as ([] & w' & s' & evs & Hr & [Hp Hs] & Hl & _ & es & -> & Hes & Hsp & Hv'); [by split|].
  rewrite <- Hp in Hv'. exists w', es. split; [exact Hr|]. split; [exact Hl|]. split; [exact Hes|].
  split; [rewrite Hs; exact Hsp|]. split; [exact Hv'|].
  destruct (fdoes_is_terminated self log t _ (seen_of self w') (fun b _ _ => b = _) Hv'
    ltac:(cbn; destruct Hw as [[-> _]|[->| ->]]; done) ltac:(done) w')
    as (b & w2 & s2 & e2 & Hr2 & _ & _ & _ & ->); [by split|].
  exists w2. revert Hr2. unfold queue_counted in Hc. rewrite Hq in Hc. unfold queue_of in Hc. rewrite length_map in Hc.
  unfold led_idle, v_gate. cbn. rewrite Hc, !Z.add_0_r, Z.add_opp_diag_r.
  replace (fixed_live_workers (v_state v) - 1 =? 0) with (fixed_live_workers (v_state v) =? 1) by lia.
  cbn. fold a. by rewrite ?andb_true_r, ?andb_assoc.
Qed.

(** *** A queue that asks a contended thief to retry once *)
Record Grudging (J : Type) : Type := MkGrudging { asks : bool; kept : list J }.
Arguments MkGrudging {J}. Arguments asks {J}. Arguments kept {J}.

#[export] Instance grudging {J} : Injector (Grudging J) J := {
  inj_new := MkGrudging true [];
  inj_push j q := MkGrudging (asks q) (kept q ++ [j]);
  inj_steal contended q :=
    match kept q with
    | [] => (StealEmpty, q)
    | j :: js => if contended && asks q then (StealRetry, MkGrudging false (kept q))
                 else (StealSuccess j, MkGrudging true js)
    end;
  inj_jobs := kept;
}.

#[export] Instance grudging_laws {J} : InjectorLaws (Grudging J) J.
Proof. split; cbn; [done|done|]. by intros [] [[] [|j q]]. Qed.

#[export] Instance grudging_patient {J} : PatientInjector (Grudging J) J.
Proof.
  refine {| inj_patience q := if asks q then 1%nat else 0%nat |}.
  intros [] [[] [|j q]] q'; cbn; intros [=]; subst; cbn; lia.
Defined.

(** The last of three workers, shut down while two jobs wait, with all hooks set. *)
Definition drain_hooks : ThreadPoolHooks := MkThreadPoolHooks (Some 7%nat) (Some 8%nat) (Some 9%nat) None.
Definition drain_jobs : list JobSpec := [SpecCustom 1 2 3; SpecDetached 4].
Definition drain_panics (e : Event) : bool :=
  match e with Called 2 | HookCalled 9 _ | RunnableRan 4 => true | _ => false end.
Definition drain_pool : FixedThreadPoolInner CMon (Grudging PoolJob) :=
  MkFixedThreadPoolInner 3 (MkMonitor mon_new (MkFixedThreadPoolState Lifecycle.ShuttingDown 1 0))
    (MkPoolAccounting (MkAdmissionGate CLOSED) (Some 3) 2 2 0 0 2 0 0) false 0 0 0 0
    (MkGrudging true (queue_of drain_panics drain_jobs)) drain_hooks.
Definition drain_world : world (FixedThreadPoolInner CMon (Grudging PoolJob) * list Event) :=
  World (drain_pool, []) [] [].
Definition drain_view : View :=
  MkView (MkLedger (MkGateSpec false 0) (Some 3) 0 2 0 0 0 0) (queue_of drain_panics drain_jobs)
    (MkFixedThreadPoolState Lifecycle.ShuttingDown 1 0) false drain_hooks.

Lemma fixed_worker_drains_and_ends_witness :
  view_of drain_view (part fst_l drain_world) /\
  exists w' evs,
    runs 1 (fixed_worker_run (H1 := recording snd_l drain_panics) fst_l (MkFixedWorkerRuntime 2)) drain_world (Returned tt w') /\
    part snd_l w' = HookCalled 7 2 :: evs ++ [HookCalled 8 2] /\
    all_served drain_hooks 2 drain_jobs evs /\ completed_task_count (accounting (part fst_l w')) = 2 /\
    exists w2, runs 1 (fixed_is_terminated fst_l) w' (Returned true w2).
Proof.
  assert (Hv : view_of drain_view (part fst_l drain_world)) by by repeat split.
  split; [exact Hv|].
  destruct (fixed_worker_drains_and_ends _ _ _ fst_l snd_l _ _ _ drain_panics 1 2 drain_view drain_jobs drain_world Hv)
    as (w' & evs & Hr & Hl & Hs & _ & Hv' & Ht).
  - left. done.
  - reflexivity.
  - cbn. lia.
  - reflexivity.
  - discriminate.
  - exists w', evs. split; [exact Hr|]. split; [exact Hl|]. split; [exact Hs|]. split; [|exact Ht].
    rewrite (lr_completed _ _ (va_counts _ _ Hv')). reflexivity.
Defined.
