(* ===== verification/FixedStop.v ===== *)
(** Stopping a fixed pool, run alone: what [stop] reports, cancels and leaves. *)
From S2P Require Import Prelude Prog Sync Seq SeqLogic AdmissionGate PoolAccounting.
From S2P Require Import AccountingRefine Types Hooks PoolJob JobLifecycle SeqPool SeqView.
From S2P Require Import FixedInner FixedView FixedDrain Concrete.
Local Open Scope Z_scope.
#[local] Arguments bind : simpl never.

Section stop.
Context {S M Q : Type} `{MonitorLaws M} `{InjectorLaws Q PoolJob} `{!PatientInjector Q PoolJob}.
Context (self : lens S (FixedThreadPoolInner M Q)) (log : lens S (list Event)).
Context `{!LensLaws self, !LensLaws log, !Apart self log} (panics : Event -> bool).
Implicit Types (v : View) (t : nat) (n : Z) (js : list JobSpec).
Definition stop_user : UserCode S := recording log panics.
#[local] Existing Instance stop_user.
Local Abbreviation Seen := (Seen S (FixedThreadPoolInner M Q)).
Implicit Types (s : Seen).

(** *** The drain, the monitor being held *)
Lemma held_queue t v s q jobs :
  held t v s -> inj_jobs q = jobs -> held t (set_queue (v_ledger v) jobs v) (with_queue q s).
Proof.
  intros [Ho Hv] Hq. split; [exact Ho|]. intros y Hy. destruct (Hv y Hy). split; cbn in *; done.
Qed.

Lemma fdoes_drain t jobs : forall v s acc0 (Post : list PoolJob -> Seen -> list Event -> Prop),
  held t v s -> v_jobs v = jobs ->
  (forall s', held t (set_queue (v_ledger v) [] v) s' -> seen_threads s' = seen_threads s -> Post (acc0 ++ jobs) s' []) ->
  pdoes self log t (drain_global_queue self acc0) s Post.
Proof.
  induction jobs as [|job jobs IH]; intros v s acc0 Post Hv Hj HP; apply pdoes_loop, pdoes_bind, pdoes_bind;
    (eapply (pdoes_steal_one self log t); [apply Nat.lt_succ_diag_r|]; intros q;
     rewrite (va_jobs _ _ (proj2 Hv mon_new mon_new_free) : inj_jobs (global_queue (seen_pool s)) = _), Hj; intros Hq;
     apply pdoes_ret; cbn [app]).
  - apply pdoes_ret. rewrite app_nil_r in HP. apply HP; [by apply held_queue|done].
  - eapply (IH (set_queue (v_ledger v) jobs v)); [by apply held_queue|done|]. intros s1 Hv1 Hs1.
    rewrite <- app_assoc. apply HP; [exact Hv1|exact Hs1].
Qed.

(** Every drained job moves to the cancelling phase. *)
Lemma pdoes_begin_cancel t (jobs : list PoolJob) : forall v s (Post : unit -> Seen -> list Event -> Prop),
  held t v s -> Z.of_nat (length jobs) <= led_queued (v_ledger v) ->
  (forall s', held t (set_ledger (led_add (v_ledger v) 0 (- Z.of_nat (length jobs)) 0 (Z.of_nat (length jobs)) 0 0) v) s' ->
     seen_threads s' = seen_threads s -> Post tt s' []) ->
  pdoes self log t (for_each jobs (fun _ => fixed_begin_cancel_queued_job self)) s Post.
Proof.
  induction jobs as [|job jobs IH]; intros v s Post Hv Hn HP; cbn [for_each length] in *.
  - apply pdoes_ret. apply HP; [|done]. change (- Z.of_nat 0) with 0. rewrite led_add_0. by destruct v.
  - apply pdoes_bind. eapply (pdoes_held_ledger self log t LBeginCancel _ (fun _ => ReplyUnit) tt);
      [reflexivity|by intros [] []|exact Hv|cbn; destruct (Z.ltb_spec 0 (led_queued (v_ledger v))); [reflexivity|lia]|done|].
    intros s1 Hv1 Hs1. cbn [app]. eapply IH; [exact Hv1|cbn; lia|]. intros s2 Hv2 Hs2. apply HP; [|congruence].
    revert Hv2. cbn. unfold set_ledger. cbn. rewrite led_add_add.
    replace (-1 + - Z.of_nat (length jobs)) with (- Z.of_nat (Datatypes.S (length jobs))) by lia.
    by replace (1 + Z.of_nat (length jobs)) with (Z.of_nat (Datatypes.S (length jobs))) by lia.
Qed.

(** *** Under the monitor *)
Definition stopping (l : ExecutorServiceLifecycle) : ExecutorServiceLifecycle :=
  match l with Lifecycle.Terminated => Lifecycle.Terminated | _ => Lifecycle.Stopping end.
Definition v_stopping v : View := set_state (set fixed_lifecycle_l (stopping (fixed_lifecycle (v_state v))) (v_state v)) v.
Definition v_drained v : View :=
  let n := Z.of_nat (length (v_jobs v)) in set_queue (led_add (v_ledger v) 0 (- n) 0 n 0 0) [] (v_stopping v).

Lemma pdoes_stop_lifecycle t v s (Post : unit -> Seen -> list Event -> Prop) :
  held t v s ->
  (forall s', held t (v_stopping v) s' -> seen_threads s' = seen_threads s -> Post tt s' []) ->
  pdoes self log t (when (bool_decide (fixed_lifecycle (v_state v) = Lifecycle.Running \/
                                       fixed_lifecycle (v_state v) = Lifecycle.ShuttingDown))
    (store (locked self fixed_lifecycle_l) Lifecycle.Stopping)) s Post.
Proof.
  intros Hv HP. unfold v_stopping in HP.
  assert (Hset : set_state (set fixed_lifecycle_l (fixed_lifecycle (v_state v)) (v_state v)) v = v).
  { destruct v as [? ? []]. done. }
  destruct (fixed_lifecycle (v_state v)) eqn:Hlc; cbn [stopping] in HP.
  1,2: rewrite bool_decide_true by auto; cbn [when]; eapply (pdoes_locked_store self log); [exact Hv|exact HP].
  all: rewrite bool_decide_false by (intros [|]; congruence); rewrite Hset in HP; apply pdoes_ret; by apply HP.
Qed.

Lemma pdoes_no_submitters t v s (Post : unit -> Seen -> list Event -> Prop) :
  held t v s -> spec_inflight (v_gate v) = 0 -> Post tt s [] -> pdoes self log t (wait_for_submitters self) s Post.
Proof.
  intros Hv Hin HP. pose proof (held_counts _ _ _ Hv) as Hled. cbn in Hled.
  unfold wait_for_submitters, fixed_inflight_count, inflight_count, gate_inflight_count.
  apply pdoes_bind, pdoes_bind. apply (pdoes_load self log t (accounting_l ⊚ admission_l ⊚ gate_state_l)). apply pdoes_ret.
  cbn [app get lens_comp accounting_l admission_l gate_state_l]. unfold v_gate in Hin.
  rewrite (gate_word_count _ _ (lr_gate _ _ Hled)), Hin. by apply pdoes_ret.
Qed.

(** The counts the report is made of: nothing was cancelled by somebody else. *)
Lemma report_queued (b : bool) n c0 d0 : 0 <= n ->
  (if b then n + saturating_sub (saturating_sub (c0 + n) c0) n + saturating_sub d0 d0 else n) = n.
Proof. unfold saturating_sub. destruct b; lia. Qed.

Lemma fdoes_stop_locked t v s before (Post : list PoolJob * Z * Z -> Seen -> list Event -> Prop) :
  held t v s -> spec_inflight (v_gate v) = 0 -> queue_counted v ->
  cancelling_tasks before = led_cancelling (v_ledger v) -> cancelled_tasks before = led_cancelled (v_ledger v) ->
  (forall s', held t (v_drained v) s' -> seen_threads s' = seen_threads s ->
     Post (v_jobs v, Z.of_nat (length (v_jobs v)), led_running (v_ledger v)) s' []) ->
  pdoes self log t (stop_locked self before) s Post.
Proof.
  intros Hv Hin Hq Hb1 Hb2 HP. unfold stop_locked.
  apply pdoes_bind. eapply (pdoes_locked_load self log); [exact Hv|]. cbn [get fixed_lifecycle_l pv_state fixed_view app].
  apply pdoes_bind. eapply pdoes_stop_lifecycle; [exact Hv|]. intros s1 Hv1 Hs1.
  apply pdoes_bind. eapply pdoes_no_submitters; [exact Hv1|exact Hin|].
  pose proof (held_counts _ _ _ Hv1) as Hled. cbn in Hled.
  apply pdoes_bind. unfold fixed_running_count, running_count. apply (pdoes_load self log t (accounting_l ⊚ running_task_count_l)).
  cbn [app get lens_comp accounting_l running_task_count_l]. rewrite (lr_running _ _ Hled).
  apply pdoes_bind. eapply fdoes_drain; [exact Hv1|reflexivity|]. intros s2 Hv2 Hs2. cbn [app v_jobs v_stopping set_state].
  apply pdoes_bind. unfold queue_counted in Hq. eapply pdoes_begin_cancel; [exact Hv2|cbn; lia|]. intros s3 Hv3 Hs3. cbn [app].
  pose proof (lr_nonneg _ _ Hled) as Hnn. pose proof (lr_bound _ _ Hled) as Hbd. unfold led_slots in Hbd.
  apply pdoes_bind. eapply (pdoes_held_ledger self log t LSnapshot _ ReplySnapshot);
    [reflexivity|by intros ? ? [=]|exact Hv3|reflexivity|done|]. intros s4 Hv4 Hs4. cbn [app].
  cbn [cancelling_tasks cancelled_tasks led_snapshot led_add led_cancelling led_cancelled pv_ledger fixed_view
       set_ledger set_queue v_ledger v_stopping set_state].
  rewrite Hb1, Hb2, Z.add_0_r, report_queued by lia.
  apply pdoes_bind. unfold assert. cbn in Hbd. destruct (Z.ltb_spec (Z.of_nat (length (v_jobs v))) USIZE_MOD); [|lia].
  apply pdoes_ret. apply pdoes_bind. eapply (pdoes_held_notify_all self log); [exact Hv4|]. intros s5 Hv5 Hs5.
  apply pdoes_ret. cbn [app]. apply HP; [exact Hv5|congruence].
Qed.

(** *** The whole of [stop] *)
Definition v_closed v : View := set_gate (MkGateSpec false (spec_inflight (v_gate v))) v.

Lemma view_stop v (p : FixedThreadPoolInner M Q) b : view_of v p -> view_of (set_stop b v) (set stop_now_l b p).
Proof. intros Hv. destruct Hv. by split. Qed.

(** Cancelling the drained jobs, one after the other. *)
Lemma fdoes_cancel_all t js : forall v s (Post : unit -> Seen -> list Event -> Prop),
  view_of v (seen_pool s) -> Z.of_nat (length js) <= led_cancelling (v_ledger v) ->
  (forall s' evs, all_cancelled js evs -> seen_threads s' = seen_threads s ->
     view_of (set_ledger (led_add (v_ledger v) 0 0 0 (- Z.of_nat (length js)) 0 (Z.of_nat (length js))) v) (seen_pool s') ->
     Post tt s' evs) ->
  pdoes self log t
    (for_each (queue_of panics js) (fun job => job_cancel job ;; fixed_finish_cancelled_job self)) s Post.
Proof.
  induction js as [|j js IH]; intros v s Post Hv Hn HP; cbn [queue_of map for_each length] in *.
  - apply pdoes_ret. apply HP; [by exists []|done|]. change (- Z.of_nat 0) with 0. rewrite led_add_0. by destruct v.
  - destruct (cancel_logs log panics j) as (evs & Hlog & Hcan).
    apply pdoes_bind, pdoes_bind. eapply (pdoes_user self log); [exact Hlog|].
    unfold fixed_finish_cancelled_job. apply pdoes_bind.
    eapply (pdoes_ledger self log t LFinishCancelled _ (fun _ => ReplyUnit) tt);
      [reflexivity|by intros [] []|exact Hv|cbn; destruct (Z.ltb_spec 0 (led_cancelling (v_ledger v))); [reflexivity|lia]|done|].
    intros s1 Hv1 Hs1. eapply (pdoes_notify self log); [exact Hv1|]. intros s2 Hv2 Hs2. cbn [app].
    eapply IH; [exact Hv2|cbn; lia|]. intros s3 evs3 (parts & Hp & ->) Hs3 Hv3. rewrite !app_nil_r. apply HP.
    + exists (evs :: parts). split; [by constructor|done].
    + congruence.
    + revert Hv3. cbn. unfold set_ledger. cbn. rewrite led_add_add.
      replace (-1 + - Z.of_nat (length js)) with (- Z.of_nat (Datatypes.S (length js))) by lia.
      by replace (1 + Z.of_nat (length js)) with (Z.of_nat (Datatypes.S (length js))) by lia.
Qed.

(** What [stop] leaves: closed, empty, every queued job counted as cancelled. *)
Definition v_stopped v : View :=
  let n := Z.of_nat (length (v_jobs v)) in let v' := v_stopping (set_stop true (v_closed v)) in
  set_queue (led_add (v_ledger v') 0 (- n) 0 0 0 n) [] v'.

Lemma fdoes_stop t v s js :
  view_of v (seen_pool s) -> spec_inflight (v_gate v) = 0 -> queue_counted v -> v_jobs v = queue_of panics js ->
  pdoes self log t (fixed_stop self) s (fun r s' evs =>
    r = MkStopReport (Z.of_nat (length js)) (led_running (v_ledger v)) (Z.of_nat (length js)) /\
    all_cancelled js evs /\ seen_threads s' = seen_threads s /\ view_of (v_stopped v) (seen_pool s')).
Proof.
  intros Hv Hin Hq Hj. unfold fixed_stop.
  apply pdoes_bind. eapply (pdoes_ledger self log t LSnapshot _ ReplySnapshot);
    [reflexivity|by intros ? ? [=]|exact Hv|reflexivity|done|]. intros s1 Hv1 Hs1. cbn [app pv_ledger pv_with_ledger fixed_view] in *.
  replace (set_ledger (v_ledger v) v) with v in Hv1 by (by destruct v).
  apply pdoes_bind. eapply (pdoes_ledger self log t LClose _ (fun _ => ReplyUnit) tt (v_ledger (v_closed v)));
    [reflexivity|by intros [] []|exact Hv1|reflexivity|done|]. intros s2 Hv2 Hs2. cbn [app].
  change (view_of (v_closed v) (seen_pool s2)) in Hv2.
  apply pdoes_bind. apply (pdoes_store self log t stop_now_l). set (s3 := with_pool _ s2).
  pose proof (view_stop _ _ true Hv2 : view_of _ (seen_pool s3)) as Hv3. cbn [app].
  apply pdoes_bind. apply (pdoes_held self log t _ (set_stop true (v_closed v))); [exact Hv3|]. intros s4 Hv4 Hs4.
  eapply fdoes_stop_locked; [exact Hv4|exact Hin|exact Hq|reflexivity|reflexivity|]. intros s5 Hv5 Hs5.
  eexists. split; [exact Hv5|]. intros s6 Hv6 Hs6. cbn [app]. change (v_jobs (set_stop true (v_closed v))) with (v_jobs v).
  change (led_running (v_ledger (set_stop true (v_closed v)))) with (led_running (v_ledger v)). cbn beta iota.
  assert (Hlen : length (v_jobs v) = length js) by (rewrite Hj; unfold queue_of; by rewrite length_map).
  pose proof (lr_nonneg _ _ (va_counts _ _ Hv)) as (_ & _ & _ & Hnn & _).
  apply pdoes_bind. rewrite Hj at 1. eapply fdoes_cancel_all; [exact Hv6|cbn; lia|]. intros s7 evs Hevs Hs7 Hv7.
  apply pdoes_bind. eapply (pdoes_notify self log); [exact Hv7|]. intros s8 Hv8 Hs8. apply pdoes_ret.
  cbn [app]. rewrite !app_nil_r, Hlen. split; [done|]. split; [exact Hevs|].
  split; [cbn in *; congruence|]. revert Hv8. unfold v_drained, v_stopped, set_ledger. cbn. rewrite Hlen.
  unfold set_queue. cbn. rewrite led_add_add, !Z.add_0_l, Z.add_0_r, Z.add_opp_diag_r. done.
Qed.
End stop.

(** C24. [stop] on a fixed pool, run alone with nobody inside admission: it reports
    the number of queued jobs as queued and as cancelled and the number of running
    jobs, closes admission, sets the stop flag, moves a live pool to [Stopping],
    empties the queue, cancels every queued job exactly once, oldest first, by its
    own callbacks whatever they panic with, and counts each as cancelled. Running
    jobs and workers are left alone. A second [stop] reports an empty queue. *)
Theorem fixed_stop_alone {S M Q} `{Monitor M} `{Injector Q PoolJob} (HM : MonitorLaws M)
    (HQ : InjectorLaws Q PoolJob) (HP : PatientInjector Q PoolJob)
    (self : lens S (FixedThreadPoolInner M Q)) (log : lens S (list Event))
    (HL : LensLaws self) (HLl : LensLaws log) (HA : Apart self log)
    (panics : Event -> bool) (t : nat) (v : View) (js : list JobSpec) (w : world S)
    (Hv : view_of v (part self w)) (Hin : spec_inflight (v_gate v) = 0) (Hc : queue_counted v)
    (Hj : v_jobs v = queue_of panics js) :
  let n := Z.of_nat (length js) in let running := led_running (v_ledger v) in
  let stop := fixed_stop (H1 := recording log panics) self in
  exists w' evs, runs t stop w (Returned (MkStopReport n running n) w') /\
    view_of (v_stopped v) (part self w') /\
    part log w' = part log w ++ evs /\ all_cancelled js evs /\ w_spawned w' = w_spawned w /\
    exists w2, runs t stop w' (Returned (MkStopReport 0 running 0) w2) /\ part log w2 = part log w'.
Proof.
  intros n running stop.
  destruct (fdoes_stop self log panics t v (seen_of self w) js Hv Hin Hc Hj w)
    as (r & w' & s' & evs & Hr & [Hp Hsp] & Hl & _ & -> & Hevs & Hs & Hv'); [by split|].
  rewrite <- Hp in Hv'. exists w', evs. split; [exact Hr|]. split; [exact Hv'|]. split; [exact Hl|].
  split; [exact Hevs|]. split; [rewrite Hsp; exact Hs|].
  assert (Hc' : queue_counted (v_stopped v)) by (unfold queue_counted in *; cbn; lia).
  destruct (fdoes_stop self log panics t (v_stopped v) (seen_of self w') [] Hv' Hin Hc' eq_refl w')
    as (r2 & w2 & s2 & evs2 & Hr2 & _ & Hl2 & _ & -> & (parts & Hparts & ->) & _); [by split|].
  exists w2. inversion Hparts; subst. rewrite app_nil_r in Hl2. split; [|exact Hl2].
  cbn in Hr2. replace (led_running (v_ledger v) + 0) with (led_running (v_ledger v)) in Hr2 by lia. exact Hr2.
Qed.

(** A pool of two workers with one running job and two queued ones. *)
Definition busy_jobs : list JobSpec := [SpecCustom 1 2 3; SpecDetached 4].
Definition busy_panics (e : Event) : bool := match e with Called 3 => true | _ => false end.
Definition busy_pool : FixedThreadPoolInner CMon (Grudging PoolJob) :=
  MkFixedThreadPoolInner 2 (MkMonitor mon_new (MkFixedThreadPoolState Lifecycle.Running 2 0))
    (MkPoolAccounting (MkAdmissionGate 0) (Some 3) 2 2 1 0 3 0 0) false 0 0 0 0
    (MkGrudging true (queue_of busy_panics busy_jobs)) thread_pool_hooks_new.
Definition busy_world : world (FixedThreadPoolInner CMon (Grudging PoolJob) * list Event) := World (busy_pool, []) [] [].
Definition busy_view : View :=
  MkView (MkLedger (MkGateSpec true 0) (Some 3) 0 2 1 0 0 0) (queue_of busy_panics busy_jobs)
    (MkFixedThreadPoolState Lifecycle.Running 2 0) false thread_pool_hooks_new.

Lemma fixed_stop_alone_witness :
  view_of busy_view (part fst_l busy_world) /\
  exists w' evs, runs 0 (fixed_stop (H1 := recording snd_l busy_panics) fst_l) busy_world
      (Returned (MkStopReport 2 1 2) w') /\
    part snd_l w' = evs /\ all_cancelled busy_jobs evs /\
    kept (global_queue (part fst_l w')) = [] /\ cancelled_task_count (accounting (part fst_l w')) = 2.
Proof.
  assert (Hv : view_of busy_view (part fst_l busy_world)) by by repeat split.
  split; [exact Hv|].
  destruct (fixed_stop_alone _ _ _ fst_l snd_l _ _ _ busy_panics 0 busy_view busy_jobs busy_world Hv eq_refl eq_refl eq_refl)
    as (w' & evs & Hr & Hv' & Hl & Hc & _). exists w', evs. split; [exact Hr|]. split; [exact Hl|]. split; [exact Hc|].
  split; [exact (va_jobs _ _ Hv')|]. rewrite (lr_cancelled _ _ (va_counts _ _ Hv')). reflexivity.
Defined.
