(* ===== verification/FixedSpecs.v ===== *)
(** Specifications of the fixed pool's functions under the pool invariant:
    none panics, and each returns every contribution it takes. *)
From S2P Require Import Prelude Prog Conc Sync AdmissionGate PoolAccounting AccountingLogic.
From S2P Require Import AccountingSpecs Types Hooks PoolJob FixedInner FixedLogic FixedWorker.
From S2P Require Import UserSpecs.
Local Open Scope Z_scope.

Ltac solve_core :=
  unfold same_core, acc, mon, locked; cbn; rewrite ?get_set; cbn;
  split; [done|split; [done|intros []; cbn; by rewrite ?get_set]].

(** Applies a specification of the accounting to the pool's invariant. *)
Tactic Notation "client" uconstr(lem) :=
  eapply lem;
  try match goal with |- AcctClient _ _ _ _ _ _ => apply _ end;
  try match goal with |- LensLaws _ => apply _ end;
  try match goal with |- InjectorLaws _ _ => apply _ end.

(** The same for specifications that involve the application's callbacks. *)
Tactic Notation "user" uconstr(lem) :=
  client lem; try match goal with |- UserSafeB _ _ _ _ _ _ => eassumption end.

(** A thread that runs code of the application observes nothing. *)
Definition calm (g : ptok) : Prop := pt_acct g Late = 0%nat.

Section specs.
Context {S M Q : Type} `{Monitor M} `{Injector Q PoolJob} `{UserCode S}.
Context `{!InjectorLaws Q PoolJob}.
Variable self : lens S (FixedThreadPoolInner M Q).
Context `{!LensLaws self} (T : nat) (cap : option Z) (size : nat).
Context (Fin FinP : ptok -> Prop).
Local Abbreviation I := (pool_inv self T cap size).
Local Abbreviation WP := (WP I Fin FinP).
Local Abbreviation holds := (holds pt_acct_l).
Implicit Types (r : tok) (o : bool) (k : nat) (g : ptok).

Local Abbreviation UserSafe := (UserSafe I Fin FinP calm).

Lemma holds_late g0 r g : holds g0 r g -> r Late = 0%nat -> calm g.
Proof. intros [Hg _] Hr. unfold calm. by rewrite <- Hr, <- Hg. Qed.

(** An action on the application's own state. *)
Lemma quiet_private {A} (f : nat -> S -> option (A * S)) :
  (forall k s a s', f k s = Some (a, s') -> get self s' = get self s) ->
  quiet I Fin FinP calm (Act f Ret).
Proof.
  intros Hf k g _. apply WP_core. intros s. destruct (f k s) as [[a s']|] eqn:Hfs; [|done].
  specialize (Hf _ _ _ _ Hfs). split; [|by apply WP_ret].
  unfold same_core, acc. cbn. rewrite Hf. done.
Qed.

(** *** The monitor *)

Lemma WP_mon_try k f g (Q' : unit -> ptok -> Prop) E : Q' tt g -> WP k (mon_try (mon self) f) g Q' E.
Proof.
  intros HQ. unfold mon_try. apply WP_core. intros s.
  destruct (f k _); [|done]. split; [solve_core|by apply WP_ret].
Qed.

Lemma WP_mon_do k f g (Q' : unit -> ptok -> Prop) E : Q' tt g -> WP k (mon_do (mon self) f) g Q' E.
Proof. intros HQ. unfold mon_do. apply WP_core. intros s. split; [solve_core|by apply WP_ret]. Qed.

Lemma WP_mon_attempt k f g (Q' : bool -> ptok -> Prop) E :
  (forall b, Q' b g) -> WP k (mon_attempt (mon self) f) g Q' E.
Proof.
  intros HQ. unfold mon_attempt. apply WP_core. intros s.
  destruct (f k _); (split; [solve_core|apply WP_ret, HQ]).
Qed.

Lemma WP_wait k g (Q' : unit -> ptok -> Prop) E : Q' tt g -> WP k (wait (mon self)) g Q' E.
Proof. intros HQ. apply WP_bind, WP_mon_do. by apply WP_mon_try. Qed.

Lemma WP_with_lock k {B} (body : prog S B) g (Q' : B -> ptok -> Prop) E :
  WP k body g Q' E -> WP k (with_lock (mon self) body) g Q' E.
Proof.
  intros Hb. apply WP_bind, WP_mon_try, WP_finally. eapply WP_mono; [exact Hb|..].
  - intros. by apply WP_mon_do.
  - intros. by apply WP_mon_do.
Qed.

Lemma WP_holding k {B} (body : prog S B) g (Q' : B -> ptok -> Prop) E :
  WP k body g Q' E -> WP k (holding (mon self) body) g Q' E.
Proof.
  intros Hb. apply WP_on_unwind. eapply WP_mono; [exact Hb|done|]. intros. by apply WP_mon_do.
Qed.

Lemma WP_notify k g (Q' : unit -> ptok -> Prop) E : Q' tt g -> WP k (lock_notify_all (mon self)) g Q' E.
Proof. intros HQ. apply WP_bind, WP_mon_try, WP_bind, WP_mon_do, WP_mon_do, HQ. Qed.

(** Reads, and writes outside the counters. *)
Lemma WP_get k {B R} (f : S -> B) (kont : B -> prog S R) g Q' E :
  (forall b, WP k (kont b) g Q' E) -> WP k (Act (fun _ s => Some (f s, s)) kont) g Q' E.
Proof. intros Hk. apply WP_core. intros s. split; [|apply Hk]. by split; [|split]. Qed.

Lemma WP_get_field k {B} (l : lens S B) g (Q' : B -> ptok -> Prop) E :
  (forall b, Q' b g) -> WP k (load l) g Q' E.
Proof. intros HQ. apply WP_get. intros b. by apply WP_ret. Qed.

Lemma WP_store_stop k v g (Q' : unit -> ptok -> Prop) E :
  Q' tt g -> WP k (store (self ⊚ stop_now_l) v) g Q' E.
Proof. intros HQ. apply WP_core. intros s. split; [solve_core|by apply WP_ret]. Qed.

Lemma WP_store_lifecycle k v g (Q' : unit -> ptok -> Prop) E :
  Q' tt g -> WP k (store (locked self fixed_lifecycle_l) v) g Q' E.
Proof. intros HQ. apply WP_core. intros s. split; [solve_core|by apply WP_ret]. Qed.

Lemma WP_update_wakes k f g (Q' : Result Z Z -> ptok -> Prop) E :
  (forall v, Q' v g) -> WP k (fetch_update (self ⊚ pending_worker_wakes_l) f) g Q' E.
Proof.
  intros HQ. apply WP_core. intros s. destruct (f _).
  - split; [solve_core|by apply WP_ret].
  - split; [by split; [|split]|by apply WP_ret].
Qed.

(** *** Admission and the queue *)

Context `{HU : !UserSafe}.
Local Abbreviation idle_gain := (idle_gain pt_acct_l).

Lemma WP_wake_one k g (Q' : unit -> ptok -> Prop) E :
  Q' tt g -> WP k (wake_one_idle_worker self) g Q' E.
Proof.
  intros HQ. apply WP_bind, WP_get_field. intros n. destruct (n =? 0); [by apply WP_ret|].
  apply WP_bind, WP_update_wakes. intros v. apply WP_when; [done|by apply WP_notify].
Qed.

Lemma WP_enqueue k o job g0 g r (Q' : unit -> ptok -> Prop) E :
  holds g0 (tadd r (tk o Reserved)) g -> (forall g', holds g0 r g' -> Q' tt g') ->
  WP k (enqueue_job self job) g Q' E.
Proof.
  intros Hg HQ. apply WP_bind. client WP_publish; [exact Hg|]. intros g1 Hg1.
  apply WP_bind. client WP_push; [exact Hg1|]. intros g2 Hg2. apply WP_wake_one. by apply HQ.
Qed.

Lemma WP_submit_admitted k o job g0 g r (Q' : Result unit PoolJobSubmissionError -> ptok -> Prop) E :
  r Late = 0%nat -> holds g0 (tadd r (tk o Inside)) g ->
  (forall v g', holds g0 (tadd r (tk o Inside)) g' ->
     (standard job = true -> v <> Err AcceptancePanicked) -> Q' v g') ->
  WP k (submit_admitted self job) g Q' E.
Proof.
  intros Hr Hg HQ. pose proof (late_tadd r o Inside Hr) as HL.
  apply WP_bind. client WP_bounded_slot; [exact Hg|..]; cbn [negb]; intros g1 Hg1.
  2: { apply WP_bind. user WP_discard; [by eapply holds_late|]. apply WP_ret. by apply HQ. }
  apply WP_bind. user WP_job_accept; [eapply holds_late; [exact Hg1|by apply late_tadd]|].
  intros [[u|u] job'] Hstd; cbn [fst snd] in *.
  - apply WP_bind. eapply WP_enqueue; [exact Hg1|]. intros g2 Hg2. apply WP_ret. by apply HQ.
  - apply WP_bind. client WP_rollback_slot; [exact Hg1|]. intros g2 Hg2.
    apply WP_bind, WP_notify. apply WP_bind. user WP_discard; [by eapply holds_late|].
    apply WP_ret. apply HQ; [done|]. intros Hs. by specialize (Hstd Hs).
Qed.

Lemma WP_guard_drop k o g0 g r (Q' : unit -> ptok -> Prop) E :
  holds g0 (tadd r (tk o Inside)) g -> (forall g', holds g0 r g' -> Q' tt g') ->
  WP k (fixed_submit_guard_drop self) g Q' E.
Proof.
  intros Hg HQ. apply WP_bind. client WP_leave; [exact Hg|]. intros b g1 Hg1.
  apply WP_when; [by apply HQ|]. apply WP_bind. client WP_is_admission_open; [exact Hg1|].
  intros op g2 Hg2. apply WP_bind.
  assert (Hlast : forall c, WP k (when c (notify_waiters_after_atomic_change self)) g2 Q' E).
  { intros c. apply WP_when; [by apply HQ|]. apply WP_notify. by apply HQ. }
  destruct op; cbn [negb]; [|by apply WP_ret].
  apply WP_bind, WP_get_field. intros n. by apply WP_ret.
Qed.

Lemma WP_submit k job g0 g r (Q' : Result unit PoolJobSubmissionError -> ptok -> Prop) E :
  r Late = 0%nat -> holds g0 r g ->
  (forall v g', holds g0 r g' -> (standard job = true -> v <> Err AcceptancePanicked) -> Q' v g') ->
  WP k (fixed_submit self job) g Q' E.
Proof.
  intros Hr Hg HQ. unfold fixed_submit, begin_submit. rewrite bind_assoc. apply WP_bind.
  client WP_try_enter; [exact Hg|..]; cbn [bind].
  - intros o g1 Hg1. apply WP_finally. eapply WP_submit_admitted; [done|exact Hg1|].
    intros v g2 Hg2 Hv. eapply WP_guard_drop; [exact Hg2|]. intros g3 Hg3. by apply HQ.
  - intros g1 Hg1. apply WP_bind. user WP_discard; [by eapply holds_late|]. apply WP_ret. by apply HQ.
Qed.

(** Whoever knows admission closed is refused. *)
Lemma WP_submit_closed k job g0 g r (Q' : Result unit PoolJobSubmissionError -> ptok -> Prop) E :
  (1 <= r KnowClosed)%nat -> r Late = 0%nat -> holds g0 r g ->
  (forall g', holds g0 r g' -> Q' (Err (Rejected Shutdown)) g') ->
  WP k (fixed_submit self job) g Q' E.
Proof.
  intros Hc Hr Hg HQ. unfold fixed_submit, begin_submit. rewrite bind_assoc. apply WP_bind.
  client WP_try_enter_closed; [exact Hc|exact Hg|]. intros g1 Hg1. cbn [bind].
  apply WP_bind. user WP_discard; [by eapply holds_late|]. apply WP_ret. by apply HQ.
Qed.

Lemma WP_steal_one k g0 g r (Q' : option PoolJob -> ptok -> Prop) E :
  holds g0 r g ->
  (forall job o g', holds g0 (tadd r (tk o Waiting)) g' -> Q' (Some job) g') ->
  (forall g', holds g0 r g' -> Q' None g') ->
  WP k (steal_one self) g Q' E.
Proof.
  intros Hg HQs HQn. unfold steal_one, loop.
  apply (WP_loop _ _ _ _ _ _ _ _ (fun _ g => holds g0 r g)); [|done].
  intros _ g1 Hg1. unfold choose. cbn [bind]. apply WP_choose. intros b. apply WP_bind.
  client WP_queue_steal; [exact Hg1|..].
  - intros job o g2 Hg2. apply WP_ret, WP_ret. by eapply HQs.
  - intros g2 Hg2. apply WP_ret, WP_ret. by apply HQn.
  - intros g2 Hg2. by apply WP_ret.
Qed.

Lemma WP_finish_cancelled_job k o g0 g r (Q' : unit -> ptok -> Prop) E :
  holds g0 (tadd r (tk o Cancelling)) g -> (forall g', holds g0 r g' -> Q' tt g') ->
  WP k (fixed_finish_cancelled_job self) g Q' E.
Proof.
  intros Hg HQ. apply WP_bind. client WP_finish_cancelled; [exact Hg|]. intros g1 Hg1.
  apply WP_notify. by apply HQ.
Qed.

Lemma WP_try_take_job k g0 g r (Q' : option PoolJob -> ptok -> Prop) E :
  r Late = 0%nat -> holds g0 r g ->
  (forall job o g', holds g0 (tadd r (tk o Running)) g' -> Q' (Some job) g') ->
  (forall g', holds g0 r g' -> Q' None g') ->
  WP k (try_take_job self) g Q' E.
Proof.
  intros Hr Hg HQs HQn. apply WP_bind, WP_get_field. intros [].
  { apply WP_ret. by apply HQn. }
  apply WP_bind. eapply WP_steal_one; [exact Hg|..]; [|intros g1 Hg1; apply WP_ret; by apply HQn].
  intros job o g1 Hg1. apply WP_bind, WP_get_field. intros [].
  - apply WP_bind, WP_bind. client WP_begin_cancel; [exact Hg1|]. intros g2 Hg2.
    apply WP_bind. user WP_job_cancel; [eapply holds_late; [exact Hg2|by apply late_tadd]|].
    eapply WP_finish_cancelled_job; [exact Hg2|]. intros g3 Hg3. apply WP_ret. by apply HQn.
  - apply WP_bind. client WP_claim; [exact Hg1|]. intros g2 Hg2. apply WP_ret. by eapply HQs.
Qed.

Lemma WP_finish_running_job k o g0 g r (Q' : unit -> ptok -> Prop) E :
  r Late = 0%nat -> holds g0 (tadd r (tk o Running)) g -> (forall g', holds g0 r g' -> Q' tt g') ->
  WP k (fixed_finish_running_job self) g Q' E.
Proof.
  intros Hr Hg HQ. apply WP_bind. client WP_finish_running; [exact Hg|]. intros g1 Hg1.
  apply WP_bind. client WP_is_idle0; [done|exact Hg1|]. intros b g2 Hg2.
  apply WP_when; [by apply HQ|]. apply WP_notify. by apply HQ.
Qed.
End specs.
