(* ===== verification/FixedOps.v ===== *)
(** Specifications of the fixed pool's worker loop, of its callers' methods and
    of its construction, under the pool invariant. *)
From S2P Require Import Prelude Prog Conc Sync AdmissionGate PoolAccounting AccountingLogic.
From S2P Require Import AccountingSpecs Types Hooks PoolJob FixedInner FixedLogic FixedWorker.
From S2P Require Import UserSpecs FixedSpecs Builder FixedPool.
Local Open Scope Z_scope.

Lemma dec_inc_ne c d g : c <> d -> dec c (inc d g) = inc d (dec c g).
Proof.
  intros Hne. unfold dec, inc. cbn. f_equal. apply FunctionalExtensionality.functional_extensionality.
  intros e. destruct (decide (e = c)), (decide (e = d)); subst; try lia. done.
Qed.

Section ops.
Context {S M Q : Type} `{Monitor M} `{Injector Q PoolJob} `{UserCode S}.
Context `{!InjectorLaws Q PoolJob}.
Variable self : lens S (FixedThreadPoolInner M Q).
Context `{!LensLaws self} (T : nat) (cap : option Z) (size : nat).
Context (Fin FinP : ptok -> Prop).
Local Abbreviation I := (pool_inv self T cap size).
Local Abbreviation WP := (WP I Fin FinP).
Local Abbreviation holds := (holds pt_acct_l).
Local Abbreviation idle_gain := (idle_gain pt_acct_l).
Context `{HU : !UserSafe I Fin FinP calm}.
Implicit Types (r : tok) (o : bool) (k : nat) (g : ptok).

(** *** Workers *)

Lemma WP_mark_idle k g0 g r (Q' : unit -> ptok -> Prop) E :
  holds g0 r g -> (forall g', holds (inc CIdleAtomic (inc CIdle g0)) r g' -> Q' tt g') ->
  WP k (mark_fixed_worker_idle self) g Q' E.
Proof.
  intros Hg HQ. apply WP_bind.
  change (locked self fixed_idle_workers_l) with (self ⊚ @counter_l M Q CIdle).
  client WP_guarded_incr_count; [done|exact Hg|]. intros g1 Hg1. apply WP_bind.
  change (self ⊚ idle_worker_count_l) with (self ⊚ @counter_l M Q CIdleAtomic).
  client WP_fetch_add_count; [done|exact Hg1|]. intros v g2 Hg2. apply WP_ret. by apply HQ.
Qed.

Lemma WP_unmark_idle k g0 g r (Q' : unit -> ptok -> Prop) E :
  holds (inc CIdleAtomic (inc CIdle g0)) r g -> (forall g', holds g0 r g' -> Q' tt g') ->
  WP k (unmark_fixed_worker_idle self) g Q' E.
Proof.
  intros Hg HQ. apply WP_bind.
  change (locked self fixed_idle_workers_l) with (self ⊚ @counter_l M Q CIdle).
  client WP_guarded_decr_count; [|exact Hg|];
    [cbn; rewrite (decide_True (P := CIdle = CIdle)) by done; lia|]. intros g1 Hg1.
  rewrite dec_inc_ne, dec_inc in Hg1 by done. apply WP_bind.
  change (self ⊚ idle_worker_count_l) with (self ⊚ @counter_l M Q CIdleAtomic).
  client WP_fetch_sub_count; [done|apply inc_has|exact Hg1|]. intros v g2 Hv Hg2.
  rewrite dec_inc in Hg2. apply Z.ltb_lt in Hv. rewrite Hv. cbn [assert bind].
  apply WP_bind. client WP_update_wakes. intros ?. apply WP_ret. by apply HQ.
Qed.

Lemma WP_inflight k g (Q' : Z -> ptok -> Prop) E : (forall n, Q' n g) -> WP k (fixed_inflight_count self) g Q' E.
Proof. intros HQ. apply WP_bind. client WP_get_field. intros. by apply WP_ret. Qed.

Lemma WP_queued k g (Q' : Z -> ptok -> Prop) E : (forall n, Q' n g) -> WP k (fixed_queued_count self) g Q' E.
Proof. intros HQ. by client WP_get_field. Qed.

Lemma WP_running k g (Q' : Z -> ptok -> Prop) E : (forall n, Q' n g) -> WP k (fixed_running_count self) g Q' E.
Proof. intros HQ. by client WP_get_field. Qed.

Lemma WP_open k g (Q' : bool -> ptok -> Prop) E : (forall n, Q' n g) -> WP k (fixed_is_admission_open self) g Q' E.
Proof. intros HQ. apply WP_bind. client WP_get_field. intros. by apply WP_ret. Qed.

Lemma WP_pending k g (Q' : bool -> ptok -> Prop) E : (forall b, Q' b g) -> WP k (has_pending_worker_wake self) g Q' E.
Proof. intros HQ. apply WP_bind. client WP_get_field. intros. by apply WP_ret. Qed.

Lemma WP_visible k (n : Z) g (Q' : bool -> ptok -> Prop) E : (forall b, Q' b g) ->
  WP k (if 0 <? n then Ret true else has_pending_worker_wake self) g Q' E.
Proof. intros HQ. destruct (0 <? n); [by apply WP_ret|by apply WP_pending]. Qed.

Lemma WP_spin k g (Q' : bool -> ptok -> Prop) E : (forall b, Q' b g) -> WP k (spin_for_fixed_pool_work self) g Q' E.
Proof.
  intros HQ. apply WP_bind. client WP_get. intros n. apply WP_ret. destruct (n <=? 4); [by apply WP_ret|].
  induction IDLE_SPIN_LIMIT as [|m IH]; cbn [spin_probes]; [by apply WP_ret|].
  apply WP_bind, WP_queued. intros q. apply WP_bind, WP_visible. intros []; [by apply WP_ret|].
  apply WP_bind, WP_open. intros []; cbn [negb]; [exact IH|by apply WP_ret].
Qed.

Lemma WP_park_running k g0 g r (Q' : bool -> ptok -> Prop) E :
  holds g0 r g -> (forall b g', holds g0 r g' -> Q' b g') -> WP k (park_running self) g Q' E.
Proof.
  intros Hg HQ. apply WP_bind. eapply WP_mark_idle; [exact Hg|]. intros g1 Hg1.
  apply WP_bind, WP_queued. intros q. apply WP_bind, WP_visible. intros [].
  - apply WP_bind. eapply WP_unmark_idle; [exact Hg1|]. intros g2 Hg2. apply WP_ret. by apply HQ.
  - apply WP_bind. client WP_wait.
    apply WP_bind. eapply WP_unmark_idle; [exact Hg1|]. intros g2 Hg2. apply WP_ret. by apply HQ.
Qed.

Lemma WP_park_shutting_down k g0 g r (Q' : unit -> ptok -> Prop) E :
  holds g0 r g -> (forall g', holds g0 r g' -> Q' tt g') -> WP k (park_shutting_down self) g Q' E.
Proof.
  intros Hg HQ. apply WP_bind. eapply WP_mark_idle; [exact Hg|]. intros g1 Hg1.
  assert (Hend : WP k (unmark_fixed_worker_idle self) g1 Q' E).
  { eapply WP_unmark_idle; [exact Hg1|]. intros g2 Hg2. by apply HQ. }
  apply WP_bind, WP_queued. intros q. apply WP_bind. destruct (q =? 0); [|by apply WP_ret].
  apply WP_bind, WP_inflight. intros n. client WP_when; [done|]. by client WP_wait.
Qed.

Lemma WP_wait_for_work k g0 g r (Q' : bool -> ptok -> Prop) E :
  holds g0 r g -> (forall b g', holds g0 r g' -> Q' b g') ->
  WP k (wait_for_fixed_pool_work self) g Q' E.
Proof.
  intros Hg HQ. apply WP_bind. client WP_mon_try. unfold loop.
  apply (WP_loop _ _ _ _ _ _ _ _ (fun _ g => holds g0 r g)); [|done].
  clear g Hg. intros [] g Hg. unfold wait_iteration.
  assert (Hout : forall b g, holds g0 r g ->
    WP k (monitor_unlock (mon self) ;; Ret (inr b : unit + bool)) g
      (fun x g' => match x with inl _ => holds g0 r g' | inr b => WP k (Ret b) g' Q' E end) E).
  { intros b g' Hg'. apply WP_bind. client WP_mon_do. apply WP_ret, WP_ret. by apply HQ. }
  apply WP_bind. client WP_get_field. intros [| | |]; try by apply Hout.
  - apply WP_bind, WP_queued. intros q. destruct (0 <? q); [by apply Hout|].
    apply WP_bind. client WP_mon_do. apply WP_bind, WP_spin. intros [].
    { apply WP_ret, WP_ret. by apply HQ. }
    apply WP_bind. client WP_mon_try. apply WP_bind. client WP_get_field. intros lc.
    destruct (negb _); [by apply WP_ret|]. apply WP_bind. client WP_holding.
    eapply WP_park_running; [exact Hg|]. intros [] g1 Hg1; [by apply Hout|by apply WP_ret].
  - apply WP_bind, WP_queued. intros q. destruct (0 <? q); [by apply Hout|].
    apply WP_bind, WP_inflight. intros n. destruct (n =? 0); [by apply Hout|].
    apply WP_bind. client WP_holding. eapply WP_park_shutting_down; [exact Hg|]. intros g1 Hg1.
    by apply WP_ret.
Qed.

Lemma WP_get_hooks k g (Q' : ThreadPoolHooks -> ptok -> Prop) E :
  (forall v, Q' v g) -> WP k (get_hooks self) g Q' E.
Proof. intros HQ. client WP_get. intros. by apply WP_ret. Qed.

Lemma WP_execute k (b : bool) job index g (Q' : unit -> ptok -> Prop) E :
  calm g -> Q' tt g ->
  WP k (if b then hooks <- get_hooks self ;; run_with_task_hooks job hooks index
        else run_without_hooks job) g Q' E.
Proof.
  intros HL HQ. destruct b; [|by user WP_contained_run].
  apply WP_bind, WP_get_hooks. intros hks. apply WP_bind. user WP_run_hook; [done|].
  apply WP_bind. user WP_contained_run; [done|]. by user WP_run_hook.
Qed.

(** A worker gives back its live slot when it ends. *)
Lemma WP_worker k runtime g0 g r (Q' : unit -> ptok -> Prop) E :
  r Late = 0%nat -> (1 <= pt_count g0 CLive)%nat -> holds g0 r g ->
  (forall g', holds (dec CLive g0) r g' -> Q' tt g') ->
  WP k (fixed_worker_run self runtime) g Q' E.
Proof.
  intros Hr Hl Hg HQ. apply WP_bind, WP_get_hooks. intros hks.
  apply WP_bind. user WP_run_hook; [by eapply holds_late|]. apply WP_bind. unfold loop.
  apply (WP_loop _ _ _ _ _ _ _ _ (fun _ g => holds g0 r g)); [|done].
  clear g Hg. intros [] g Hg. unfold worker_iteration. apply WP_bind.
  user WP_try_take_job; [done|exact Hg|..].
  - intros job o g1 Hg1. apply WP_bind.
    apply WP_execute; [eapply holds_late; [exact Hg1|by apply late_tadd]|].
    apply WP_bind. user WP_finish_running_job; [done|exact Hg1|]. intros g2 Hg2. by apply WP_ret.
  - intros g1 Hg1. apply WP_bind. eapply WP_wait_for_work; [exact Hg1|].
    intros [] g2 Hg2; [by apply WP_ret|]. apply WP_ret, WP_ret.
    apply WP_bind. user WP_run_hook; [by eapply holds_late|].
    unfold worker_exited, with_write_notify_all. client WP_with_lock. apply WP_bind.
    change (locked self fixed_live_workers_l) with (self ⊚ @counter_l M Q CLive).
    client WP_guarded_decr_count; [exact Hl|exact Hg2|]. intros g3 Hg3.
    apply WP_bind. client WP_mon_do. apply WP_ret. by apply HQ.
Qed.

(** *** Idle checks of callers *)

(** Termination and quiescence are reported only after an idle check. *)
Lemma WP_terminated_locked k g0 g r (Q' : bool -> ptok -> Prop) E :
  idle_gain g0 r false g -> (forall b g', idle_gain g0 r b g' -> Q' b g') ->
  WP k (fixed_is_terminated_locked self) g Q' E.
Proof.
  intros Hg HQ. apply WP_bind. client WP_get_field. intros lc.
  destruct (bool_decide _); [apply WP_ret; by apply HQ|].
  apply WP_bind. client WP_get_field. intros n. destruct (negb _); [apply WP_ret; by apply HQ|].
  by client WP_is_idle_seen.
Qed.

Lemma WP_wait_until_idle k g0 g r (Q' : unit -> ptok -> Prop) E :
  holds g0 r g -> (forall g', idle_gain g0 r true g' -> Q' tt g') ->
  WP k (fixed_wait_until_idle self) g Q' E.
Proof.
  intros Hg HQ. apply WP_bind.
  change (self ⊚ idle_waiter_count_l) with (self ⊚ @counter_l M Q CIdleWaiter).
  client WP_fetch_add_count; [done|exact Hg|]. intros _ g1 Hg1.
  client WP_with_lock. apply WP_bind. unfold loop.
  apply (WP_loop _ _ _ _ _ _ _ _ (fun _ => idle_gain (inc CIdleWaiter g0) r false));
    [|by apply idle_gain_start].
  clear g g1 Hg Hg1. intros [] g Hg. apply WP_bind. client WP_is_idle_seen; [exact Hg|].
  intros [] g1 Hg1.
  - apply WP_ret, WP_ret. destruct Hg1 as (e & Hg1 & He). apply WP_bind.
    client WP_fetch_sub_count; [done|apply inc_has|exact Hg1|]. intros v g2 Hv Hg2.
    rewrite dec_inc in Hg2. apply Z.ltb_lt in Hv. rewrite Hv. apply WP_ret, HQ. by exists e.
  - apply WP_bind. client WP_wait. by apply WP_ret.
Qed.

Lemma WP_wait_for_termination k g0 g r (Q' : unit -> ptok -> Prop) E :
  holds g0 r g -> (forall g', idle_gain g0 r true g' -> Q' tt g') ->
  WP k (fixed_wait_for_termination self) g Q' E.
Proof.
  intros Hg HQ. client WP_with_lock. unfold loop.
  apply (WP_loop _ _ _ _ _ _ _ _ (fun _ => idle_gain g0 r false)); [|by apply idle_gain_start].
  clear g Hg. intros [] g Hg. apply WP_bind. eapply WP_terminated_locked; [exact Hg|].
  intros [] g1 Hg1.
  - apply WP_ret, WP_ret. by apply HQ.
  - apply WP_bind. client WP_wait. apply WP_ret. done.
Qed.

Lemma WP_wait_for k g (Q' : Result bool unit -> ptok -> Prop) E :
  (forall v, Q' v g) -> WP k (wait_for (mon self)) g Q' E.
Proof.
  intros HQ. apply WP_bind. client WP_get. intros []; [|apply WP_ret, WP_ret, HQ].
  apply WP_ret, WP_bind. client WP_mon_do. unfold loop.
  apply (WP_loop _ _ _ _ _ _ _ _ (fun _ g' => g' = g)); [|done]. intros [] ? ->.
  apply WP_bind, WP_choose. intros notified. apply WP_ret, WP_bind. client WP_mon_attempt.
  intros []; apply WP_ret; [apply WP_ret, HQ|done].
Qed.

Lemma WP_is_terminated k g0 g r (Q' : bool -> ptok -> Prop) E :
  idle_gain g0 r false g -> (forall b g', idle_gain g0 r b g' -> Q' b g') ->
  WP k (fixed_is_terminated self) g Q' E.
Proof. intros Hg HQ. client WP_with_lock. by eapply WP_terminated_locked. Qed.

Lemma WP_wait_for_termination_timeout k timeout g0 g r (Q' : bool -> ptok -> Prop) E :
  holds g0 r g -> (forall b g', idle_gain g0 r b g' -> Q' b g') ->
  WP k (fixed_wait_for_termination_timeout self timeout) g Q' E.
Proof.
  intros Hg HQ. unfold fixed_wait_for_termination_timeout, loop.
  apply (WP_loop _ _ _ _ _ _ _ _ (fun _ => idle_gain g0 r false)); [|by apply idle_gain_start].
  clear g Hg. intros [] g Hg. apply WP_bind.
  apply (WP_mono _ _ _ _ _ _ (fun _ g' => g' = g) _ (fun _ => False)); [|intros over ? ->|done].
  { unfold time_is_over. destruct (timeout =? 0); [by apply WP_ret|]. apply WP_choose. intros. by apply WP_ret. }
  assert (Hpoll : forall g Q1 E1, idle_gain g0 r false g -> (forall b g', idle_gain g0 r b g' -> Q1 (inr b) g') ->
    WP k (terminated <- fixed_is_terminated self ;; Ret (inr terminated : unit + bool)) g Q1 E1).
  { intros g1 Q1 E1 Hg1 HQ1. apply WP_bind. eapply WP_is_terminated; [exact Hg1|].
    intros b g' Hg'. by apply WP_ret, HQ1. }
  destruct over; [apply Hpoll; [done|]; intros b g1 Hg1; by apply WP_ret, HQ|]. apply WP_bind. client WP_with_lock. unfold loop.
  apply (WP_loop _ _ _ _ _ _ _ _ (fun _ => idle_gain g0 r false)); [|done].
  clear g Hg. intros [] g Hg. apply WP_bind. eapply WP_terminated_locked; [exact Hg|].
  intros [] g1 Hg1.
  - apply WP_ret, WP_ret, WP_ret, WP_ret. by apply HQ.
  - apply WP_bind, WP_choose. intros []; apply WP_ret; [by apply WP_ret, WP_ret, WP_ret|].
    apply WP_bind, WP_wait_for. intros [b|]; apply WP_ret; [done|]. apply WP_ret, Hpoll; [done|].
    intros b g2 Hg2. by apply WP_ret, HQ.
Qed.

(** *** Shutdown and stop *)

Lemma WP_close k g (Q' : unit -> ptok -> Prop) E : Q' tt g -> WP k (close_admission (acc self)) g Q' E.
Proof.
  intros HQ. client WP_close_admission; [apply (holds_self pt_acct_l)|]. intros g' [Hg Hr].
  replace g' with g; [done|]. rewrite Hr. destruct g as [a n b]. cbn in *. f_equal.
  apply FunctionalExtensionality.functional_extensionality. intros i. symmetry. apply Hg.
Qed.

Lemma WP_shutdown k g (Q' : unit -> ptok -> Prop) E : Q' tt g -> WP k (fixed_shutdown self) g Q' E.
Proof.
  intros HQ. apply WP_bind, WP_close. client WP_with_lock. apply WP_bind. client WP_get_field.
  intros lc. apply WP_bind. client WP_when; [by client WP_mon_do|].
  client WP_store_lifecycle. by client WP_mon_do.
Qed.

Lemma WP_snapshot k g (Q' : PoolCounterSnapshot -> ptok -> Prop) E :
  (forall v, Q' v g) -> WP k (snapshot (acc self)) g Q' E.
Proof.
  intros HQ. apply WP_bind, WP_inflight. intros n1. apply WP_bind, WP_queued. intros n2.
  apply WP_bind, WP_running. intros n3.
  do 4 (apply WP_bind; client WP_get_field; intros ?). by apply WP_ret.
Qed.

Lemma WP_drain k g0 g r (Q' : list PoolJob -> ptok -> Prop) E :
  holds g0 r g ->
  (forall jobs os g', length os = length jobs -> holds g0 (tadd r (tks os Waiting)) g' -> Q' jobs g') ->
  WP k (drain_visible_queued_jobs self) g Q' E.
Proof.
  intros Hg HQ. unfold drain_visible_queued_jobs, drain_global_queue, loop.
  apply (WP_loop _ _ _ _ _ _ _ _ (fun jobs g => exists os, length os = length jobs /\
    holds g0 (tadd r (tks os Waiting)) g)); cycle 1.
  { exists []. split; [done|]. eapply holds_ext; [|exact Hg]. intros i. unfold tadd. rewrite ?tks_nil. lia. }
  clear g Hg. intros jobs g (os & Hlen & Hg). apply WP_bind. client WP_steal_one; [exact Hg|..].
  - intros job o g1 Hg1. apply WP_ret. exists (os ++ [o]). split; [by rewrite !length_app, Hlen|].
    by_tks Hg1.
  - intros g1 Hg1. apply WP_ret, WP_ret. by eapply HQ.
Qed.

Lemma WP_begin_cancels k (jobs : list PoolJob) os g0 g r (Q' : unit -> ptok -> Prop) E :
  length os = length jobs -> holds g0 (tadd r (tks os Waiting)) g ->
  (forall os' g', length os' = length jobs -> holds g0 (tadd r (tks os' Cancelling)) g' -> Q' tt g') ->
  WP k (for_each jobs (fun _ => fixed_begin_cancel_queued_job self)) g Q' E.
Proof.
  intros Hlen Hg HQ.
  apply (WP_for_each _ _ _ _ _ _ (fun js g => exists os1 os2, length os1 = length js /\
    (length os1 + length os2 = length jobs)%nat /\
    holds g0 (tadd (tadd r (tks os2 Cancelling)) (tks os1 Waiting)) g)).
  - intros j js g1 ([|o os1] & os2 & Hl & Hl2 & Hg1); [done|].
    client (WP_begin_cancel _ _ _ _ _ _ _ _ _ g0 g1 (tadd (tadd r (tks os2 Cancelling)) (tks os1 Waiting)) o);
      [by_tks Hg1|]. intros g2 Hg2. exists os1, (o :: os2). cbn in Hl, Hl2.
    split; [lia|]. split; [cbn; lia|]. by_tks Hg2.
  - intros g1 ([|] & os2 & Hl & Hl2 & Hg1); [|done]. apply (HQ os2); [done|].
    eapply holds_ext; [|exact Hg1]. intros i. unfold tadd. rewrite ?tks_nil. lia.
  - exists os, []. split; [done|]. split; [cbn; lia|]. eapply holds_ext; [|exact Hg].
    intros i. unfold tadd. rewrite ?tks_nil. lia.
Qed.

Lemma WP_cancels k (jobs : list PoolJob) os g0 g r (Q' : unit -> ptok -> Prop) E :
  r Late = 0%nat -> length os = length jobs -> holds g0 (tadd r (tks os Cancelling)) g ->
  (forall g', holds g0 r g' -> Q' tt g') ->
  WP k (for_each jobs (fun job => job_cancel job ;; fixed_finish_cancelled_job self)) g Q' E.
Proof.
  intros Hr Hlen Hg HQ.
  apply (WP_for_each _ _ _ _ _ _ (fun js g => exists os, length os = length js /\
    holds g0 (tadd r (tks os Cancelling)) g)); [..|by exists os].
  - intros j js g1 ([|o os1] & Hl & Hg1); [done|]. apply WP_bind. user WP_job_cancel.
    { eapply holds_late; [exact Hg1|]. unfold tadd. rewrite tks_late. lia. }
    client (WP_finish_cancelled_job _ _ _ _ _ _ _ o g0 g1 (tadd r (tks os1 Cancelling)));
      [by_tks Hg1|]. intros g2 Hg2. exists os1. by injection Hl.
  - intros g1 ([|] & Hl & Hg1); [|done]. apply HQ. eapply holds_ext; [|exact Hg1].
    intros i. unfold tadd. rewrite ?tks_nil. lia.
Qed.

(** A snapshot taken while holding jobs: its values are far from overflow. *)
Lemma WP_snapshot_bounds k g0 g r (Q' : PoolCounterSnapshot -> ptok -> Prop) E :
  holds g0 r g ->
  (forall v g', holds g0 r g' -> cancelling_tasks v < 2 ^ 62 -> cancelled_tasks v < 2 ^ 62 ->
     Z.of_nat (all r Cancelling) < 2 ^ 62 -> Q' v g') ->
  WP k (snapshot (acc self)) g Q' E.
Proof.
  intros Hg HQ. apply WP_bind, WP_inflight. intros n1. apply WP_bind, WP_queued. intros n2.
  apply WP_bind, WP_running. intros n3.
  apply WP_bind. unfold load. client WP_read; [exact Hg|]. intros h s t Ht Hi Hle g1 Hg1.
  assert (Hc : cancelling_task_count (get (acc self) s) < 2 ^ 62 /\ Z.of_nat (all r Cancelling) < 2 ^ 62).
  { rewrite (ai_cancelling _ _ _ _ _ _ _ Hi). pose proof (ai_time _ _ _ _ _ _ _ Hi).
    unfold in_time, STEP_BOUND in Ht. pose proof (all_split t).
    assert (all r Cancelling <= all t Cancelling)%nat.
    { unfold all. pose proof (Hle (New Cancelling)). pose proof (Hle (Old Cancelling)). lia. }
    lia. }
  destruct Hc as [Hc Hr]. cbn [get lens_comp cancelling_task_count_l].
  apply WP_ret, WP_bind. client WP_read; [exact Hg1|]. intros _ s1 _ _ _ _ g2 Hg2.
  apply WP_ret, WP_bind. client WP_read; [exact Hg2|]. intros _ s2 _ _ _ _ g3 Hg3.
  apply WP_ret, WP_bind. client WP_read; [exact Hg3|]. intros h4 s4 t4 Ht4 Hi4 _ g4 Hg4.
  assert (cancelled_task_count (get (acc self) s4) < 2 ^ 62).
  { pose proof (ai_time _ _ _ _ _ _ _ Hi4). pose proof (ai_conserve _ _ _ _ _ _ _ Hi4).
    pose proof (ai_nonneg _ _ _ _ _ _ _ Hi4). unfold in_time, STEP_BOUND in Ht4. lia. }
  apply WP_ret, WP_ret. by apply HQ.
Qed.

Lemma WP_wait_for_submitters k g0 g r (Q' : unit -> ptok -> Prop) E :
  holds g0 r g -> (forall g', holds g0 r g' -> Q' tt g') -> WP k (wait_for_submitters self) g Q' E.
Proof.
  intros Hg HQ. apply WP_bind, WP_inflight. intros n. client WP_when; [by apply HQ|].
  apply WP_bind. change (self ⊚ submit_waiter_count_l) with (self ⊚ @counter_l M Q CSubmitWaiter).
  client WP_fetch_add_count; [done|exact Hg|]. intros _ g1 Hg1. apply WP_bind. unfold loop.
  apply (WP_loop _ _ _ _ _ _ _ _ (fun _ => holds (inc CSubmitWaiter g0) r)); [|done].
  clear g g1 Hg Hg1. intros [] g Hg. apply WP_bind, WP_inflight. intros m. destruct (0 <? m).
  - apply WP_bind. client WP_wait. by apply WP_ret.
  - apply WP_ret, WP_ret, WP_bind. client WP_fetch_sub_count; [done|apply inc_has|exact Hg|].
    intros v g1 Hv Hg1. rewrite dec_inc in Hg1. apply Z.ltb_lt in Hv. rewrite Hv.
    apply WP_ret. by apply HQ.
Qed.

Lemma stop_count_bound (is_new : bool) drained c1 c2 b1 b2 :
  0 <= b1 -> 0 <= b2 -> 0 <= drained < 2 ^ 62 -> c1 < 2 ^ 62 -> c2 < 2 ^ 62 ->
  ((if is_new then drained + saturating_sub (saturating_sub c1 b1) drained + saturating_sub c2 b2
    else drained) <? USIZE_MOD) = true.
Proof.
  intros. apply Z.ltb_lt. change USIZE_MOD with (2 ^ 64). unfold saturating_sub. destruct is_new; lia.
Qed.

Lemma WP_stop_locked k before g0 g r (Q' : list PoolJob * Z * Z -> ptok -> Prop) E :
  0 <= cancelling_tasks before -> 0 <= cancelled_tasks before ->
  r Late = 0%nat -> holds g0 r g ->
  (forall jobs os n m g', length os = length jobs ->
     holds g0 (tadd r (tks os Cancelling)) g' -> Q' (jobs, n, m) g') ->
  WP k (stop_locked self before) g Q' E.
Proof.
  intros Hb1 Hb2 Hr Hg HQ. apply WP_bind. client WP_get_field. intros lc. cbn zeta.
  apply WP_bind. apply (WP_mono _ _ _ _ _ _ (fun _ => holds g0 r) _ E); [|intros [] g1 Hg1|done].
  { client WP_when; [done|]. by client WP_store_lifecycle. }
  apply WP_bind. eapply WP_wait_for_submitters; [exact Hg1|]. intros g2 Hg2.
  apply WP_bind, WP_running. intros running. apply WP_bind.
  eapply WP_drain; [exact Hg2|]. intros jobs os g3 Hl Hg3. cbn zeta.
  apply WP_bind. eapply WP_begin_cancels; [exact Hl|exact Hg3|]. intros os' g4 Hl' Hg4.
  apply WP_bind. eapply WP_snapshot_bounds; [exact Hg4|]. intros v g5 Hg5 Hv1 Hv2 Hv3.
  rewrite stop_count_bound; [|done|done| |done|done]; cycle 1.
  { rewrite <- Hl', <- tks_all. unfold all, tadd in *. lia. }
  cbn [assert bind]. apply WP_bind. client WP_mon_do. apply WP_ret. by eapply HQ.
Qed.

Lemma WP_snapshot_nonneg k g0 g r (Q' : PoolCounterSnapshot -> ptok -> Prop) E :
  holds g0 r g ->
  (forall v g', holds g0 r g' -> 0 <= cancelling_tasks v -> 0 <= cancelled_tasks v -> Q' v g') ->
  WP k (snapshot (acc self)) g Q' E.
Proof.
  intros Hg HQ. apply WP_bind, WP_inflight. intros n1. apply WP_bind, WP_queued. intros n2.
  apply WP_bind, WP_running. intros n3.
  apply WP_bind. unfold load. client WP_read; [exact Hg|]. intros h s t Ht Hi _ g1 Hg1.
  assert (0 <= cancelling_task_count (get (acc self) s)).
  { rewrite (ai_cancelling _ _ _ _ _ _ _ Hi). lia. }
  apply WP_ret, WP_bind. client WP_read; [exact Hg1|]. intros _ s1 _ _ _ _ g2 Hg2.
  apply WP_ret, WP_bind. client WP_read; [exact Hg2|]. intros _ s2 _ _ _ _ g3 Hg3.
  apply WP_ret, WP_bind. client WP_read; [exact Hg3|]. intros h4 s4 t4 Ht4 Hi4 _ g4 Hg4.
  apply WP_ret, WP_ret. apply HQ; [done|done|]. apply (ai_nonneg _ _ _ _ _ _ _ Hi4).
Qed.

Lemma WP_stop k g0 g r (Q' : StopReport -> ptok -> Prop) E :
  r Late = 0%nat -> holds g0 r g -> (forall v g', holds g0 r g' -> Q' v g') ->
  WP k (fixed_stop self) g Q' E.
Proof.
  intros Hr Hg HQ. apply WP_bind. eapply WP_snapshot_nonneg; [exact Hg|]. intros before g1 Hg1 Hb1 Hb2.
  apply WP_bind, WP_close, WP_bind. client WP_store_stop. apply WP_bind. client WP_with_lock.
  eapply WP_stop_locked; [done|done|done|exact Hg1|]. intros jobs os n m g2 Hl Hg2.
  apply WP_bind. eapply WP_cancels; [done|exact Hl|exact Hg2|]. intros g3 Hg3.
  apply WP_bind. client WP_notify. apply WP_ret. by apply HQ.
Qed.

(** *** Observers *)

Lemma WP_observed_lifecycle k g0 g r (Q' : ExecutorServiceLifecycle -> ptok -> Prop) E :
  idle_gain g0 r false g -> (forall v g', idle_gain g0 r false g' -> Q' v g') ->
  WP k (observed_lifecycle self) g Q' E.
Proof.
  intros Hg HQ. apply WP_bind. eapply WP_terminated_locked; [exact Hg|].
  intros b g1 Hg1%idle_gain_forget. destruct b; [apply WP_ret; by apply HQ|].
  client WP_get_field. intros v. by apply HQ.
Qed.

Lemma WP_stats k g0 g r (Q' : ThreadPoolStats -> ptok -> Prop) E :
  holds g0 r g -> (forall v g', idle_gain g0 r false g' -> Q' v g') ->
  WP k (fixed_stats self) g Q' E.
Proof.
  intros Hg HQ. apply WP_bind, WP_snapshot. intros c. client WP_with_lock.
  apply WP_bind. eapply WP_observed_lifecycle; [by apply idle_gain_start|]. intros lc g1 Hg1.
  apply WP_bind. client WP_get. intros n. apply WP_ret. apply WP_bind. client WP_get. intros cp. apply WP_ret.
  do 2 (apply WP_bind; client WP_get_field; intros ?).
  apply WP_bind. eapply WP_terminated_locked; [exact Hg1|]. intros tm g2 Hg2%idle_gain_forget.
  apply WP_ret. by apply HQ.
Qed.
End ops.
