(* ===== verification/FixedSafety.v ===== *)
(** The fixed pool as a whole under every interleaving: a thread that builds
    it, any number of clients calling its methods, and its workers. *)
From S2P Require Import Prelude Prog Conc Sync AdmissionGate PoolAccounting AccountingLogic.
From S2P Require Import AccountingSpecs Types Hooks PoolJob FixedInner FixedLogic FixedWorker.
From S2P Require Import UserSpecs FixedSpecs Builder FixedPool FixedOps.
Local Open Scope Z_scope.

(** Calls a client may make. *)
Inductive FixedOp : Type :=
| OpSubmit (task : nat)
| OpSubmitCallable (task completion handle : nat)
| OpSubmitTrackedCallable (task completion handle : nat)
| OpJoin | OpShutdown | OpDrop | OpStop | OpWaitTermination
| OpWaitTerminationTimeout (timeout : Z)
| OpLifecycle | OpIsNotRunning | OpIsTerminated | OpStats
| OpPoolSize | OpLiveWorkerCount | OpQueuedCount | OpRunningCount.

Section system.
Context {S M Q : Type} `{Monitor M} `{Injector Q PoolJob} `{UserCode S}.
Variable self : lens S (FixedThreadPoolInner M Q).

Definition fixed_op (op : FixedOp) : prog S unit :=
  match op with
  | OpSubmit task => submit self task ;; Ret tt
  | OpSubmitCallable t c h => submit_callable self t c h ;; Ret tt
  | OpSubmitTrackedCallable t c h => submit_tracked_callable self t c h ;; Ret tt
  | OpJoin => join self
  | OpShutdown => fixed_shutdown self
  | OpDrop => drop_pool self
  | OpStop => fixed_stop self ;; Ret tt
  | OpWaitTermination => fixed_wait_for_termination self
  | OpWaitTerminationTimeout d => fixed_wait_for_termination_timeout self d ;; Ret tt
  | OpLifecycle => fixed_lifecycle_of self ;; Ret tt
  | OpIsNotRunning => fixed_is_not_running self ;; Ret tt
  | OpIsTerminated => fixed_is_terminated self ;; Ret tt
  | OpStats => fixed_stats self ;; Ret tt
  | OpPoolSize => get_pool_size self ;; Ret tt
  | OpLiveWorkerCount => live_worker_count self ;; Ret tt
  | OpQueuedCount => fixed_queued_count self ;; Ret tt
  | OpRunningCount => fixed_running_count self ;; Ret tt
  end.

Definition fixed_client (ops : list FixedOp) : prog S unit := for_each ops fixed_op.

(** The thread in [new_with_builder], after [Arc::new]. *)
Definition fixed_builder_thread (b : FixedThreadPoolBuilder) : prog S unit :=
  start_workers self (fb_thread_name_prefix b) (fb_stack_size b)
    (new_worker_runtimes (fb_pool_size b)) [] ;; Ret tt.

Definition fixed_system (b : FixedThreadPoolBuilder) (clients : list (list FixedOp)) (s : S) : config S :=
  Config (fixed_builder_thread b :: map fixed_client clients) s.

(** The state [s] holds the pool the builder creates. *)
Definition fixed_initial (b : FixedThreadPoolBuilder) (s : S) : Prop :=
  get self s = fixed_with_hooks (fb_pool_size b) (fb_queue_capacity b) (fb_hooks b).

(** Callbacks respect the pool: see [UserSafe]. *)
Definition callbacks_respect (b : FixedThreadPoolBuilder) : Prop :=
  forall T Fin FinP,
    UserSafe (pool_inv self T (fb_queue_capacity b) (Z.to_nat (fb_pool_size b))) Fin FinP calm.
End system.

Section safety.
Context {S M Q : Type} `{Monitor M} `{Injector Q PoolJob} `{UserCode S}.
Context `{!InjectorLaws Q PoolJob}.
Variable self : lens S (FixedThreadPoolInner M Q).
Context `{!LensLaws self} (T : nat) (cap : option Z) (size : nat).
Context (Fin FinP : ptok -> Prop).
Local Abbreviation I := (pool_inv self T cap size).
Local Abbreviation WP := (WP I Fin FinP).
Local Abbreviation holds := (holds pt_acct_l).
Context `{HU : !UserSafe I Fin FinP calm}.
Context (HFin : forall g, (forall i, pt_acct g i = 0%nat) -> Fin g).
Implicit Types (r : tok) (o : bool) (k : nat) (g : ptok).

Lemma holds_same g0 g : holds g0 (pt_acct g0) g -> g = g0.
Proof.
  intros [Hg Hr]. rewrite Hr. destruct g0 as [a n b]. cbn in *. f_equal.
  apply FunctionalExtensionality.functional_extensionality. exact Hg.
Qed.

(** Every call of the interface keeps the contribution and does not panic. *)
Lemma WP_map_submission_error k {A} (v : Result A PoolJobSubmissionError) g
    (Q' : Result A SubmissionError -> ptok -> Prop) E :
  v <> Err AcceptancePanicked -> (forall v, Q' v g) -> WP k (map_submission_error v) g Q' E.
Proof.
  intros Hv HQ. destruct v as [a|[e|]]; [by apply WP_ret| |done]. cbn. apply WP_ret, HQ.
Qed.

Lemma WP_fixed_op k op g (Q' : unit -> ptok -> Prop) E :
  calm g -> Q' tt g -> WP k (fixed_op self op) g Q' E.
Proof.
  intros HL HQ. pose proof (holds_self pt_acct_l g) as Hg.
  assert (Hsub : forall job, standard job = true -> forall (A : Type) kont (Q2 : A -> ptok -> Prop),
    (forall v, v <> Err AcceptancePanicked -> WP k (kont v) g Q2 E) ->
    WP k (bind (fixed_submit self job) kont) g Q2 E).
  { intros job Hs A kont Q2 Hk. apply WP_bind. user WP_submit; [exact HL|exact Hg|].
    intros v g' ->%holds_same Hv. apply Hk. by apply Hv. }
  assert (Hgain : forall b g', idle_gain pt_acct_l g (get pt_acct_l g) b g' -> g' = g).
  { intros b g' Hg'%idle_gain_none0; [|done]. by apply holds_same. }
  destruct op; cbn [fixed_op].
  - unfold submit. rewrite bind_assoc. apply Hsub; [done|]. intros v Hv. apply WP_bind.
    apply WP_map_submission_error; [done|]. intros. by apply WP_ret.
  - unfold submit_callable. rewrite bind_assoc. apply Hsub; [done|]. intros v Hv. rewrite bind_assoc.
    apply WP_bind, WP_map_submission_error; [done|]. intros. by apply WP_ret.
  - unfold submit_tracked_callable. rewrite bind_assoc. apply Hsub; [done|]. intros v Hv. rewrite bind_assoc.
    apply WP_bind, WP_map_submission_error; [done|]. intros. by apply WP_ret.
  - client WP_wait_until_idle; [exact Hg|]. intros g' ->%Hgain. done.
  - by client WP_shutdown.
  - by client WP_shutdown.
  - apply WP_bind. user WP_stop; [exact HL|exact Hg|]. intros v g' ->%holds_same. by apply WP_ret.
  - client WP_wait_for_termination; [exact Hg|]. intros g' ->%Hgain. done.
  - apply WP_bind. client WP_wait_for_termination_timeout; [exact Hg|]. intros b g' ->%Hgain.
    by apply WP_ret.
  - apply WP_bind. client WP_with_lock. client WP_observed_lifecycle; [by apply idle_gain_start|].
    intros v g' ->%Hgain. by apply WP_ret.
  - apply WP_bind. client WP_with_lock. apply WP_bind. client WP_get_field. intros. apply WP_ret. by apply WP_ret.
  - apply WP_bind. client WP_with_lock. client WP_terminated_locked; [by apply idle_gain_start|].
    intros v g' ->%Hgain. by apply WP_ret.
  - apply WP_bind. client WP_stats; [exact Hg|]. intros v g' ->%Hgain. by apply WP_ret.
  - apply WP_bind. client WP_get. intros n. by apply WP_ret, WP_ret.
  - apply WP_bind. client WP_with_lock. client WP_get_field. intros. by apply WP_ret.
  - apply WP_bind. client WP_queued. intros. by apply WP_ret.
  - apply WP_bind. client WP_running. intros. by apply WP_ret.
Qed.

Lemma WP_client k ops g (Q' : unit -> ptok -> Prop) E :
  calm g -> Q' tt g -> WP k (fixed_client self ops) g Q' E.
Proof.
  intros HL HQ. apply (WP_for_each _ _ _ _ _ _ (fun _ g' => g' = g)); [|by intros ? ->|done].
  intros op ops' ? ->. by apply WP_fixed_op.
Qed.

(** Starting a worker hands over a live slot. *)
Lemma pool_inv_spawn h s G k g g' gc :
  in_time h -> I h s G -> G !! k = Some g ->
  (forall i, (pt_acct g' i + pt_acct gc i = pt_acct g i)%nat) ->
  (forall c, (pt_count g' c + pt_count gc c = pt_count g c)%nat) ->
  (pt_budget g' + pt_budget gc = pt_budget g)%nat ->
  I (s :: h) s (<[k := g']> G ++ [gc]).
Proof.
  intros Ht (q & [Hq Hj Ha Hc Hs]) Hg Hi Hcc Hb. exists q.
  assert (Hct : forall c, count_total c (<[k:=g']> G ++ [gc]) = count_total c G).
  { intros c. unfold count_total at 1. rewrite sum_with_app.
    pose proof (count_total_insert c G k g g' Hg) as He. unfold count_total in *.
    specialize (Hcc c). change (sum_with (fun g => pt_count g c) [gc]) with (pt_count gc c + 0)%nat. lia. }
  split; [done|done| | |].
  - replace (acct_total (<[k:=g']> G ++ [gc])) with (acct_total G); [by eapply acct_frame|].
    apply FunctionalExtensionality.functional_extensionality. intros i.
    unfold acct_total at 2. rewrite sum_with_app.
    pose proof (acct_total_insert G k g g' i Hg) as He. unfold acct_total in *. specialize (Hi i).
    change (sum_with (fun g => pt_acct g i) [gc]) with (pt_acct gc i + 0)%nat. lia.
  - intros c. rewrite Hct. destruct (Hc c) as [-> ?]. split; [done|]. cbn [length]. lia.
  - rewrite Hct. unfold budget_total at 1. rewrite sum_with_app.
    pose proof (budget_total_insert G k g g' Hg) as He. unfold budget_total in *.
    change (sum_with pt_budget [gc]) with (pt_budget gc + 0)%nat. lia.
Qed.

Definition worker_token : ptok := inc CLive ptok0.

Lemma WP_worker_thread k runtime : WP k (fixed_worker_run self runtime) worker_token (fun _ => Fin) FinP.
Proof.
  user WP_worker; [|by apply inc_has|apply (holds_self pt_acct_l)|]; [done|].
  intros g' [Hg _]. by apply HFin.
Qed.

Lemma WP_join_workers k hs g (Q' : unit -> ptok -> Prop) E :
  Q' tt g -> WP k (join_started_workers hs) g Q' E.
Proof. intros HQ. induction hs as [|u hs IH]; cbn; [by apply WP_ret|by apply WP_join]. Qed.

Lemma WP_failed_build k g (Q' : unit -> ptok -> Prop) E :
  Q' tt g -> WP k (stop_after_failed_build self) g Q' E.
Proof.
  intros HQ. apply WP_bind. client WP_close. apply WP_bind. client WP_store_stop.
  client WP_with_lock. apply WP_bind. client WP_store_lifecycle. apply WP_bind. client WP_mon_do.
  by apply WP_ret.
Qed.

Lemma WP_start_workers k prefix stk runtimes handles g0 g (Q' : _ -> ptok -> Prop) E :
  (length runtimes <= pt_budget g0)%nat -> (forall i, pt_acct g0 i = 0%nat) -> holds g0 tok0 g ->
  (forall v g', (forall i, pt_acct g' i = 0%nat) -> Q' v g') ->
  WP k (start_workers self prefix stk runtimes handles) g Q' E.
Proof.
  intros Hb H0' Hg HQ. revert handles g0 g Hb H0' Hg.
  induction runtimes as [|rt rts IH]; intros handles g0 g Hb H0' Hg; cbn [start_workers].
  { apply WP_ret, HQ. intros i. destruct Hg as [Hg _]. by apply Hg. }
  cbn [length] in Hb. apply WP_bind. client WP_with_lock.
  change (locked self fixed_live_workers_l) with (self ⊚ @counter_l M Q CLive).
  client WP_reserve_live; [|exact Hg|]; [lia|]. intros g1 Hg1.
  unfold thread_spawn, choose. cbn [bind]. apply WP_choose. intros [].
  - cbn [bind]. apply WP_spawn. intros h s G Ht HI Hlk.
    exists (set pt_acct_l (pt_acct g1) (spend g0)), worker_token. split; [|split].
    + destruct Hg1 as [Hg1 Hr1]. eapply pool_inv_spawn; [done|done|exact Hlk|..].
      * intros i. change (pt_acct worker_token i) with 0%nat. cbn. lia.
      * intros c. rewrite Hr1. unfold worker_token, inc, spend. cbn. destruct (decide (c = CLive)); lia.
      * rewrite Hr1. cbn. lia.
    + apply WP_worker_thread.
    + eapply (IH _ (spend g0)); [cbn; lia|done|]. destruct Hg1 as [Hg1 _]. by split.
  - cbn [bind]. apply WP_bind. client WP_with_lock.
    change (locked self fixed_live_workers_l) with (self ⊚ @counter_l M Q CLive).
    client WP_guarded_decr_count; [|exact Hg1|]; [apply inc_has|]. intros g2 Hg2.
    apply WP_bind, WP_failed_build, WP_bind, WP_join_workers, WP_ret, HQ.
    intros i. destruct Hg2 as [Hg2 _]. by apply Hg2.
Qed.

(** The contributions the threads of the system start with. *)
Definition builder_token : ptok := MkPtok tok0 (fun _ => 0%nat) size.
Definition initial_tokens (n : nat) : list ptok := builder_token :: replicate n ptok0.

Lemma initial_inv b s n :
  fixed_initial self b s -> cap = fb_queue_capacity b -> I [] s (initial_tokens n).
Proof.
  clear HFin HU. intros Hs Hcap. exists tok0.
  assert (Hz : forall (f : ptok -> nat), f builder_token = 0%nat -> f ptok0 = 0%nat ->
    sum_with f (initial_tokens n) = 0%nat).
  { intros f H1' H2'. apply sum_with_zero. intros x Hx. apply elem_of_cons in Hx as [->|Hx]; [done|].
    by apply elem_of_replicate in Hx as [-> _]. }
  unfold fixed_initial in Hs. split.
  - done.
  - rewrite Hs. cbn. by rewrite inj_new_empty.
  - replace (tadd (acct_total (initial_tokens n)) tok0) with tok0; cycle 1.
    { apply FunctionalExtensionality.functional_extensionality. intros i. unfold tadd, acct_total.
      by rewrite Hz. }
    unfold acc. constructor; cbn; rewrite ?Hs; cbn; try done; try lia.
    + exists true. done.
    + intros sT Hat. unfold at_time in Hat. destruct (decide _) as [Hle|]; [|done].
      cbn in Hle. destruct T; cbn in Hat; [|lia]. simplify_eq. rewrite Hs. cbn. lia.
  - intros c. unfold count_total. rewrite Hz by done. split; [|cbn; lia]. cbn. rewrite Hs. by destruct c.
  - unfold count_total, budget_total. rewrite Hz by done.
    change (initial_tokens n) with ([builder_token] ++ replicate n ptok0). rewrite sum_with_app.
    assert (sum_with pt_budget (replicate n ptok0) = 0%nat) as ->.
    { apply sum_with_zero. intros x Hx. by apply elem_of_replicate in Hx as [-> _]. }
    change (sum_with pt_budget [builder_token]) with (size + 0)%nat. lia.
Qed.

Lemma system_safe b clients s n :
  fixed_initial self b s -> cap = fb_queue_capacity b -> size = Z.to_nat (fb_pool_size b) ->
  safe I Fin FinP (fun _ => Fin) n [] (fixed_system self b clients s)
    (initial_tokens (length clients)).
Proof.
  intros Hs Hcap Hsize. apply safe_init; [by eapply initial_inv|]. constructor.
  - intros t. apply WP_bind. eapply (WP_start_workers _ _ _ _ _ builder_token).
    + unfold new_worker_runtimes. rewrite length_map, length_seq. cbn. lia.
    + done.
    + apply (holds_self pt_acct_l).
    + intros v g' Hg'. apply WP_ret. by apply HFin.
  - induction clients as [|ops clients IH]; cbn; constructor; [|exact IH].
    intros t. apply WP_client; [done|]. by apply HFin.
Qed.
End safety.
