(* ===== verification/FixedTheorems.v ===== *)
(** What the fixed pool guarantees, for every schedule of its threads. *)
From S2P Require Import Prelude Prog Conc Sync AdmissionGate PoolAccounting AccountingLogic.
From S2P Require Import AccountingSpecs Observers Types Hooks PoolJob FixedInner FixedLogic FixedWorker.
From S2P Require Import UserSpecs FixedSpecs Builder FixedPool FixedOps FixedSafety Concrete.
Local Open Scope Z_scope.

(** The relations between the counters of a pool built by [b]. *)
Record fixed_consistent {M Q} `{Injector Q PoolJob} (b : FixedThreadPoolBuilder)
    (p : FixedThreadPoolInner M Q) : Prop := {
  fc_queued : 0 <= queued_task_count (accounting p) <= queue_slot_count (accounting p);
  fc_jobs : Z.of_nat (length (inj_jobs (global_queue p))) <= queued_task_count (accounting p);
  fc_capacity : forall c, fb_queue_capacity b = Some c -> 0 <= c ->
    queue_slot_count (accounting p) <= c;
  fc_running : 0 <= running_task_count (accounting p);
  fc_cancelling : 0 <= cancelling_task_count (accounting p) <= queue_slot_count (accounting p);
  (** every accepted job is completed, cancelled, or still held somewhere *)
  fc_conserved : exists n, 0 <= n <= queue_slot_count (accounting p) + running_task_count (accounting p) /\
    submitted_task_count (accounting p) =
    completed_task_count (accounting p) + cancelled_task_count (accounting p) + n;
  fc_workers : 0 <= fixed_live_workers (mon_data (state p)) <= Z.max 0 (fb_pool_size b);
  fc_idle : 0 <= fixed_idle_workers (mon_data (state p)) /\ 0 <= idle_worker_count p;
}.

Lemma pool_inv_consistent {S M Q} `{Monitor M} `{Injector Q PoolJob}
    (self : lens S (FixedThreadPoolInner M Q)) T b h s G :
  pool_inv self T (fb_queue_capacity b) (Z.to_nat (fb_pool_size b)) h s G ->
  fixed_consistent b (get self s).
Proof.
  intros (q & [Hq Hj Ha Hc Hs]). set (t := tadd (acct_total G) q) in *.
  pose proof (ai_slots _ _ _ _ _ _ _ Ha) as H1. pose proof (ai_queued _ _ _ _ _ _ _ Ha) as H2.
  pose proof (ai_running _ _ _ _ _ _ _ Ha) as H3. pose proof (ai_cancelling _ _ _ _ _ _ _ Ha) as H4.
  pose proof (ai_conserve _ _ _ _ _ _ _ Ha) as H5. pose proof (ai_strict _ _ _ _ _ _ _ Ha eq_refl) as H6.
  cbn in H1, H2, H3, H4, H5, H6. pose proof (all_split t) as Hsp.
  assert (Hw : (all q Waiting <= all t Waiting)%nat) by (unfold t, all, tadd; lia).
  split; try lia.
  - intros c Hcap Hpos. destruct (H6 c Hcap); lia.
  - exists (Z.of_nat (unfinished_of (all t))). split; [|exact H5].
    unfold unfinished_of, slots_of, running_of in *. lia.
  - destruct (Hc CLive) as [Hlive _]. cbn in Hlive. lia.
  - destruct (Hc CIdle) as [Hidle _]. destruct (Hc CIdleAtomic) as [Hat _]. cbn in *. lia.
Qed.

Section theorems.
Context {S M Q : Type} `{Monitor M} `{Injector Q PoolJob} `{UserCode S} `{!InjectorLaws Q PoolJob}.
Context (self : lens S (FixedThreadPoolInner M Q)) `{!LensLaws self}.
Implicit Types (b : FixedThreadPoolBuilder) (s : S).

Definition any (g : ptok) : Prop := True.
Definition none (g : ptok) : Prop := False.

(** Any run keeps the invariant, for any observed moment. *)
Lemma system_reaches T b clients s sched h' c' n :
  fixed_initial self b s -> callbacks_respect self b ->
  exec sched [] (fixed_system self b clients s) = Some (h', c') -> in_time h' ->
  exists G, safe (pool_inv self T (fb_queue_capacity b) (Z.to_nat (fb_pool_size b))) any none
    (fun _ => any) n h' c' G.
Proof.
  intros Hs Hu He Ht. eapply safe_exec; [apply _| |exact He|exact Ht].
  by apply (system_safe self T (fb_queue_capacity b) (Z.to_nat (fb_pool_size b)) any none (HU := Hu T any none)).
Qed.

(** The contribution of a thread that knows one fact: that the observed moment
    is past ([Late]), that admission is closed ([KnowClosed]). *)
Definition knows (i : idx) : ptok := MkPtok (one i) (fun _ => 0%nat) 0.

Lemma pool_inv_joins T b h s G i :
  (forall t t', acct_inv (acc self) T (fb_queue_capacity b) true h s t ->
     (forall j, t' j = (t j + one i j)%nat) -> acct_inv (acc self) T (fb_queue_capacity b) true h s t') ->
  pool_inv self T (fb_queue_capacity b) (Z.to_nat (fb_pool_size b)) h s G ->
  pool_inv self T (fb_queue_capacity b) (Z.to_nat (fb_pool_size b)) h s (G ++ [knows i]).
Proof.
  intros Hi (q & [Hq Hj Ha Hc Hsz]). exists q.
  assert (Hcnt : forall c, count_total c (G ++ [knows i]) = count_total c G).
  { intros c. unfold count_total. rewrite sum_with_app.
    change (sum_with (fun g => pt_count g c) [knows i]) with 0%nat. lia. }
  split; [done|done| | |].
  - eapply Hi; [exact Ha|]. intros j. unfold tadd, acct_total. rewrite sum_with_app.
    change (sum_with (fun g => pt_acct g j) [knows i]) with (one i j + 0)%nat. lia.
  - intros c. rewrite Hcnt. apply Hc.
  - rewrite Hcnt. unfold budget_total in *. rewrite sum_with_app.
    change (sum_with pt_budget [knows i]) with 0%nat. lia.
Qed.

Lemma pool_inv_late T b h s G :
  (T <= length h)%nat ->
  pool_inv self T (fb_queue_capacity b) (Z.to_nat (fb_pool_size b)) h s G ->
  pool_inv self T (fb_queue_capacity b) (Z.to_nat (fb_pool_size b)) h s (G ++ [knows Late]).
Proof. intros HT. apply pool_inv_joins. intros t t'. by apply acct_inv_late. Qed.

Lemma pool_inv_closed T b h s G :
  admission_closed (accounting (get self s)) ->
  pool_inv self T (fb_queue_capacity b) (Z.to_nat (fb_pool_size b)) h s G ->
  pool_inv self T (fb_queue_capacity b) (Z.to_nat (fb_pool_size b)) h s (G ++ [knows KnowClosed]).
Proof. intros HT. apply pool_inv_joins. intros t t'. by apply acct_inv_closed. Qed.

Lemma pool_inv_acct T b h s G :
  pool_inv self T (fb_queue_capacity b) (Z.to_nat (fb_pool_size b)) h s G ->
  exists t, acct_inv (acc self) T (fb_queue_capacity b) true h s t /\
    forall k g i, G !! k = Some g -> (get pt_acct_l g i <= t i)%nat.
Proof.
  intros (q & [_ _ Ha _ _]). exists (tadd (acct_total G) q). split; [done|].
  intros k g i Hg. pose proof (acct_total_lookup G k g i Hg). unfold tadd. cbn. lia.
Qed.

(** An observer that starts late and ends after an idle check. *)
Lemma observer_sees b clients s sched1 h1 c1 sched2 h2 c2 (p : prog S unit) :
  fixed_initial self b s -> callbacks_respect self b ->
  exec sched1 [] (fixed_system self b clients s) = Some (h1, c1) ->
  exec sched2 h1 (Config (threads c1 ++ [p]) (shared c1)) = Some (h2, c2) -> in_time h2 ->
  (forall k g (Q' : unit -> ptok -> Prop) E,
     holds pt_acct_l g (pt_acct g) g ->
     (forall g', idle_gain pt_acct_l g (pt_acct g) true g' -> Q' tt g') ->
     WP (pool_inv self (length h1) (fb_queue_capacity b) (Z.to_nat (fb_pool_size b))) any none k p g Q' E) ->
  threads c2 !! length (threads c1) = Some (Ret tt) ->
  submitted_task_count (accounting (get self (shared c1))) <=
  completed_task_count (accounting (get self (shared c2))) +
  cancelled_task_count (accounting (get self (shared c2))).
Proof.
  intros Hs Hu He1 He2 Ht Hp Hend.
  apply (observer_learns (acc self) pt_acct_l (fb_queue_capacity b) true
    (fun T => pool_inv self T (fb_queue_capacity b) (Z.to_nat (fb_pool_size b)))
    (fun T h s G => pool_inv_acct T b h s G) (knows Late) (fun T h s G => pool_inv_late T b h s G)
    h1 c1 sched2 h2 c2 p); [|done|done| |done].
  - intros T n. eapply system_reaches; [done..|]. apply exec_length in He2. unfold in_time in *. lia.
  - intros t. apply Hp; [apply (holds_self pt_acct_l)|]. intros g'. by apply idle_gain_knows.
Qed.
End theorems.

(** *** An application whose tasks use the pool they run on

    Task 0 panics; any other task submits its predecessor to the same pool. *)
Abbreviation CPool := (FixedThreadPoolInner CMon (list PoolJob)).

Definition chain_user : UserCode (CState CPool) := {|
  call_closure := noisy;
  drop_closure := noisy;
  call_hook h _ := noisy h;
  runnable_run t :=
    note t ;;
    match t with
    | O => Panic
    | Datatypes.S t' => fixed_submit (H1 := log_user) cs_pool_l (detached t') ;; Ret tt
    end;
  drop_runnable := note;
  task_runner_run t _ := note t;
  task_slot_accept := note;
  task_slot_cancel_unstarted c := note c ;; Ret true;
  drop_callable := note;
  drop_task_slot := note;
|}.

Section chain.
Context (T : nat) (cap : option Z) (size : nat) (Fin FinP : ptok -> Prop).
Local Abbreviation I := (pool_inv (cs_pool_l (P := CPool)) T cap size).
Local Abbreviation quiet := (quiet I Fin FinP calm).

Lemma quiet_note n : quiet (note n).
Proof. apply quiet_private; [apply _..|]. intros k s a s' [= _ <-]. done. Qed.

Lemma note_accepts n k g : calm g ->
  WP I Fin FinP k (note n) g (fun _ g' => g' = g) (fun _ => False).
Proof.
  intros _. apply WP_core. intros s. split; [|by apply WP_ret]. by split.
Qed.

Lemma log_user_safe : UserSafeB (H := log_user) may_block may_join I Fin FinP calm.
Proof. apply log_user_safe_if. intros n k g Hg. by apply note_accepts. Qed.

Lemma chain_user_safe : UserSafeB (H := chain_user) may_block may_join I Fin FinP calm.
Proof.
  destruct log_user_safe. split; try assumption. intros t. unfold chain_user, runnable_run.
  apply quiet_bind; [apply quiet_note|]. intros _. destruct t as [|t]; [apply quiet_panic|].
  intros k g HL. apply WP_bind. client (WP_submit (H1 := log_user));
    [apply log_user_safe|exact HL|apply (holds_self pt_acct_l)|].
  intros v g' ->%holds_same _. by apply WP_ret.
Qed.
End chain.

(** A pool of two workers with a queue of three, used by two clients. *)
Definition demo_builder : FixedThreadPoolBuilder :=
  MkFixedThreadPoolBuilder 2 (Some 3) "worker" None
    (MkThreadPoolHooks (Some 0%nat) None (Some 9%nat) None).
Definition demo_state : CState CPool :=
  MkCState (fixed_with_hooks 2 (Some 3) (fb_hooks demo_builder)) [].
Definition demo_clients : list (list FixedOp) :=
  [[OpSubmit 2; OpSubmitCallable 5 6 7; OpJoin; OpShutdown; OpWaitTermination]; [OpSubmit 0; OpStats]].
Definition demo_system : config (CState CPool) :=
  fixed_system (H1 := chain_user) cs_pool_l demo_builder demo_clients demo_state.

(** Both workers are started, then everything runs to its end. *)
Definition demo_build : list (nat * bool) := repeat (0%nat, true) 10.
Definition demo_sched : list (nat * bool) :=
  demo_build ++ fair 500 0 true (after demo_system demo_build).
(** The clients' first steps, and what follows when an observer joins. *)
Definition demo_sched1 : list (nat * bool) := demo_build ++ take 120 (drop 10 demo_sched).
Definition demo_sched2 (p : prog (CState CPool) unit) : list (nat * bool) :=
  fair 700 0 true (with_observer p (after demo_system demo_sched1)).


Lemma chain_respects b : callbacks_respect (H1 := chain_user) (cs_pool_l (P := CPool)) b.
Proof. intros T Fin FinP. apply chain_user_safe. Qed.

(** C1. Under every schedule of the builder, any clients and the workers, no
    thread of a fixed pool ever panics: no underflow assertion fires, no checked
    subtraction fails, no [unreachable!] is reached, and panics of the
    application's callbacks stay contained. *)
Theorem fixed_pool_never_panics {S M Q} `{Monitor M} `{Injector Q PoolJob} `{UserCode S}
    (HQ : InjectorLaws Q PoolJob) (self : lens S (FixedThreadPoolInner M Q)) (HL : LensLaws self)
    b clients s sched h' c' :
  fixed_initial self b s -> callbacks_respect self b ->
  exec sched [] (fixed_system self b clients s) = Some (h', c') -> in_time h' ->
  forall i, ~ panicked c' i.
Proof.
  intros Hs Hu He Ht i.
  destruct (system_reaches self 0 _ _ _ _ _ _ 1 Hs Hu He Ht) as [G HG].
  eapply safe_not_panicked; [exact HG|]. intros g Hg; exact Hg.
Qed.

Lemma fixed_pool_never_panics_witness :
  exists h' c', exec demo_sched [] demo_system = Some (h', c') /\ length h' = 394%nat /\
    forallb ended (threads c') = true /\ forall i, ~ panicked c' i.
Proof.
  destruct (exec demo_sched [] demo_system) as [[h' c']|] eqn:He;
    [|exfalso; vm_compute in He; discriminate].
  assert (Hd : match exec demo_sched [] demo_system with
    | Some (h, c) => length h = 394%nat /\ forallb ended (threads c) = true | None => False end)
    by (vm_compute; split; reflexivity).
  rewrite He in Hd. exists h', c'. split; [reflexivity|]. split; [apply Hd|]. split; [apply Hd|].
  eapply (fixed_pool_never_panics _ cs_pool_l _ demo_builder demo_clients demo_state demo_sched);
    [reflexivity|apply chain_respects|exact He|].
  unfold in_time, STEP_BOUND. destruct Hd as [-> _]. reflexivity.
Defined.

(** C5. At every moment of every run the counters of a fixed pool are
    consistent: queued jobs hold slots and slots stay within the capacity, the
    queue never holds more jobs than are counted as queued, every accepted job is
    completed, cancelled or accounted for by a slot or the running counter, and
    no more workers are live than the pool was built with. *)
Theorem fixed_pool_consistent {S M Q} `{Monitor M} `{Injector Q PoolJob} `{UserCode S}
    (HQ : InjectorLaws Q PoolJob) (self : lens S (FixedThreadPoolInner M Q)) (HL : LensLaws self)
    b clients s sched h' c' :
  fixed_initial self b s -> callbacks_respect self b ->
  exec sched [] (fixed_system self b clients s) = Some (h', c') -> in_time h' ->
  fixed_consistent b (get self (shared c')).
Proof.
  intros Hs Hu He Ht. destruct (system_reaches self 0 _ _ _ _ _ _ 1 Hs Hu He Ht) as [G [HI _]].
  by eapply pool_inv_consistent.
Qed.

Lemma fixed_pool_consistent_witness :
  exists h' c', exec demo_sched1 [] demo_system = Some (h', c') /\
    submitted_task_count (accounting (cs_pool (shared c'))) = 3 /\
    fixed_consistent demo_builder (cs_pool (shared c')).
Proof.
  assert (Hd : match exec demo_sched1 [] demo_system with
    | Some (h, c) => length h = 130%nat /\ submitted_task_count (accounting (cs_pool (shared c))) = 3
    | None => False end) by (vm_compute; split; reflexivity).
  destruct (exec demo_sched1 [] demo_system) as [[h' c']|] eqn:He; [|contradiction]. exists h', c'. split; [reflexivity|]. split; [apply Hd|].
  apply (fixed_pool_consistent (H1 := chain_user) _ cs_pool_l _ demo_builder demo_clients demo_state
           demo_sched1 h' c'); [reflexivity|apply chain_respects|exact He|].
  unfold in_time, STEP_BOUND. destruct Hd as [-> _]. reflexivity.
Defined.




