(* ===== verification/FixedLive.v ===== *)
(** Why a fixed pool does not hang, part 1: what each waiting thread relies on,
    who owes a wake-up, the invariant that relates the two, and the basic rules.

    A thread that is about to sleep, or asleep, on the pool's monitor relies on
    conditions: the reasons it found not to go on.  A condition that stops holding
    is owed by a thread that will notify the monitor before it sleeps or ends. *)
From S2P Require Import Prelude Prog Conc Sync AdmissionGate PoolAccounting AccountingLogic.
From S2P Require Import AccountingSpecs Types Hooks PoolJob FixedInner FixedLogic FixedWorker.
From S2P Require Import UserSpecs FixedSpecs.
Local Open Scope Z_scope.

(** [CJoin]: the pool is busy; [CTerm]: it is not terminated; [CStop]: somebody
    is in admission; [CLife]: the pool is running; [CWork]: nothing is queued, or a
    worker wake-up is pending, or the pool is past running; [CPend]: no worker
    wake-up is pending. *)
Inductive cond : Type := CJoin | CTerm | CStop | CLife | CWork | CPend.

#[export] Instance cond_eq_dec : EqDecision cond.
Proof. solve_decision. Defined.

(** Waiting for idleness, for termination, for a limited time, for submitters (in
    [stop], in a worker of a pool that is shutting down), and the steps by which an idle worker of a
    running pool goes to sleep. *)
Inductive reason : Type := RJoin | RTerm | RTimed | RStop | RShut | RRun | RHalf | RWork.

Definition conds (r : reason) : list cond :=
  match r with
  | RJoin => [CJoin]
  | RTerm => [CTerm]
  | RTimed => []
  | RStop | RShut => [CStop]
  | RRun => [CLife]
  | RHalf => [CLife; CWork]
  | RWork => [CLife; CWork; CPend]
  end.

(** Outside the monitor; holding it; holding it with a reason to wait; in the
    wait queue or on the way out of it. *)
Inductive mode : Type := Out | In | Ready (r : reason) | Parked (r : reason).

Definition inside (m : mode) : bool :=
  match m with In | Ready _ => true | _ => false end.

(** Which thread this is; a caller may be one that waits for termination. *)
Inductive kind : Type := Builder | Worker | Caller (waits : bool).

(** What a thread has seen of the pool, for good: admission closed, the lifecycle
    past [Running]. *)
Inductive seen : Type := Unseen | SeenClosed | SeenPast.

(** A thread's ghost state: its contribution to the pool, where it stands with the
    monitor, what it owes, what it has seen, the workers it may still start, and the workers it has started. *)
Record ltok : Type := MkLtok {
  lt_pool : ptok;
  lt_mode : mode;
  lt_owes : cond -> bool;
  lt_kind : kind;
  lt_seen : seen;
  lt_spare : nat;
  lt_handles : list nat;
}.

Definition lt_pool_l : lens ltok ptok :=
  Lens lt_pool (fun x g => MkLtok x (lt_mode g) (lt_owes g) (lt_kind g) (lt_seen g) (lt_spare g) (lt_handles g)).
#[export] Instance lt_pool_l_laws : LensLaws lt_pool_l.
Proof. solve_lens. Qed.
Definition lt_acct_l : lens ltok tok := lt_pool_l ⊚ pt_acct_l.

Definition with_mode (m : mode) (g : ltok) : ltok :=
  MkLtok (lt_pool g) m (lt_owes g) (lt_kind g) (lt_seen g) (lt_spare g) (lt_handles g).
Definition with_owes (ow : cond -> bool) (g : ltok) : ltok :=
  MkLtok (lt_pool g) (lt_mode g) ow (lt_kind g) (lt_seen g) (lt_spare g) (lt_handles g).
Definition with_seen (b : seen) (g : ltok) : ltok :=
  MkLtok (lt_pool g) (lt_mode g) (lt_owes g) (lt_kind g) b (lt_spare g) (lt_handles g).

(** [g] owing also the conditions [cs]. *)
Definition owing (cs : list cond) (g : ltok) : ltok :=
  with_owes (fun c => bool_decide (c ∈ cs) || lt_owes g c) g.

(** A thread with no submission, job or slot in hand. *)
Definition no_phase (x : ptok) : Prop := forall p, pt_acct x (New p) = 0%nat /\ pt_acct x (Old p) = 0%nat.

Definition side (g : ltok) (r : reason) : Prop :=
  match r with
  | RJoin => (1 <= pt_count (lt_pool g) CIdleWaiter)%nat
  | RHalf | RWork => (1 <= pt_count (lt_pool g) CIdleAtomic)%nat
  | RStop | RShut => lt_seen g = SeenPast
  | RTerm | RTimed | RRun => True
  end.

(** What a thread may hold while it sleeps for reason [r]. *)
Record parkable (g : ltok) (r : reason) : Prop := {
  pk_phase : no_phase (lt_pool g);
  pk_spare : lt_spare g = 0%nat;
  pk_owes : forall c, lt_owes g c = true -> r = RStop /\ (c = CLife \/ c = CTerm);
  pk_kind : match lt_kind g with
            | Builder => False
            | Worker => r = RShut \/ r = RWork
            | Caller waits => pt_count (lt_pool g) CLive = 0%nat /\
                (r = RJoin \/ r = RStop \/ r = RTimed \/ (r = RTerm /\ waits = true))
            end;
}.

Section live.
Context {S M Q : Type} `{Monitor M} `{Injector Q PoolJob}.
Variable self : lens S (FixedThreadPoolInner M Q).
Context `{!LensLaws self}.
Variables (T : nat) (cap : option Z) (size : nat).
(** the threads the system starts with *)
Variable K : list kind.

Definition owner (s : S) : option nat := mon_owner (mon_sync (state (get self s))).
Definition asleep (s : S) (t : nat) : bool := mon_asleep (mon_sync (state (get self s))) t.
Definition lc (s : S) : ExecutorServiceLifecycle := fixed_lifecycle (mon_data (state (get self s))).
Definition live (s : S) : Z := fixed_live_workers (mon_data (state (get self s))).
Definition word (s : S) : Z := gate_state (admission (accounting (get self s))).
Definition inflight (s : S) : Z := Z.land (word s) COUNT_MASK.
Definition closed (s : S) : Prop := Z.land (word s) CLOSED <> 0.
Definition told (x : seen) (s : S) : Prop :=
  match x with
  | Unseen => True
  | SeenClosed => closed s
  | SeenPast => lc s <> Lifecycle.Running
  end.
Definition slots (s : S) : Z := queue_slot_count (accounting (get self s)).
Definition queued (s : S) : Z := queued_task_count (accounting (get self s)).
Definition running (s : S) : Z := running_task_count (accounting (get self s)).
Definition cancelling (s : S) : Z := cancelling_task_count (accounting (get self s)).
Definition pending (s : S) : Z := pending_worker_wakes (get self s).
Definition busy (s : S) : Prop :=
  inflight s <> 0 \/ slots s <> 0 \/ running s <> 0 \/ cancelling s <> 0.

(** When a condition holds by itself. *)
Definition bcond (c : cond) (s : S) : Prop :=
  match c with
  | CJoin => busy s
  | CTerm => lc s = Lifecycle.Running \/ live s <> 0 \/ busy s
  | CStop => inflight s <> 0
  | CLife => lc s = Lifecycle.Running
  | CWork => lc s <> Lifecycle.Running \/ queued s = 0 \/ 0 < pending s
  | CPend => pending s <= 0
  end.

(** ... or is owed by somebody. *)
Definition met (c : cond) (s : S) (G : list ltok) : Prop :=
  bcond c s \/ exists u g, G !! u = Some g /\ lt_owes g c = true.

Definition relies (s : S) (t : nat) (g : ltok) (r : reason) : Prop :=
  lt_mode g = Ready r \/ lt_mode g = Parked r /\ asleep s t = true.

Record live_ok (s : S) (G : list ltok) : Prop := {
  lo_owner : forall t, owner s = Some t -> exists g, G !! t = Some g /\ inside (lt_mode g) = true;
  lo_inside : forall t g, G !! t = Some g -> inside (lt_mode g) = true -> owner s = Some t;
  lo_asleep : forall t, asleep s t = true ->
    exists g r, G !! t = Some g /\ lt_mode g = Parked r /\ parkable g r;
  lo_met : forall t g r, G !! t = Some g -> relies s t g r ->
    side g r /\ forall c, c ∈ conds r -> met c s G;
  lo_closed : lc s <> Lifecycle.Running -> closed s;
  lo_seen : forall t g, G !! t = Some g -> told (lt_seen g) s;
  lo_full : lc s = Lifecycle.Running ->
    (count_total CLive (lt_pool <$> G) + sum_with lt_spare G = size)%nat;
  lo_kind : forall i kd, K !! i = Some kd -> exists g, G !! i = Some g /\ lt_kind g = kd;
  lo_handles : forall t g u, G !! t = Some g -> u ∈ lt_handles g ->
    exists gu, G !! u = Some gu /\ lt_kind gu = Worker;
}.

Definition live_inv (h : list S) (s : S) (G : list ltok) : Prop :=
  pool_inv self T cap size h s (lt_pool <$> G) /\ live_ok s G.

#[export] Instance live_inv_stutter : Stutter live_inv.
Proof. intros h s G Ht [HI HL]. split; [by apply pool_inv_stutter|exact HL]. Qed.

(** A thread is blocked only by another that holds the monitor, or asleep for a
    reason without a time limit; it waits only for a worker it started, in a pool that has failed to start. *)
Definition may_wait (t : nat) (s : S) (g : ltok) : Prop :=
  (exists u, owner s = Some u /\ u <> t) \/
  (asleep s t = true /\ exists r, lt_mode g = Parked r /\ r <> RTimed).
Definition may_await (u : nat) (g : ltok) : Prop :=
  u ∈ lt_handles g /\ lt_mode g = Out /\ (forall c, lt_owes g c = false) /\ no_phase (lt_pool g) /\
  pt_count (lt_pool g) CLive = 0%nat /\ lt_seen g = SeenPast /\ lt_kind g = Builder.

(** What an ended thread holds. *)
Record rested (g : ltok) : Prop := {
  rs_mode : lt_mode g = Out;
  rs_owes : forall c, lt_owes g c = false;
  rs_phase : no_phase (lt_pool g);
  rs_live : pt_count (lt_pool g) CLive = 0%nat;
  rs_spare : lt_spare g = 0%nat \/ lt_seen g = SeenPast;
}.

(** *** Keeping the invariant *)

Lemma met_keep c s s' G k g g' :
  met c s G -> G !! k = Some g ->
  bcond c s' \/ lt_owes g' c = true \/
    ((bcond c s -> bcond c s') /\ (lt_owes g c = true -> lt_owes g' c = true)) ->
  met c s' (<[k := g']> G).
Proof.
  intros Hm Hk Hc. assert (Hin : <[k := g']> G !! k = Some g').
  { apply list_lookup_insert_eq. by eapply lookup_lt_Some. }
  destruct Hc as [Hc|[Hc|[Hb Ho]]]; [by left|right; by eauto|].
  destruct Hm as [Hm|(u & gu & Hu & Hgu)]; [left; auto|]. right.
  destruct (decide (u = k)) as [->|Hne]; [simplify_eq; eauto|].
  exists u, gu. by rewrite list_lookup_insert_ne by done.
Qed.

Lemma told_mono x s s' : told x s -> (lc s <> Lifecycle.Running -> lc s' <> Lifecycle.Running) ->
  (closed s -> closed s') -> told x s'.
Proof. destruct x; cbn; auto. Qed.

(** What the others see of a step of thread [k]. *)
Record visible_step (s s' : S) (k : nat) (g g' : ltok) : Prop := {
  vs_kind : lt_kind g' = lt_kind g;
  vs_handles : forall u, u ∈ lt_handles g' -> u ∈ lt_handles g;
  vs_seen : told (lt_seen g') s';
  vs_life : lc s <> Lifecycle.Running -> lc s' <> Lifecycle.Running;
  vs_closed : closed s -> closed s';
  vs_shut : lc s' <> Lifecycle.Running -> lc s <> Lifecycle.Running \/ closed s';
  vs_full : lc s' = Lifecycle.Running ->
    (pt_count (lt_pool g') CLive + lt_spare g' = pt_count (lt_pool g) CLive + lt_spare g)%nat;
}.

Lemma full_insert G k g g' :
  G !! k = Some g ->
  (pt_count (lt_pool g') CLive + lt_spare g' = pt_count (lt_pool g) CLive + lt_spare g)%nat ->
  (count_total CLive (lt_pool <$> <[k := g']> G) + sum_with lt_spare (<[k := g']> G) =
   count_total CLive (lt_pool <$> G) + sum_with lt_spare G)%nat.
Proof.
  intros Hk He. rewrite list_fmap_insert.
  pose proof (count_total_insert CLive (lt_pool <$> G) k (lt_pool g) (lt_pool g')) as H1.
  rewrite list_lookup_fmap, Hk in H1. specialize (H1 eq_refl).
  pose proof (sum_with_insert lt_spare G k g g' Hk). lia.
Qed.

(** The parts of the invariant that do not mention the monitor. *)
Lemma visible_keeps s s' G k g g' :
  live_ok s G -> G !! k = Some g -> visible_step s s' k g g' ->
  (lc s' <> Lifecycle.Running -> closed s') /\
  (forall t g1, <[k := g']> G !! t = Some g1 -> told (lt_seen g1) s') /\
  (lc s' = Lifecycle.Running -> (count_total CLive (lt_pool <$> <[k := g']> G) +
     sum_with lt_spare (<[k := g']> G) = size)%nat) /\
  (forall i kd, K !! i = Some kd -> exists g1, <[k := g']> G !! i = Some g1 /\ lt_kind g1 = kd) /\
  (forall t g1 u, <[k := g']> G !! t = Some g1 -> u ∈ lt_handles g1 ->
    exists gu, <[k := g']> G !! u = Some gu /\ lt_kind gu = Worker).
Proof.
  intros HL Hk [Hkind Hhand Hpast Hlife Hcl Hsh Hfull].
  assert (Hin : <[k := g']> G !! k = Some g').
  { apply list_lookup_insert_eq. by eapply lookup_lt_Some. }
  assert (Hkinds : forall u gu, G !! u = Some gu -> exists g1, <[k := g']> G !! u = Some g1 /\ lt_kind g1 = lt_kind gu).
  { intros u gu Hu. destruct (decide (u = k)) as [->|Hne]; [exists g'; simplify_eq; done|].
    exists gu. by rewrite list_lookup_insert_ne by done. }
  split; [|split; [|split; [|split]]].
  - intros Hr. destruct (Hsh Hr) as [Hr'|]; [|done]. apply Hcl, (lo_closed _ _ HL), Hr'.
  - intros t g1 Ht. destruct (decide (t = k)) as [->|Hne]; [by simplify_eq|].
    rewrite list_lookup_insert_ne in Ht by done. eapply told_mono; [by eapply (lo_seen _ _ HL)|done..].
  - intros Hr. rewrite (full_insert G k g g') by auto. apply (lo_full _ _ HL).
    destruct (decide (lc s = Lifecycle.Running)) as [|Hn]; [done|]. by apply Hlife in Hn.
  - intros i kd Hi. destruct (lo_kind _ _ HL i kd Hi) as (g1 & Hg1 & <-). by apply Hkinds.
  - intros t g1 u Ht Hu.
    assert (exists g2, G !! t = Some g2 /\ u ∈ lt_handles g2) as (g2 & Hg2 & Hu2).
    { destruct (decide (t = k)) as [->|Hne]; [simplify_eq; eauto|].
      rewrite list_lookup_insert_ne in Ht by done. eauto. }
    destruct (lo_handles _ _ HL t g2 u Hg2 Hu2) as (gu & Hgu & Hw).
    destruct (Hkinds u gu Hgu) as (g3 & ? & ?). exists g3. split; [done|congruence].
Qed.

(** A step that leaves the monitor alone. *)
Lemma live_update s s' G k g g' :
  live_ok s G -> G !! k = Some g -> visible_step s s' k g g' ->
  owner s' = owner s -> (forall t, asleep s' t = asleep s t) ->
  (forall r, lt_mode g <> Parked r) -> (forall r, lt_mode g' <> Parked r) ->
  inside (lt_mode g') = inside (lt_mode g) ->
  (forall r, lt_mode g' = Ready r -> side g' r /\ forall c, c ∈ conds r -> met c s' (<[k := g']> G)) ->
  (forall u gu r, u <> k -> G !! u = Some gu -> relies s u gu r -> side gu r ->
     (forall c, c ∈ conds r -> met c s G) -> forall c, c ∈ conds r -> met c s' (<[k := g']> G)) ->
  live_ok s' (<[k := g']> G).
Proof.
  intros HL Hk Hv Ho Ha Hp Hp' Hi Hown Hothers.
  destruct (visible_keeps _ _ _ _ _ _ HL Hk Hv) as (? & ? & ? & ? & ?).
  assert (Hin : <[k := g']> G !! k = Some g').
  { apply list_lookup_insert_eq. by eapply lookup_lt_Some. }
  assert (Hlook : forall t g1, <[k := g']> G !! t = Some g1 -> t = k /\ g1 = g' \/ t <> k /\ G !! t = Some g1).
  { intros t g1 Ht. destruct (decide (t = k)) as [->|Hne]; [left; simplify_eq; done|right].
    by rewrite list_lookup_insert_ne in Ht by done. }
  split; try assumption.
  - intros t Ht. rewrite Ho in Ht. destruct (lo_owner _ _ HL t Ht) as (g1 & Hg1 & Hm).
    destruct (decide (t = k)) as [->|Hne]; [exists g'; simplify_eq; split; congruence|].
    exists g1. by rewrite list_lookup_insert_ne by done.
  - intros t g1 Ht Hm. rewrite Ho. apply Hlook in Ht as [[-> ->]|[Hne Ht]].
    + apply (lo_inside _ _ HL k g Hk). congruence.
    + by apply (lo_inside _ _ HL t g1).
  - intros t Ht. rewrite Ha in Ht. destruct (lo_asleep _ _ HL t Ht) as (g1 & r & Hg1 & Hm & Hpk).
    destruct (decide (t = k)) as [->|Hne]; [simplify_eq; by destruct (Hp r)|].
    exists g1, r. by rewrite list_lookup_insert_ne by done.
  - intros t g1 r Ht Hr. apply Hlook in Ht as [[-> ->]|[Hne Ht]].
    + destruct Hr as [Hr|[Hr _]]; [by apply Hown|by destruct (Hp' r)].
    + unfold relies in Hr. rewrite Ha in Hr. destruct (lo_met _ _ HL t g1 r Ht Hr). split; [done|].
      by eapply Hothers.
Qed.
End live.
