(* ===== verification/FixedLiveRules.v ===== *)
(** Why a fixed pool does not hang, part 2: rules for single actions, for code
    that only moves submissions and jobs (taken over from the safety proofs), and
    for the monitor. *)
From S2P Require Import Prelude Prog Conc Sync AdmissionGate PoolAccounting AccountingLogic.
From S2P Require Import AccountingSpecs Types Hooks PoolJob FixedInner FixedLogic FixedWorker.
From S2P Require Import UserSpecs FixedSpecs FixedLive.
Local Open Scope Z_scope.

(** Every action of [p], run by thread [k], is possible and relates its states by [R]. *)
Fixpoint acts {S A} (k : nat) (R : S -> S -> Prop) (p : prog S A) : Prop :=
  match p with
  | Ret _ | Panic => True
  | Act f c => (forall s, match f k s with Some (_, s') => R s s' | None => False end) /\
      forall b, acts k R (c b)
  | Choose c => forall b, acts k R (c b)
  | Loop body x c => (forall x, acts k R (body x)) /\ forall y, acts k R (c y)
  | Spawn _ _ _ _ | Join _ _ => False
  end.

Lemma acts_bind {S A B} k R (p : prog S A) (f : A -> prog S B) :
  acts k R p -> (forall a, acts k R (f a)) -> acts k R (bind p f).
Proof. intros Hp Hf. induction p; cbn in *; try done; try (by apply Hf); try destruct Hp; eauto. Qed.

(** Proves that a piece of code only does actions of a certain kind. *)
Ltac solve_acts tac :=
  repeat first
    [ progress intros
    | apply acts_bind
    | exact Logic.I
    | match goal with
      | |- _ /\ _ => split
      | |- acts _ _ (match ?x with _ => _ end) => destruct x
      | |- acts _ _ (Act _ _) => split; [intros; cbn beta; try (solve [tac])|intros]
      | |- acts _ _ _ => progress cbn [acts]
      | |- acts ?k ?R ?p => let p' := eval hnf in p in progress change (acts k R p')
      end ].

(** The same when every action is known field by field. *)
Ltac view_step := unfold checked_add, checked_sub; repeat case_match; simplify_eq; repeat split;
  unfold lc, live, pending, word, queued, slots, running, cancelling, closed, mon, acc, locked; cbn;
  rewrite ?get_set; cbn; solve [done|lia].
Ltac view_acts := solve_acts ltac:(view_step).

(** Decides membership in a concrete list. *)
Ltac in_list := refine (bool_decide_unpack _ _); exact Logic.I.

Section rules.
Context {S M Q : Type} `{MonitorLaws M} `{Injector Q PoolJob}.
Context `{!InjectorLaws Q PoolJob}.
Variable self : lens S (FixedThreadPoolInner M Q).
Context `{!LensLaws self} (T : nat) (cap : option Z) (size : nat) (K : list kind).
Context (Fin FinP : ltok -> Prop).
Local Abbreviation I := (live_inv self T cap size K).
Local Abbreviation ok := (live_ok self size K).
Local Abbreviation LWP := (WPB (may_wait self) may_await I Fin FinP).
Local Abbreviation SI := (pool_inv self T cap size).
Local Abbreviation SWP := (WP SI (fun _ => True) (fun _ => True)).
Local Abbreviation holds := (holds lt_acct_l).
Implicit Types (o : bool) (k : nat) (g : ltok) (G : list ltok) (s : S) (h : list S).

Lemma lookup_self G k g g' : G !! k = Some g -> <[k := g']> G !! k = Some (g' : ltok).
Proof. intros Hk. apply list_lookup_insert_eq. by eapply lookup_lt_Some. Qed.

(** One action: the pool's share of the step is a specification of the safety
    proofs, the rest is shown here. *)
Lemma LP_act k {B R} (f : nat -> S -> option (B * S)) (kont : B -> prog S R) g Q' E
    (Q0 : B -> ptok -> Prop) :
  SWP k (Act f Ret) (lt_pool g) Q0 (fun _ => False) ->
  (forall h s G, in_time h -> I h s G -> G !! k = Some g ->
     match f k s with
     | None => may_wait self k s g
     | Some (b, s') => forall x', Q0 b x' -> SI (s :: h) s' (<[k := x']> (lt_pool <$> G)) ->
         exists g', lt_pool g' = x' /\ ok s' (<[k := g']> G) /\ LWP k (kont b) g' Q' E
     end) ->
  LWP k (Act f kont) g Q' E.
Proof.
  intros HS Hf. apply WP_act. intros h s G Ht HI Hk. specialize (Hf h s G Ht HI Hk).
  assert (Hx : (lt_pool <$> G) !! k = Some (lt_pool g)) by (by rewrite list_lookup_fmap, Hk).
  specialize (HS 2%nat h s (lt_pool <$> G) Ht (proj1 HI) Hx).
  destruct (f k s) as [[b s']|]; [|done]. destruct HS as (x' & HI' & Hq).
  destruct (Hf x' Hq HI') as (g' & <- & HL & Hk'). exists g'. split; [|done].
  split; [by rewrite list_fmap_insert|done].
Qed.

(** An action that only reads. *)
Lemma LP_read k {B R} (f : S -> B) (kont : B -> prog S R) g Q' E :
  (forall h s G, in_time h -> I h s G -> G !! k = Some g ->
     exists g', lt_pool g' = lt_pool g /\ ok s (<[k := g']> G) /\ LWP k (kont (f s)) g' Q' E) ->
  LWP k (Act (fun _ s => Some (f s, s)) kont) g Q' E.
Proof.
  intros Hf. apply (LP_act _ _ _ _ _ _ (fun _ x => x = lt_pool g)).
  - client WP_get. intros b. by apply WP_ret.
  - intros h s G Ht HI Hk x' -> _. by apply (Hf h s G).
Qed.

(** ... and learns nothing. *)
Lemma LP_get k {B R} (f : S -> B) (kont : B -> prog S R) g Q' E :
  (forall b, LWP k (kont b) g Q' E) -> LWP k (Act (fun _ s => Some (f s, s)) kont) g Q' E.
Proof.
  intros Hk. apply LP_read. intros h s G Ht [_ HL] Hg. exists g. split; [done|].
  rewrite list_insert_id by done. done.
Qed.

Lemma LP_load k {B} (l : lens S B) g (Q' : B -> ltok -> Prop) E :
  (forall b, Q' b g) -> LWP k (load l) g Q' E.
Proof. intros HQ. apply LP_get. intros b. by apply WP_ret. Qed.

(** *** Owing more *)

Lemma visible_same s k g g' :
  lt_pool g' = lt_pool g -> lt_kind g' = lt_kind g -> lt_handles g' = lt_handles g ->
  lt_spare g' = lt_spare g -> told self (lt_seen g') s ->
  visible_step self s s k g g'.
Proof. intros Hp Hk Hh Hs Hl. split; rewrite ?Hp, ?Hk, ?Hh, ?Hs; auto. Qed.

Definition awake (m : mode) : Prop := forall r, m <> Parked r.

(** Nobody relies on [c]. *)
Definition unneeded s G (c : cond) : Prop :=
  forall u gu r, G !! u = Some gu -> relies self s u gu r -> side gu r -> c ∉ conds r.

(** Changing the ghost state of thread [k] alone: a debt may be dropped when its
    condition holds or nobody relies on it. *)
Lemma live_retoken s G k g g' :
  ok s G -> G !! k = Some g -> lt_pool g' = lt_pool g -> lt_kind g' = lt_kind g ->
  lt_handles g' = lt_handles g -> lt_spare g' = lt_spare g ->
  told self (lt_seen g') s ->
  awake (lt_mode g) -> awake (lt_mode g') -> inside (lt_mode g') = inside (lt_mode g) ->
  (forall r, lt_mode g' = Ready r -> side g' r /\ forall c, c ∈ conds r ->
     bcond self c s \/ exists r0, lt_mode g = Ready r0 /\ c ∈ conds r0) ->
  (forall c, lt_owes g c = true -> lt_owes g' c = true \/ bcond self c s \/ unneeded s G c) ->
  ok s (<[k := g']> G).
Proof.
  intros HL Hk Hp Hkd Hh Hsp Hpast Ha Ha' Hi Hready Howes.
  assert (Hkeep : forall u gu r c, G !! u = Some gu -> relies self s u gu r -> c ∈ conds r ->
    met self c s (<[k := g']> G)).
  { intros u gu r c Hu Hr Hc. destruct (lo_met _ _ _ _ _ HL u gu r Hu Hr) as [Hside Hm].
    specialize (Hm c Hc). destruct (lt_owes g c) eqn:Ho.
    - destruct (Howes c Ho) as [Ho'|[Hb|Hn]]; [|by left|by destruct (Hn u gu r Hu Hr Hside)].
      eapply met_keep; [done..|]. by right; left.
    - eapply met_keep; [done..|]. right; right. split; [done|congruence]. }
  eapply live_update; try done.
  - by apply visible_same.
  - intros r Hr. destruct (Hready r Hr) as [Hside Hc]. split; [done|].
    intros c Hc'. destruct (Hc c Hc') as [Hb|(r0 & Hr0 & Hc0)]; [by left|].
    eapply (Hkeep k g r0); [done|by left|done].
  - intros u gu r _ Hu Hr _ _ c Hc. by eapply Hkeep.
Qed.

Lemma ok_owing s G k g cs : ok s G -> G !! k = Some g -> awake (lt_mode g) ->
  ok s (<[k := owing cs g]> G).
Proof.
  intros HL Hk Ha. eapply live_retoken; try done.
  - exact (lo_seen _ _ _ _ _ HL k g Hk).
  - intros r Hr. split; [exact (proj1 (lo_met _ _ _ _ _ HL k g r Hk (or_introl Hr)))|].
    intros c Hc. right. by exists r.
  - intros c Hc. left. cbn. rewrite Hc. by rewrite orb_true_r.
Qed.

Definition acts_first {A} (p : prog S A) : bool := match p with Act _ _ => true | _ => false end.

(** A thread may owe more than it has to, from its next action on. *)
Lemma LP_owing cs k {A} (p : prog S A) g Q' E :
  acts_first p = true -> awake (lt_mode g) ->
  LWP k p (owing cs g) Q' E -> LWP k p g Q' E.
Proof.
  intros Hp Ha Hw. destruct p as [|B|B f kont| | | |]; try done. intros [|n]; [done|].
  cbn. intros h s G Ht [HI HL] Hk.
  assert (HI' : I h s (<[k := owing cs g]> G)).
  { split; [|by apply ok_owing]. rewrite list_fmap_insert. cbn.
    rewrite list_insert_id; [done|]. by rewrite list_lookup_fmap, Hk. }
  specialize (Hw (Datatypes.S n) h s _ Ht HI' (lookup_self _ _ _ _ Hk)).
  destruct (f k s) as [[b s']|]; [|exact Hw]. destruct Hw as (g' & HI2 & Hk2).
  exists g'. split; [|exact Hk2]. by rewrite list_insert_insert_eq in HI2.
Qed.

(** *** Code that only moves submissions and jobs *)

(** Neither the monitor, the lifecycle nor the live workers change, and closed
    admission stays closed. *)
Record frame_step (s s' : S) : Prop := {
  fs_sync : mon_sync (state (get self s')) = mon_sync (state (get self s));
  fs_lc : lc self s' = lc self s;
  fs_live : live self s' = live self s;
  fs_closed : closed self s -> closed self s';
}.

(** Jobs move: only slots and the counts of running and cancelling jobs change. *)
Record slots_move (s s' : S) : Prop := {
  sm_sync : mon_sync (state (get self s')) = mon_sync (state (get self s));
  sm_lc : lc self s' = lc self s;
  sm_live : live self s' = live self s;
  sm_pending : pending self s' = pending self s;
  sm_word : word self s' = word self s;
  sm_queued : queued self s' = queued self s;
}.

(** ... and the count of queued ones. *)
Record jobs_move (s s' : S) : Prop := {
  jm_sync : mon_sync (state (get self s')) = mon_sync (state (get self s));
  jm_lc : lc self s' = lc self s;
  jm_live : live self s' = live self s;
  jm_pending : pending self s' = pending self s;
  jm_word : word self s' = word self s;
}.

(** Nothing changes that anybody waits for. *)
Record same_view (s s' : S) : Prop := {
  sv_slots : slots self s' = slots self s;
  sv_running : running self s' = running self s;
  sv_cancelling : cancelling self s' = cancelling self s;
  sv_rest : slots_move s s';
}.

(** What a piece of code must owe to make steps [R]. *)
Definition pays (R : S -> S -> Prop) (ds : list cond) : Prop :=
  forall s s', R s s' -> frame_step s s' /\ forall c, c ∉ ds -> bcond self c s -> bcond self c s'.

Lemma slots_pay : pays slots_move [CJoin; CTerm].
Proof.
  intros s s' [Hs Hl Hv Hp Hw Hq]. split; [split; [done..|unfold closed; by rewrite Hw]|].
  intros c Hc. destruct c; cbn; unfold inflight; rewrite ?Hl, ?Hp, ?Hw, ?Hq; try done;
    destruct Hc; in_list.
Qed.

Lemma jobs_pay : pays jobs_move [CJoin; CTerm; CWork].
Proof.
  intros s s' [Hs Hl Hv Hp Hw]. split; [split; [done..|unfold closed; by rewrite Hw]|].
  intros c Hc. destruct c; cbn; unfold inflight; rewrite ?Hl, ?Hp, ?Hw; try done;
    destruct Hc; in_list.
Qed.

Lemma same_pay : pays same_view [].
Proof.
  intros s s' [Hs Hr Hc [Hsy Hl Hv Hp Hw Hq]]. split; [split; [done..|unfold closed; by rewrite Hw]|].
  intros c _. destruct c; cbn; unfold busy, inflight;
    by rewrite ?Hl, ?Hv, ?Hp, ?Hw, ?Hq, ?Hs, ?Hr, ?Hc.
Qed.

Lemma live_total h s G : SI h s (lt_pool <$> G) -> live self s = Z.of_nat (count_total CLive (lt_pool <$> G)).
Proof. intros (q & [_ _ _ Hc _]). by destruct (Hc CLive) as [Hl _]. Qed.

(** A step of such code keeps the invariant. *)
Lemma moves_keep h h' s s' G k g g' :
  SI h s (lt_pool <$> G) -> SI h' s' (lt_pool <$> <[k := g']> G) -> ok s G -> G !! k = Some g ->
  g' = set lt_pool_l (lt_pool g') g ->
  lt_mode g = Out \/ lt_mode g = In \/ lt_mode g = Ready RRun ->
  frame_step s s' ->
  (forall c, (bcond self c s -> bcond self c s') \/ lt_owes g c = true) ->
  ok s' (<[k := g']> G).
Proof.
  intros HI HI' HL Hk Hg' Hm [Hsy Hlc Hli Hcl] Hc.
  assert (exists x, g' = set lt_pool_l x g) as [x ->] by eauto. clear Hg'.
  assert (Hkeep : forall c, met self c s G -> met self c s' (<[k := set lt_pool_l x g]> G)).
  { intros c Hmet. eapply met_keep; [done..|]. destruct (Hc c); auto. }
  eapply live_update; try done.
  - pose proof (live_total _ _ _ HI) as Hl1. pose proof (live_total _ _ _ HI') as Hl2.
    split; rewrite ?Hlc; try done.
    + eapply told_mono; [by apply (lo_seen _ _ _ _ _ HL k g Hk)|by rewrite Hlc|done].
    + by left.
    + intros _. rewrite list_fmap_insert in Hl2.
      pose proof (count_total_insert CLive (lt_pool <$> G) k (lt_pool g) x) as Hl3.
      rewrite list_lookup_fmap, Hk in Hl3. specialize (Hl3 eq_refl). cbn in *. lia.
  - unfold owner. by rewrite Hsy.
  - intros t. unfold asleep. by rewrite Hsy.
  - intros r. destruct Hm as [->|[->| ->]]; done.
  - intros r. cbn. destruct Hm as [->|[->| ->]]; done.
  - intros r Hr. cbn in Hr. destruct Hm as [Hm|[Hm|Hm]]; rewrite Hm in Hr; simplify_eq.
    split; [done|]. intros c Hcc. apply Hkeep.
    by apply (lo_met _ _ _ _ _ HL k g RRun Hk (or_introl Hm)).
  - intros u gu r _ _ _ _ Hmet c Hcc. by apply Hkeep, Hmet.
Qed.
(** Code whose actions keep the invariant, whatever they do to the thread's
    contribution to the pool, has the specification the safety proofs give it. *)
Lemma lift_wp k (R : S -> S -> Prop) g {A} (p : prog S A) x (Q0 : A -> ptok -> Prop) (E0 : ptok -> Prop) Q' E n :
  acts k R p ->
  (forall h h' s s' G x x', SI h s (lt_pool <$> G) -> SI h' s' (lt_pool <$> <[k := set lt_pool_l x' g]> G) ->
     ok s G -> G !! k = Some (set lt_pool_l x g) -> R s s' -> ok s' (<[k := set lt_pool_l x' g]> G)) ->
  wp may_block may_join SI (fun _ => True) (fun _ => True) n k p x Q0 E0 ->
  (forall a x, Q0 a x -> Q' a (set lt_pool_l x g)) -> (forall x, E0 x -> E (set lt_pool_l x g)) ->
  wp (may_wait self) may_await I Fin FinP n k p (set lt_pool_l x g) Q' E.
Proof.
  intros Hp Hkeep Hw HQ HE. revert A p x Q0 Q' HQ Hp Hw. induction n as [|n IH]; intros A p x Q0 Q' HQ Hp Hw; [done|].
  destruct p as [a| |B f c|c|nm st ch c|u c|X B body y c]; cbn [wp acts] in Hw, Hp |- *; try done; try (by auto).
  - intros h s G Ht [HI HL] Hk. destruct Hp as [Hf Hc].
    assert (Hx : (lt_pool <$> G) !! k = Some x) by (by rewrite list_lookup_fmap, Hk).
    specialize (Hw h s _ Ht HI Hx). specialize (Hf s). destruct (f k s) as [[b s']|]; [|done].
    destruct Hw as (x' & HI' & Hk'). exists (set lt_pool_l x' g).
    assert (Hfm : lt_pool <$> <[k := set lt_pool_l x' g]> G = <[k := x']> (lt_pool <$> G)).
    { by rewrite list_fmap_insert. }
    split; [split; [by rewrite Hfm|]|by eapply IH].
    eapply (Hkeep h (s :: h) s s' G x x'); try done. by rewrite Hfm.
  - intros b. by eapply IH.
  - eapply IH; [done| |exact Hw]. apply acts_bind; [apply Hp|]. intros [y'|b]; [exact Hp|apply Hp].
Qed.

Local Abbreviation sholds := (AccountingSpecs.holds pt_acct_l).

Lemma lift_holds g0 r x : sholds (lt_pool g0) r x -> holds g0 r (set lt_pool_l x g0).
Proof.
  intros [Hx1 Hx2]. split; [exact Hx1|]. cbn. f_equal. by rewrite Hx2 at 1.
Qed.

Lemma holds_pool g0 r g : holds g0 r g -> sholds (lt_pool g0) r (lt_pool g).
Proof. intros [Hx1 Hx2]. split; [exact Hx1|]. by rewrite Hx2 at 1. Qed.

Lemma holds_rest g0 r g : holds g0 r g -> g = set lt_pool_l (lt_pool g) g0.
Proof. intros [_ Hx2]. rewrite Hx2 at 1. cbn. by rewrite Hx2. Qed.

(** Where the code that moves jobs may run. *)
Definition free_mode (m : mode) : Prop := m = Out \/ m = In \/ m = Ready RRun.

(** Code that moves jobs, with its debts taken. *)
Lemma LP_pays k (R : S -> S -> Prop) ds {A} (p : prog S A) g (Q0 : A -> ptok -> Prop) (E0 : ptok -> Prop) Q' E :
  pays R ds -> acts k R p -> free_mode (lt_mode g) -> (forall c, c ∈ ds -> lt_owes g c = true) ->
  SWP k p (lt_pool g) Q0 E0 ->
  (forall a x, Q0 a x -> Q' a (set lt_pool_l x g)) -> (forall x, E0 x -> E (set lt_pool_l x g)) ->
  LWP k p g Q' E.
Proof.
  intros HR Hp Hm Ho Hspec HQ HE n. assert (Hself : set lt_pool_l (lt_pool g) g = g) by (by destruct g).
  rewrite <- Hself at 1.
  eapply (lift_wp k R g p (lt_pool g)); [exact Hp| |apply Hspec|exact HQ|exact HE].
  intros h h' s s' G x x' HI HI' HL Hk Hr. destruct (HR s s' Hr) as [Hf Hc].
  eapply (moves_keep h h' s s' G k); try done. intros c.
  destruct (decide (c ∈ ds)) as [Hin|Hin]; [right; by apply Ho|left; auto].
Qed.

(** The same for code specified by the accounting contribution it leaves. *)
Lemma LP_moves k R ds {A} (p : prog S A) g0 r g (P : A -> tok -> Prop) Q' E :
  pays R ds -> acts k R p -> free_mode (lt_mode g0) -> (forall c, c ∈ ds -> lt_owes g0 c = true) ->
  holds g0 r g ->
  (forall x0 x, sholds x0 r x -> SWP k p x (fun a x' => exists r', P a r' /\ sholds x0 r' x') (fun _ => False)) ->
  (forall a r' g', P a r' -> holds g0 r' g' -> Q' a g') ->
  LWP k p g Q' E.
Proof.
  intros HR Hp Hm Ho Hg Hspec HQ. rewrite (holds_rest _ _ _ Hg).
  eapply (LP_pays k R ds p); try done; [apply (Hspec (lt_pool g0)); exact (holds_pool _ _ _ Hg)| |done].
  intros a x (r' & HPa & Hx). eapply HQ; [exact HPa|]. exact (lift_holds g0 _ _ Hx).
Qed.

(** Code that touches nothing anybody waits for. *)
Lemma LP_same k {A} (p : prog S A) g (Q0 : A -> ptok -> Prop) (E0 : ptok -> Prop) Q' E :
  acts k same_view p -> free_mode (lt_mode g) -> SWP k p (lt_pool g) Q0 E0 ->
  (forall a x, Q0 a x -> Q' a (set lt_pool_l x g)) -> (forall x, E0 x -> E (set lt_pool_l x g)) ->
  LWP k p g Q' E.
Proof. intros Hp Hm. eapply (LP_pays k same_view []); try done; [apply same_pay|set_solver]. Qed.

(** *** The monitor *)

(** Only the monitor's lock and wait queue change. *)
Record only_sync (s s' : S) : Prop := {
  os_data : mon_data (state (get self s')) = mon_data (state (get self s));
  os_accounting : accounting (get self s') = accounting (get self s);
  os_pending : pending_worker_wakes (get self s') = pending_worker_wakes (get self s);
}.

Lemma only_sync_bcond s s' c : only_sync s s' -> bcond self c s -> bcond self c s'.
Proof.
  intros [Hd Ha Hp]. destruct c; cbn; unfold busy, inflight, word, slots, queued, running, cancelling,
    pending, lc, live; by rewrite ?Hd, ?Ha, ?Hp.
Qed.

Lemma only_sync_visible s s' k g g' G :
  only_sync s s' -> ok s G -> G !! k = Some g ->
  lt_pool g' = lt_pool g -> lt_kind g' = lt_kind g -> lt_handles g' = lt_handles g ->
  lt_spare g' = lt_spare g -> lt_seen g' = lt_seen g \/ lt_seen g' = Unseen -> visible_step self s s' k g g'.
Proof.
  intros [Hd Ha Hp] HL Hk Hx Hkd Hh Hsp Hpa.
  split; rewrite ?Hx, ?Hkd, ?Hh, ?Hsp; unfold closed, word, lc; rewrite ?Hd, ?Ha; try done.
  - destruct Hpa as [-> | ->]; [|done]. eapply told_mono; [by apply (lo_seen _ _ _ _ _ HL k g Hk)|..];
      unfold lc, closed, word; by rewrite ?Hd, ?Ha.
  - by left.
Qed.

Record same_thread (g g' : ltok) : Prop := {
  st_pool : lt_pool g' = lt_pool g;
  st_kind : lt_kind g' = lt_kind g;
  st_handles : lt_handles g' = lt_handles g;
  st_spare : lt_spare g' = lt_spare g;
  st_seen : lt_seen g' = lt_seen g \/ lt_seen g' = Unseen;
}.

(** Taking part [t] from the invariant after a change of thread [k]. *)
Lemma insert_cases G k g' t g1 : <[k := g']> G !! t = Some g1 -> t = k /\ g1 = g' \/ t <> k /\ G !! t = Some g1.
Proof. intros [(-> & <- & _)|[? ?]]%list_lookup_insert_Some; [by left|right; split; congruence]. Qed.

Lemma live_sync s s' G k g g' :
  ok s G -> G !! k = Some g -> only_sync s s' -> same_thread g g' ->
  ((forall c, lt_owes g c = true -> lt_owes g' c = true) \/ (forall t, asleep self s' t = false)) ->
  (forall u, u <> k -> asleep self s' u = true -> asleep self s u = true) ->
  (owner self s = Some k \/ owner self s = None) ->
  (owner self s' = if inside (lt_mode g') then Some k else None) ->
  (asleep self s' k = true -> exists r,
     lt_mode g' = Parked r /\ lt_mode g = Ready r /\ parkable g' r /\ lt_seen g' = lt_seen g) ->
  (forall r, lt_mode g' <> Ready r) ->
  ok s' (<[k := g']> G).
Proof.
  intros HL Hk Hos [Hx Hkd Hh Hsp Hpa] Howes Hasleep Ho Ho' Hpark Hnr.
  pose proof (only_sync_visible _ _ _ _ g' _ Hos HL Hk Hx Hkd Hh Hsp Hpa) as Hv.
  destruct (visible_keeps _ _ _ _ _ _ _ _ _ HL Hk Hv) as (? & ? & ? & ? & ?).
  pose proof (lookup_self _ _ _ g' Hk) as Hin.
  assert (Hout : forall t g1, t <> k -> G !! t = Some g1 -> inside (lt_mode g1) = false).
  { intros t g1 Hne Ht. destruct (inside (lt_mode g1)) eqn:Hi; [|done].
    pose proof (lo_inside _ _ _ _ _ HL t g1 Ht Hi). destruct Ho; congruence. }
  split; try assumption.
  - intros t Ht. rewrite Ho' in Ht. destruct (inside (lt_mode g')) eqn:Hi; simplify_eq. by exists g'.
  - intros t g1 Ht Hi. apply insert_cases in Ht as [[-> ->]|[Hne Ht]]; [by rewrite Ho', Hi|].
    by rewrite (Hout t g1 Hne Ht) in Hi.
  - intros t Ht. destruct (decide (t = k)) as [->|Hne].
    + destruct (Hpark Ht) as (r & ? & _ & ? & _). by exists g', r.
    + destruct (lo_asleep _ _ _ _ _ HL t) as (g1 & r & ? & ? & ?); [by apply Hasleep|].
      exists g1, r. by rewrite list_lookup_insert_ne by done.
  - assert (Hmet : forall t c, asleep self s' t = true -> met self c s G -> met self c s' (<[k:=g']> G)).
    { intros t c Ht Hm. eapply met_keep; [done..|]. destruct Howes as [Howes|Hno]; [|by rewrite Hno in Ht].
      right; right. split; [by apply only_sync_bcond|auto]. }
    intros t g1 r Ht Hr. apply insert_cases in Ht as [[-> ->]|[Hne Ht]].
    + destruct Hr as [Hr|[Hr Ha]]; [by destruct (Hnr r)|]. destruct (Hpark Ha) as (r' & Hm & Hm' & _ & Hsn).
      assert (r' = r) as -> by congruence.
      destruct (lo_met _ _ _ _ _ HL k g r Hk (or_introl Hm')) as [Hs Hm2].
      split; [destruct r; cbn in *; by rewrite ?Hx, ?Hsn|eauto].
    + destruct Hr as [Hr|[Hr Ha]].
      { assert (inside (lt_mode g1) = false) as Hi by (by eapply Hout). by rewrite Hr in Hi. }
      destruct (lo_met _ _ _ _ _ HL t g1 r Ht (or_intror (conj Hr (Hasleep t Hne Ha)))) as [Hs Hm].
      split; [done|eauto].
Qed.

Definition set_sync (m : M) (s : S) : S := set (mon self ⊚ mon_sync_l) m s.

Lemma only_sync_set m s : only_sync s (set_sync m s) /\ mon_sync (state (get self (set_sync m s))) = m.
Proof.
  unfold set_sync, mon. cbn. rewrite !get_set. split; [|done]. split; cbn; by rewrite get_set.
Qed.

Lemma same_thread_with m g : same_thread g (with_mode m g).
Proof. split; auto. Qed.
#[local] Hint Resolve same_thread_with : core.

(** An action on the monitor that blocks only as the monitor says. *)
Lemma LP_try k (f : nat -> M -> option M) g g' (Q' : unit -> ltok -> Prop) E :
  same_thread g g' ->
  (forall s G, ok s G -> G !! k = Some g ->
     let m := mon_sync (state (get self s)) in
     match f k m with
     | None => may_wait self k s g
     | Some m' => ok (set_sync m' s) (<[k := g']> G)
     end) ->
  Q' tt g' -> LWP k (mon_try (mon self) f) g Q' E.
Proof.
  intros [Hx _ _ _ _] Hf HQ. unfold mon_try. apply (LP_act _ _ _ _ _ _ (fun _ x => x = lt_pool g)).
  - client WP_mon_try. done.
  - intros h s G Ht [_ HL] Hk. specialize (Hf s G HL Hk). cbn in Hf |- *.
    destruct (f k _) as [m'|]; [|done]. intros x' -> _. exists g'. split; [done|]. split; [done|].
    by apply WP_ret.
Qed.

Lemma LP_do k (f : nat -> M -> M) g g' (Q' : unit -> ltok -> Prop) E :
  same_thread g g' ->
  (forall s G, ok s G -> G !! k = Some g ->
     ok (set_sync (f k (mon_sync (state (get self s)))) s) (<[k := g']> G)) ->
  Q' tt g' -> LWP k (mon_do (mon self) f) g Q' E.
Proof.
  intros [Hx _ _ _ _] Hf HQ. unfold mon_do. apply (LP_act _ _ _ _ _ _ (fun _ x => x = lt_pool g)).
  - client WP_mon_do. done.
  - intros h s G Ht [_ HL] Hk x' -> _. exists g'. split; [done|]. split; [by apply Hf|by apply WP_ret].
Qed.

Lemma owner_of_inside s G k g : ok s G -> G !! k = Some g -> inside (lt_mode g) = true -> owner self s = Some k.
Proof. intros HL. apply (lo_inside _ _ _ _ _ HL). Qed.

Lemma owner_not_outside s G k g u : ok s G -> G !! k = Some g -> inside (lt_mode g) = false ->
  owner self s = Some u -> u <> k.
Proof.
  intros HL Hk Hi Ho ->. destruct (lo_owner _ _ _ _ _ HL k Ho) as (g1 & Hg1 & Hi1). congruence.
Qed.

Ltac sync_state m s :=
  let Hos := fresh "Hos" in let Hsy := fresh "Hsy" in
  destruct (only_sync_set m s) as [Hos Hsy].

Lemma LP_lock k g (Q' : unit -> ltok -> Prop) E :
  lt_mode g = Out -> Q' tt (with_mode In g) -> LWP k (monitor_lock (mon self)) g Q' E.
Proof.
  intros Hm HQ. eapply LP_try; [apply (same_thread_with In)| |exact HQ]. intros s G HL Hk m.
  destruct (mon_try_lock k m) as [m'|] eqn:Htry.
  - destruct (mon_lock_some k m m' Htry) as (Hfree & Hown & Has). sync_state m' s.
    eapply live_sync; try done; unfold owner, asleep; rewrite ?Hsy; try done.
    + by left.
    + intros u _. by rewrite Has.
    + by right.
    + rewrite Has. intros Ha. destruct (lo_asleep _ _ _ _ _ HL k Ha) as (g1 & r & Hg1 & Hp & _).
      simplify_eq. congruence.
  - left. destruct (owner self s) as [u|] eqn:Ho.
    + exists u. split; [done|]. eapply owner_not_outside; [exact HL|exact Hk|by rewrite Hm|exact Ho].
    + destruct (mon_lock_free k m Ho). congruence.
Qed.

Lemma LP_unlock k g (Q' : unit -> ltok -> Prop) E :
  inside (lt_mode g) = true -> Q' tt (with_mode Out g) -> LWP k (monitor_unlock (mon self)) g Q' E.
Proof.
  intros Hm HQ. eapply LP_do; [apply (same_thread_with Out)| |exact HQ]. intros s G HL Hk.
  pose proof (owner_of_inside _ _ _ _ HL Hk Hm) as Ho.
  destruct (mon_unlock_free k _ Ho) as [Hfree Has]. sync_state (mon_unlock k (mon_sync (state (get self s)))) s.
  eapply live_sync; try done; unfold owner, asleep; rewrite ?Hsy, ?Has; try done.
  - by left.
  - intros u _. by rewrite Has.
  - by left.
  - intros Ha. destruct (lo_asleep _ _ _ _ _ HL k Ha) as (g1 & r & Hg1 & Hp & _).
    simplify_eq. by rewrite Hp in Hm.
Qed.

(** After a notification nobody sleeps, so nothing is owed. *)
Lemma LP_notify_all k g g' (Q' : unit -> ltok -> Prop) E :
  lt_mode g = In -> same_thread g g' -> lt_mode g' = In -> Q' tt g' ->
  LWP k (notify_all (mon self)) g Q' E.
Proof.
  intros Hm Hg Hm' HQ. eapply LP_do; [exact Hg| |exact HQ]. intros s G HL Hk.
  assert (owner self s = Some k) as Ho by (eapply owner_of_inside; [done..|by rewrite Hm]).
  sync_state (mon_notify_all (mon_sync (state (get self s)))) s.
  eapply live_sync; try done; unfold owner, asleep; rewrite ?Hsy, ?mon_notify_owner, ?Hm'; try done.
  - right. intros t. by rewrite mon_notify_wakes.
  - intros u _. by rewrite mon_notify_wakes.
  - by left.
  - by rewrite mon_notify_wakes.
Qed.

Lemma LP_park k r g (Q' : unit -> ltok -> Prop) E :
  lt_mode g = Ready r -> parkable (with_mode (Parked r) g) r -> Q' tt (with_mode (Parked r) g) ->
  LWP k (mon_do (mon self) mon_park) g Q' E.
Proof.
  intros Hm Hpk HQ. eapply LP_do; [apply (same_thread_with (Parked r))| |exact HQ].
  intros s G HL Hk. assert (owner self s = Some k) as Hown by (eapply owner_of_inside; [done..|by rewrite Hm]).
  destruct (mon_park_asleep k _ Hown) as (Hfree & Hself & Has).
  sync_state (mon_park k (mon_sync (state (get self s)))) s.
  eapply live_sync; try done; unfold owner, asleep; rewrite ?Hsy; try done.
  - by left.
  - intros u Hne. by rewrite Has.
  - by left.
  - intros _. by exists r.
Qed.

(** Leaving the wait queue. *)
Lemma resumed k s G m' r g g' :
  ok s G -> G !! k = Some (with_mode (Parked r) g) -> same_thread g g' -> lt_mode g' = In ->
  (forall c, lt_owes g c = true -> lt_owes g' c = true) ->
  let m := mon_sync (state (get self s)) in
  mon_owner m = None -> mon_owner m' = Some k -> mon_asleep m' k = false ->
  (forall u, u <> k -> mon_asleep m' u = mon_asleep m u) -> ok (set_sync m' s) (<[k := g']> G).
Proof.
  intros HL Hk Hg Hm' Ho m Hfree Hown Hself Has. sync_state m' s.
  eapply live_sync; [exact HL|exact Hk|try done..]; unfold owner, asleep; rewrite ?Hsy, ?Hm'; try done.
  - by destruct Hg.
  - by left.
  - intros u Hne. by rewrite Has.
  - by right.
  - by rewrite Hself.
Qed.

(** An attempt to leave the wait queue that may fail. *)
Lemma LP_attempt k f r g g' (Q' : bool -> ltok -> Prop) E :
  (forall t m m', f t m = Some m' -> mon_owner m = None /\ mon_owner m' = Some t /\ mon_asleep m' t = false /\
    (forall u, u <> t -> mon_asleep m' u = mon_asleep m u)) ->
  same_thread g g' -> lt_mode g' = In -> (forall c, lt_owes g c = true -> lt_owes g' c = true) ->
  Q' true g' -> Q' false (with_mode (Parked r) g) ->
  LWP k (mon_attempt (mon self) f) (with_mode (Parked r) g) Q' E.
Proof.
  intros Hf Hg Hm' Ho HQt HQf. unfold mon_attempt. apply (LP_act _ _ _ _ _ _ (fun _ x => x = lt_pool g)).
  - client WP_mon_attempt. done.
  - intros h s G Ht [_ HL] Hk. cbn. destruct (f k _) as [m'|] eqn:Hres; intros x' -> _.
    + destruct (Hf _ _ _ Hres) as (? & ? & ? & ?). exists g'. split; [by destruct Hg|].
      split; [by eapply (resumed k s G m' r g g')|by apply WP_ret].
    + exists (with_mode (Parked r) g). split; [done|]. split; [by rewrite list_insert_id|by apply WP_ret].
Qed.

Lemma LP_wait k r g g' (Q' : unit -> ltok -> Prop) E :
  lt_mode g = Ready r -> r <> RTimed -> parkable (with_mode (Parked r) g) r ->
  same_thread g g' -> lt_mode g' = In -> (forall c, lt_owes g c = true -> lt_owes g' c = true) ->
  Q' tt g' -> LWP k (wait (mon self)) g Q' E.
Proof.
  intros Hm Hrt Hpk Hg Hm' Ho HQ. apply WP_bind. eapply LP_park; [exact Hm|exact Hpk|].
  eapply (LP_try k mon_resume (with_mode (Parked r) g) g'); [by destruct Hg| |exact HQ].
  intros s G HL Hk m. destruct (mon_resume k m) as [m'|] eqn:Hres.
  - destruct (mon_resume_some k m m' Hres) as (? & ? & ? & ?). by eapply (resumed k s G m' r g g').
  - destruct (owner self s) as [u|] eqn:Hown.
    + left. exists u. split; [done|]. by eapply owner_not_outside.
    + right. destruct (asleep self s k) eqn:Ha; [split; [done|by exists r]|].
      destruct (mon_resume_free k m Hown Ha). congruence.
Qed.

(** A section that holds the monitor; it does not panic and leaves holding it. *)
Lemma LP_with_lock k {B} (body : prog S B) g (Q' : B -> ltok -> Prop) E :
  lt_mode g = Out ->
  LWP k body (with_mode In g) (fun b g' => inside (lt_mode g') = true /\ Q' b (with_mode Out g')) (fun _ => False) ->
  LWP k (with_lock (mon self) body) g Q' E.
Proof.
  intros Hm Hb. apply WP_bind, LP_lock; [done|]. apply WP_finally.
  eapply WP_mono; [exact Hb| |done]. intros b g' [Hi HQ]. by apply LP_unlock.
Qed.

(** [lock().notify_all()] settles everything. *)
Lemma LP_notify k g g' (Q' : unit -> ltok -> Prop) E :
  lt_mode g = Out -> same_thread g g' -> lt_mode g' = Out -> Q' tt g' ->
  LWP k (lock_notify_all (mon self)) g Q' E.
Proof.
  intros Hm [] Hm' HQ. apply WP_bind, LP_lock; [done|]. apply WP_bind.
  eapply (LP_notify_all _ _ (with_mode In g')); [done|done|done|]. apply LP_unlock; [done|].
  replace (with_mode Out (with_mode In g')) with g'; [done|]. destruct g'; cbn in *; by subst.
Qed.
End rules.
