(* ===== verification/FixedLiveJobs.v ===== *)
(** Why a fixed pool does not hang, part 3: the functions that move submissions
    and jobs, with what each owes on the way and settles at its end. *)
From S2P Require Import Prelude Prog Conc Sync AdmissionGate PoolAccounting AccountingLogic.
From S2P Require Import AccountingSpecs Types Hooks PoolJob FixedInner FixedLogic FixedWorker.
From S2P Require Import UserSpecs FixedSpecs Builder FixedPool FixedOps FixedSafety FixedLive FixedLiveRules.
Local Open Scope Z_scope.

(** The ghost state of a thread: frame [g] with contribution [x] to the pool. *)
Abbreviation on x g := (set lt_pool_l x g) (only parsing).

(** When a thread may run code of the application. *)
Definition lcalm (g : ltok) : Prop := lt_mode g = Out /\ calm (lt_pool g).

(** What a thread that has closed admission knows. *)
Definition after_close (sn : seen) : seen := match sn with SeenPast => SeenPast | _ => SeenClosed end.

Section jobs.
Context {S M Q : Type} `{MonitorLaws M} `{Injector Q PoolJob} `{UserCode S}.
Context `{!InjectorLaws Q PoolJob}.
Variable self : lens S (FixedThreadPoolInner M Q).
Context `{!LensLaws self} (T : nat) (cap : option Z) (size : nat) (K : list kind).
Context (Fin FinP : ltok -> Prop).
Local Abbreviation I := (live_inv self T cap size K).
Local Abbreviation ok := (live_ok self size K).
Local Abbreviation LWP := (WPB (may_wait self) may_await I Fin FinP).
Local Abbreviation SI := (pool_inv self T cap size).
Local Abbreviation SWP := (WP SI (fun _ => True) (fun _ => True)).
Local Abbreviation sholds := (AccountingSpecs.holds pt_acct_l).
Implicit Types (o : bool) (k : nat) (g : ltok) (G : list ltok) (s : S) (h : list S) (x : ptok) (r : tok).

(** *** Code taken over from the safety proofs *)

Lemma LP_lift k (R : S -> S -> Prop) ds {A} (p : prog S A) x g (Q' : A -> ltok -> Prop) E :
  pays self R ds -> acts k R p -> free_mode (lt_mode g) -> (forall c, c ∈ ds -> lt_owes g c = true) ->
  SWP k p x (fun a x' => Q' a (on x' g)) (fun x' => E (on x' g)) ->
  LWP k p (on x g) Q' E.
Proof. intros HR Hp Hm Ho Hs. eapply (LP_pays self T cap size K Fin FinP k R ds p (on x g)); done. Qed.

Lemma acts_bounded_slot k : acts k (slots_move self) (try_reserve_bounded_slot (acc self)).
Proof. view_acts. Qed.
Lemma acts_rollback k : acts k (slots_move self) (rollback_reserved_slot (acc self)).
Proof. view_acts. Qed.
Lemma acts_publish k : acts k (jobs_move self) (publish_accepted_job (acc self)).
Proof. view_acts. Qed.
Lemma acts_claim k : acts k (jobs_move self) (claim_queued_job (acc self)).
Proof. view_acts. Qed.
Lemma acts_begin_cancel k : acts k (jobs_move self) (begin_cancel_queued_job (acc self)).
Proof. view_acts. Qed.
Lemma acts_finish_cancelled k : acts k (slots_move self) (finish_cancelled_job (acc self)).
Proof. view_acts. Qed.
Lemma acts_finish_running k : acts k (slots_move self) (finish_running_job (acc self)).
Proof. view_acts. Qed.
Lemma acts_push k job : acts k (same_view self) (queue_push self job).
Proof. view_acts. Qed.
Lemma acts_steal k : acts k (same_view self) (steal_one self).
Proof. view_acts. Qed.
Lemma acts_drain k jobs : acts k (same_view self) (drain_global_queue self jobs).
Proof. split; [|done]. intros l. apply acts_bind; [apply acts_steal|done]. Qed.
Lemma acts_mark_idle k : acts k (same_view self) (mark_fixed_worker_idle self).
Proof. view_acts. Qed.
Lemma acts_snapshot k : acts k (same_view self) (snapshot (acc self)).
Proof. view_acts. Qed.
Lemma acts_store_stop k b : acts k (same_view self) (store (self ⊚ stop_now_l) b).
Proof. view_acts. Qed.
Lemma acts_waiters_in k : acts k (same_view self) (fetch_add (self ⊚ idle_waiter_count_l) 1).
Proof. view_acts. Qed.

(** The action of a piece of code that does nothing else. *)
Lemma act_pure k {A B} (f : nat -> S -> option (B * S)) (c : B -> prog S A) x (Q0 : A -> ptok -> Prop) :
  SWP k (Act f c) x Q0 (fun _ => False) -> (forall b, (exists a, c b = Ret a) \/ c b = Panic) ->
  SWP k (Act f Ret) x (fun b x' => exists a, c b = Ret a /\ Q0 a x') (fun _ => False).
Proof.
  intros Hw Hc [|n]; [done|]. intros h s G Ht HI Hk. specialize (Hw (Datatypes.S (Datatypes.S n)) h s G Ht HI Hk).
  destruct (f k s) as [[b s']|]; [|done]. destruct Hw as (x' & HI' & Hw). exists x'. split; [done|].
  destruct n; [done|]. destruct (Hc b) as [[a Ha]|Ha]; rewrite Ha in Hw; [cbn; by exists a|done].
Qed.

Lemma owing_nil g : owing [] g = g.
Proof. by destruct g. Qed.

Lemma free_awake g : free_mode (lt_mode g) -> awake (lt_mode g).
Proof. intros [->|[->| ->]] r; done. Qed.

(** One action of such code, which may take debts, and a look at the state it leaves. *)
Lemma LP_step_owing k {B R} (f : nat -> S -> option (B * S)) (kont : B -> prog S R) x g (Q0 : B -> ptok -> Prop) Q' E :
  free_mode (lt_mode g) -> SWP k (Act f Ret) x Q0 (fun _ => False) ->
  (forall h s G, in_time h -> I h s G -> G !! k = Some (on x g) ->
     match f k s with
     | None => False
     | Some (b, s') => frame_step self s s' /\
         exists cs, (forall c, (bcond self c s -> bcond self c s') \/ lt_owes (owing cs g) c = true) /\
         forall x', Q0 b x' -> SI (s :: h) s' (<[k := x']> (lt_pool <$> G)) -> ok s' (<[k := on x' (owing cs g)]> G) ->
           exists g', lt_pool g' = x' /\ ok s' (<[k := g']> G) /\ LWP k (kont b) g' Q' E
     end) ->
  LWP k (Act f kont) (on x g) Q' E.
Proof.
  intros Hm HS Hf. eapply (LP_act self T cap size K Fin FinP k f kont (on x g)); [exact HS|].
  intros h s G Ht HI Hk. specialize (Hf h s G Ht HI Hk). destruct HI as [HI HL].
  destruct (f k s) as [[b s']|]; [|done]. destruct Hf as (Hfr & cs & Hc & Hf). intros x' Hx' HI'.
  apply Hf; [done..|]. rewrite <- (list_insert_insert_eq G k _ (on x (owing cs g))).
  pose proof (lookup_self G k _ (on x (owing cs g)) Hk) as Hk'.
  eapply (moves_keep self T cap size K h (s :: h) s s' _ k (on x (owing cs g)) (on x' (owing cs g))); try done.
  - rewrite list_fmap_insert. cbn. rewrite list_insert_id; [done|]. by rewrite list_lookup_fmap, Hk.
  - rewrite list_insert_insert_eq. by rewrite list_fmap_insert.
  - exact (ok_owing self size K s G k (on x g) cs HL Hk (free_awake _ Hm)).
Qed.

Lemma LP_step k {B R} (f : nat -> S -> option (B * S)) (kont : B -> prog S R) x g (Q0 : B -> ptok -> Prop) Q' E :
  free_mode (lt_mode g) -> SWP k (Act f Ret) x Q0 (fun _ => False) ->
  (forall h s G, in_time h -> I h s G -> G !! k = Some (on x g) ->
     match f k s with
     | None => False
     | Some (b, s') => frame_step self s s' /\
         (forall c, (bcond self c s -> bcond self c s') \/ lt_owes g c = true) /\
         forall x', Q0 b x' -> SI (s :: h) s' (<[k := x']> (lt_pool <$> G)) -> ok s' (<[k := on x' g]> G) ->
           exists g', lt_pool g' = x' /\ ok s' (<[k := g']> G) /\ LWP k (kont b) g' Q' E
     end) ->
  LWP k (Act f kont) (on x g) Q' E.
Proof.
  intros Hm HS Hf. eapply LP_step_owing; [done..|]. intros h s G Ht HI Hk. specialize (Hf h s G Ht HI Hk).
  destruct (f k s) as [[b s']|]; [|done]. destruct Hf as (Hfr & Hc & Hf). split; [done|].
  exists []. by rewrite owing_nil.
Qed.

(** A look at the state, after which the thread's frame may change. *)
Lemma LP_look k {B R} (f : S -> B) (kont : B -> prog S R) x g Q' E :
  (forall h s G, in_time h -> I h s G -> G !! k = Some (on x g) ->
     exists g', ok s (<[k := on x g']> G) /\ LWP k (kont (f s)) (on x g') Q' E) ->
  LWP k (Act (fun _ s => Some (f s, s)) kont) (on x g) Q' E.
Proof.
  intros Hf. eapply (LP_read self T cap size K). intros h s G Ht HI Hk.
  destruct (Hf h s G Ht HI Hk) as (g' & Ho & Hw). by exists (on x g').
Qed.

(** Dropping the debts [cs] down to [cs']: what they are about holds again, or
    nobody relies on it. *)
Lemma ok_settle cs cs' s G k x g : ok s G -> G !! k = Some (on x (owing cs g)) -> free_mode (lt_mode g) ->
  (forall c, c ∈ cs -> c ∈ cs' \/ bcond self c s \/ unneeded self s G c) ->
  ok s (<[k := on x (owing cs' g)]> G).
Proof.
  intros HL Hk Hm Hc. pose proof (free_awake g Hm) as Ha.
  eapply live_retoken; [exact HL|exact Hk|done|done|done|done|exact (lo_seen _ _ _ _ _ HL k _ Hk)|exact Ha|exact Ha|done|..].
  - intros r Hr. cbn in Hr. split; [destruct Hm as [Hm|[Hm|Hm]]; rewrite Hm in Hr; by simplify_eq|].
    intros c0 Hc0. right. by exists r.
  - intros c. cbn. intros [Hin%bool_decide_eq_true|Ho]%orb_true_iff; [|left; by rewrite Ho, orb_true_r].
    destruct (Hc c Hin) as [Hin'|Hr]; [left; by rewrite bool_decide_true|by right].
Qed.

(** *** Entering and leaving *)

(** The admission word changes: one more submitter inside an open gate, closed. *)
Record gate_moves s s' : Prop := {
  gm_sync : mon_sync (state (get self s')) = mon_sync (state (get self s));
  gm_lc : lc self s' = lc self s;
  gm_live : live self s' = live self s;
  gm_pending : pending self s' = pending self s;
  gm_slots : slots self s' = slots self s;
  gm_queued : queued self s' = queued self s;
  gm_running : running self s' = running self s;
  gm_cancelling : cancelling self s' = cancelling self s;
  gm_word : word self s' = word self s \/ word self s' = Z.lor (word self s) CLOSED \/
    (Z.land (word self s) CLOSED = 0 /\ inflight self s < COUNT_MASK /\ word self s' = word self s + 1);
}.

Lemma land_mask w : Z.land w COUNT_MASK = w mod 2 ^ 63.
Proof. change COUNT_MASK with (Z.ones 63). by rewrite Z.land_ones. Qed.

Lemma land_mask_succ w : Z.land w COUNT_MASK < COUNT_MASK -> Z.land (w + 1) COUNT_MASK <> 0.
Proof.
  rewrite !land_mask. change COUNT_MASK with (2 ^ 63 - 1). intros Hw.
  rewrite <- Zplus_mod_idemp_l, Z.mod_small; pose proof (Z.mod_pos_bound w (2 ^ 63)); lia.
Qed.

Lemma land_mask_closed w : Z.land (Z.lor w CLOSED) COUNT_MASK = Z.land w COUNT_MASK.
Proof. rewrite Z.land_lor_distr_l. change (Z.land CLOSED COUNT_MASK) with 0. apply Z.lor_0_r. Qed.

Lemma lor_closed w : Z.land (Z.lor w CLOSED) CLOSED <> 0.
Proof. rewrite Z.land_lor_distr_l, Z.land_diag. intros [_ Hc]%Z.lor_eq_0_iff. done. Qed.

Lemma gate_pay : pays self gate_moves [].
Proof.
  intros s s' [Hsy Hl Hv Hp Hs Hq Hr Hc Hw].
  assert (Hin : inflight self s <> 0 -> inflight self s' <> 0).
  { unfold inflight in *. destruct Hw as [->|[->|(_ & Hlt & ->)]]; [done|by rewrite land_mask_closed|].
    intros _. by apply land_mask_succ. }
  split.
  - split; try done. unfold closed. destruct Hw as [->|[->|(Ho & _ & _)]]; [done|intros _; apply lor_closed|].
    intros Hcl. by rewrite Ho in Hcl.
  - intros c _. destruct c; cbn; unfold busy; rewrite ?Hl, ?Hv, ?Hp, ?Hs, ?Hq, ?Hr, ?Hc; tauto.
Qed.

Ltac view_fields := unfold lc, live, pending, queued, slots, running, cancelling, acc; cbn;
  rewrite ?get_set; solve [done].

Lemma acts_try_enter k : acts k gate_moves (try_enter (acc self)).
Proof.
  assert (Hrefl : forall s, gate_moves s s) by (intros s; split; auto).
  apply acts_bind; [by split|]. intros current. split; [|done]. intros w.
  destruct (Z.eqb_spec (Z.land w CLOSED) 0) as [Ho|]; cbn [negb]; [|done].
  destruct (Z.ltb_spec (Z.land w COUNT_MASK) COUNT_MASK) as [Hlt|]; [|done].
  apply acts_bind; [done|]. intros [].
  apply acts_bind; [|by intros []]. apply acts_bind; [done|]. intros b. split; [|done]. intros s.
  destruct (b && _) eqn:Hb; [|done]. apply andb_true_iff in Hb as [_ Hb%Z.eqb_eq].
  split; try view_fields. right; right. unfold inflight, word, acc in *. cbn in *. rewrite get_set. cbn. by subst w.
Qed.

Lemma LP_try_enter k x0 x r g (Q' : bool -> ltok -> Prop) E :
  free_mode (lt_mode g) -> sholds x0 r x ->
  (forall o x', sholds x0 (tadd r (tk o Inside)) x' -> Q' true (on x' g)) ->
  (forall x', sholds x0 r x' -> Q' false (on x' g)) ->
  LWP k (try_enter (acc self)) (on x g) Q' E.
Proof.
  intros Hm Hx Ht Hf. eapply (LP_lift k gate_moves []); [apply gate_pay|apply acts_try_enter|done|set_solver|].
  by client WP_try_enter; [exact Hx|..].
Qed.

(** Closing: the thread knows it. *)
Lemma LP_close k x g (Q' : unit -> ltok -> Prop) E :
  lt_mode g = Out -> Q' tt (on x (with_seen (after_close (lt_seen g)) g)) ->
  LWP k (close_admission (acc self)) (on x g) Q' E.
Proof.
  intros Hm HQ.
  assert (Hs : SWP k (close_admission (acc self)) x (fun _ x' => x' = x) (fun _ => False)) by by client WP_close.
  unfold close_admission, gate_close, fetch_or, fetch_modify in *. cbn [bind] in *.
  eapply LP_step; [by left|eapply act_pure; [exact Hs|eauto]|].
  intros h s G Ht HI Hk. set (s' := set _ _ s).
  assert (Hg : gate_moves s s').
  { subst s'. split; try view_fields. unfold word, acc. cbn. rewrite get_set. cbn. auto. }
  destruct (gate_pay s s' Hg) as [Hfr Hc]. split; [exact Hfr|].
  split; [intros c; left; apply Hc; set_solver|]. intros x' (a & _ & ->) _ HL.
  exists (on x (with_seen (after_close (lt_seen g)) g)). split; [done|]. split; [|by apply WP_ret].
  assert (Hk' : G !! k = Some (on x g)) by done.
  rewrite <- (list_insert_insert_eq G k _ (on x g)).
  eapply live_retoken; [exact HL|by eapply lookup_self|done..| | | | | |].
  - pose proof (lo_seen _ _ _ _ _ HL k (on x g)) as Htold. specialize (Htold (lookup_self _ _ _ _ Hk)).
    assert (Hcl : closed self s') by (unfold closed, word, acc, s'; cbn; rewrite get_set; apply lor_closed).
    cbn in Htold |- *. destruct (lt_seen g); [exact Hcl|exact Hcl|exact Htold].
  - cbn. rewrite Hm. done.
  - cbn. rewrite Hm. done.
  - done.
  - cbn. rewrite Hm. done.
  - auto.
Qed.

(** One submitter less. *)
Lemma leave_word h s G k x g o : SI h s (lt_pool <$> G) -> G !! k = Some (on x g) -> (1 <= pt_acct x (ix o Inside))%nat ->
  let w := wrap (word self s - 1) in
  0 < inflight self s /\ Z.land w COUNT_MASK = inflight self s - 1 /\
  (Z.land w CLOSED =? 0) = (Z.land (word self s) CLOSED =? 0).
Proof.
  intros (q & [_ _ Ha _ _]) Hk Hx w. destruct (ai_gate _ _ _ _ _ _ _ Ha) as (op & Hg & _).
  assert (Hin : (1 <= all (tadd (acct_total (lt_pool <$> G)) q) Inside)%nat).
  { assert (Hx' : (lt_pool <$> G) !! k = Some x) by (by rewrite list_lookup_fmap, Hk).
    pose proof (acct_total_lookup _ _ _ (ix o Inside) Hx'). unfold all, tadd. destruct o; cbn in *; lia. }
  change (gate_state (admission (get (acc self) s))) with (word self s) in Hg.
  pose proof (gate_word_leave _ _ Hg) as Hg'. cbn in Hg'. specialize (Hg' ltac:(lia)).
  pose proof (gate_word_count _ _ Hg) as E1. pose proof (gate_word_count _ _ Hg') as E2.
  pose proof (gate_word_closed _ _ Hg) as E3. pose proof (gate_word_closed _ _ Hg') as E4.
  fold w in E2, E4. unfold inflight. rewrite E1, E2, E3, E4. cbn. split; [lia|done].
Qed.

(** What a submitter may undo by leaving. *)
Definition leaving : list cond := [CJoin; CTerm; CStop].

Lemma leaving_cases c : c ∈ leaving -> c = CJoin \/ c = CTerm \/ c = CStop.
Proof. unfold leaving. set_solver. Qed.

Lemma open_unneeded s G : ok s G -> ~ closed self s ->
  bcond self CTerm s /\ unneeded self s G CStop.
Proof.
  intros HL Hopen. assert (Hlc : lc self s = Lifecycle.Running).
  { destruct (lc self s) eqn:Hlc; [done|..]; exfalso; apply Hopen, (lo_closed _ _ _ _ _ HL); congruence. }
  split; [by left|]. intros u gu r Hu _ Hside Hin. pose proof (lo_seen _ _ _ _ _ HL u gu Hu) as Htold.
  destruct r; cbn in *; try (by apply list_elem_of_singleton in Hin); try set_solver; rewrite Hside in Htold; done.
Qed.

(** Nobody waits for idleness, or sleeps for want of work, when its counter is zero. *)
Lemma counter_unneeded h s G c : I h s G -> get (self ⊚ counter_l c) s = 0 ->
  (c = CIdleWaiter -> unneeded self s G CJoin) /\ (c = CIdleAtomic -> unneeded self s G CWork).
Proof.
  intros [(q & [_ _ _ Hc _]) HL] Hz. destruct (Hc c) as [Hv _]. rewrite Hz in Hv.
  assert (Hno : forall u gu, G !! u = Some gu -> pt_count (lt_pool gu) c = 0%nat).
  { intros u gu Hu. assert (Hx : (lt_pool <$> G) !! u = Some (lt_pool gu)) by (by rewrite list_lookup_fmap, Hu).
    pose proof (count_total_lookup c _ _ _ Hx). lia. }
  split; intros ->; intros u gu r Hu _ Hside Hin; specialize (Hno u gu Hu);
    destruct r; cbn in *; try lia; set_solver.
Qed.

Lemma LP_notified k cs x g (Q' : unit -> ltok -> Prop) E :
  lt_mode g = Out -> Q' tt (on x g) -> LWP k (lock_notify_all (mon self)) (on x (owing cs g)) Q' E.
Proof.
  intros Hm HQ. apply (LP_notify self T cap size K Fin FinP k _ (on x g)); [exact Hm|split; auto|exact Hm|exact HQ].
Qed.

(** The last submitter wakes those who wait for it. *)
Lemma LP_departure k x g (Q' : unit -> ltok -> Prop) E :
  lt_mode g = Out -> Q' tt (on x g) -> LWP k (notify_submitter_departure self) (on x (owing leaving g)) Q' E.
Proof.
  intros Hm HQ. assert (Hfm : free_mode (lt_mode g)) by (by left).
  unfold notify_submitter_departure, is_admission_open, gate_is_open. rewrite bind_assoc.
  apply WP_bind, LP_look. intros h s G Ht [HI HL] Hk.
  destruct (Z.eqb_spec (Z.land (word self s) CLOSED) 0) as [Hopen|Hclosed].
  - exists (owing [CJoin] g). split.
    + destruct (open_unneeded s G HL) as [Hterm Hstop]; [intros Hcl; exact (Hcl Hopen)|].
      eapply (ok_settle leaving); [exact HL|exact Hk|exact Hfm|]. intros c [->|[->| ->]]%leaving_cases; auto. left. in_list.
    + apply WP_ret. change (get _ s) with (word self s). rewrite Hopen. cbn [negb Z.eqb bind].
      apply WP_bind. unfold has_idle_waiters. apply WP_bind, LP_look.
      intros h1 s1 G1 Ht1 HI1 Hk1. destruct (Z.ltb_spec 0 (get (self ⊚ idle_waiter_count_l) s1)) as [Hpos|Hle].
      * exists (owing [CJoin] g). split; [by rewrite list_insert_id by done; apply HI1|].
        do 2 apply WP_ret. apply Z.ltb_lt in Hpos. rewrite Hpos. by apply LP_notified.
      * exists g. split; [|do 2 apply WP_ret; apply Z.ltb_ge in Hle; rewrite Hle; by apply WP_ret].
        eapply (ok_settle [CJoin] []); [apply HI1|exact Hk1|exact Hfm|]. intros c ->%list_elem_of_singleton. right; right.
        apply (counter_unneeded h1 s1 G1 CIdleWaiter HI1); [|done].
        destruct HI1 as [(q & [_ _ _ Hc _]) _]. destruct (Hc CIdleWaiter) as [Hv _]. cbn [counter_l] in *. lia.
  - exists (owing leaving g). split; [by rewrite list_insert_id by done|]. apply WP_ret. change (get _ s) with (word self s).
    apply Z.eqb_neq in Hclosed. rewrite Hclosed. cbn [negb bind when]. by apply LP_notified.
Qed.

Lemma LP_guard_drop k o x0 x r g (Q' : unit -> ltok -> Prop) E :
  lt_mode g = Out -> sholds x0 (tadd r (tk o Inside)) x ->
  (forall x', sholds x0 r x' -> Q' tt (on x' g)) ->
  LWP k (fixed_submit_guard_drop self) (on x (owing leaving g)) Q' E.
Proof.
  intros Hm Hx HQ. assert (Hfm : free_mode (lt_mode g)) by (by left).
  assert (Hs : SWP k (leave (acc self)) x (fun _ x' => sholds x0 r x') (fun _ => False)).
  { client WP_leave; [exact Hx|]. intros _ x' Hx'. exact Hx'. }
  apply WP_bind. unfold leave, gate_leave, fetch_sub, fetch_modify in *. cbn [bind] in *.
  eapply LP_step; [exact Hfm|eapply act_pure; [exact Hs|]|].
  { intros b. cbn beta. destruct (0 <? Z.land b COUNT_MASK); cbn; [left; by eauto|by right]. }
  intros h s G Ht HI Hk. set (s' := set _ _ s).
  assert (Hix : (1 <= pt_acct x (ix o Inside))%nat).
  { destruct Hx as [Hx _]. specialize (Hx (ix o Inside)). cbn in Hx. rewrite Hx. unfold tadd. destruct o; cbn; lia. }
  destruct (leave_word h s G k x _ o (proj1 HI) Hk Hix) as (Hpos & Hmask & Hclosed).
  assert (Hw : word self s' = wrap (word self s - 1)).
  { subst s'. unfold word, acc. cbn. by rewrite get_set. }
  assert (Hin' : inflight self s' = inflight self s - 1) by (unfold inflight at 1; by rewrite Hw).
  assert (Hsame : lc self s' = lc self s /\ live self s' = live self s /\ pending self s' = pending self s /\
    slots self s' = slots self s /\ queued self s' = queued self s /\ running self s' = running self s /\
    cancelling self s' = cancelling self s /\ mon_sync (state (get self s')) = mon_sync (state (get self s))).
  { subst s'. unfold lc, live, pending, slots, queued, running, cancelling, acc. cbn. by rewrite !get_set. }
  destruct Hsame as (Hl & Hv & Hp & Hsl & Hq & Hr & Hc & Hsy). clearbody s'.
  split; [|split].
  - split; try done. unfold closed. rewrite Hw. intros Hcl%Z.eqb_neq. apply Z.eqb_neq. by rewrite Hclosed.
  - intros []; cbn [bcond]; rewrite ?Hl, ?Hp, ?Hq; auto.
  - intros x' (a & Ha & Hx') HI' HL'. cbn [get lens_comp acc admission_l gate_state_l].
    change (Z.land (gate_state (admission (get accounting_l (get self s)))) COUNT_MASK) with (inflight self s).
    apply Z.ltb_lt in Hpos as Hpos'. rewrite Hpos'. cbn [assert bind].
    destruct (Z.eqb_spec (inflight self s) 1) as [Hone|Hmore]; cbn [when].
    + exists (on x' (owing leaving g)). split; [done|]. split; [exact HL'|]. apply WP_ret. by apply LP_departure, HQ.
    + exists (on x' g). split; [done|]. split; [|by apply WP_ret, WP_ret, HQ].
      rewrite <- (list_insert_insert_eq G k _ (on x' (owing leaving g))).
      eapply (ok_settle leaving []); [exact HL'|by eapply lookup_self|exact Hfm|].
      assert (inflight self s' <> 0) by lia. intros c [->|[->| ->]]%leaving_cases; right; left; cbn; unfold busy; auto.
Qed.
(** *** Waking a worker *)

Lemma LP_notified_all k cs cs' x g (Q' : unit -> ltok -> Prop) E :
  lt_mode g = Out -> Q' tt (on x g) ->
  LWP k (lock_notify_all (mon self)) (on x (owing cs (owing cs' g))) Q' E.
Proof.
  intros Hm HQ. apply (LP_notify self T cap size K Fin FinP k _ (on x g)); [exact Hm|split; auto|exact Hm|exact HQ].
Qed.

(** A queued job is announced: a worker wake-up is recorded and signalled, unless
    one is pending, or no worker is idle. *)
Lemma LP_wake_one k x g (Q' : unit -> ltok -> Prop) E :
  lt_mode g = Out -> Q' tt (on x g) -> LWP k (wake_one_idle_worker self) (on x (owing [CWork] g)) Q' E.
Proof.
  intros Hm HQ. assert (Hfm : free_mode (lt_mode g)) by (by left).
  apply WP_bind, LP_look. intros h s G Ht HI Hk.
  change (get (self ⊚ idle_worker_count_l) s) with (get (self ⊚ counter_l CIdleAtomic) s).
  destruct (Z.eqb_spec (get (self ⊚ counter_l CIdleAtomic) s) 0) as [Hz|Hnz].
  - exists g. split; [|apply WP_ret; rewrite Hz; by apply WP_ret].
    eapply (ok_settle [CWork] []); [apply HI|exact Hk|exact Hfm|]. intros c ->%list_elem_of_singleton.
    right; right. by apply (counter_unneeded h s G CIdleAtomic HI Hz).
  - assert (Hpos : 0 < get (self ⊚ counter_l CIdleAtomic) s).
    { destruct HI as [(q & [_ _ _ Hc _]) _]. destruct (Hc CIdleAtomic) as [Hv _]. lia. }
    remember (get (self ⊚ counter_l CIdleAtomic) s) as idle eqn:Hidle. clear Hidle.
    exists (owing [CWork] g). split; [by rewrite list_insert_id by done; apply HI|].
    apply WP_ret. apply Z.eqb_neq in Hnz. rewrite Hnz. apply WP_bind. clear h s G Ht HI Hk.
    assert (Hs : forall f, SWP k (fetch_update (self ⊚ pending_worker_wakes_l) f) x (fun _ x' => x' = x) (fun _ => False)).
    { intros f. by client WP_update_wakes. }
    eapply (LP_step_owing k _ _ x (owing [CWork] g));
      [exact Hfm|exact (Hs (fun n => if n <? idle then Some (n + 1) else None))|].
    intros h s G Ht HI Hk. set (p := get (self ⊚ pending_worker_wakes_l) s).
    destruct (Z.ltb_spec p idle) as [Hlt|Hge].
    + set (s' := set _ _ s).
      assert (Hs' : mon_sync (state (get self s')) = mon_sync (state (get self s)) /\ lc self s' = lc self s /\
        live self s' = live self s /\ word self s' = word self s /\ slots self s' = slots self s /\
        queued self s' = queued self s /\ running self s' = running self s /\
        cancelling self s' = cancelling self s /\ pending self s' = pending self s + 1).
      { subst s' p. unfold lc, live, word, slots, queued, running, cancelling, pending. cbn. by rewrite !get_set. }
      clearbody s'. destruct Hs' as (Hsy & Hl & Hv & Hw & Hsl & Hq & Hr & Hc & Hp). split; [|exists [CPend]; split].
      * split; try done. unfold closed. by rewrite Hw.
      * intros []; [left|left|left|left|left|right; done]; cbn [bcond]; unfold busy, inflight;
          rewrite ?Hw, ?Hl, ?Hv, ?Hsl, ?Hq, ?Hr, ?Hc, ?Hp; try done. intros [?|[?|?]]; auto. right; right; lia.
      * intros x' -> _ HL'. exists (on x (owing [CPend] (owing [CWork] g))). split; [done|].
        split; [exact HL'|]. apply WP_ret.
        by apply LP_notified_all.
    + split; [by split|]. exists []. split; [by left; auto|]. intros x' -> _ HL'. exists (on x g). split; [done|].
      split; [|by apply WP_ret, WP_ret]. rewrite <- (list_insert_insert_eq G k _ (on x (owing [CWork] g))).
      eapply (ok_settle [CWork] []); [exact HL'|by eapply lookup_self|exact Hfm|].
      intros c ->%list_elem_of_singleton. right; left; right; right. unfold pending. subst p. cbn in Hge. lia.
Qed.

(** *** Submitting *)

Context `{HU : !UserSafeB (may_wait self) may_await I Fin FinP lcalm}.

Lemma sholds_late x0 r x g : sholds x0 r x -> r Late = 0%nat -> lt_mode g = Out -> lcalm (on x g).
Proof. intros Hx Hr Hm. split; [exact Hm|]. by eapply holds_late. Qed.

Lemma LP_enqueue k o job x0 x r g (Q' : unit -> ltok -> Prop) E :
  lt_mode g = Out -> sholds x0 (tadd r (tk o Reserved)) x -> lt_owes g CJoin = true -> lt_owes g CTerm = true ->
  (forall x', sholds x0 r x' -> Q' tt (on x' g)) -> LWP k (enqueue_job self job) (on x g) Q' E.
Proof.
  intros Hm Hx Hj Ht HQ. assert (Hfm : free_mode (lt_mode g)) by (by left). apply WP_bind.
  apply (LP_owing self T cap size K Fin FinP [CWork]); [done|exact (free_awake g Hfm)|].
  apply (LP_lift k (jobs_move self) [CJoin; CTerm; CWork] _ x (owing [CWork] g));
    [apply jobs_pay|apply acts_publish|done| |].
  { intros c Hc. cbn. destruct c; rewrite ?Hj, ?Ht, ?orb_true_r; try done; exfalso; revert Hc; set_solver. }
  client WP_publish; [exact Hx|]. intros x1 Hx1. apply WP_bind.
  apply (LP_lift k (same_view self) [] _ x1 (owing [CWork] g)); [apply same_pay|apply acts_push|done|set_solver|].
  client WP_push; [exact Hx1|]. intros x2 Hx2. apply LP_wake_one; [done|by apply HQ].
Qed.

Lemma LP_submit_admitted k o job x0 x r g (Q' : Result unit PoolJobSubmissionError -> ltok -> Prop) E :
  lt_mode g = Out -> r Late = 0%nat -> sholds x0 (tadd r (tk o Inside)) x ->
  (forall v x', sholds x0 (tadd r (tk o Inside)) x' ->
     (standard job = true -> v <> Err AcceptancePanicked) -> Q' v (on x' (owing leaving g))) ->
  LWP k (submit_admitted self job) (on x (owing leaving g)) Q' E.
Proof.
  intros Hm Hr Hx HQ. pose proof (late_tadd r o Inside Hr) as HL.
  assert (Hown : forall c, c ∈ [CJoin; CTerm] -> lt_owes (owing leaving g) c = true).
  { intros c Hc. cbn. rewrite bool_decide_true; [done|]. revert Hc. unfold leaving. set_solver. }
  apply WP_bind. apply (LP_lift k (slots_move self) [CJoin; CTerm] _ x (owing leaving g));
    [apply slots_pay|apply acts_bounded_slot|by left|exact Hown|].
  client WP_bounded_slot; [exact Hx|..]; cbn [negb]; intros x1 Hx1.
  2: { apply WP_bind. user WP_discard; [by eapply sholds_late|]. apply WP_ret. by apply HQ. }
  apply WP_bind. user WP_job_accept; [eapply sholds_late; [exact Hx1|by apply late_tadd|done]|].
  intros [[u|u] job'] Hstd; cbn [fst snd] in *.
  - apply WP_bind. eapply LP_enqueue; [done|exact Hx1|by apply Hown; in_list..|]. intros x2 Hx2.
    apply WP_ret. by apply HQ.
  - apply WP_bind. apply (LP_lift k (slots_move self) [CJoin; CTerm] _ x1 (owing leaving g));
      [apply slots_pay|apply acts_rollback|by left|exact Hown|].
    client WP_rollback_slot; [exact Hx1|]. intros x2 Hx2.
    apply WP_bind. apply (LP_notify self T cap size K Fin FinP k _ (on x2 (owing leaving g))); [done|split; auto|done|].
    apply WP_bind. user WP_discard; [by eapply sholds_late|].
    apply WP_ret. apply HQ; [done|]. intros Hs. by specialize (Hstd Hs).
Qed.

(** A submission does not block; nothing is left to settle when it returns. *)
Lemma LP_submit k job x g (Q' : Result unit PoolJobSubmissionError -> ltok -> Prop) E :
  lt_mode g = Out -> calm x ->
  (forall v, (standard job = true -> v <> Err AcceptancePanicked) -> Q' v (on x g)) ->
  LWP k (fixed_submit self job) (on x g) Q' E.
Proof.
  intros Hm Hx HQ. unfold fixed_submit, begin_submit. rewrite bind_assoc. apply WP_bind.
  eapply LP_try_enter; [by left|apply (holds_self pt_acct_l)|..]; cbn [bind].
  - intros o x1 Hx1. apply WP_finally.
    apply (LP_owing self T cap size K Fin FinP leaving); [|exact (free_awake g (or_introl Hm))|].
    { unfold submit_admitted, reserve_queue_slot, try_reserve_bounded_slot, accounting_queue_capacity. done. }
    eapply (LP_submit_admitted k o _ x x1 (pt_acct x) g); [done|done|exact Hx1|].
    intros v x2 Hx2 Hv. eapply LP_guard_drop; [done|exact Hx2|]. intros x3 ->%holds_same. by apply HQ.
  - intros x1 ->%holds_same. apply WP_bind. user WP_discard; [by split|]. apply WP_ret. by apply HQ.
Qed.

(** *** Idle checks *)

(** A load that finds the pool busy lets the thread take up [g1]. *)
Lemma LP_probe k {A B} (f : S -> B) (m : B -> Z) (kont : B -> prog S A) x g g1 Q' E :
  (forall s, m (f s) <> 0 -> busy self s) ->
  (forall s G, ok s G -> G !! k = Some (on x g) -> busy self s -> ok s (<[k := on x g1]> G)) ->
  (forall v, m v <> 0 -> LWP k (kont v) (on x g1) Q' E) ->
  (forall v, m v = 0 -> LWP k (kont v) (on x g) Q' E) ->
  LWP k (Act (fun _ s => Some (f s, s)) kont) (on x g) Q' E.
Proof.
  intros Hb Hg1 Hn Hz. apply LP_look. intros h s G Ht [HI HL] Hk.
  destruct (decide (m (f s) = 0)) as [Hfs|Hfs].
  - exists g. rewrite list_insert_id by done. auto.
  - exists g1. split; [|by apply Hn]. apply Hg1; [done..|]. by apply Hb.
Qed.

Lemma LP_is_idle k x g g1 (Q' : bool -> ltok -> Prop) E :
  (forall s G, ok s G -> G !! k = Some (on x g) -> busy self s -> ok s (<[k := on x g1]> G)) ->
  Q' true (on x g) -> Q' false (on x g1) -> LWP k (is_idle (acc self)) (on x g) Q' E.
Proof.
  intros Hg1 HQt HQf. unfold is_idle, inflight_count, gate_inflight_count, running_count, load. cbn [bind].
  apply (LP_probe k _ (fun v => Z.land v COUNT_MASK) _ x g g1); [by left|exact Hg1|..]; intros v Hv;
    cbn [bind]; [apply Z.eqb_neq in Hv; rewrite Hv; by apply WP_ret|rewrite Hv; cbn [Z.eqb negb]].
  apply (LP_probe k _ (fun v => v) _ x g g1); [by right; left|exact Hg1|..]; intros w Hw; cbn [bind];
    [apply Z.eqb_neq in Hw; rewrite Hw; by apply WP_ret|rewrite Hw; cbn [Z.eqb negb]].
  apply (LP_probe k _ (fun v => v) _ x g g1); [by right; right; left|exact Hg1|..]; intros y Hy; cbn [bind];
    [apply Z.eqb_neq in Hy; rewrite Hy; by apply WP_ret|rewrite Hy; cbn [Z.eqb negb]].
  apply (LP_probe k _ (fun v => v) _ x g g1); [by right; right; right|exact Hg1|..]; intros z Hz; cbn [bind];
    [apply Z.eqb_neq in Hz; rewrite Hz; by apply WP_ret|rewrite Hz; by apply WP_ret].
Qed.

(** *** Taking and finishing jobs *)

(** What a thread with a job in hand may undo by finishing it. *)
Definition handling : list cond := [CJoin; CTerm].

Lemma handling_owed c g : c ∈ handling -> lt_owes (owing handling g) c = true.
Proof. intros Hc. cbn. by rewrite bool_decide_true. Qed.

Lemma LP_finish_cancelled_job k o x0 x r g (Q' : unit -> ltok -> Prop) E :
  lt_mode g = Out -> sholds x0 (tadd r (tk o Cancelling)) x -> (forall x', sholds x0 r x' -> Q' tt (on x' g)) ->
  LWP k (fixed_finish_cancelled_job self) (on x (owing handling g)) Q' E.
Proof.
  intros Hm Hx HQ. apply WP_bind. apply (LP_lift k (slots_move self) handling _ x (owing handling g));
    [apply slots_pay|apply acts_finish_cancelled|by left|intros; by apply handling_owed|].
  client WP_finish_cancelled; [exact Hx|]. intros x1 Hx1. apply LP_notified; [done|by apply HQ].
Qed.

Lemma LP_finish_running_job k o x0 x r g (Q' : unit -> ltok -> Prop) E :
  lt_mode g = Out -> sholds x0 (tadd r (tk o Running)) x -> (forall x', sholds x0 r x' -> Q' tt (on x' g)) ->
  LWP k (fixed_finish_running_job self) (on x (owing handling g)) Q' E.
Proof.
  intros Hm Hx HQ. apply WP_bind. apply (LP_lift k (slots_move self) handling _ x (owing handling g));
    [apply slots_pay|apply acts_finish_running|by left|intros; by apply handling_owed|].
  client WP_finish_running; [exact Hx|]. intros x1 Hx1. apply WP_bind.
  eapply (LP_is_idle k x1 (owing handling g) g); cbn [when].
  - intros s G HL Hk Hb. eapply (ok_settle handling []); [exact HL|exact Hk|by left|].
    intros c Hc. right; left. revert Hc. unfold handling.
    intros [->|[->|[]%not_elem_of_nil]%elem_of_cons]%elem_of_cons; [exact Hb|by right; right].
  - apply LP_notified; [done|by apply HQ].
  - apply WP_ret. by apply HQ.
Qed.

Lemma LP_try_take_job k x0 x r g (Q' : option PoolJob -> ltok -> Prop) E :
  lt_mode g = Out -> lt_owes g CWork = true -> r Late = 0%nat -> sholds x0 r x ->
  (forall job o x', sholds x0 (tadd r (tk o Running)) x' -> Q' (Some job) (on x' (owing handling g))) ->
  (forall x', sholds x0 r x' -> Q' None (on x' g)) ->
  LWP k (try_take_job self) (on x g) Q' E.
Proof.
  intros Hm Hw Hr Hx HQs HQn. assert (Hfm : free_mode (lt_mode g)) by (by left).
  assert (Hown : forall c, c ∈ [CJoin; CTerm; CWork] -> lt_owes (owing handling g) c = true).
  { intros c Hc. destruct (decide (c = CWork)) as [->|Hne]; [cbn; by rewrite Hw|].
    apply handling_owed. unfold handling. revert Hc. set_solver. }
  apply WP_bind. eapply (LP_load self T cap size K). intros []; [apply WP_ret; by apply HQn|].
  apply WP_bind. apply (LP_lift k (same_view self) [] _ x g); [apply same_pay|apply acts_steal|done|set_solver|].
  client WP_steal_one; [exact Hx|..]; [|intros x1 Hx1; apply WP_ret; by apply HQn].
  intros job o x1 Hx1. apply WP_bind. eapply (LP_load self T cap size K). intros [].
  - apply WP_bind, WP_bind.
    apply (LP_owing self T cap size K Fin FinP handling); [done|exact (free_awake g Hfm)|].
    apply (LP_lift k (jobs_move self) [CJoin; CTerm; CWork] _ x1 (owing handling g));
      [apply jobs_pay|apply acts_begin_cancel|by left|exact Hown|].
    client WP_begin_cancel; [exact Hx1|]. intros x2 Hx2. apply WP_bind.
    user WP_job_cancel; [eapply sholds_late; [exact Hx2|by apply late_tadd|done]|].
    eapply LP_finish_cancelled_job; [done|exact Hx2|]. intros x3 Hx3. apply WP_ret. by apply HQn.
  - apply WP_bind. apply (LP_owing self T cap size K Fin FinP handling); [done|exact (free_awake g Hfm)|].
    apply (LP_lift k (jobs_move self) [CJoin; CTerm; CWork] _ x1 (owing handling g));
      [apply jobs_pay|apply acts_claim|by left|exact Hown|].
    client WP_claim; [exact Hx1|]. intros x2 Hx2. apply WP_ret. by eapply HQs.
Qed.
End jobs.
