(* ===== verification/FixedLiveWorker.v ===== *)
(** Why a fixed pool does not hang, part 4: its workers.  A worker that goes to
    sleep owes nothing, and has seen that there is nothing for it to do. *)
From S2P Require Import Prelude Prog Conc Sync AdmissionGate PoolAccounting AccountingLogic.
From S2P Require Import AccountingSpecs Types Hooks PoolJob FixedInner FixedLogic FixedWorker.
From S2P Require Import UserSpecs FixedSpecs Builder FixedPool FixedOps FixedSafety.
From S2P Require Import FixedLive FixedLiveRules FixedLiveJobs.
Local Open Scope Z_scope.

(** A thread of frame [g]: its contribution, where it stands, what it owes and
    what it has seen. *)
Definition tkn (x : ptok) (m : mode) (cs : list cond) (sn : seen) (g : ltok) : ltok :=
  MkLtok x m (fun c => bool_decide (c ∈ cs) || lt_owes g c) (lt_kind g) sn (lt_spare g) (lt_handles g).

(** The frame of a worker. *)
Definition worker : ltok := MkLtok ptok0 Out (fun _ => false) Worker Unseen 0 [].

Lemma owing_tkn cs x m cs' sn g : cs' ⊆ cs -> owing cs (tkn x m cs' sn g) = tkn x m cs sn g.
Proof.
  intros Hsub. unfold owing, tkn, with_owes. cbn. f_equal.
  apply FunctionalExtensionality.functional_extensionality. intros c.
  destruct (decide (c ∈ cs')) as [Hin|Hin].
  - rewrite (bool_decide_true (c ∈ cs)) by auto. done.
  - rewrite (bool_decide_false (c ∈ cs')) by done. done.
Qed.

Lemma tkn_self g : tkn (lt_pool g) (lt_mode g) [] (lt_seen g) g = g.
Proof. by destruct g. Qed.

Section worker_code.
Context {S M Q : Type} `{MonitorLaws M} `{Injector Q PoolJob} `{UserCode S}.
Context `{!InjectorLaws Q PoolJob}.
Variable self : lens S (FixedThreadPoolInner M Q).
Context `{!LensLaws self} (T : nat) (cap : option Z) (size : nat) (K : list kind).
Context (Fin FinP : ltok -> Prop).
Local Abbreviation I := (live_inv self T cap size K).
Local Abbreviation ok := (live_ok self size K).
Local Abbreviation LWP := (WPB (may_wait self) may_await I Fin FinP).
Local Abbreviation SI := (pool_inv self T cap size).
Local Abbreviation SWP := (WP SI (fun _ => True) (fun _ => True)).
Local Abbreviation sholds := (AccountingSpecs.holds pt_acct_l).
Implicit Types (o : bool) (k : nat) (g : ltok) (G : list ltok) (s : S) (h : list S) (x : ptok) (r : tok).
Implicit Types (cs : list cond) (m : mode) (sn : seen).

(** *** Rules for a thread of a given frame *)

Lemma T_lift k (R : S -> S -> Prop) ds {A} (p : prog S A) x m cs sn g (Q' : A -> ltok -> Prop) E :
  pays self R ds -> acts k R p -> free_mode m -> ds ⊆ cs ->
  SWP k p x (fun a x' => Q' a (tkn x' m cs sn g)) (fun x' => E (tkn x' m cs sn g)) ->
  LWP k p (tkn x m cs sn g) Q' E.
Proof.
  intros HR Hp Hm Hds Hs. apply (LP_lift self T cap size K Fin FinP k R ds p x (tkn x m cs sn g)); try done.
  intros c Hc. cbn. rewrite bool_decide_true by auto. done.
Qed.

Lemma T_take cs' k {A} (p : prog S A) x m cs sn g Q' E :
  acts_first p = true -> awake m -> cs ⊆ cs' ->
  LWP k p (tkn x m cs' sn g) Q' E -> LWP k p (tkn x m cs sn g) Q' E.
Proof.
  intros Hp Hm Hsub Hw. apply (LP_owing self T cap size K Fin FinP cs'); [done|exact Hm|]. by rewrite owing_tkn.
Qed.

Lemma ok_switch s G k x m cs sn g m' cs' sn' :
  ok s G -> G !! k = Some (tkn x m cs sn g) -> told self sn' s -> awake m -> awake m' ->
  inside m' = inside m ->
  (forall rs, m' = Ready rs -> side (tkn x m' cs' sn' g) rs /\ forall c, c ∈ conds rs ->
     bcond self c s \/ exists rs0, m = Ready rs0 /\ c ∈ conds rs0) ->
  (forall c, c ∈ cs -> c ∈ cs' \/ bcond self c s \/ unneeded self s G c) ->
  ok s (<[k := tkn x m' cs' sn' g]> G).
Proof.
  intros HL Hk Hsn Hm Hm' Hi Hr Hc. eapply live_retoken; [exact HL|exact Hk|done..| |].
  - exact Hr.
  - intros c. cbn. intros [Hin%bool_decide_eq_true|Ho]%orb_true_iff; [|left; by rewrite Ho, orb_true_r].
    destruct (Hc c Hin); [left; by rewrite bool_decide_true|by right].
Qed.

(** A load after which the thread may know more, owe less, or have found a
    reason to wait. *)
Lemma T_load k {B} (l : lens S B) x m cs sn g (Q' : B -> ltok -> Prop) E :
  (forall h s G, in_time h -> I h s G -> G !! k = Some (tkn x m cs sn g) ->
     exists m' cs' sn', ok s (<[k := tkn x m' cs' sn' g]> G) /\ Q' (get l s) (tkn x m' cs' sn' g)) ->
  LWP k (load l) (tkn x m cs sn g) Q' E.
Proof.
  intros Hf. eapply (LP_read self T cap size K). intros h s G Ht HI Hk.
  destruct (Hf h s G Ht HI Hk) as (m' & cs' & sn' & Ho & Hq). exists (tkn x m' cs' sn' g).
  split; [done|]. split; [done|]. by apply WP_ret.
Qed.

(** Staying as one is. *)
Lemma ok_stay s G k x m cs sn g : ok s G -> G !! k = Some (tkn x m cs sn g) ->
  ok s (<[k := tkn x m cs sn g]> G).
Proof. intros HL Hk. by rewrite list_insert_id. Qed.

Lemma told_now s G k x m cs sn g : ok s G -> G !! k = Some (tkn x m cs sn g) -> told self sn s.
Proof. intros HL Hk. exact (lo_seen _ _ _ _ _ HL k _ Hk). Qed.

Lemma T_same k {A} (p : prog S A) x m cs sn g (Q' : A -> ltok -> Prop) E :
  acts k (same_view self) p -> free_mode m ->
  SWP k p x (fun a x' => Q' a (tkn x' m cs sn g)) (fun x' => E (tkn x' m cs sn g)) ->
  LWP k p (tkn x m cs sn g) Q' E.
Proof. intros Hp Hm. apply (T_lift k (same_view self) []); [apply same_pay|done..|set_solver]. Qed.

Lemma T_lock k x cs sn g (Q' : unit -> ltok -> Prop) E :
  Q' tt (tkn x In cs sn g) -> LWP k (monitor_lock (mon self)) (tkn x Out cs sn g) Q' E.
Proof. intros HQ. by apply (LP_lock self T cap size K). Qed.

Lemma T_unlock k x m cs sn g (Q' : unit -> ltok -> Prop) E :
  inside m = true -> Q' tt (tkn x Out cs sn g) -> LWP k (monitor_unlock (mon self)) (tkn x m cs sn g) Q' E.
Proof. intros Hm HQ. by apply (LP_unlock self T cap size K). Qed.

Lemma same_tkn x m cs sn m' cs' sn' g : sn' = sn \/ sn' = Unseen ->
  same_thread (tkn x m cs sn g) (tkn x m' cs' sn' g).
Proof. by split. Qed.

Lemma T_notify_all k cs' sn' x cs sn g (Q' : unit -> ltok -> Prop) E :
  sn' = sn \/ sn' = Unseen -> Q' tt (tkn x In cs' sn' g) -> LWP k (notify_all (mon self)) (tkn x In cs sn g) Q' E.
Proof.
  intros Hsn HQ. apply (LP_notify_all self T cap size K Fin FinP k _ (tkn x In cs' sn' g)); [done| |done|done].
  by apply same_tkn.
Qed.

Lemma T_notify k cs' sn' x cs sn g (Q' : unit -> ltok -> Prop) E :
  sn' = sn \/ sn' = Unseen -> Q' tt (tkn x Out cs' sn' g) -> LWP k (lock_notify_all (mon self)) (tkn x Out cs sn g) Q' E.
Proof.
  intros Hsn HQ. apply (LP_notify self T cap size K Fin FinP k _ (tkn x Out cs' sn' g)); [done| |done|done].
  by apply same_tkn.
Qed.

Lemma T_wait cs' k (rs : reason) x cs sn g (Q' : unit -> ltok -> Prop) E :
  rs <> RTimed -> parkable (tkn x (Parked rs) cs sn g) rs -> cs ⊆ cs' ->
  Q' tt (tkn x In cs' sn g) -> LWP k (wait (mon self)) (tkn x (Ready rs) cs sn g) Q' E.
Proof.
  intros Hr Hp Hsub HQ. eapply (LP_wait self T cap size K Fin FinP k rs _ (tkn x In cs' sn g)); try done.
  - apply same_tkn. by left.
  - intros c. cbn. intros [Hin%bool_decide_eq_true|Ho]%orb_true_iff; [|by rewrite Ho, orb_true_r].
    by rewrite bool_decide_true by auto.
Qed.

Lemma T_with_lock k {B} (body : prog S B) x cs sn g (Q' : B -> ltok -> Prop) E :
  LWP k body (tkn x In cs sn g)
    (fun b g' => inside (lt_mode g') = true /\ Q' b (with_mode Out g')) (fun _ => False) ->
  LWP k (with_lock (mon self) body) (tkn x Out cs sn g) Q' E.
Proof. intros Hb. by apply (LP_with_lock self T cap size K). Qed.

Lemma T_holding k {B} (body : prog S B) g (Q' : B -> ltok -> Prop) E :
  LWP k body g Q' (fun _ => False) -> LWP k (holding (mon self) body) g Q' E.
Proof. intros Hb. apply WP_on_unwind. eapply WP_mono; [exact Hb|done|done]. Qed.

(** *** Idle workers *)

(** Taking an announcement: others may have to be told again. *)
Record wake_used s s' : Prop := {
  wu_pending : pending self s' <= pending self s;
  wu_slots : slots self s' = slots self s;
  wu_running : running self s' = running self s;
  wu_cancelling : cancelling self s' = cancelling self s;
  wu_sync : mon_sync (state (get self s')) = mon_sync (state (get self s));
  wu_lc : lc self s' = lc self s;
  wu_live : live self s' = live self s;
  wu_word : word self s' = word self s;
  wu_queued : queued self s' = queued self s;
}.

Lemma wake_pay : pays self wake_used [CWork].
Proof.
  intros s s' [Hp Hs Hr Hc Hsy Hl Hv Hw Hq]. split; [split; [done..|unfold closed; by rewrite Hw]|].
  intros c Hn. destruct c; cbn; unfold busy, inflight; rewrite ?Hl, ?Hv, ?Hw, ?Hq, ?Hs, ?Hr, ?Hc; try done.
  - destruct Hn. in_list.
  - lia.
Qed.

Lemma acts_unmark_idle k : acts k wake_used (unmark_fixed_worker_idle self).
Proof. view_acts. Qed.

Definition idle_worker x : ptok := inc CIdleAtomic (inc CIdle x).

Lemma T_mark_idle k x m cs sn g (Q' : unit -> ltok -> Prop) E :
  free_mode m -> Q' tt (tkn (idle_worker x) m cs sn g) ->
  LWP k (mark_fixed_worker_idle self) (tkn x m cs sn g) Q' E.
Proof.
  intros Hm HQ. apply T_same; [by apply acts_mark_idle|done|].
  client WP_mark_idle; [apply (holds_self pt_acct_l)|]. intros x' Hx'.
  apply (holds_same (idle_worker x)) in Hx'. by subst x'.
Qed.

Lemma T_unmark_idle k x m cs sn g (Q' : unit -> ltok -> Prop) E :
  free_mode m -> CWork ∈ cs -> Q' tt (tkn x m cs sn g) ->
  LWP k (unmark_fixed_worker_idle self) (tkn (idle_worker x) m cs sn g) Q' E.
Proof.
  intros Hm Hw HQ. apply (T_lift k wake_used [CWork]); [apply wake_pay|apply acts_unmark_idle|done| |].
  { intros c ->%list_elem_of_singleton. done. }
  client WP_unmark_idle; [exact (holds_self pt_acct_l (idle_worker x))|]. intros x' ->%(holds_same x). done.
Qed.

Lemma queued_nonneg h s G : SI h s (lt_pool <$> G) -> 0 <= queued self s.
Proof. intros (q & [_ _ Ha _ _]). pose proof (ai_queued _ _ _ _ _ _ _ Ha) as Hq. unfold queued. cbn in Hq. lia. Qed.

Lemma past_work sn s : sn = SeenPast -> told self sn s -> bcond self CWork s.
Proof. intros -> Hp. by left. Qed.

Local Abbreviation wtk x m cs sn := (tkn x m cs sn worker).

Lemma worker_parkable x m cs sn rs :
  no_phase x -> cs = [] -> rs = RShut \/ rs = RWork -> parkable (wtk x m cs sn) rs.
Proof. intros Hx -> Hr. by split. Qed.

(** An idle worker of a running pool leaves at once, for work it sees, or sleeps. *)
Lemma T_park_running k x sn (Q' : bool -> ltok -> Prop) E :
  no_phase x -> (forall b, Q' b (wtk x In [CWork] sn)) ->
  LWP k (park_running self) (wtk x (Ready RRun) [CWork] sn) Q' E.
Proof.
  intros Hx HQ. apply WP_bind, T_mark_idle; [by right; right|].
  assert (Hleave : LWP k (unmark_fixed_worker_idle self ;; Ret true)
    (wtk (idle_worker x) In [CWork] sn) Q' E).
  { apply WP_bind, T_unmark_idle; [by right; left|in_list|]. by apply WP_ret. }
  apply WP_bind, T_load. intros h s G Ht [HI HL] Hk. pose proof (queued_nonneg _ _ _ HI) as Hq.
  pose proof (told_now _ _ _ _ _ _ _ _ HL Hk) as Htold.
  change (get (acc self ⊚ queued_task_count_l) s) with (queued self s).
  destruct (Z.ltb_spec 0 (queued self s)) as [Hpos|Hle].
  { exists In, [CWork], sn. split; [|by apply WP_bind, WP_ret].
    eapply ok_switch; [exact HL|exact Hk|done..|auto]. }
  exists (Ready RHalf), [], sn. split.
  { eapply ok_switch; [exact HL|exact Hk|done..| |].
    - intros rs [= <-]. split; [exact (inc_has _ _)|]. intros c. cbn [conds].
      intros [->|[->|[]%not_elem_of_nil]%elem_of_cons]%elem_of_cons; [right; exists RRun; split; [done|in_list]|].
      left; right; left. lia.
    - intros c ->%list_elem_of_singleton. right; left; right; left. lia. }
  clear h s G Ht HI HL Hk Hq Htold Hle. apply WP_bind, WP_bind, T_load. intros h s G Ht [HI HL] Hk.
  pose proof (told_now _ _ _ _ _ _ _ _ HL Hk) as Htold.
  change (get (self ⊚ pending_worker_wakes_l) s) with (pending self s).
  destruct (Z.ltb_spec 0 (pending self s)) as [Hpos|Hle].
  { exists In, [CWork], sn. split; [|by apply WP_ret]. eapply ok_switch; [exact HL|exact Hk|done..|].
    intros c []%not_elem_of_nil. }
  exists (Ready RWork), [], sn. split.
  { eapply ok_switch; [exact HL|exact Hk|done..| |].
    - intros rs [= <-]. split; [exact (inc_has _ _)|]. intros c. cbn [conds].
      intros [->|[->|[->|[]%not_elem_of_nil]%elem_of_cons]%elem_of_cons]%elem_of_cons; [| |by left];
        right; exists RHalf; (split; [done|in_list]).
    - intros c []%not_elem_of_nil. }
  apply WP_ret. apply WP_bind, (T_wait [CWork]); [done| |set_solver|].
  { apply worker_parkable; auto. }
  apply WP_bind, T_unmark_idle; [by right; left|in_list|]. by apply WP_ret.
Qed.

(** A worker of a pool that is shutting down waits only for submitters. *)
Lemma T_park_shutting_down k x (Q' : unit -> ltok -> Prop) E :
  no_phase x -> Q' tt (wtk x In [CWork] SeenPast) ->
  LWP k (park_shutting_down self) (wtk x In [CWork] SeenPast) Q' E.
Proof.
  intros Hx HQ. apply WP_bind, T_mark_idle; [by right; left|].
  assert (Hend : LWP k (unmark_fixed_worker_idle self) (wtk (idle_worker x) In [CWork] SeenPast) Q' E).
  { apply T_unmark_idle; [by right; left|in_list|done]. }
  apply WP_bind. eapply (LP_load self T cap size K). intros q. apply WP_bind.
  destruct (q =? 0); [|by apply WP_ret].
  apply WP_bind. unfold fixed_inflight_count, inflight_count, gate_inflight_count. apply WP_bind, T_load.
  intros h s G Ht [HI HL] Hk. pose proof (told_now _ _ _ _ _ _ _ _ HL Hk) as Htold.
  change (get _ s) with (word self s).
  destruct (Z.ltb_spec 0 (Z.land (word self s) COUNT_MASK)) as [Hpos|Hle].
  - exists (Ready RShut), [], SeenPast. apply Z.ltb_lt in Hpos as Hpos'. split.
    + eapply ok_switch; [exact HL|exact Hk|done..| |].
      * intros rs [= <-]. split; [done|]. intros c ->%list_elem_of_singleton. left. cbn. unfold inflight. lia.
      * intros c ->%list_elem_of_singleton. right; left. by left.
    + apply WP_ret. rewrite Hpos'. cbn [when]. apply (T_wait [CWork]); [done| |set_solver|done].
      apply worker_parkable; auto.
  - exists In, [CWork], SeenPast. split; [by eapply ok_stay|]. apply WP_ret.
    apply Z.ltb_ge in Hle. rewrite Hle. by apply WP_ret.
Qed.

(** *** The waiting loop *)

Lemma acts_spin k : acts k (same_view self) (spin_for_fixed_pool_work self).
Proof.
  split; [intros s; view_step|]. intros n. cbn [bind]. destruct (n <=? 4); [done|].
  induction IDLE_SPIN_LIMIT as [|m IH]; cbn [spin_probes]; [done|].
  apply acts_bind; [view_acts|]. intros q. apply acts_bind; [view_acts|]. intros []; [done|].
  apply acts_bind; [view_acts|]. intros []; [exact IH|done].
Qed.

Lemma T_spin k x m cs sn g (Q' : bool -> ltok -> Prop) E :
  free_mode m -> (forall b, Q' b (tkn x m cs sn g)) ->
  LWP k (spin_for_fixed_pool_work self) (tkn x m cs sn g) Q' E.
Proof. intros Hm HQ. apply T_same; [apply acts_spin|done|]. by client WP_spin. Qed.

(** Reading the lifecycle: outside [Running] the thread remembers it. *)
Lemma T_lifecycle k x cs sn g (Q' : ExecutorServiceLifecycle -> ltok -> Prop) E :
  Q' Lifecycle.Running (tkn x (Ready RRun) cs sn g) ->
  (forall v, v <> Lifecycle.Running -> exists cs', (forall c, c ∈ cs -> c ∈ cs' \/ c = CWork) /\
     Q' v (tkn x In cs' SeenPast g)) ->
  LWP k (load (locked self fixed_lifecycle_l)) (tkn x In cs sn g) Q' E.
Proof.
  intros HQr HQp. apply T_load. intros h s G Ht [HI HL] Hk.
  pose proof (told_now _ _ _ _ _ _ _ _ HL Hk) as Htold.
  change (get (locked self fixed_lifecycle_l) s) with (lc self s).
  destruct (decide (lc self s = Lifecycle.Running)) as [Hr|Hr].
  - exists (Ready RRun), cs, sn. rewrite Hr. split; [|done]. eapply ok_switch; [exact HL|exact Hk|done..| |auto].
    intros rs [= <-]. split; [done|]. intros c ->%list_elem_of_singleton. by left.
  - destruct (HQp _ Hr) as (cs' & Hcs & HQ'). exists In, cs', SeenPast. split; [|exact HQ'].
    eapply ok_switch; [exact HL|exact Hk|done..|]. intros c [Hc| ->]%Hcs; [by left|]. right; left. by left.
Qed.

(** What a worker holds when it goes on, looks for a job, or ends. *)
Definition waited x (v : unit + bool) (g : ltok) : Prop :=
  match v with
  | inl _ => exists sn, g = wtk x In [CWork] sn
  | inr true => exists sn, g = wtk x Out [CWork] sn
  | inr false => g = wtk x Out [] SeenPast
  end.

Lemma LP_wait_iteration k x sn :
  no_phase x ->
  LWP k (wait_iteration self tt) (wtk x In [CWork] sn) (waited x) (fun _ => False).
Proof.
  intros Hx.
  assert (Hgo : forall m sn, inside m = true ->
    LWP k (monitor_unlock (mon self) ;; Ret (inr true : unit + bool)) (wtk x m [CWork] sn) (waited x) (fun _ => False)).
  { intros m sn' Hm. apply WP_bind, T_unlock; [done|]. apply WP_ret. by exists sn'. }
  assert (Hend : LWP k (monitor_unlock (mon self) ;; Ret (inr false : unit + bool)) (wtk x In [] SeenPast)
    (waited x) (fun _ => False)).
  { apply WP_bind, T_unlock; [done|]. by apply WP_ret. }
  apply WP_bind, T_lifecycle;
    [|intros [| | |] Hv; [done|exists [CWork]; split; [by left|]|exists []; split; [set_solver|done]..]].
  - apply WP_bind. eapply (LP_load self T cap size K). intros q. destruct (0 <? q); [by apply Hgo|].
    apply WP_bind, T_unlock; [done|]. apply WP_bind, T_spin; [by left|]. intros []; [apply WP_ret; by exists sn|].
    apply WP_bind, T_lock, WP_bind, T_lifecycle.
    + rewrite bool_decide_true by done. cbn [negb]. apply WP_bind, T_holding, T_park_running; [done|].
      intros []; [by apply Hgo|]. apply WP_ret. by exists sn.
    + intros v Hv. exists [CWork]. split; [by left|]. rewrite bool_decide_false by done. apply WP_ret. by exists SeenPast.
  - apply WP_bind. eapply (LP_load self T cap size K). intros q. destruct (0 <? q); [by apply Hgo|].
    apply WP_bind. unfold fixed_inflight_count, inflight_count, gate_inflight_count. apply WP_bind, T_load.
    intros h s G Ht [HI HL] Hk. pose proof (told_now _ _ _ _ _ _ _ _ HL Hk) as Htold.
    change (get _ s) with (word self s).
    destruct (Z.land (word self s) COUNT_MASK =? 0) eqn:Hn.
    + exists In, [], SeenPast. split; [|apply WP_ret; by rewrite Hn].
      eapply ok_switch; [exact HL|exact Hk|done..|]. intros c ->%list_elem_of_singleton. right; left. by left.
    + exists In, [CWork], SeenPast. split; [by eapply ok_stay|]. apply WP_ret. rewrite Hn.
      apply WP_bind, T_holding, T_park_shutting_down; [done|]. apply WP_ret. by exists SeenPast.
Qed.

Lemma LP_wait_for_work k x sn (Q' : bool -> ltok -> Prop) E :
  no_phase x -> (forall sn', Q' true (wtk x Out [CWork] sn')) -> Q' false (wtk x Out [] SeenPast) ->
  LWP k (wait_for_fixed_pool_work self) (wtk x Out [CWork] sn) Q' E.
Proof.
  intros Hx HQt HQf. apply WP_bind, T_lock. unfold loop.
  apply (WP_loop _ _ _ _ _ _ _ _ (fun _ g => exists sn, g = wtk x In [CWork] sn)); [|by exists sn].
  intros [] g [sn' ->]. eapply WP_mono; [by apply LP_wait_iteration| |done].
  intros [u|[]] g' Hg'; [exact Hg'| |]; cbn in Hg'; [destruct Hg' as [sn2 ->]|subst g']; by apply WP_ret.
Qed.

(** *** Starting and ending *)

(** Only the number of live workers changes. *)
Record live_move s s' : Prop := {
  lm_sync : mon_sync (state (get self s')) = mon_sync (state (get self s));
  lm_lc : lc self s' = lc self s;
  lm_pending : pending self s' = pending self s;
  lm_word : word self s' = word self s;
  lm_slots : slots self s' = slots self s;
  lm_queued : queued self s' = queued self s;
  lm_running : running self s' = running self s;
  lm_cancelling : cancelling self s' = cancelling self s;
}.

(** [g] with [n] workers left to start. *)
Definition with_spare (n : nat) (g : ltok) : ltok :=
  MkLtok (lt_pool g) (lt_mode g) (lt_owes g) (lt_kind g) (lt_seen g) n (lt_handles g).

Lemma live_step s s' G k x cs sn g x' n :
  ok s G -> G !! k = Some (tkn x In cs sn g) -> live_move s s' ->
  CTerm ∈ cs \/ live self s' <> 0 ->
  sn = SeenPast \/ (pt_count x' CLive + n = pt_count x CLive + lt_spare g)%nat ->
  ok s' (<[k := tkn x' In cs sn (with_spare n g)]> G).
Proof.
  intros HL Hk [Hsy Hl Hp Hw Hs Hq Hr Hc] Hterm Hfull.
  pose proof (told_now _ _ _ _ _ _ _ _ HL Hk) as Htold.
  assert (Hb : forall c, (bcond self c s -> bcond self c s') \/ (c = CTerm /\ CTerm ∈ cs)).
  { intros c. destruct c; cbn; unfold busy, inflight; rewrite ?Hl, ?Hp, ?Hw, ?Hs, ?Hq, ?Hr, ?Hc; try by left.
    destruct Hterm; [by right|by left; auto]. }
  eapply live_update; [exact HL|exact Hk|..]; try done.
  - split; try done; unfold closed; rewrite ?Hl, ?Hw; try done.
    + eapply told_mono; [exact Htold|by rewrite Hl|unfold closed; by rewrite Hw].
    + by left.
    + intros Hrun. destruct Hfull as [->|Hfull]; [done|exact Hfull].
  - unfold owner. by rewrite Hsy.
  - intros t. unfold asleep. by rewrite Hsy.
  - intros u gu rs _ Hu _ _ Hmet c Hcc. specialize (Hmet c Hcc). eapply met_keep; [exact Hmet|exact Hk|].
    destruct (Hb c) as [Hb'|[-> Hin]]; [right; right; split; [exact Hb'|done]|right; left].
    cbn. by rewrite bool_decide_true.
Qed.

Lemma live_moves s n : live_move s (set (locked self fixed_live_workers_l) n s) /\
  live self (set (locked self fixed_live_workers_l) n s) = n.
Proof. split; [split|]; unfold lc, live, pending, word, slots, queued, running, cancelling; cbn; by rewrite get_set. Qed.

Lemma T_live_decr k x cs sn g n (Q' : unit -> ltok -> Prop) E :
  (1 <= pt_count x CLive)%nat -> CTerm ∈ cs ->
  sn = SeenPast \/ n = Datatypes.S (lt_spare g) ->
  Q' tt (tkn (dec CLive x) In cs sn (with_spare n g)) ->
  LWP k (guarded_decr (locked self fixed_live_workers_l)) (tkn x In cs sn g) Q' E.
Proof.
  intros Hx Hcs Hn HQ. set (x' := dec CLive x) in *.
  assert (Hs : SWP k (guarded_decr (locked self fixed_live_workers_l)) x (fun _ x1 => x1 = x') (fun _ => False)).
  { change (locked self fixed_live_workers_l) with (self ⊚ @counter_l M Q CLive).
    client WP_guarded_decr_count; [exact Hx|apply (holds_self pt_acct_l)|]. intros x1 Hx1. by apply holds_same. }
  unfold guarded_decr in *. cbn [bind] in *.
  apply (LP_act self T cap size K Fin FinP k _ _ _ _ _ (fun b x1 => exists a, assert b = (Ret a : prog S unit) /\ x1 = x')).
  { eapply act_pure; [exact Hs|]. intros []; [left; by eexists|by right]. }
  intros h s G Ht [HI HL] Hk.
  assert (Hsome : 1 <= get (locked self fixed_live_workers_l) s).
  { change (1 <= live self s). rewrite (live_total _ _ _ _ _ _ _ HI).
    assert (Hk' : (lt_pool <$> G) !! k = Some x) by (by rewrite list_lookup_fmap, Hk).
    pose proof (count_total_lookup CLive _ _ _ Hk'). lia. }
  unfold checked_sub. apply Z.leb_le in Hsome. rewrite Hsome. intros x1 (a & _ & ->) _.
  exists (tkn x' In cs sn (with_spare n g)). split; [done|]. split; [|by apply WP_ret].
  eapply live_step; [exact HL|exact Hk|apply live_moves|by left|].
  destruct Hn as [->| ->]; [by left|right]. subst x'. cbn. rewrite decide_True by done. lia.
Qed.

Lemma LP_worker_exited k i sn (Q' : unit -> ltok -> Prop) E :
  sn = SeenPast -> Q' tt (wtk ptok0 Out [] sn) -> LWP k (worker_exited self i) (wtk worker_token Out [] sn) Q' E.
Proof.
  intros Hsn HQ. apply T_with_lock, WP_bind. apply (T_take [CTerm]); [done|done|set_solver|].
  apply (T_live_decr k _ _ _ worker 0%nat); [apply inc_has|in_list|by left|].
  unfold worker_token. rewrite dec_inc. apply WP_bind, (T_notify_all k [] sn); [by left|]. by apply WP_ret.
Qed.

Context `{HU : !UserSafeB (may_wait self) may_await I Fin FinP lcalm}.

Lemma LP_execute k (b : bool) job index g (Q' : unit -> ltok -> Prop) E :
  lcalm g -> Q' tt g ->
  LWP k (if b then hooks <- get_hooks self ;; run_with_task_hooks job hooks index
        else run_without_hooks job) g Q' E.
Proof.
  intros HL HQ. destruct b; [|by user WP_contained_run].
  apply WP_bind. eapply (LP_get self T cap size K). intros hks. apply WP_ret, WP_bind. user WP_run_hook; [done|].
  apply WP_bind. user WP_contained_run; [done|]. by user WP_run_hook.
Qed.

(** A worker ends having settled everything, in a pool past [Running]. *)
Lemma LP_worker k runtime (Q' : unit -> ltok -> Prop) E :
  Q' tt (wtk ptok0 Out [] SeenPast) ->
  LWP k (fixed_worker_run self runtime) (wtk worker_token Out [] Unseen) Q' E.
Proof.
  intros HQ. assert (Hcalm : forall cs sn, lcalm (wtk worker_token Out cs sn)) by done.
  apply WP_bind, (T_take [CWork]); [done|done|set_solver|]. eapply (LP_get self T cap size K). intros hks.
  apply WP_ret, WP_bind. user WP_run_hook; [done|]. apply WP_bind. unfold loop.
  apply (WP_loop _ _ _ _ _ _ _ _ (fun _ g => exists sn, g = wtk worker_token Out [CWork] sn)); [|by exists Unseen].
  intros [] g [sn ->]. apply WP_bind.
  apply (LP_try_take_job self T cap size K Fin FinP k worker_token worker_token tok0 (wtk worker_token Out [CWork] sn));
    [done|done|done|apply (holds_self pt_acct_l worker_token)|..].
  - intros job o x' Hx'. apply WP_bind, LP_execute.
    { eapply sholds_late; [exact Hx'|by apply late_tadd|done]. }
    apply WP_bind. eapply (LP_finish_running_job self T cap size K Fin FinP); [done|exact Hx'|].
    intros x2 ->%(holds_same worker_token). apply WP_ret. by exists sn.
  - intros x' ->%(holds_same worker_token). apply WP_bind.
    apply LP_wait_for_work; [done|intros sn'; apply WP_ret; by exists sn'|].
    apply WP_ret, WP_ret, WP_bind. user WP_run_hook; [done|]. by apply LP_worker_exited.
Qed.
End worker_code.
