(* ===== verification/FixedLiveCalls.v ===== *)
(** Why a fixed pool does not hang, part 5: the methods callers use. *)
From S2P Require Import Prelude Prog Conc Sync AdmissionGate PoolAccounting AccountingLogic.
From S2P Require Import AccountingSpecs Types Hooks PoolJob FixedInner FixedLogic FixedWorker.
From S2P Require Import UserSpecs FixedSpecs Builder FixedPool FixedOps FixedSafety.
From S2P Require Import FixedLive FixedLiveRules FixedLiveJobs FixedLiveWorker.
Local Open Scope Z_scope.

(** The frame of a caller. *)
Definition caller (waits : bool) : ltok := MkLtok ptok0 Out (fun _ => false) (Caller waits) Unseen 0 [].

Section calls.
Context {S M Q : Type} `{MonitorLaws M} `{Injector Q PoolJob} `{UserCode S}.
Context `{!InjectorLaws Q PoolJob}.
Variable self : lens S (FixedThreadPoolInner M Q).
Context `{!LensLaws self} (T : nat) (cap : option Z) (size : nat) (K : list kind).
Context (Fin FinP : ltok -> Prop).
Local Abbreviation I := (live_inv self T cap size K).
Local Abbreviation ok := (live_ok self size K).
Local Abbreviation LWP := (WPB (may_wait self) may_await I Fin FinP).
Local Abbreviation SI := (pool_inv self T cap size).
Local Abbreviation SWP := (WP SI (fun _ => True) (fun _ => True)).
Local Abbreviation sholds := (AccountingSpecs.holds pt_acct_l).
Implicit Types (o : bool) (k : nat) (g : ltok) (G : list ltok) (s : S) (h : list S) (x : ptok) (r : tok).
Implicit Types (cs : list cond) (m : mode) (sn : seen).

(** *** Looking *)

Lemma T_is_idle k m x cs sn g (Q' : bool -> ltok -> Prop) E :
  (forall s G, ok s G -> G !! k = Some (tkn x In cs sn g) -> busy self s -> ok s (<[k := tkn x m cs sn g]> G)) ->
  Q' true (tkn x In cs sn g) -> Q' false (tkn x m cs sn g) ->
  LWP k (is_idle (acc self)) (tkn x In cs sn g) Q' E.
Proof. apply (LP_is_idle self T cap size K Fin FinP k x (tkn x In cs sn g) (tkn x m cs sn g)). Qed.

(** The pool is terminated, or the thread may have a reason to wait for that. *)
Lemma LP_terminated_locked k m x cs sn g (Q' : bool -> ltok -> Prop) E :
  m = In \/ m = Ready RTerm ->
  Q' true (tkn x In cs sn g) -> Q' false (tkn x m cs sn g) ->
  LWP k (fixed_is_terminated_locked self) (tkn x In cs sn g) Q' E.
Proof.
  intros Hm HQt HQf.
  assert (Hsw : forall s G, ok s G -> G !! k = Some (tkn x In cs sn g) -> bcond self CTerm s ->
    ok s (<[k := tkn x m cs sn g]> G)).
  { intros s G HL Hk Hb. eapply ok_switch; [exact HL|exact Hk|by eapply told_now|done|by destruct Hm as [-> | ->]..| |auto].
    intros rs Hrs. destruct Hm as [->|Hm]; [done|]. rewrite Hm in Hrs. simplify_eq. split; [done|].
    intros c ->%list_elem_of_singleton. by left. }
  apply WP_bind. eapply (LP_read self T cap size K). intros h s G Ht [HI HL] Hk.
  change (get (locked self fixed_lifecycle_l) s) with (lc self s).
  destruct (bool_decide (lc self s = Lifecycle.Running)) eqn:Hr.
  { exists (tkn x m cs sn g). split; [done|]. split; [|apply WP_ret; rewrite Hr; by apply WP_ret].
    apply Hsw; [done|done|]. left. by apply bool_decide_eq_true in Hr. }
  exists (tkn x In cs sn g). split; [done|]. split; [by rewrite list_insert_id|]. apply WP_ret. rewrite Hr.
  clear h s G Ht HI HL Hk Hr. apply WP_bind. eapply (LP_read self T cap size K). intros h s G Ht [HI HL] Hk.
  change (get (locked self fixed_live_workers_l) s) with (live self s).
  destruct (live self s =? 0) eqn:Hl; cycle 1.
  { exists (tkn x m cs sn g). split; [done|]. split; [|apply WP_ret; rewrite Hl; by apply WP_ret].
    apply Hsw; [done|done|]. right; left. by apply Z.eqb_neq in Hl. }
  exists (tkn x In cs sn g). split; [done|]. split; [by rewrite list_insert_id|]. apply WP_ret. rewrite Hl. cbn [negb].
  apply (T_is_idle k m); [|done|done].
  intros s1 G1 HL1 Hk1 Hb. apply Hsw; [done|done|by right; right].
Qed.

Lemma LP_observed_lifecycle k x cs sn g (Q' : ExecutorServiceLifecycle -> ltok -> Prop) E :
  (forall v, Q' v (tkn x In cs sn g)) -> LWP k (observed_lifecycle self) (tkn x In cs sn g) Q' E.
Proof.
  intros HQ. apply WP_bind, (LP_terminated_locked k In); [by left|by apply WP_ret|].
  by eapply (LP_load self T cap size K).
Qed.

Lemma LP_observe k {B} (body : prog S B) x cs sn g (Q' : B -> ltok -> Prop) E :
  LWP k body (tkn x In cs sn g) (fun _ g' => g' = tkn x In cs sn g) (fun _ => False) ->
  (forall b, Q' b (tkn x Out cs sn g)) -> LWP k (with_lock (mon self) body) (tkn x Out cs sn g) Q' E.
Proof.
  intros Hb HQ. client T_with_lock. eapply WP_mono; [exact Hb| |done]. intros b ? ->. split; [done|]. apply HQ.
Qed.

Lemma LP_is_terminated k x cs sn g (Q' : bool -> ltok -> Prop) E :
  (forall b, Q' b (tkn x Out cs sn g)) -> LWP k (fixed_is_terminated self) (tkn x Out cs sn g) Q' E.
Proof. intros HQ. apply LP_observe; [|exact HQ]. apply (LP_terminated_locked k In); [by left|done..]. Qed.

Lemma LP_stats k x cs sn g (Q' : ThreadPoolStats -> ltok -> Prop) E :
  (forall v, Q' v (tkn x Out cs sn g)) -> LWP k (fixed_stats self) (tkn x Out cs sn g) Q' E.
Proof.
  intros HQ. apply WP_bind. client T_same; [by apply acts_snapshot|by left|]. client WP_snapshot. intros c.
  apply LP_observe; [|exact HQ]. apply WP_bind, LP_observed_lifecycle. intros lc.
  apply WP_bind. eapply (LP_get self T cap size K). intros n. apply WP_ret.
  apply WP_bind. eapply (LP_get self T cap size K). intros cp. apply WP_ret.
  do 2 (apply WP_bind; eapply (LP_load self T cap size K); intros ?).
  apply WP_bind, (LP_terminated_locked k In); [by left|by apply WP_ret..].
Qed.

(** *** Closing the pool *)

(** Leaving [Running]: waiting workers and waiters for termination are to be told. *)
Lemma T_store_lifecycle k v sn' x cs sn g (Q' : unit -> ltok -> Prop) E :
  v <> Lifecycle.Running -> sn <> Unseen -> [CLife; CTerm] ⊆ cs -> sn' = sn \/ sn' = SeenPast ->
  Q' tt (tkn x In cs sn' g) ->
  LWP k (store (locked self fixed_lifecycle_l) v) (tkn x In cs sn g) Q' E.
Proof.
  intros Hv Hsn Hcs Hsn' HQ. apply (LP_act self T cap size K Fin FinP k _ _ _ _ _ (fun _ x1 => x1 = x)).
  { change (SWP k (store (locked self fixed_lifecycle_l) v) x (fun _ x1 => x1 = x) (fun _ => False)).
    by client WP_store_lifecycle. }
  intros h s G Ht [HI HL] Hk x1 -> _. exists (tkn x In cs sn' g). split; [done|]. split; [|by apply WP_ret].
  pose proof (told_now self size K s G k x In cs sn g HL Hk) as Htold. set (s' := set _ _ s).
  assert (Hs' : mon_sync (state (get self s')) = mon_sync (state (get self s)) /\ lc self s' = v /\
    live self s' = live self s /\ word self s' = word self s /\ slots self s' = slots self s /\
    queued self s' = queued self s /\ running self s' = running self s /\
    cancelling self s' = cancelling self s /\ pending self s' = pending self s).
  { subst s'. unfold lc, live, word, slots, queued, running, cancelling, pending. cbn. by rewrite !get_set. }
  clearbody s'. destruct Hs' as (Hsy & Hl & Hli & Hw & Hsl & Hq & Hr & Hc & Hp).
  assert (Hclosed : closed self s').
  { unfold closed. rewrite Hw. destruct sn; [done|exact Htold|]. by apply (lo_closed _ _ _ _ _ HL). }
  assert (Hpast : told self sn' s').
  { destruct Hsn' as [-> | ->]; [|cbn; by rewrite Hl]. destruct sn; [done|exact Hclosed|cbn; by rewrite Hl]. }
  eapply live_update; [exact HL|exact Hk|..]; try done.
  - split; try done; rewrite ?Hl; try done. by right.
  - unfold owner. by rewrite Hsy.
  - intros t. unfold asleep. by rewrite Hsy.
  - intros u gu rs _ Hu _ _ Hmet c Hcc. specialize (Hmet c Hcc). eapply met_keep; [exact Hmet|exact Hk|].
    assert (Hc' : (bcond self c s -> bcond self c s') \/ c ∈ cs).
    { destruct c; cbn; unfold busy, inflight; rewrite ?Hl, ?Hli, ?Hw, ?Hsl, ?Hq, ?Hr, ?Hc, ?Hp; try by left.
      - right. apply Hcs. in_list.
      - right. apply Hcs. in_list.
      - left. intros _. by left. }
    destruct Hc' as [Hc'|Hin]; [right; right; split; [exact Hc'|done]|right; left].
    cbn. by rewrite bool_decide_true.
Qed.

Lemma LP_shutdown k x cs sn g (Q' : unit -> ltok -> Prop) E :
  Q' tt (tkn x Out cs sn g) -> LWP k (fixed_shutdown self) (tkn x Out cs sn g) Q' E.
Proof.
  intros HQ. set (sn1 := after_close sn).
  assert (Hsn : sn1 <> Unseen /\ (sn = sn1 \/ sn = Unseen)) by (by destruct sn; auto).
  destruct Hsn as [Hsn1 Hsn2].
  apply WP_bind. apply (LP_close self T cap size K Fin FinP k x (tkn x Out cs sn g)); [done|].
  change (LWP k (with_lock (mon self) (lifecycle <- load (locked self fixed_lifecycle_l) ;;
    when (bool_decide (lifecycle = Lifecycle.Running))
      (store (locked self fixed_lifecycle_l) Lifecycle.ShuttingDown) ;;
    notify_all (mon self))) (tkn x Out cs sn1 g) Q' E).
  client T_with_lock. apply WP_bind.
  apply (T_take self T cap size K Fin FinP ([CLife; CTerm] ++ cs)); [done|done|set_solver|].
  eapply (LP_load self T cap size K). intros v. apply WP_bind.
  assert (Hend : LWP k (notify_all (mon self)) (tkn x In ([CLife; CTerm] ++ cs) sn1 g)
    (fun b g' => inside (lt_mode g') = true /\ Q' b (with_mode Out g')) (fun _ => False)).
  { apply (T_notify_all self T cap size K Fin FinP k cs sn); [exact Hsn2|]. done. }
  destruct (bool_decide _); [|by apply WP_ret].
  apply (T_store_lifecycle k _ sn1); [done|done|set_solver|by left|exact Hend].
Qed.

(** *** Waiting *)

Local Abbreviation ctk x m cs sn w := (tkn x m cs sn (caller w)).

Lemma caller_parkable x m cs sn w rs :
  no_phase x -> pt_count x CLive = 0%nat -> (forall c, c ∈ cs -> rs = RStop /\ (c = CLife \/ c = CTerm)) ->
  rs = RJoin \/ rs = RStop \/ rs = RTimed \/ (rs = RTerm /\ w = true) -> parkable (ctk x m cs sn w) rs.
Proof.
  intros Hx Hl Hcs Hrs. split; [done|done| |by split].
  intros c. cbn. intros [Hc%bool_decide_eq_true|]%orb_true_iff; [by apply Hcs|done].
Qed.

Lemma acts_waiters_out k : acts k (same_view self)
  (previous <- fetch_sub (self ⊚ idle_waiter_count_l) 1 ;; assert (0 <? previous)).
Proof. view_acts. Qed.

Lemma LP_wait_until_idle k w (Q' : unit -> ltok -> Prop) E :
  Q' tt (ctk ptok0 Out [] Unseen w) ->
  LWP k (fixed_wait_until_idle self) (ctk ptok0 Out [] Unseen w) Q' E.
Proof.
  intros HQ. set (x := inc CIdleWaiter ptok0). apply WP_bind.
  client T_same; [by apply acts_waiters_in|by left|].
  change (self ⊚ idle_waiter_count_l) with (self ⊚ @counter_l M Q CIdleWaiter).
  client WP_fetch_add_count; [done|apply (holds_self pt_acct_l ptok0)|]. intros _ x' ->%(holds_same x).
  client T_with_lock. apply WP_bind. unfold loop.
  apply (WP_loop _ _ _ _ _ _ _ _ (fun _ g => g = ctk x In [] Unseen w)); [|done].
  intros [] g ->. apply WP_bind.
  apply (T_is_idle k (Ready RJoin)).
  - intros s G HL Hk Hb. apply (ok_switch self size K s G k x In [] Unseen); [exact HL|exact Hk|done..| |].
    + intros rs [= <-]. split; [exact (inc_has _ _)|]. intros c ->%list_elem_of_singleton. by left.
    + intros c []%not_elem_of_nil.
  - apply WP_ret, WP_ret.
    apply (T_same self T cap size K Fin FinP k _ x In [] Unseen (caller w)); [by apply acts_waiters_out|by right; left|].
    apply WP_bind. change (self ⊚ idle_waiter_count_l) with (self ⊚ @counter_l M Q CIdleWaiter).
    client (WP_fetch_sub_count _ _ _ _ _ _ _ _ x x); [done|apply inc_has|apply (holds_self pt_acct_l)|].
    intros v x' Hv Hx'. subst x. rewrite dec_inc in Hx'. apply (holds_same ptok0) in Hx' as ->.
    apply Z.ltb_lt in Hv. rewrite Hv. apply WP_ret. done.
  - apply WP_bind. apply (T_wait self T cap size K Fin FinP []); [done| |done|].
    + apply caller_parkable; [done|done|intros c []%not_elem_of_nil|by left].
    + by apply WP_ret.
Qed.

Lemma LP_wait_for_termination k (Q' : unit -> ltok -> Prop) E :
  Q' tt (ctk ptok0 Out [] Unseen true) ->
  LWP k (fixed_wait_for_termination self) (ctk ptok0 Out [] Unseen true) Q' E.
Proof.
  intros HQ. unfold fixed_wait_for_termination, wait_until_ready. client T_with_lock. unfold loop.
  apply (WP_loop _ _ _ _ _ _ _ _ (fun _ g => g = ctk ptok0 In [] Unseen true)); [|done].
  intros [] g ->. apply WP_bind, (LP_terminated_locked k (Ready RTerm)); [by right|by apply WP_ret, WP_ret|].
  apply WP_bind. apply (T_wait self T cap size K Fin FinP []); [done| |done|].
  - apply caller_parkable; [done|done|intros c []%not_elem_of_nil|by right; right; right].
  - by apply WP_ret.
Qed.

(** A sleep with a time limit ends by itself. *)
Lemma LP_wait_for k w (Q' : Result bool unit -> ltok -> Prop) E :
  (forall v, Q' v (ctk ptok0 In [] Unseen w)) ->
  LWP k (wait_for (mon self)) (ctk ptok0 In [] Unseen w) Q' E.
Proof.
  intros HQ. apply WP_bind. eapply (LP_read self T cap size K). intros h s G Ht [HI HL] Hk.
  rewrite mon_timer_registers. exists (ctk ptok0 (Ready RTimed) [] Unseen w). split; [done|]. split.
  { apply (ok_switch self size K s G k ptok0 In [] Unseen); [exact HL|exact Hk|done..| |].
    - intros rs [= <-]. split; [done|]. intros c []%not_elem_of_nil.
    - intros c []%not_elem_of_nil. }
  apply WP_ret, WP_bind. apply (LP_park self T cap size K Fin FinP k RTimed); [done| |].
  { apply (caller_parkable ptok0 (Parked RTimed) [] Unseen w); [done|done|intros c []%not_elem_of_nil|].
    by right; right; left. }
  unfold loop. set (g0 := ctk ptok0 (Ready RTimed) [] Unseen w).
  apply (WP_loop _ _ _ _ _ _ _ _ (fun _ g' => g' = with_mode (Parked RTimed) g0)); [|done]. intros [] ? ->.
  apply WP_bind, WP_choose. intros notified. apply WP_ret, WP_bind.
  apply (LP_attempt self T cap size K Fin FinP k _ RTimed g0 (ctk ptok0 In [] Unseen w)).
  - intros t m m'. destruct notified; [apply mon_resume_some|apply mon_expire_some].
  - split; auto.
  - done.
  - done.
  - apply WP_ret, WP_ret, HQ.
  - by apply WP_ret.
Qed.

Lemma LP_wait_for_termination_timeout k timeout w (Q' : bool -> ltok -> Prop) E :
  (forall v, Q' v (ctk ptok0 Out [] Unseen w)) ->
  LWP k (fixed_wait_for_termination_timeout self timeout) (ctk ptok0 Out [] Unseen w) Q' E.
Proof.
  intros HQ. unfold fixed_wait_for_termination_timeout, loop.
  apply (WP_loop _ _ _ _ _ _ _ _ (fun _ g => g = ctk ptok0 Out [] Unseen w)); [|done]. intros [] ? ->.
  assert (Hpoll : forall Q1 E1, (forall b, Q1 (inr b) (ctk ptok0 Out [] Unseen w)) ->
    LWP k (terminated <- fixed_is_terminated self ;; Ret (inr terminated : unit + bool)) (ctk ptok0 Out [] Unseen w) Q1 E1).
  { intros Q1 E1 HQ1. apply WP_bind, LP_is_terminated. intros b. by apply WP_ret, HQ1. }
  apply WP_bind. unfold time_is_over.
  assert (Hover : forall Q1 E1, (forall b, Q1 b (ctk ptok0 Out [] Unseen w)) ->
    LWP k (if timeout =? 0 then Ret true else choose) (ctk ptok0 Out [] Unseen w) Q1 E1).
  { intros Q1 E1 HQ1. destruct (timeout =? 0); [by apply WP_ret|]. apply WP_choose. intros b. by apply WP_ret. }
  apply Hover. intros []; [apply Hpoll; intros b; by apply WP_ret, HQ|].
  apply WP_bind. unfold wait_until_ready_with_total_timeout. client T_with_lock. unfold loop.
  apply (WP_loop _ _ _ _ _ _ _ _ (fun _ g => g = ctk ptok0 In [] Unseen w)); [|done]. intros [] ? ->.
  apply WP_bind, (LP_terminated_locked k In); [by left|apply WP_ret, WP_ret; split; [done|]; by apply WP_ret, WP_ret|].
  apply WP_bind, WP_choose. intros []; apply WP_ret.
  { apply WP_ret, WP_ret. split; [done|]. by apply WP_ret. }
  apply WP_bind, LP_wait_for. intros [b|]; apply WP_ret; [done|]. apply WP_ret. split; [done|].
  apply Hpoll. intros b. by apply WP_ret, HQ.
Qed.

(** *** Stopping *)

(** What a thread owes that moves the pool past [Running]. *)
Definition ending : list cond := [CLife; CTerm].
(** ... and dismantles its queue. *)
Definition draining : list cond := [CLife; CTerm; CJoin; CWork].

Lemma acts_submitters_in k : acts k (same_view self) (fetch_add (self ⊚ submit_waiter_count_l) 1).
Proof. view_acts. Qed.

Lemma acts_submitters_out k : acts k (same_view self)
  (previous <- fetch_sub (self ⊚ submit_waiter_count_l) 1 ;; assert (0 <? previous)).
Proof. view_acts. Qed.

Lemma acts_begin_cancels k jobs :
  acts k (jobs_move self) (for_each jobs (fun _ : PoolJob => fixed_begin_cancel_queued_job self)).
Proof.
  induction jobs as [|job jobs IH]; cbn [for_each]; [done|].
  apply acts_bind; [by apply acts_begin_cancel|done].
Qed.

Lemma LP_wait_for_submitters k w (Q' : unit -> ltok -> Prop) E :
  Q' tt (ctk ptok0 In ending SeenPast w) ->
  LWP k (wait_for_submitters self) (ctk ptok0 In ending SeenPast w) Q' E.
Proof.
  intros HQ. set (x := inc CSubmitWaiter ptok0). apply WP_bind.
  unfold fixed_inflight_count, inflight_count, gate_inflight_count.
  apply WP_bind. eapply (LP_load self T cap size K). intros v. apply WP_ret.
  destruct (0 <? _); [|by apply WP_ret]. cbn [when]. apply WP_bind.
  client T_same; [by apply acts_submitters_in|by right; left|].
  change (self ⊚ submit_waiter_count_l) with (self ⊚ @counter_l M Q CSubmitWaiter).
  client WP_fetch_add_count; [done|apply (holds_self pt_acct_l ptok0)|]. intros _ x' ->%(holds_same x).
  apply WP_bind. unfold loop.
  apply (WP_loop _ _ _ _ _ _ _ _ (fun _ g => g = ctk x In ending SeenPast w)); [|done]. intros [] ? ->.
  apply WP_bind, WP_bind. client T_load. intros h s G Ht [HI HL] Hk.
  pose proof (told_now self size K s G k x In ending SeenPast (caller w) HL Hk) as Htold.
  change (get _ s) with (word self s). destruct (0 <? Z.land (word self s) COUNT_MASK) eqn:Hn.
  - exists (Ready RStop), ending, SeenPast. split.
    + apply (ok_switch self size K s G k x In ending SeenPast); [exact HL|exact Hk|done..| |by left].
      intros rs [= <-]. split; [done|]. intros c ->%list_elem_of_singleton. left.
      apply Z.ltb_lt in Hn. cbn. unfold inflight. lia.
    + apply WP_ret. rewrite Hn. apply WP_bind, (T_wait self T cap size K Fin FinP ending); [done| |done|].
      * apply caller_parkable; [done|done| |by right; left].
        intros c Hc. split; [done|]. revert Hc. unfold ending. set_solver.
      * by apply WP_ret.
  - exists In, ending, SeenPast. split; [by rewrite list_insert_id|]. apply WP_ret. rewrite Hn. apply WP_ret, WP_ret.
    client T_same; [by apply acts_submitters_out|by right; left|].
    apply WP_bind. change (self ⊚ submit_waiter_count_l) with (self ⊚ @counter_l M Q CSubmitWaiter).
    client (WP_fetch_sub_count _ _ _ _ _ _ _ _ x x); [done|apply inc_has|apply (holds_self pt_acct_l)|].
    intros v' x' Hv Hx'. subst x. rewrite dec_inc in Hx'. apply (holds_same ptok0) in Hx' as ->.
    apply Z.ltb_lt in Hv. rewrite Hv. apply WP_ret. done.
Qed.

Lemma LP_stop_locked k before w (Q' : list PoolJob * Z * Z -> ltok -> Prop) E :
  0 <= cancelling_tasks before -> 0 <= cancelled_tasks before ->
  (forall jobs os n1 n2 x, length os = length jobs -> sholds ptok0 (tks os Cancelling) x ->
     Q' (jobs, n1, n2) (ctk x In [] Unseen w)) ->
  LWP k (stop_locked self before) (ctk ptok0 In ending SeenClosed w) Q' E.
Proof.
  intros Hb1 Hb2 HQ. apply WP_bind. client T_load. intros h s G Ht [HI HL] Hk.
  change (get (locked self fixed_lifecycle_l) s) with (lc self s). cbv zeta.
  set (new := bool_decide (lc self s = Lifecycle.Running \/ lc self s = Lifecycle.ShuttingDown)).
  assert (Hgo : forall (new : bool),
    LWP k (wait_for_submitters self ;;
      running <- fixed_running_count self ;;
      jobs <- drain_visible_queued_jobs self ;;
      let drained := Z.of_nat (length jobs) in
      for_each jobs (fun _ => fixed_begin_cancel_queued_job self) ;;
      counters <- snapshot (acc self) ;;
      let cancelling_since_stop :=
        saturating_sub (cancelling_tasks counters) (cancelling_tasks before) in
      let cancelled_since_stop :=
        saturating_sub (cancelled_tasks counters) (cancelled_tasks before) in
      let queued := if new then drained + saturating_sub cancelling_since_stop drained + cancelled_since_stop
        else drained in
      assert (queued <? USIZE_MOD) ;; notify_all (mon self) ;; Ret (jobs, queued, running))
    (ctk ptok0 In ending SeenPast w) Q' E).
  { clear new h s G Ht HI HL Hk. intros new. apply WP_bind, LP_wait_for_submitters, WP_bind.
    apply (T_take self T cap size K Fin FinP draining); [done|done|unfold ending, draining; set_solver|].
    eapply (LP_load self T cap size K). intros running. apply WP_bind.
    client T_same; [by apply acts_drain|by right; left|].
    client WP_drain; [apply (holds_self pt_acct_l ptok0)|]. intros jobs os x Hl Hx. cbv zeta. apply WP_bind.
    client (T_lift _ _ _ _ _ _ _ k (jobs_move self) [CJoin; CTerm; CWork]);
      [by apply jobs_pay|by apply acts_begin_cancels|by right; left|unfold draining; set_solver|].
    client WP_begin_cancels; [exact Hl|exact Hx|]. intros os' x1 Hl' Hx1. apply WP_bind.
    client T_same; [by apply acts_snapshot|by right; left|].
    client WP_snapshot_bounds; [exact Hx1|]. intros v x2 Hx2 Hv1 Hv2 Hv3.
    rewrite stop_count_bound; [|done|done| |done|done]; cycle 1.
    { rewrite <- Hl', <- tks_all. unfold all, tadd in *. lia. }
    cbn [assert bind]. apply WP_bind, (T_notify_all self T cap size K Fin FinP k [] Unseen); [by right|].
    apply WP_ret. eapply HQ; [exact Hl'|]. eapply holds_ext; [|exact Hx2]. intros i. unfold tadd. cbn. lia. }
  destruct new eqn:Hnew; subst new.
  - exists In, ending, SeenClosed. split; [by rewrite list_insert_id|]. cbv beta zeta. cbn [when].
    apply WP_bind, (T_store_lifecycle k _ SeenPast); [done|done|done|by right|]. exact (Hgo true).
  - exists In, ending, SeenPast. cbv beta zeta. cbn [when]. split; [|apply WP_bind, WP_ret; exact (Hgo false)].
    apply bool_decide_eq_false in Hnew.
    apply (ok_switch self size K s G k ptok0 In ending SeenClosed); [exact HL|exact Hk| |done..|by left].
    cbn. tauto.
Qed.

Context `{HU : !UserSafeB (may_wait self) may_await I Fin FinP lcalm}.

Lemma LP_cancels k (jobs : list PoolJob) os x w (Q' : unit -> ltok -> Prop) E :
  length os = length jobs -> sholds ptok0 (tks os Cancelling) x ->
  Q' tt (ctk ptok0 Out [] Unseen w) ->
  LWP k (for_each jobs (fun job => job_cancel job ;; fixed_finish_cancelled_job self))
    (ctk x Out [] Unseen w) Q' E.
Proof.
  intros Hlen Hx HQ.
  apply (WP_for_each _ _ _ _ _ _ (fun js g => exists os x, length os = length js /\
    sholds ptok0 (tks os Cancelling) x /\ g = ctk x Out [] Unseen w)); [..|by exists os, x].
  - clear os x Hlen Hx. intros j js g ([|o os] & x & Hl & Hx & ->); [done|]. apply WP_bind. user WP_job_cancel.
    { split; [done|]. eapply holds_late; [exact Hx|by rewrite tks_late]. }
    apply (LP_owing self T cap size K Fin FinP handling); [done|done|].
    refine (LP_finish_cancelled_job self T cap size K Fin FinP k o ptok0 x (tks os Cancelling)
      (ctk x Out [] Unseen w) _ _ _ _ _); [done|by_tks Hx|].
    intros x1 Hx1. exists os, x1. by injection Hl.
  - intros g ([|] & x1 & Hl & Hx1 & ->); [|done].
    assert (x1 = ptok0) as ->; [|done]. apply (holds_same ptok0). eapply holds_ext; [|exact Hx1].
    intros i. by rewrite ?tks_nil.
Qed.

Lemma LP_stop k w (Q' : StopReport -> ltok -> Prop) E :
  (forall v, Q' v (ctk ptok0 Out [] Unseen w)) ->
  LWP k (fixed_stop self) (ctk ptok0 Out [] Unseen w) Q' E.
Proof.
  intros HQ. apply WP_bind. client T_same; [by apply acts_snapshot|by left|].
  client WP_snapshot_nonneg; [apply (holds_self pt_acct_l ptok0)|].
  intros before x ->%(holds_same ptok0) Hb1 Hb2.
  apply WP_bind, (LP_close self T cap size K Fin FinP k ptok0 (ctk ptok0 Out [] Unseen w)); [done|].
  apply WP_bind.
  apply (T_same self T cap size K Fin FinP k _ ptok0 Out [] SeenClosed (caller w)); [by apply acts_store_stop|by left|].
  client WP_store_stop. apply WP_bind. client T_with_lock.
  apply (T_take self T cap size K Fin FinP ending); [done|done|unfold ending; set_solver|].
  apply LP_stop_locked; [done|done|]. intros jobs os n1 n2 x Hl Hx. split; [done|].
  apply WP_bind. eapply (LP_cancels k jobs os x w); [exact Hl|exact Hx|].
  apply WP_bind, (T_notify self T cap size K Fin FinP k [] Unseen); [by left|]. by apply WP_ret.
Qed.

(** Does the call wait for termination without a limit? *)
Definition op_waits (op : FixedOp) : bool := match op with OpWaitTermination => true | _ => false end.

Lemma LP_fixed_op k op w (Q' : unit -> ltok -> Prop) E :
  (op_waits op = true -> w = true) -> Q' tt (ctk ptok0 Out [] Unseen w) ->
  LWP k (fixed_op self op) (ctk ptok0 Out [] Unseen w) Q' E.
Proof.
  intros Hw HQ.
  assert (Hsub : forall job, standard job = true -> forall (A : Type) kont (Q2 : A -> ltok -> Prop),
    (forall v, v <> Err AcceptancePanicked -> LWP k (kont v) (ctk ptok0 Out [] Unseen w) Q2 E) ->
    LWP k (bind (fixed_submit self job) kont) (ctk ptok0 Out [] Unseen w) Q2 E).
  { intros job Hs A kont Q2 Hk. apply WP_bind.
    apply (LP_submit self T cap size K Fin FinP k job ptok0 (ctk ptok0 Out [] Unseen w)); [done|done|].
    intros v Hv. apply Hk. by apply Hv. }
  assert (Hmap : forall A (v : Result A PoolJobSubmissionError) (Q2 : Result A SubmissionError -> ltok -> Prop),
    v <> Err AcceptancePanicked -> (forall v, Q2 v (ctk ptok0 Out [] Unseen w)) ->
    LWP k (map_submission_error v) (ctk ptok0 Out [] Unseen w) Q2 E).
  { intros A v Q2 Hv HQ2. destruct v as [a|[e|]]; [by apply WP_ret| |done]. cbn. apply WP_ret, HQ2. }
  destruct op; cbn [fixed_op].
  - unfold submit. rewrite bind_assoc. apply Hsub; [done|]. intros v Hv. apply WP_bind.
    apply Hmap; [done|]. intros. by apply WP_ret.
  - unfold submit_callable. rewrite bind_assoc. apply Hsub; [done|]. intros v Hv. rewrite bind_assoc.
    apply WP_bind, Hmap; [done|]. intros. by apply WP_ret.
  - unfold submit_tracked_callable. rewrite bind_assoc. apply Hsub; [done|]. intros v Hv. rewrite bind_assoc.
    apply WP_bind, Hmap; [done|]. intros. by apply WP_ret.
  - by apply LP_wait_until_idle.
  - by apply LP_shutdown.
  - by apply LP_shutdown.
  - apply WP_bind, LP_stop. intros v. by apply WP_ret.
  - rewrite (Hw eq_refl) in *. by apply LP_wait_for_termination.
  - apply WP_bind, LP_wait_for_termination_timeout. intros b. by apply WP_ret.
  - apply WP_bind, LP_observe; [by apply LP_observed_lifecycle|]. intros v. by apply WP_ret.
  - apply WP_bind, LP_observe; [|intros v; by apply WP_ret].
    apply WP_bind. eapply (LP_load self T cap size K). intros v. by apply WP_ret.
  - apply WP_bind, LP_is_terminated. intros v. by apply WP_ret.
  - apply WP_bind, LP_stats. intros v. by apply WP_ret.
  - apply WP_bind. eapply (LP_get self T cap size K). intros v. by apply WP_ret, WP_ret.
  - apply WP_bind, LP_observe; [|intros v; by apply WP_ret]. by eapply (LP_load self T cap size K).
  - apply WP_bind. eapply (LP_load self T cap size K). intros v. by apply WP_ret.
  - apply WP_bind. eapply (LP_load self T cap size K). intros v. by apply WP_ret.
Qed.

Lemma LP_client k ops w (Q' : unit -> ltok -> Prop) E :
  (existsb op_waits ops = true -> w = true) -> Q' tt (ctk ptok0 Out [] Unseen w) ->
  LWP k (fixed_client self ops) (ctk ptok0 Out [] Unseen w) Q' E.
Proof.
  intros Hw HQ.
  apply (WP_for_each _ _ _ _ _ _ (fun ops g => (existsb op_waits ops = true -> w = true) /\ g = ctk ptok0 Out [] Unseen w)).
  - intros op rest ? [Hrest ->]. cbn in Hrest. apply LP_fixed_op.
    + intros Hop. apply Hrest. by rewrite Hop.
    + split; [|done]. intros Ho. apply Hrest. by rewrite Ho, orb_true_r.
  - by intros ? [_ ->].
  - done.
Qed.
End calls.
