(* ===== verification/FixedLiveBuild.v ===== *)
(** Why a fixed pool does not hang, part 6: the thread that builds it, and the
    invariant of the whole system. *)
From S2P Require Import Prelude Prog Conc Sync AdmissionGate PoolAccounting AccountingLogic.
From S2P Require Import AccountingSpecs Types Hooks PoolJob FixedInner FixedLogic FixedWorker.
From S2P Require Import UserSpecs FixedSpecs Builder FixedPool FixedOps FixedSafety.
From S2P Require Import FixedLive FixedLiveRules FixedLiveJobs FixedLiveWorker FixedLiveCalls.
Local Open Scope Z_scope.

(** The frame of the builder, with [n] workers to start and handles [hs]. *)
Definition builder (n : nat) (hs : list nat) : ltok :=
  MkLtok ptok0 Out (fun _ => false) Builder Unseen n hs.

Section build.
Context {S M Q : Type} `{MonitorLaws M} `{Injector Q PoolJob} `{UserCode S}.
Context `{!InjectorLaws Q PoolJob}.
Variable self : lens S (FixedThreadPoolInner M Q).
Context `{!LensLaws self} (T : nat) (cap : option Z) (size : nat) (K : list kind).
Context (Fin FinP : ltok -> Prop).
Local Abbreviation I := (live_inv self T cap size K).
Local Abbreviation ok := (live_ok self size K).
Local Abbreviation LWP := (WPB (may_wait self) may_await I Fin FinP).
Local Abbreviation SI := (pool_inv self T cap size).
Local Abbreviation SWP := (WP SI (fun _ => True) (fun _ => True)).
Local Abbreviation sholds := (AccountingSpecs.holds pt_acct_l).
Implicit Types (o : bool) (k : nat) (g : ltok) (G : list ltok) (s : S) (h : list S) (x : ptok) (r : tok).
Implicit Types (cs : list cond) (m : mode) (sn : seen) (hs : list nat).

(** A worker slot is reserved. *)
Lemma T_reserve k x cs sn n hs (Q' : unit -> ltok -> Prop) E :
  (1 <= pt_budget x)%nat -> Q' tt (tkn (inc CLive (spend x)) Out cs sn (builder n hs)) ->
  LWP k (reserve_worker_slot self) (tkn x Out cs sn (builder (Datatypes.S n) hs)) Q' E.
Proof.
  intros Hb HQ. set (x' := inc CLive (spend x)) in *. client T_with_lock.
  assert (Hs : SWP k (guarded_incr (locked self fixed_live_workers_l)) x (fun _ x1 => x1 = x') (fun _ => False)).
  { change (locked self fixed_live_workers_l) with (self ⊚ @counter_l M Q CLive).
    client WP_reserve_live; [exact Hb|apply (holds_self pt_acct_l)|]. intros x1 Hx1.
    by apply (holds_same x'). }
  unfold guarded_incr in *. cbn [bind] in *.
  apply (LP_act self T cap size K Fin FinP k _ _ _ _ _ (fun b x1 => exists a, assert b = (Ret a : prog S unit) /\ x1 = x')).
  { eapply act_pure; [exact Hs|]. intros []; [left; by eexists|by right]. }
  intros h s G Ht [HI HL] Hk. pose proof (live_total _ _ _ _ _ _ _ HI) as Hl.
  unfold checked_add. destruct (_ <? _); cbn [assert]; [|by intros ? (? & ? & _)].
  intros x1 (a & _ & ->) _. exists (tkn x' In cs sn (builder n hs)). split; [done|]. split; [|by apply WP_ret].
  destruct (live_moves self s (live self s + 1)) as [Hm Hv].
  apply (live_step self size K s _ G k x cs sn (builder (Datatypes.S n) hs) x' n HL Hk); [exact Hm|right|right].
  - change (live self (set (locked self fixed_live_workers_l) (live self s + 1) s) <> 0). rewrite Hv. lia.
  - subst x'. cbn. rewrite decide_True by done. lia.
Qed.

(** ... or given back. *)
Lemma T_rollback k x cs sn n hs (Q' : unit -> ltok -> Prop) E :
  CTerm ∈ cs -> Q' tt (tkn x Out cs sn (builder (Datatypes.S n) hs)) ->
  LWP k (rollback_worker_slot self) (tkn (inc CLive x) Out cs sn (builder n hs)) Q' E.
Proof.
  intros Hcs HQ. client T_with_lock.
  apply (T_live_decr self T cap size K Fin FinP k _ cs sn (builder n hs) (Datatypes.S n));
    [apply inc_has|done|by right|]. rewrite dec_inc. done.
Qed.

(** A thread is started by thread [k]. *)
Record grown G (k : nat) (g' gc : ltok) (G' : list ltok) : Prop := {
  gr_self : G' !! k = Some g';
  gr_new : G' !! length G = Some gc;
  gr_old : forall u gu, u <> k -> G !! u = Some gu -> G' !! u = Some gu;
  gr_cases : forall u gu, G' !! u = Some gu ->
    u = k /\ gu = g' \/ u = length G /\ gu = gc \/ u <> k /\ G !! u = Some gu;
}.

Lemma spawn_grown G k g g' gc : G !! k = Some g -> grown G k g' gc (<[k := g']> G ++ [gc]).
Proof.
  intros Hk. assert (Hlen : length (<[k := g']> G) = length G) by apply length_insert.
  assert (Hkl : (k < length G)%nat) by (by eapply lookup_lt_Some). split.
  - rewrite lookup_app_l by (by rewrite Hlen). by apply list_lookup_insert_eq.
  - rewrite lookup_app_r by (by rewrite Hlen). by rewrite Hlen, Nat.sub_diag.
  - intros u gu Hne Hu. rewrite lookup_app_l by (rewrite Hlen; by eapply lookup_lt_Some).
    by rewrite list_lookup_insert_ne.
  - intros u gu Hu. destruct (decide (u < length G)%nat) as [Hlt|Hge].
    + rewrite lookup_app_l in Hu by (by rewrite Hlen). apply insert_cases in Hu. tauto.
    + right; left. rewrite lookup_app_r in Hu by (rewrite Hlen; lia). rewrite Hlen in Hu.
      destruct (u - length G)%nat as [|d] eqn:Hd; [|destruct d; discriminate]. cbn in Hu.
      split; [lia|congruence].
Qed.

Lemma spawn_full G k x sn n hs hs' :
  G !! k = Some (tkn (inc CLive x) Out [] sn (builder n hs)) ->
  let G' := <[k := tkn x Out [] sn (builder n hs')]> G ++ [tkn worker_token Out [] Unseen worker] in
  (count_total CLive (lt_pool <$> G') + sum_with lt_spare G' =
   count_total CLive (lt_pool <$> G) + sum_with lt_spare G)%nat.
Proof.
  intros Hk G'. set (g' := tkn x Out [] sn (builder n hs')) in *. subst G'.
  unfold count_total. rewrite fmap_app, !sum_with_app, list_fmap_insert. cbn [fmap list_fmap lt_pool].
  pose proof (count_total_insert CLive (lt_pool <$> G) k (inc CLive x) x) as H1'.
  rewrite list_lookup_fmap, Hk in H1'. specialize (H1' eq_refl). unfold count_total in H1'.
  pose proof (sum_with_insert lt_spare G k _ g' Hk) as H2'. cbn in *.
  change (sum_with lt_spare [tkn worker_token Out [] Unseen worker]) with 0%nat.
  change (sum_with (fun y : ptok => pt_count y CLive) [worker_token]) with 1%nat.
  rewrite decide_True in H1' by done. lia.
Qed.

(** A new worker takes over the reserved slot. *)
Lemma live_spawn s G k x sn n hs :
  ok s G -> G !! k = Some (tkn (inc CLive x) Out [] sn (builder n hs)) ->
  ok s (<[k := tkn x Out [] sn (builder n (hs ++ [length G]))]> G ++ [tkn worker_token Out [] Unseen worker]).
Proof.
  intros HL Hk. pose proof (spawn_full G k x sn n hs (hs ++ [length G]) Hk) as Hsum. cbv zeta in Hsum.
  set (g' := tkn x Out [] sn (builder n (hs ++ [length G]))) in *.
  set (gc := tkn worker_token Out [] Unseen worker) in *.
  destruct (spawn_grown G k _ g' gc Hk) as [Hself Hnew Hold Hcases]. set (G' := <[k := g']> G ++ [gc]) in *.
  assert (Hkinds : forall u gu, G !! u = Some gu -> exists g1, G' !! u = Some g1 /\ lt_kind g1 = lt_kind gu).
  { intros u gu Hu. destruct (decide (u = k)) as [->|Hne]; [exists g'; simplify_eq; done|eauto]. }
  split.
  - intros t Ht. destruct (lo_owner _ _ _ _ _ HL t Ht) as (g1 & Hg1 & Hi).
    destruct (decide (t = k)) as [->|Hne]; [by simplify_eq|eauto].
  - intros t g1 Ht Hi. apply Hcases in Ht as [[-> ->]|[[-> ->]|[Hne Ht]]]; [done|done|].
    by apply (lo_inside _ _ _ _ _ HL t g1).
  - intros t Ht. destruct (lo_asleep _ _ _ _ _ HL t Ht) as (g1 & rs & Hg1 & Hm & Hpk).
    destruct (decide (t = k)) as [->|Hne]; [by simplify_eq|]. exists g1, rs. auto.
  - intros t g1 rs Ht Hr. apply Hcases in Ht as [[-> ->]|[[-> ->]|[Hne Ht]]]; [by destruct Hr as [Hr|[Hr _]]..|].
    destruct (lo_met _ _ _ _ _ HL t g1 rs Ht Hr) as [Hs Hm]. split; [done|]. intros c Hc.
    destruct (Hm c Hc) as [Hb|(u & gu & Hu & Ho)]; [by left|right].
    destruct (decide (u = k)) as [->|Hneu]; [by simplify_eq|by eauto].
  - apply (lo_closed _ _ _ _ _ HL).
  - intros t g1 Ht. apply Hcases in Ht as [[-> ->]|[[-> ->]|[Hne Ht]]]; [|done|].
    + exact (lo_seen _ _ _ _ _ HL k _ Hk).
    + exact (lo_seen _ _ _ _ _ HL t _ Ht).
  - intros Hr. rewrite Hsum. by apply (lo_full _ _ _ _ _ HL).
  - intros i kd Hi. destruct (lo_kind _ _ _ _ _ HL i kd Hi) as (g1 & Hg1 & <-). by apply Hkinds.
  - intros t g1 u Ht Hu.
    assert (Hcase : (exists g2, G !! t = Some g2 /\ u ∈ lt_handles g2) \/ u = length G).
    { apply Hcases in Ht as [[-> ->]|[[-> ->]|[Hne Ht]]]; [|by apply elem_of_nil in Hu|eauto].
      cbn in Hu. apply elem_of_app in Hu as [Hu|Hu%list_elem_of_singleton]; [left; eauto|by right]. }
    destruct Hcase as [(g2 & Hg2 & Hu2)| ->]; [|by exists gc].
    destruct (lo_handles _ _ _ _ _ HL t g2 u Hg2 Hu2) as (gu & Hgu & Hw).
    destruct (Hkinds u gu Hgu) as (g3 & ? & ?). exists g3. split; [done|congruence].
Qed.

(** *** Building *)

Lemma T_failed_build k x n hs (Q' : unit -> ltok -> Prop) E :
  Q' tt (tkn x Out [] SeenPast (builder n hs)) ->
  LWP k (stop_after_failed_build self) (tkn x Out [CTerm] Unseen (builder n hs)) Q' E.
Proof.
  intros HQ. apply WP_bind, (LP_close self T cap size K Fin FinP k x (tkn x Out [CTerm] Unseen (builder n hs))); [done|].
  apply WP_bind. apply (T_same self T cap size K Fin FinP k _ x Out [CTerm] SeenClosed (builder n hs));
    [by apply acts_store_stop|by left|].
  client WP_store_stop. unfold with_write_notify_all. client T_with_lock. apply WP_bind.
  apply (T_take self T cap size K Fin FinP ending); [done|done|unfold ending; set_solver|].
  client (T_store_lifecycle self T cap size K Fin FinP k _ SeenPast); [done|done|done|by right|].
  apply WP_bind, (T_notify_all self T cap size K Fin FinP k [] SeenPast); [by left|]. by apply WP_ret.
Qed.

Lemma LP_join_workers k js x n hs (Q' : unit -> ltok -> Prop) E :
  js ⊆ hs -> no_phase x -> pt_count x CLive = 0%nat ->
  Q' tt (tkn x Out [] SeenPast (builder n hs)) ->
  LWP k (join_started_workers js) (tkn x Out [] SeenPast (builder n hs)) Q' E.
Proof.
  intros Hjs Hx Hl HQ. induction js as [|u js IH]; cbn [join_started_workers]; [by apply WP_ret|].
  apply WP_join; [|apply IH; set_solver]. split; [apply Hjs; left|done].
Qed.

Context `{HU : !UserSafeB (may_wait self) may_await I Fin FinP lcalm}.
Context (HFin : forall g, rested g -> Fin g).

Lemma LP_start_workers k prefix stk runtimes hs x (Q' : _ -> ltok -> Prop) E :
  (length runtimes <= pt_budget x)%nat -> pt_acct x = tok0 -> pt_count x CLive = 0%nat ->
  (forall v g, rested g -> Q' v g) ->
  LWP k (start_workers self prefix stk runtimes hs) (tkn x Out [] Unseen (builder (length runtimes) hs)) Q' E.
Proof.
  intros Hb Hx Hl HQ. revert hs x Hb Hx Hl. induction runtimes as [|rt rts IH]; intros hs x Hb Hx Hl;
    cbn [start_workers length] in Hb |- *.
  { apply WP_ret, HQ. split; [done|done| |done|by left]. intros p. cbn. by rewrite Hx. }
  apply WP_bind, T_reserve; [lia|]. unfold thread_spawn, choose. cbn [bind]. apply WP_choose. intros [].
  - cbn [bind]. apply WP_spawn. intros h s G Ht [HI HL] Hk.
    exists (tkn (spend x) Out [] Unseen (builder (length rts) (hs ++ [length G]))), (tkn worker_token Out [] Unseen worker).
    split; [split; [|by apply live_spawn]|split].
    + rewrite fmap_app, list_fmap_insert. eapply (pool_inv_spawn self T cap size h s); [done|exact HI| |..].
      * by rewrite list_lookup_fmap, Hk.
      * intros i. change (pt_acct (lt_pool (tkn worker_token Out [] Unseen worker)) i) with 0%nat. cbn. lia.
      * intros c. unfold worker_token, inc, spend. cbn. destruct (decide (c = CLive)); lia.
      * cbn. lia.
    + user LP_worker. apply HFin. split; [done..|by left].
    + apply IH; [cbn; lia|done|done].
  - cbn [bind]. apply WP_bind.
    apply (T_take self T cap size K Fin FinP [CTerm]); [done|done|set_solver|].
    apply T_rollback; [in_list|]. apply WP_bind, T_failed_build, WP_bind, LP_join_workers; [done| |done|].
    + intros p. cbn. by rewrite Hx.
    + apply WP_ret, HQ. split; [done|done| |done|by right]. intros p. cbn. by rewrite Hx.
Qed.
End build.
