(* ===== verification/FixedLiveness.v ===== *)
(** The fixed pool does not hang: what a configuration looks like in which no
    thread can move. *)
From S2P Require Import Prelude Prog Conc Sync AdmissionGate PoolAccounting AccountingLogic.
From S2P Require Import AccountingSpecs Types Hooks PoolJob FixedInner FixedLogic FixedWorker.
From S2P Require Import UserSpecs FixedSpecs Builder FixedPool FixedOps FixedSafety.
From S2P Require Import FixedLive FixedLiveRules FixedLiveJobs FixedLiveWorker FixedLiveCalls FixedLiveBuild.
Local Open Scope Z_scope.

(** The threads a system starts with. *)
Definition waits_for_end (ops : list FixedOp) : bool := existsb op_waits ops.
Definition system_kinds (clients : list (list FixedOp)) : list kind :=
  Builder :: ((fun ops => Caller (waits_for_end ops)) <$> clients).
Definition system_tokens (size : nat) (clients : list (list FixedOp)) : list ltok :=
  tkn (builder_token size) Out [] Unseen (FixedLiveBuild.builder size []) ::
  ((fun ops => tkn ptok0 Out [] Unseen (caller (waits_for_end ops))) <$> clients).

Section liveness.
Context {S M Q : Type} `{MonitorLaws M} `{Injector Q PoolJob} `{UserCode S}.
Context `{!InjectorLaws Q PoolJob}.
Variable self : lens S (FixedThreadPoolInner M Q).
Context `{!LensLaws self}.

(** Callbacks of the application respect the pool (see [UserSafe]) and do not
    wait for it to become idle, to terminate, or to stop. *)
Definition callbacks_never_wait (b : FixedThreadPoolBuilder) (clients : list (list FixedOp)) : Prop :=
  forall T Fin FinP, UserSafeB (may_wait self) may_await
    (live_inv self T (fb_queue_capacity b) (Z.to_nat (fb_pool_size b)) (system_kinds clients)) Fin FinP lcalm.

(** *** The invariant holds at the start *)

Lemma system_tokens_pool size clients :
  lt_pool <$> system_tokens size clients = initial_tokens size (length clients).
Proof.
  unfold system_tokens, initial_tokens. cbn. f_equal. induction clients as [|ops clients IH]; [done|].
  cbn. by f_equal.
Qed.

Lemma system_tokens_client size clients t : system_tokens size clients !! Datatypes.S t =
  (fun ops => tkn ptok0 Out [] Unseen (caller (waits_for_end ops))) <$> clients !! t.
Proof. apply list_lookup_fmap. Qed.

Lemma system_kinds_client clients t : system_kinds clients !! Datatypes.S t =
  (fun ops => Caller (waits_for_end ops)) <$> clients !! t.
Proof. apply list_lookup_fmap. Qed.

Lemma system_token size clients t g : system_tokens size clients !! t = Some g ->
  lt_mode g = Out /\ lt_seen g = Unseen /\ lt_handles g = [].
Proof.
  destruct t as [|t]; [by intros [= <-]|]. rewrite system_tokens_client.
  destruct (clients !! t); cbn; [by intros [= <-]|done].
Qed.

Lemma initial_live_ok b clients s :
  fixed_initial self b s ->
  live_ok self (Z.to_nat (fb_pool_size b)) (system_kinds clients) s
    (system_tokens (Z.to_nat (fb_pool_size b)) clients).
Proof.
  intros Hs. unfold fixed_initial in Hs. set (size := Z.to_nat (fb_pool_size b)).
  assert (Ho : owner self s = None) by (unfold owner; rewrite Hs; cbn; apply mon_new_free).
  assert (Ha : forall t, asleep self s t = false) by (intros t; unfold asleep; rewrite Hs; cbn; apply mon_new_awake).
  assert (Hl : lc self s = Lifecycle.Running) by (unfold lc; by rewrite Hs).
  split.
  - intros t. by rewrite Ho.
  - intros t g (Hm & _ & _)%system_token. by rewrite Hm.
  - intros t. by rewrite Ha.
  - intros t g r (Hm & _ & _)%system_token [Hr|[Hr _]]; by rewrite Hm in Hr.
  - intros Hn. by destruct Hn.
  - intros t g (_ & Hsn & _)%system_token. by rewrite Hsn.
  - intros _. rewrite system_tokens_pool. unfold count_total.
    assert (Hz : forall (f : ptok -> nat), f (builder_token size) = 0%nat -> f ptok0 = 0%nat ->
      sum_with f (initial_tokens size (length clients)) = 0%nat).
    { intros f H1' H2'. apply sum_with_zero. intros x Hx. apply elem_of_cons in Hx as [->|Hx]; [done|].
      by apply elem_of_replicate in Hx as [-> _]. }
    rewrite Hz by done. unfold system_tokens.
    match goal with |- context [?a :: ?l] => change (a :: l) with ([a] ++ l) end.
    rewrite sum_with_app, (sum_with_zero lt_spare (_ <$> clients)).
    { match goal with |- context [sum_with lt_spare [?a]] => change (sum_with lt_spare [a]) with (size + 0)%nat end. lia. }
    intros g (ops & -> & _)%list_elem_of_fmap. done.
  - intros [|i] kd Hi; [injection Hi as <-; by eexists|]. rewrite system_kinds_client in Hi.
    rewrite system_tokens_client. destruct (clients !! i); cbn in Hi |- *; simplify_eq; by eexists.
  - intros t g u (_ & _ & Hh)%system_token Hu. rewrite Hh in Hu. by apply elem_of_nil in Hu.
Qed.

Definition none_panics (g : ltok) : Prop := False.

Lemma system_live T b clients s n :
  fixed_initial self b s -> callbacks_never_wait b clients ->
  safeB (may_wait self) may_await
    (live_inv self T (fb_queue_capacity b) (Z.to_nat (fb_pool_size b)) (system_kinds clients)) rested none_panics
    (fun _ => rested) n [] (fixed_system self b clients s)
    (system_tokens (Z.to_nat (fb_pool_size b)) clients).
Proof.
  intros Hs Hu. set (size := Z.to_nat (fb_pool_size b)). specialize (Hu T rested none_panics). apply safe_init.
  { split; [|by apply initial_live_ok]. rewrite system_tokens_pool. by client initial_inv. }
  assert (Hlen : length (new_worker_runtimes (fb_pool_size b)) = size).
  { unfold new_worker_runtimes. by rewrite length_map, length_seq. }
  constructor.
  - intros t. apply WP_bind.
    enough (Hw : forall n, n = length (new_worker_runtimes (fb_pool_size b)) ->
      WPB (may_wait self) may_await
        (live_inv self T (fb_queue_capacity b) size (system_kinds clients)) rested none_panics t
        (start_workers self (fb_thread_name_prefix b) (fb_stack_size b) (new_worker_runtimes (fb_pool_size b)) [])
        (tkn (builder_token size) Out [] Unseen (FixedLiveBuild.builder n [])) (fun _ => rested) none_panics).
    { eapply WP_mono; [by apply Hw| |done]. intros v g Hg. by apply WP_ret. }
    intros m ->. user LP_start_workers; try done. by rewrite Hlen.
  - unfold system_kinds in *. revert Hu. generalize (Builder :: ((fun ops => Caller (waits_for_end ops)) <$> clients)).
    intros K Hu. induction clients as [|ops rest IH]; cbn [map fmap list_fmap]; constructor; [|exact IH].
    intros t. user (LP_client self T (fb_queue_capacity b) size K); [done|].
    split; [done..|by left].
Qed.

(** *** When nobody can move *)

Section stuck.
Context (T : nat) (cap : option Z) (size : nat) (K : list kind).
Context (h : list S) (c : config S) (G : list ltok).
Hypothesis Hsafe : safeB (may_wait self) may_await (live_inv self T cap size K) rested none_panics
  (fun _ => rested) 1 h c G.
Hypothesis Htime : in_time h.
Hypothesis Hstuck : stuck c.
Local Abbreviation st := (shared c).

Lemma stuck_ok : live_ok self size K st G.
Proof. by destruct Hsafe as [[_ HL] _]. Qed.

Lemma stuck_thread i g : G !! i = Some g ->
  (threads c !! i = Some (Ret tt) /\ rested g) \/ may_wait self i st g \/
  exists u, may_await u g /\ forall q, threads c !! u = Some q -> finished q = false.
Proof.
  intros Hg. assert (exists p, threads c !! i = Some p) as [p Hp].
  { apply lookup_lt_is_Some_2. destruct Hsafe as (_ & <- & _). by eapply lookup_lt_Some. }
  destruct (safe_stuck _ _ _ _ _ _ _ _ _ _ _ Hsafe Htime Hstuck Hp Hg) as [[-> Hr]|[[_ []]|Hb]]; auto.
Qed.

(** Nobody holds the monitor. *)
Lemma stuck_free : owner self st = None.
Proof.
  destruct (owner self st) as [t|] eqn:Ho; [exfalso|done].
  destruct (lo_owner _ _ _ _ _ stuck_ok t Ho) as (g & Hg & Hi).
  destruct (stuck_thread t g Hg) as [[_ Hr]|[Hw|(u & Hu & _)]].
  - by rewrite (rs_mode _ Hr) in Hi.
  - destruct Hw as [(u & Hu & Hne)|(_ & rs & Hm & _)]; [congruence|by rewrite Hm in Hi].
  - destruct Hu as (_ & Hm & _). by rewrite Hm in Hi.
Qed.

(** Every thread has ended, sleeps, or waits for a worker it started. *)
Lemma stuck_cases i g : G !! i = Some g ->
  (threads c !! i = Some (Ret tt) /\ rested g) \/
  (asleep self st i = true /\ exists rs, lt_mode g = Parked rs /\ rs <> RTimed /\ parkable g rs /\
     side g rs /\ forall co, co ∈ conds rs -> met self co st G) \/
  (exists u, may_await u g /\ forall q, threads c !! u = Some q -> finished q = false).
Proof.
  intros Hg. destruct (stuck_thread i g Hg) as [Hr|[[(u & Hu & _)|(Ha & rs & Hm & Hrs)]|Hu]]; auto.
  { by rewrite stuck_free in Hu. }
  right; left. split; [done|]. exists rs. split; [done|]. split; [done|].
  destruct (lo_asleep _ _ _ _ _ stuck_ok i Ha) as (g' & rs' & Hg' & Hm' & Hpk). simplify_eq.
  assert (rs' = rs) as -> by congruence. split; [done|].
  apply (lo_met _ _ _ _ _ stuck_ok i g rs Hg). by right.
Qed.

Lemma stuck_phase g : g ∈ G -> no_phase (lt_pool g).
Proof.
  intros [i Hg]%list_elem_of_lookup_1.
  destruct (stuck_cases i g Hg) as [[_ Hr]|[(_ & rs & _ & _ & Hpk & _)|(u & Hu & _)]].
  - apply Hr.
  - apply Hpk.
  - apply Hu.
Qed.

(** All that is left to do is in the queue. *)
Lemma stuck_counts : let a := accounting (get self st) in
  inflight self st = 0 /\ (busy self st <-> queued self st <> 0) /\
  submitted_task_count a = completed_task_count a + cancelled_task_count a + queued_task_count a.
Proof.
  cbv zeta. destruct Hsafe as [[(q & [Hq _ Ha _ _]) _] _].
  assert (Hp : forall p, all (tadd (acct_total (lt_pool <$> G)) q) p = all q p).
  { intros p. unfold all, tadd, acct_total. rewrite !sum_with_zero; [done|..];
      intros x (g & -> & Hg)%list_elem_of_fmap; apply stuck_phase in Hg; apply Hg. }
  assert (Hz : forall p, p <> Waiting -> all q p = 0%nat).
  { intros p Hne. unfold all. rewrite !Hq; [done|..]; intros []; cbn; congruence. }
  destruct (ai_gate _ _ _ _ _ _ _ Ha) as (op & Hgate & _). pose proof (gate_word_count _ _ Hgate) as Hin.
  pose proof (ai_slots _ _ _ _ _ _ _ Ha) as Hs. pose proof (ai_queued _ _ _ _ _ _ _ Ha) as Hqu.
  pose proof (ai_running _ _ _ _ _ _ _ Ha) as Hr. pose proof (ai_cancelling _ _ _ _ _ _ _ Ha) as Hc.
  pose proof (ai_conserve _ _ _ _ _ _ _ Ha) as Hcs.
  unfold slots_of, running_of, unfinished_of in *. rewrite !Hp in *.
  rewrite !(Hz Reserved), !(Hz Published), !(Hz Claimed), !(Hz Starting), !(Hz Dequeued), !(Hz Cancelling),
    !(Hz CancelCounted), !(Hz CancelDone), !(Hz Inside), !(Hz Running), !(Hz Finishing) in * by done.
  unfold busy, inflight, word, slots, running, cancelling, queued. unfold acc in *. cbn in *.
  split; [exact Hin|]. split; [|lia]. rewrite Hin, Hs, Hr, Hc, Hqu. lia.
Qed.

(** Nobody waits for submitters, so nobody owes anything. *)
Lemma stuck_owes i g co : G !! i = Some g -> lt_owes g co = true -> co = CLife \/ co = CTerm.
Proof.
  intros Hg Ho. destruct (stuck_cases i g Hg) as [[_ Hr]|[(_ & rs & _ & _ & Hpk & _)|(u & (_ & _ & Hn & _) & _)]].
  - by rewrite (rs_owes _ Hr) in Ho.
  - by destruct (pk_owes _ _ Hpk co Ho).
  - by rewrite Hn in Ho.
Qed.

Lemma stuck_no_stop : ~ met self CStop st G.
Proof.
  intros [Hb|(u & gu & Hu & Ho)]; [by destruct stuck_counts as [Hin _]|].
  by destruct (stuck_owes u gu CStop Hu Ho).
Qed.

Lemma stuck_settled i g co : G !! i = Some g -> lt_owes g co = false.
Proof.
  intros Hg. destruct (lt_owes g co) eqn:Ho; [exfalso|done].
  destruct (stuck_cases i g Hg) as [[_ Hr]|[(_ & rs & _ & _ & Hpk & _ & Hm)|(u & (_ & _ & Hn & _) & _)]].
  - by rewrite (rs_owes _ Hr) in Ho.
  - destruct (pk_owes _ _ Hpk co Ho) as [-> _]. apply stuck_no_stop, Hm. in_list.
  - by rewrite Hn in Ho.
Qed.

Lemma stuck_met co : met self co st G -> bcond self co st.
Proof. intros [Hb|(u & gu & Hu & Ho)]; [done|]. by rewrite (stuck_settled u gu co Hu) in Ho. Qed.

(** Who may still be asleep, and for what. *)
Lemma stuck_asleep i g rs : G !! i = Some g -> asleep self st i = true -> lt_mode g = Parked rs ->
  rs <> RTimed -> parkable g rs -> (forall co, co ∈ conds rs -> met self co st G) ->
  (exists w, lt_kind g = Caller w /\ pt_count (lt_pool g) CLive = 0%nat /\ lt_spare g = 0%nat /\
     (busy self st \/ (w = true /\ bcond self CTerm st))) \/
  (lt_kind g = Worker /\ lt_spare g = 0%nat /\ lc self st = Lifecycle.Running /\ queued self st = 0).
Proof.
  intros Hg Ha Hm Hrs [_ Hsp _ Hkind] Hmet.
  assert (Hb : forall co, co ∈ conds rs -> bcond self co st) by (intros; by apply stuck_met, Hmet).
  assert (Hns : CStop ∉ conds rs) by (intros Hin; by apply stuck_no_stop, Hmet).
  destruct (lt_kind g) as [| |w]; [done| |]; [right|left; exists w].
  - destruct Hkind as [->| ->]; [destruct Hns; in_list|].
    pose proof (Hb CLife ltac:(in_list)) as Hl. pose proof (Hb CWork ltac:(in_list)) as Hw.
    pose proof (Hb CPend ltac:(in_list)) as Hp. cbn in Hl, Hw, Hp.
    split; [done|]. split; [done|]. split; [done|]. destruct Hw as [Hw|[Hw|Hw]]; [done|done|lia].
  - destruct Hkind as [Hl Hr]. split; [done|]. split; [done|]. split; [done|].
    destruct Hr as [->|[->|[->|[-> Hw]]]]; [left; apply (Hb CJoin); in_list|destruct Hns; in_list|done|].
    right. split; [done|]. apply Hb. in_list.
Qed.

(** The threads of a configuration in which nobody can move. *)
Lemma stuck_shape i g : G !! i = Some g ->
  (threads c !! i = Some (Ret tt) /\ rested g) \/
  (asleep self st i = true /\
    ((exists w, lt_kind g = Caller w /\ pt_count (lt_pool g) CLive = 0%nat /\ lt_spare g = 0%nat /\
       (busy self st \/ (w = true /\ bcond self CTerm st))) \/
     (lt_kind g = Worker /\ lt_spare g = 0%nat /\ lc self st = Lifecycle.Running /\ queued self st = 0))).
Proof.
  intros Hg. destruct (stuck_cases i g Hg) as [Hr|[(Ha & rs & Hm & Hrs & Hpk & _ & Hmet)|(u & Hu & Hnot)]]; auto.
  { right. split; [done|]. by eapply stuck_asleep. }
  exfalso. destruct Hu as (Hin & _ & _ & _ & _ & Hpast & _).
  pose proof (lo_seen _ _ _ _ _ stuck_ok i g Hg) as Htold. rewrite Hpast in Htold.
  destruct (lo_handles _ _ _ _ _ stuck_ok i g u Hg Hin) as (gu & Hgu & Hk).
  destruct (stuck_cases u gu Hgu) as [[Hp _]|[(Ha & rs & Hm & Hrs & Hpk & _ & Hmet)|(v & Hv & _)]].
  - by specialize (Hnot _ Hp).
  - destruct (stuck_asleep u gu rs Hgu Ha Hm Hrs Hpk Hmet) as [(w & Hw & _)|(_ & _ & Hl & _)]; [congruence|done].
  - destruct Hv as (_ & _ & _ & _ & _ & _ & Hv). congruence.
Qed.

(** A running pool has finished everything, and only its idle workers and those
    who wait for its end are left. *)
Lemma stuck_running : (0 < size)%nat -> lc self st = Lifecycle.Running ->
  queued self st = 0 /\ forall i g, G !! i = Some g ->
    (threads c !! i = Some (Ret tt) /\ rested g) \/
    (asleep self st i = true /\ (lt_kind g = Worker \/ lt_kind g = Caller true)).
Proof.
  intros Hsize Hl.
  assert (Hq : queued self st = 0).
  { pose proof (lo_full _ _ _ _ _ stuck_ok Hl) as Hfull.
    assert (Hex : exists g, g ∈ G /\ (pt_count (lt_pool g) CLive + lt_spare g <> 0)%nat).
    { destruct (decide (sum_with lt_spare G = 0%nat)) as [Hz|(g & Hg & Hne)%sum_with_nonzero]; [|exists g; split; [done|lia]].
      destruct (sum_with_nonzero (fun x => pt_count x CLive) (lt_pool <$> G)) as (x & (g & -> & Hg)%list_elem_of_fmap & Hne).
      - unfold count_total in Hfull. lia.
      - exists g. split; [done|]. cbn beta in Hne. lia. }
    destruct Hex as (g & [i Hg]%list_elem_of_lookup_1 & Hne).
    destruct (stuck_shape i g Hg) as [[_ Hr]|(_ & [(w & _ & Hlv & Hsp & _)|(_ & _ & _ & Hq)])]; [|lia|done].
    exfalso. destruct (rs_spare _ Hr) as [Hsp|Hpast]; [rewrite (rs_live _ Hr) in Hne; lia|].
    pose proof (lo_seen _ _ _ _ _ stuck_ok i g Hg) as Htold. rewrite Hpast in Htold. done. }
  split; [done|]. intros i g Hg. destruct stuck_counts as (_ & Hbusy & _).
  destruct (stuck_shape i g Hg) as [Hr|(Ha & [(w & Hw & _ & _ & [Hb|[-> _]])|(Hk & _)])]; auto.
  apply Hbusy in Hb. done.
Qed.

(** Past [Running] everybody has ended, unless a job is left in the queue. *)
Lemma stuck_past : lc self st <> Lifecycle.Running ->
  queued self st <> 0 \/ forall i g, G !! i = Some g -> threads c !! i = Some (Ret tt).
Proof.
  intros Hl. destruct (decide (queued self st = 0)) as [Hq|]; [right|by left].
  destruct stuck_counts as (_ & Hbusy & _).
  assert (Hlive : live self st = 0).
  { destruct Hsafe as [[HI _] _]. rewrite (live_total _ _ _ _ _ _ _ HI). unfold count_total.
    rewrite sum_with_zero; [done|]. intros x (g & -> & [i Hg]%list_elem_of_lookup_1)%list_elem_of_fmap.
    destruct (stuck_shape i g Hg) as [[_ Hr]|(_ & [(w & _ & Hlv & _)|(_ & _ & Hr & _)])]; [apply Hr|done|done]. }
  intros i g Hg. destruct (stuck_shape i g Hg) as [[Hr _]|(_ & [(w & _ & _ & _ & [Hb|[_ Hb]])|(_ & _ & Hr & _)])]; try done.
  - by apply Hbusy in Hb.
  - destruct Hb as [Hb|[Hb|Hb]]; [done|done|by apply Hbusy in Hb].
Qed.
End stuck.
End liveness.
