(* ===== verification/FixedNoHang.v ===== *)
(** The fixed pool does not hang, and an example of a pool at rest. *)
From S2P Require Import Prelude Prog Conc Sync AdmissionGate PoolAccounting AccountingLogic.
From S2P Require Import AccountingSpecs Types Hooks PoolJob FixedInner FixedLogic FixedWorker.
From S2P Require Import UserSpecs FixedSpecs Builder FixedPool FixedOps FixedSafety Concrete FixedTheorems.
From S2P Require Import FixedLive FixedLiveRules FixedLiveJobs FixedLiveWorker FixedLiveness.
Local Open Scope Z_scope.

(** Thread [i] is a worker, or a client that waits for termination. *)
Definition may_rest (clients : list (list FixedOp)) (i : nat) : Prop :=
  (length clients < i)%nat \/
  exists j ops, i = Datatypes.S j /\ clients !! j = Some ops /\ OpWaitTermination ∈ ops.

Lemma op_waits_in ops : waits_for_end ops = true -> OpWaitTermination ∈ ops.
Proof.
  unfold waits_for_end. rewrite existsb_exists. intros ([] & Hin & Hw); try discriminate Hw.
  by apply list_elem_of_In.
Qed.

Lemma kind_rests {S M Q} (self : lens S (FixedThreadPoolInner M Q)) `{Monitor M} size clients s G i g :
  live_ok self size (system_kinds clients) s G -> G !! i = Some g ->
  lt_kind g = Worker \/ lt_kind g = Caller true -> may_rest clients i.
Proof.
  intros HL Hg Hk. destruct (decide (length clients < i)%nat) as [|Hle]; [by left|right].
  destruct i as [|j].
  { destruct (lo_kind _ _ _ _ _ HL 0%nat Builder eq_refl) as (g1 & Hg1 & Hk1). simplify_eq. by destruct Hk; congruence. }
  assert (exists ops, clients !! j = Some ops) as [ops Hops] by (apply lookup_lt_is_Some_2; lia).
  exists j, ops. split; [done|]. split; [done|]. apply op_waits_in.
  destruct (lo_kind _ _ _ _ _ HL (Datatypes.S j) (Caller (waits_for_end ops))) as (g1 & Hg1 & Hk1).
  { by rewrite system_kinds_client, Hops. }
  simplify_eq. destruct Hk; congruence.
Qed.

(** C2. A fixed pool does not hang: in whatever way its builder, its clients
    and its workers are interleaved, when no thread can move any more, then either
    the pool is still running, has finished every job it accepted, and all that is
    left are sleeping workers and callers of [wait_termination]; or it has been shut
    down and every thread has ended, unless an accepted job is left in the queue
    (the race of [ShutdownRace]).  So no wake-up is lost: not of an idle worker by a
    submission, a shutdown or a stop, not of a thread in [join] or
    [wait_termination], not of a [stop] that waits for submitters, not of a worker
    that waits for them before it leaves. *)
Theorem fixed_pool_never_hangs {S M Q} `{Monitor M} (HM : MonitorLaws M) `{Injector Q PoolJob}
    `{UserCode S} (HQ : InjectorLaws Q PoolJob) (self : lens S (FixedThreadPoolInner M Q)) (HL : LensLaws self)
    b clients s sched h c :
  fixed_initial self b s -> 0 < fb_pool_size b -> callbacks_never_wait self b clients ->
  exec sched [] (fixed_system self b clients s) = Some (h, c) -> in_time h -> stuck c ->
  let pool := get self (shared c) in
  let a := accounting pool in
  let lifecycle := fixed_lifecycle (mon_data (state pool)) in
  (lifecycle = Lifecycle.Running /\
     submitted_task_count a = completed_task_count a + cancelled_task_count a /\
     forall i p, threads c !! i = Some p ->
       p = Ret tt \/ (mon_asleep (mon_sync (state pool)) i = true /\ may_rest clients i)) \/
  (lifecycle <> Lifecycle.Running /\
     (queued_task_count a <> 0 \/ forall i p, threads c !! i = Some p -> p = Ret tt)).
Proof.
  intros Hs Hsize Hu He Ht Hst. cbv zeta.
  destruct (safe_exec _ _ _ _ _ 1 _ _ _ _ _ (system_live self 0 b clients s _ Hs Hu) He Ht) as [G Hsafe].
  assert (Hlook : forall i p, threads c !! i = Some p -> exists g, G !! i = Some g).
  { intros i p Hp. apply lookup_lt_is_Some_2. destruct Hsafe as (_ & -> & _). by eapply lookup_lt_Some. }
  destruct (decide (lc self (shared c) = Lifecycle.Running)) as [Hl|Hl]; [left|right]; (split; [exact Hl|]).
  - destruct (stuck_running self _ _ _ _ h c G Hsafe Ht Hst) as [Hq Hrest]; [lia|done|].
    destruct (stuck_counts self _ _ _ _ h c G Hsafe Ht Hst) as (_ & _ & Hsum).
    split; [unfold queued in Hq; lia|]. intros i p Hp. destruct (Hlook i p Hp) as [g Hg].
    destruct (Hrest i g Hg) as [[Hr _]|[Ha Hk]]; [left; congruence|right]. split; [exact Ha|].
    eapply kind_rests; [exact (stuck_ok self _ _ _ _ h c G Hsafe)|exact Hg|exact Hk].
  - destruct (stuck_past self _ _ _ _ h c G Hsafe Ht Hst Hl) as [Hq|Hrest]; [by left|right].
    intros i p Hp. destruct (Hlook i p Hp) as [g Hg]. specialize (Hrest i g Hg). congruence.
Qed.

(** *** Tasks that submit to the pool they run on never wait *)
Section chain.
Context (T : nat) (cap : option Z) (size : nat) (K : list kind) (Fin FinP : ltok -> Prop).
Local Abbreviation pool := (cs_pool_l (P := CPool)).
Local Abbreviation I := (live_inv pool T cap size K).
Local Abbreviation LWP := (WPB (may_wait pool) may_await I Fin FinP).
Local Abbreviation quiet := (quietB (may_wait pool) may_await I Fin FinP lcalm).

Lemma note_live n k g : lcalm g -> LWP k (note n) g (fun _ g' => g' = g) (fun _ => False).
Proof.
  intros [Hm Hc]. eapply (LP_same pool T cap size K Fin FinP); [|by left| | |].
  - split; [|done]. intros s. by repeat split.
  - apply (note_accepts T cap size (fun _ => True) (fun _ => True) n k (lt_pool g) Hc).
  - intros [] x ->. by destruct g.
  - done.
Qed.

Lemma log_user_live : UserSafeB (H := log_user) (may_wait pool) may_await I Fin FinP lcalm.
Proof. apply log_user_safe_if. intros n k g Hg. by apply note_live. Qed.

Lemma chain_user_live : UserSafeB (H := chain_user) (may_wait pool) may_await I Fin FinP lcalm.
Proof.
  assert (Hn : forall n, quiet (note n)).
  { intros n k g Hg. eapply WP_mono; [by apply note_live|done|done]. }
  destruct log_user_live. split; try assumption. intros t. unfold chain_user, runnable_run.
  apply quiet_bind; [apply Hn|]. intros _. destruct t as [|t]; [apply quiet_panic|].
  intros k g [Hm Hc]. apply WP_bind. assert (Hg : set lt_pool_l (lt_pool g) g = g) by (by destruct g).
  rewrite <- Hg at 1.
  apply (LP_submit (H2 := log_user) pool T cap size K Fin FinP (HU := log_user_live) k (detached t) (lt_pool g) g);
    [done|done|].
  intros v _. apply WP_ret. exact Hg.
Qed.
End chain.

Lemma chain_never_waits b clients : callbacks_never_wait (H2 := chain_user) (cs_pool_l (P := CPool)) b clients.
Proof. intros T Fin FinP. apply chain_user_live. Qed.

(** Two workers; one client joins, the other waits for a termination nobody asks for. *)
Definition rest_clients : list (list FixedOp) := [[OpSubmit 2; OpJoin; OpStats]; [OpSubmit 0; OpWaitTermination]].
Definition rest_system : config (CState CPool) :=
  fixed_system (H1 := chain_user) cs_pool_l demo_builder rest_clients demo_state.
Definition rest_sched : list (nat * bool) :=
  demo_build ++ fair 600 0 true (after rest_system demo_build).


Lemma fixed_pool_never_hangs_witness :
  exists h c, exec rest_sched [] rest_system = Some (h, c) /\ stuck c /\
    let a := accounting (cs_pool (shared c)) in
    submitted_task_count a = 4 /\ completed_task_count a + cancelled_task_count a = 4 /\
    (exists p, threads c !! 3%nat = Some p /\ finished p = false) /\
    forall i p, threads c !! i = Some p -> p = Ret tt \/
      (mon_asleep (mon_sync (state (cs_pool (shared c)))) i = true /\ may_rest rest_clients i).
Proof.
  assert (Hd : match exec rest_sched [] rest_system with
    | Some (h, c) => (length h <? 1000)%nat = true /\ stuckb c = true /\
        fixed_lifecycle (mon_data (state (cs_pool (shared c)))) = Lifecycle.Running /\
        submitted_task_count (accounting (cs_pool (shared c))) = 4 /\
        match threads c !! 3%nat with Some p => finished p = false | None => False end
    | None => False end) by (vm_compute; repeat split; reflexivity).
  destruct (exec rest_sched [] rest_system) as [[h c]|] eqn:He; [|contradiction].
  destruct Hd as (Hlen & Hst & Hl & Hsub & Hp). apply stuckb_stuck in Hst.
  destruct (fixed_pool_never_hangs (H1 := chain_user) _ _ cs_pool_l _ demo_builder rest_clients demo_state
    rest_sched h c) as [(_ & Hsum & Hrest)|[Hnot _]];
    [reflexivity|reflexivity|apply chain_never_waits|exact He| |exact Hst| |contradiction].
  - unfold in_time, STEP_BOUND. apply Nat.ltb_lt in Hlen. lia.
  - exists h, c. split; [reflexivity|]. split; [exact Hst|]. cbn [get cs_pool_l] in Hsum, Hrest.
    split; [exact Hsub|]. split; [rewrite <- Hsum; exact Hsub|]. split; [|exact Hrest].
    destruct (threads c !! 3%nat) as [p|]; [exists p; split; [reflexivity|exact Hp]|contradiction].
Defined.
