(* ===== verification/DynState.v ===== *)
(** [src/dynamic/thread_pool_state.rs], [thread_pool_config.rs] and the data of
    [thread_pool_inner.rs]: the state of a dynamic pool. *)
From S2P Require Import Prelude Prog Sync AdmissionGate PoolAccounting Types Hooks PoolJob.
Local Open Scope Z_scope.

(** Durations are in nanoseconds. *)
Record ThreadPoolConfig : Type := MkThreadPoolConfig {
  cfg_core_pool_size : Z;
  cfg_maximum_pool_size : Z;
  cfg_queue_capacity : option Z;
  cfg_thread_name_prefix : string;
  cfg_stack_size : option Z;
  cfg_keep_alive : Z;
  cfg_allow_core_thread_timeout : bool;
}.

Record ThreadPoolState : Type := MkThreadPoolState {
  lifecycle : ExecutorServiceLifecycle;
  live_workers : Z;
  exiting_workers : Z;
  idle_workers : Z;
  core_pool_size : Z;
  maximum_pool_size : Z;
  keep_alive : Z;
  allow_core_thread_timeout : bool;
  next_worker_index : Z;
}.

Definition thread_pool_state_new (config : ThreadPoolConfig) : ThreadPoolState :=
  MkThreadPoolState Lifecycle.Running 0 0 0 (cfg_core_pool_size config)
    (cfg_maximum_pool_size config) (cfg_keep_alive config)
    (cfg_allow_core_thread_timeout config) 0.

Definition worker_wait_is_timed (self : ThreadPoolState) : bool :=
  allow_core_thread_timeout self || (core_pool_size self <? live_workers self).

Definition idle_worker_can_retire (self : ThreadPoolState) : bool :=
  (maximum_pool_size self <? live_workers self)
  || (worker_wait_is_timed self
      && ((core_pool_size self <? live_workers self) || allow_core_thread_timeout self)).

Definition lifecycle_l : lens ThreadPoolState ExecutorServiceLifecycle :=
  Lens lifecycle (fun x a => MkThreadPoolState x (live_workers a) (exiting_workers a)
    (idle_workers a) (core_pool_size a) (maximum_pool_size a) (keep_alive a)
    (allow_core_thread_timeout a) (next_worker_index a)).
Definition live_workers_l : lens ThreadPoolState Z :=
  Lens live_workers (fun x a => MkThreadPoolState (lifecycle a) x (exiting_workers a)
    (idle_workers a) (core_pool_size a) (maximum_pool_size a) (keep_alive a)
    (allow_core_thread_timeout a) (next_worker_index a)).
Definition exiting_workers_l : lens ThreadPoolState Z :=
  Lens exiting_workers (fun x a => MkThreadPoolState (lifecycle a) (live_workers a) x
    (idle_workers a) (core_pool_size a) (maximum_pool_size a) (keep_alive a)
    (allow_core_thread_timeout a) (next_worker_index a)).
Definition idle_workers_l : lens ThreadPoolState Z :=
  Lens idle_workers (fun x a => MkThreadPoolState (lifecycle a) (live_workers a)
    (exiting_workers a) x (core_pool_size a) (maximum_pool_size a) (keep_alive a)
    (allow_core_thread_timeout a) (next_worker_index a)).
Definition core_pool_size_l : lens ThreadPoolState Z :=
  Lens core_pool_size (fun x a => MkThreadPoolState (lifecycle a) (live_workers a)
    (exiting_workers a) (idle_workers a) x (maximum_pool_size a) (keep_alive a)
    (allow_core_thread_timeout a) (next_worker_index a)).
Definition maximum_pool_size_l : lens ThreadPoolState Z :=
  Lens maximum_pool_size (fun x a => MkThreadPoolState (lifecycle a) (live_workers a)
    (exiting_workers a) (idle_workers a) (core_pool_size a) x (keep_alive a)
    (allow_core_thread_timeout a) (next_worker_index a)).
Definition keep_alive_l : lens ThreadPoolState Z :=
  Lens keep_alive (fun x a => MkThreadPoolState (lifecycle a) (live_workers a)
    (exiting_workers a) (idle_workers a) (core_pool_size a) (maximum_pool_size a) x
    (allow_core_thread_timeout a) (next_worker_index a)).
Definition allow_core_thread_timeout_l : lens ThreadPoolState bool :=
  Lens allow_core_thread_timeout (fun x a => MkThreadPoolState (lifecycle a) (live_workers a)
    (exiting_workers a) (idle_workers a) (core_pool_size a) (maximum_pool_size a)
    (keep_alive a) x (next_worker_index a)).
Definition next_worker_index_l : lens ThreadPoolState Z :=
  Lens next_worker_index (fun x a => MkThreadPoolState (lifecycle a) (live_workers a)
    (exiting_workers a) (idle_workers a) (core_pool_size a) (maximum_pool_size a)
    (keep_alive a) (allow_core_thread_timeout a) x).

(** [entries] holds the queue entries allocated so far ([Arc<QueuedJob>]), named
    by number; [global_queue] lists the queued ones. *)
Record ThreadPoolInner (M : Type) : Type := MkThreadPoolInner {
  state_monitor : ParkingLotMonitor M ThreadPoolState;
  accounting : PoolAccounting;
  stop_now : bool;
  live_worker_count : Z;
  idle_worker_count : Z;
  pending_worker_wakes : Z;
  submit_waiter_count : Z;
  idle_waiter_count : Z;
  global_queue : Mutex (list nat);
  entries : gmap nat QueuedJob;
  thread_name_prefix : string;
  stack_size : option Z;
  hooks : ThreadPoolHooks;
}.
Arguments MkThreadPoolInner {M}.
Arguments state_monitor {M}. Arguments accounting {M}. Arguments stop_now {M}.
Arguments live_worker_count {M}. Arguments idle_worker_count {M}.
Arguments pending_worker_wakes {M}. Arguments submit_waiter_count {M}.
Arguments idle_waiter_count {M}. Arguments global_queue {M}. Arguments entries {M}.
Arguments thread_name_prefix {M}. Arguments stack_size {M}. Arguments hooks {M}.

Section lenses.
Context {M : Type}.
Local Abbreviation Inner := (ThreadPoolInner M).

Definition state_monitor_l : lens Inner (ParkingLotMonitor M ThreadPoolState) :=
  Lens state_monitor (fun x a => MkThreadPoolInner x (accounting a) (stop_now a)
    (live_worker_count a) (idle_worker_count a) (pending_worker_wakes a)
    (submit_waiter_count a) (idle_waiter_count a) (global_queue a) (entries a)
    (thread_name_prefix a) (stack_size a) (hooks a)).
Definition accounting_l : lens Inner PoolAccounting :=
  Lens accounting (fun x a => MkThreadPoolInner (state_monitor a) x (stop_now a)
    (live_worker_count a) (idle_worker_count a) (pending_worker_wakes a)
    (submit_waiter_count a) (idle_waiter_count a) (global_queue a) (entries a)
    (thread_name_prefix a) (stack_size a) (hooks a)).
Definition stop_now_l : lens Inner bool :=
  Lens stop_now (fun x a => MkThreadPoolInner (state_monitor a) (accounting a) x
    (live_worker_count a) (idle_worker_count a) (pending_worker_wakes a)
    (submit_waiter_count a) (idle_waiter_count a) (global_queue a) (entries a)
    (thread_name_prefix a) (stack_size a) (hooks a)).
Definition live_worker_count_l : lens Inner Z :=
  Lens live_worker_count (fun x a => MkThreadPoolInner (state_monitor a) (accounting a)
    (stop_now a) x (idle_worker_count a) (pending_worker_wakes a)
    (submit_waiter_count a) (idle_waiter_count a) (global_queue a) (entries a)
    (thread_name_prefix a) (stack_size a) (hooks a)).
Definition idle_worker_count_l : lens Inner Z :=
  Lens idle_worker_count (fun x a => MkThreadPoolInner (state_monitor a) (accounting a)
    (stop_now a) (live_worker_count a) x (pending_worker_wakes a)
    (submit_waiter_count a) (idle_waiter_count a) (global_queue a) (entries a)
    (thread_name_prefix a) (stack_size a) (hooks a)).
Definition pending_worker_wakes_l : lens Inner Z :=
  Lens pending_worker_wakes (fun x a => MkThreadPoolInner (state_monitor a) (accounting a)
    (stop_now a) (live_worker_count a) (idle_worker_count a) x
    (submit_waiter_count a) (idle_waiter_count a) (global_queue a) (entries a)
    (thread_name_prefix a) (stack_size a) (hooks a)).
Definition submit_waiter_count_l : lens Inner Z :=
  Lens submit_waiter_count (fun x a => MkThreadPoolInner (state_monitor a) (accounting a)
    (stop_now a) (live_worker_count a) (idle_worker_count a) (pending_worker_wakes a)
    x (idle_waiter_count a) (global_queue a) (entries a)
    (thread_name_prefix a) (stack_size a) (hooks a)).
Definition idle_waiter_count_l : lens Inner Z :=
  Lens idle_waiter_count (fun x a => MkThreadPoolInner (state_monitor a) (accounting a)
    (stop_now a) (live_worker_count a) (idle_worker_count a) (pending_worker_wakes a)
    (submit_waiter_count a) x (global_queue a) (entries a)
    (thread_name_prefix a) (stack_size a) (hooks a)).
Definition global_queue_l : lens Inner (Mutex (list nat)) :=
  Lens global_queue (fun x a => MkThreadPoolInner (state_monitor a) (accounting a)
    (stop_now a) (live_worker_count a) (idle_worker_count a) (pending_worker_wakes a)
    (submit_waiter_count a) (idle_waiter_count a) x (entries a)
    (thread_name_prefix a) (stack_size a) (hooks a)).
Definition entries_l : lens Inner (gmap nat QueuedJob) :=
  Lens entries (fun x a => MkThreadPoolInner (state_monitor a) (accounting a)
    (stop_now a) (live_worker_count a) (idle_worker_count a) (pending_worker_wakes a)
    (submit_waiter_count a) (idle_waiter_count a) (global_queue a) x
    (thread_name_prefix a) (stack_size a) (hooks a)).

#[export] Instance state_monitor_l_laws : LensLaws state_monitor_l.
Proof. solve_lens. Qed.
#[export] Instance accounting_l_laws : LensLaws accounting_l.
Proof. solve_lens. Qed.
#[export] Instance global_queue_l_laws : LensLaws global_queue_l.
Proof. solve_lens. Qed.
#[export] Instance entries_l_laws : LensLaws entries_l.
Proof. solve_lens. Qed.
End lenses.

Definition thread_pool_inner_new {M} `{Monitor M} (config : ThreadPoolConfig)
    (hooks : ThreadPoolHooks) : ThreadPoolInner M :=
  MkThreadPoolInner (monitor_new (thread_pool_state_new config))
    (pool_accounting_new (cfg_queue_capacity config)) false 0 0 0 0 0
    (mutex_new []) ∅ (cfg_thread_name_prefix config) (cfg_stack_size config) hooks.
