(* ===== verification/DynInner.v ===== *)
(** [src/dynamic/thread_pool_inner.rs]: the operations of the shared state that
    do not start workers. *)
From S2P Require Import Prelude Prog Sync AdmissionGate PoolAccounting Types Hooks PoolJob.
From S2P Require Import DynState.
Local Open Scope Z_scope.

(** [VecDeque::iter().position(..)] *)
Fixpoint position (e : nat) (q : list nat) : option nat :=
  match q with
  | [] => None
  | e' :: q => if (e =? e')%nat then Some 0%nat else option_map Datatypes.S (position e q)
  end.

Section dynamic.
Context {S M : Type} `{Monitor M} `{UserCode S}.
Variable self : lens S (ThreadPoolInner M).

Definition mon : lens S (ParkingLotMonitor M ThreadPoolState) := self ⊚ state_monitor_l.
Definition locked {B} (l : lens ThreadPoolState B) : lens S B := mon ⊚ mon_data_l ⊚ l.
Definition acc : lens S PoolAccounting := self ⊚ accounting_l.
Definition queue : lens S (Mutex (list nat)) := self ⊚ global_queue_l.

(** A value computed from the locked state. *)
Definition state_read {B} (f : ThreadPoolState -> B) : prog S B :=
  Act (fun _ s => Some (f (get (mon ⊚ mon_data_l) s), s)) Ret.

(** *** Queue entries *)

(** An action on entry [e]; an [Arc] always finds its entry. *)
Definition entry_act {B} (e : nat) (f : nat -> QueuedJob -> option (B * QueuedJob)) : prog S B :=
  Act (fun t s => match entries (get self s) !! e with
                  | None => None
                  | Some j => match f t j with
                              | None => None
                              | Some (b, j') =>
                                  Some (b, set (self ⊚ entries_l) (<[e := j']> (entries (get self s))) s)
                              end
                  end) Ret.

(** [Arc::new(..)] *)
Definition entry_alloc (j : QueuedJob) : prog S nat :=
  Act (fun _ s => let e := fresh (dom (entries (get self s))) in
                  Some (e, set (self ⊚ entries_l) (<[e := j]> (entries (get self s))) s)) Ret.

Definition entry_lock (e : nat) : prog S unit :=
  entry_act e (fun t j => match mutex_owner (entry_state j) with
                          | None => Some (tt, MkQueuedJob (MkMutex (Some t) (mutex_data (entry_state j)))
                                                (entry_changed j) (entry_pool j))
                          | Some _ => None
                          end).
Definition entry_unlock (e : nat) : prog S unit :=
  entry_act e (fun _ j => Some (tt, MkQueuedJob (MkMutex None (mutex_data (entry_state j)))
                                      (entry_changed j) (entry_pool j))).
Definition entry_read (e : nat) : prog S QueuedJobState.t :=
  entry_act e (fun _ j => Some (mutex_data (entry_state j), j)).
Definition entry_write (e : nat) (v : QueuedJobState.t) : prog S unit :=
  entry_act e (fun _ j => Some (tt, MkQueuedJob (MkMutex (mutex_owner (entry_state j)) v)
                                      (entry_changed j) (entry_pool j))).
(** [*entry.lock() = v] *)
Definition entry_set (e : nat) (v : QueuedJobState.t) : prog S unit :=
  entry_lock e ;; entry_write e v ;; entry_unlock e.
(** [entry.changed.notify_all()] *)
Definition entry_notify (e : nat) : prog S unit :=
  entry_act e (fun _ j => Some (tt, MkQueuedJob (entry_state j) [] (entry_pool j))).
(** [entry.changed.wait(state)]; wake-ups may be spurious *)
Definition entry_wait (e : nat) : prog S unit :=
  entry_act e (fun t j => Some (tt, MkQueuedJob (MkMutex None (mutex_data (entry_state j)))
                                      (t :: entry_changed j) (entry_pool j))) ;;
  spurious <- choose ;;
  entry_act e (fun t j =>
    if (spurious : bool) || negb (bool_decide (t ∈ entry_changed j)) then
      match mutex_owner (entry_state j) with
      | None => Some (tt, MkQueuedJob (MkMutex (Some t) (mutex_data (entry_state j)))
                            (filter (fun u => u <> t) (entry_changed j)) (entry_pool j))
      | Some _ => None
      end
    else None).

(** [QueuedJob::take_queued] *)
Definition take_queued (e : nat) : prog S (option PoolJob) :=
  entry_lock e ;;
  state <- entry_read e ;;
  entry_write e (take_queued_state state).2 ;;
  entry_unlock e ;;
  Ret (take_queued_state state).1.

(** [PoolJob::prepare_cancellable]: the job and its ticket's entry *)
Definition prepare_cancellable (accept run cancel : nat) : prog S (PoolJob * nat) :=
  e <- entry_alloc queued_job_prepared ;;
  Ret (MkPoolJob (job_inner (with_accept accept run cancel)) (Some e), e).

(** [PoolJob::assert_pool] *)
Definition assert_pool (job : PoolJob) : prog S unit :=
  match job_queued job with
  | None => Ret tt
  | Some e =>
      belongs <- entry_act e (fun _ j => Some (belongs_to_pool j, j)) ;;
      assert belongs
  end.

(** *** Counters and notifications *)

Definition get_hooks : prog S ThreadPoolHooks :=
  Act (fun _ s => Some (hooks (get self s), s)) Ret.
Definition tp_queued_count : prog S Z := queued_count acc.
Definition tp_running_count : prog S Z := running_count acc.
Definition tp_inflight_count : prog S Z := inflight_count acc.

Definition read_state {B} (f : ThreadPoolState -> B) : prog S B :=
  with_lock mon (state_read f).

Definition is_idle_snapshot : prog S bool := is_idle acc.

Definition tp_is_terminated_locked : prog S bool :=
  andp (state_read (fun st => negb (bool_decide (lifecycle st = Lifecycle.Running))))
    (andp (state_read (fun st => live_workers st =? 0))
       (andp (state_read (fun st => exiting_workers st =? 0)) is_idle_snapshot)).

Definition tp_notify_waiters_after_atomic_change : prog S unit := lock_notify_all mon.

Definition notify_if_terminated : prog S unit :=
  terminated <- tp_is_terminated_locked ;;
  when terminated (notify_all mon).

Definition notify_if_idle_or_terminated : prog S unit :=
  b <- orp is_idle_snapshot tp_is_terminated_locked ;;
  when b (notify_all mon).

Definition tp_has_idle_waiters : prog S bool :=
  n <- load (self ⊚ idle_waiter_count_l) ;; Ret (0 <? n).

Definition tp_notify_submitter_departure : prog S unit :=
  notify <- orp (open <- is_admission_open acc ;; Ret (negb open)) tp_has_idle_waiters ;;
  when notify tp_notify_waiters_after_atomic_change.

Definition tp_begin_submit : prog S (Result unit SubmissionError) :=
  entered <- try_enter acc ;;
  Ret (if (entered : bool) then Ok tt else Err Shutdown).

(** [ThreadPoolSubmitGuard::drop] *)
Definition tp_submit_guard_drop : prog S unit :=
  last <- leave acc ;;
  when last tp_notify_submitter_departure.

Definition tp_reserve_queue_slot : prog S bool := try_reserve_bounded_slot acc.
Definition tp_reserve_worker_handoff_slot : prog S unit := reserve_worker_handoff_slot acc.
Definition tp_release_queue_slot : prog S unit := rollback_reserved_slot acc.
Definition tp_begin_cancel_queued_job : prog S unit := begin_cancel_queued_job acc.

Definition tp_finish_cancelled_job : prog S unit :=
  finish_cancelled_job acc ;;
  idle <- is_idle_snapshot ;;
  when idle tp_notify_waiters_after_atomic_change.

Definition tp_finish_running_job : prog S unit :=
  finish_running_job acc ;;
  idle <- is_idle acc ;;
  when idle tp_notify_waiters_after_atomic_change.

Definition tp_mark_worker_idle : prog S unit :=
  fetch_add (self ⊚ idle_worker_count_l) 1 ;; Ret tt.
Definition tp_has_pending_worker_wake : prog S bool :=
  n <- load (self ⊚ pending_worker_wakes_l) ;; Ret (0 <? n).
Definition tp_consume_pending_worker_wake : prog S unit :=
  fetch_update (self ⊚ pending_worker_wakes_l) (fun current => checked_sub current 1) ;;
  Ret tt.
Definition tp_unmark_worker_idle : prog S unit :=
  previous <- fetch_sub (self ⊚ idle_worker_count_l) 1 ;;
  assert (0 <? previous) ;;
  tp_consume_pending_worker_wake.

Definition tp_wake_one_idle_worker : prog S unit :=
  idle_workers <- load (self ⊚ idle_worker_count_l) ;;
  if idle_workers =? 0 then Ret tt else
  requested <- fetch_update (self ⊚ pending_worker_wakes_l)
    (fun pending_wakes =>
       if pending_wakes <? idle_workers then Some (pending_wakes + 1) else None) ;;
  when (is_ok requested) (lock_notify_all mon).

(** *** The queue *)

(** [queue.pop_front()], [push_back(e)], under the queue lock *)
Definition pop_front : prog S (option nat) :=
  Act (fun _ s => match mutex_data (get queue s) with
                  | [] => Some (None, s)
                  | e :: q => Some (Some e, set (queue ⊚ mutex_data_l) q s)
                  end) Ret.
Definition push_back (e : nat) : prog S unit :=
  Act (fun _ s => Some (tt, set (queue ⊚ mutex_data_l) (mutex_data (get queue s) ++ [e]) s)) Ret.

Definition try_take_queued_job : prog S (option PoolJob) :=
  with_mutex queue (
    stopping <- load (self ⊚ stop_now_l) ;;
    if (stopping : bool) then Ret None else
    entry <- pop_front ;;
    match entry with
    | None => Ret None
    | Some e =>
        job <- take_queued e ;;
        match job with
        | None => Ret None
        | Some job => claim_queued_job acc ;; Ret (Some job)
        end
    end).

(** The publication step of [accept_and_enqueue_reserved_job], under the
    queue lock: whether a ticket reserved the cancellation. *)
Definition publish_reserved (entry : option nat) (job : PoolJob) : prog S bool :=
  publish_accepted_job acc ;;
  match entry with
  | Some e =>
      entry_lock e ;;
      cancelled <- finally (
        state <- entry_read e ;;
        match state with
        | QueuedJobState.Accepting _ true =>
            entry_write e QueuedJobState.Cancelling ;;
            tp_begin_cancel_queued_job ;;
            Ret true
        | _ => entry_write e (QueuedJobState.Queued job) ;; Ret false
        end) (entry_unlock e) ;;
      (if (cancelled : bool) then Ret true else push_back e ;; Ret false)
  | None =>
      e <- entry_alloc (queued_job_new job) ;;
      push_back e ;;
      Ret false
  end.

Definition accept_and_enqueue_reserved_job (job : PoolJob) :
    prog S (Result unit PoolJobSubmissionError) :=
  let '(entry, job) := take_queue_entry job in
  match entry with
  | Some e => t <- current_thread ;; entry_set e (QueuedJobState.Accepting t false)
  | None => Ret tt
  end ;;
  accepted <- job_accept job ;;
  match accepted.1 with
  | Err _ =>
      tp_release_queue_slot ;;
      match entry with
      | Some e => entry_set e QueuedJobState.Rejected ;; entry_notify e
      | None => Ret tt
      end ;;
      tp_notify_waiters_after_atomic_change ;;
      discard accepted.2 ;;
      Ret (Err AcceptancePanicked)
  | Ok _ =>
      cancelled <- with_mutex queue (publish_reserved entry accepted.2) ;;
      if (cancelled : bool) then
        job_cancel accepted.2 ;;
        tp_finish_cancelled_job ;;
        match entry with
        | Some e => entry_set e QueuedJobState.Cancelled ;; entry_notify e
        | None => Ret tt
        end ;;
        Ret (Ok tt)
      else
        tp_wake_one_idle_worker ;;
        Ret (Ok tt)
  end.

Definition cancel_queued_entry (e : nat) : prog S bool :=
  job <- with_mutex queue (
    q <- load (queue ⊚ mutex_data_l) ;;
    match position e q with
    | None => Ret None
    | Some index =>
        job <- take_queued e ;;
        match job with
        | None => Ret None
        | Some job =>
            store (queue ⊚ mutex_data_l) (delete index q) ;;
            tp_begin_cancel_queued_job ;;
            Ret (Some job)
        end
    end) ;;
  match job with
  | None => Ret false
  | Some job =>
      job_cancel job ;;
      tp_finish_cancelled_job ;;
      Ret true
  end.

Definition drain_visible_queued_jobs : prog S (list PoolJob) :=
  with_mutex queue (
    loop (fun jobs : list PoolJob =>
            entry <- pop_front ;;
            match entry with
            | None => Ret (inr jobs)
            | Some e =>
                job <- take_queued e ;;
                match job with
                | Some job => tp_begin_cancel_queued_job ;; Ret (inl (jobs ++ [job]))
                | None => Ret (inl jobs)
                end
            end) []).

(** *** Lifecycle *)

Definition tp_shutdown : prog S unit :=
  close_admission acc ;;
  with_lock mon (
    lc <- load (locked lifecycle_l) ;;
    when (bool_decide (lc = Lifecycle.Running))
      (store (locked lifecycle_l) Lifecycle.ShuttingDown) ;;
    notify_all mon).

(** The wait for submitters inside [stop], holding the monitor. *)
Definition tp_wait_for_submitters : prog S unit :=
  inflight <- tp_inflight_count ;;
  when (0 <? inflight) (
    fetch_add (self ⊚ submit_waiter_count_l) 1 ;;
    loop (fun _ : unit =>
            inflight <- tp_inflight_count ;;
            if 0 <? inflight then wait mon ;; Ret (inl tt) else Ret (inr tt)) tt ;;
    previous <- fetch_sub (self ⊚ submit_waiter_count_l) 1 ;;
    assert (0 <? previous)).

Definition tp_stop : prog S StopReport :=
  close_admission acc ;;
  store (self ⊚ stop_now_l) true ;;
  stopped <- with_lock mon (
    store (self ⊚ stop_now_l) true ;;
    lc <- load (locked lifecycle_l) ;;
    when (bool_decide (lc = Lifecycle.Running \/ lc = Lifecycle.ShuttingDown))
      (store (locked lifecycle_l) Lifecycle.Stopping) ;;
    tp_wait_for_submitters ;;
    running <- tp_running_count ;;
    jobs <- drain_visible_queued_jobs ;;
    notify_all mon ;;
    Ret (jobs, Z.of_nat (length jobs), running)) ;;
  let '(jobs, queued, running) := (stopped : list PoolJob * Z * Z) in
  for_each jobs (fun job => job_cancel job ;; tp_finish_cancelled_job) ;;
  lock_notify_all mon ;;
  Ret (MkStopReport queued running queued).

Definition tp_is_not_running : prog S bool :=
  read_state (fun st => negb (bool_decide (lifecycle st = Lifecycle.Running))).

Definition tp_lifecycle : prog S ExecutorServiceLifecycle :=
  with_lock mon (
    terminated <- tp_is_terminated_locked ;;
    if (terminated : bool) then Ret Lifecycle.Terminated else state_read lifecycle).

Definition tp_is_terminated : prog S bool := with_lock mon tp_is_terminated_locked.

Definition tp_wait_for_termination : prog S unit :=
  wait_until_ready mon tp_is_terminated_locked.

Definition tp_wait_for_termination_timeout (timeout : Z) : prog S bool :=
  loop (fun _ : unit =>
          over <- time_is_over timeout ;;
          if (over : bool) then
            terminated <- tp_is_terminated ;; Ret (inr terminated)
          else
            waited <- wait_until_ready_with_total_timeout mon tp_is_terminated_locked ;;
            match waited with
            | Ok true => Ret (inr true)
            | Ok false => Ret (inl tt)
            | Err _ => terminated <- tp_is_terminated ;; Ret (inr terminated)
            end) tt.

Definition tp_wait_until_idle : prog S unit :=
  fetch_add (self ⊚ idle_waiter_count_l) 1 ;;
  with_lock mon (
    loop (fun _ : unit =>
            idle <- is_idle_snapshot ;;
            if (idle : bool) then Ret (inr tt) else wait mon ;; Ret (inl tt)) tt ;;
    previous <- fetch_sub (self ⊚ idle_waiter_count_l) 1 ;;
    assert (0 <? previous)).

Definition tp_stats : prog S ThreadPoolStats :=
  counters <- snapshot acc ;;
  with_lock mon (
    terminated <- tp_is_terminated_locked ;;
    st <- state_read (fun st => st) ;;
    capacity <- accounting_queue_capacity acc ;;
    Ret (MkThreadPoolStats
           (if (terminated : bool) then Lifecycle.Terminated else lifecycle st)
           (core_pool_size st) (maximum_pool_size st) capacity
           (live_workers st) (idle_workers st)
           (queued_tasks counters) (running_tasks counters) (submitted_tasks counters)
           (completed_tasks counters) (cancelled_tasks counters) terminated)).

(** *** Configuration *)

Definition set_core_pool_size (n : Z) : prog S (Result unit ExecutorServiceBuilderError) :=
  err <- with_lock mon (
    maximum <- load (locked maximum_pool_size_l) ;;
    if maximum <? n then Ret (Some maximum)
    else store (locked core_pool_size_l) n ;; Ret None) ;;
  match err with
  | Some maximum => Ret (Err (CorePoolSizeExceedsMaximum n maximum))
  | None => notify_all mon ;; Ret (Ok tt)
  end.

Definition set_maximum_pool_size (n : Z) : prog S (Result unit ExecutorServiceBuilderError) :=
  if n =? 0 then Ret (Err ZeroMaximumPoolSize) else
  exceeds <- with_lock mon (
    core <- load (locked core_pool_size_l) ;;
    if n <? core then Ret (Some core)
    else store (locked maximum_pool_size_l) n ;; Ret None) ;;
  match exceeds with
  | Some core => Ret (Err (CorePoolSizeExceedsMaximum core n))
  | None => notify_all mon ;; Ret (Ok tt)
  end.

Definition set_keep_alive (d : Z) : prog S (Result unit ExecutorServiceBuilderError) :=
  if d =? 0 then Ret (Err ZeroKeepAlive) else
  with_write_notify_all mon (store (locked keep_alive_l) d) ;;
  Ret (Ok tt).

Definition tp_allow_core_thread_timeout (allow : bool) : prog S unit :=
  with_write_notify_all mon (store (locked allow_core_thread_timeout_l) allow).

(** *** Workers leaving *)

Definition finish_worker_exit : prog S unit :=
  with_lock mon (
    guarded_decr (locked exiting_workers_l) ;;
    notify_if_terminated ;;
    notify_all mon).

Definition unregister_worker_locked : prog S unit :=
  guarded_decr (locked live_workers_l) ;;
  previous <- fetch_sub (self ⊚ live_worker_count_l) 1 ;;
  assert (0 <? previous) ;;
  notify_if_terminated.
End dynamic.
