(* ===== verification/DynWorker.v ===== *)
(** [src/dynamic/thread_pool_worker.rs]: the loop of a dynamic pool's worker. *)
From S2P Require Import Prelude Prog Sync AdmissionGate PoolAccounting Types Hooks PoolJob.
From S2P Require Import DynState DynInner.
Local Open Scope Z_scope.

(** What a worker does after looking at the lifecycle. *)
Inductive Decision : Type := Leave | Again | Park.

Section worker.
Context {S M : Type} `{Monitor M} `{UserCode S}.
Variable self : lens S (ThreadPoolInner M).
Local Abbreviation mon := (mon self).
Local Abbreviation locked := (locked self).

Definition tp_run_without_hooks (job : PoolJob) : prog S unit :=
  catch_unwind (job_run job) ;; Ret tt.

Definition tp_run_with_task_hooks (job : PoolJob) (hooks : ThreadPoolHooks) (worker_index : Z) :
    prog S unit :=
  run_before_task hooks worker_index ;;
  catch_unwind (job_run job) ;;
  run_after_task hooks worker_index.

Definition mark_thread_pool_worker_idle : prog S unit :=
  guarded_incr (locked idle_workers_l) ;;
  tp_mark_worker_idle self.

Definition unmark_thread_pool_worker_idle : prog S unit :=
  guarded_decr (locked idle_workers_l) ;;
  tp_unmark_worker_idle self.

Definition unregister_exiting_worker (_worker_index : Z) : prog S unit :=
  guarded_incr (locked exiting_workers_l) ;;
  unregister_worker_locked self.

Definition queue_is_empty : prog S bool := n <- tp_queued_count self ;; Ret (n =? 0).
Definition no_pending_wake : prog S bool :=
  b <- tp_has_pending_worker_wake self ;; Ret (negb b).

(** The timed wait of the [Running] state: whether the worker retires. *)
Definition timed_park (worker_index : Z) : prog S Decision :=
  _keep_alive <- load (locked keep_alive_l) ;;
  mark_thread_pool_worker_idle ;;
  nothing <- andp queue_is_empty no_pending_wake ;;
  timed_out <- (if (nothing : bool) then
                  status <- wait_for mon ;;
                  expect (match status with Ok timed_out => Some timed_out | Err _ => None end)
                else Ret false) ;;
  should_retire <-
    andp (Ret timed_out) (andp queue_is_empty (andp no_pending_wake
      (andp (orp (state_read self (fun st => 1 <? live_workers st))
                 (n <- tp_inflight_count self ;; Ret (n =? 0)))
            (state_read self idle_worker_can_retire)))) ;;
  unmark_thread_pool_worker_idle ;;
  if (should_retire : bool) then unregister_exiting_worker worker_index ;; Ret Leave
  else Ret Again.

Definition untimed_park : prog S Decision :=
  mark_thread_pool_worker_idle ;;
  nothing <- andp queue_is_empty no_pending_wake ;;
  when nothing (wait mon) ;;
  unmark_thread_pool_worker_idle ;;
  Ret Again.

(** The second critical section of the [Running] state. *)
Definition park (worker_index : Z) : prog S Decision :=
  with_lock mon (
    timed <- state_read self (fun st => bool_decide (lifecycle st = Lifecycle.Running)
                                        && worker_wait_is_timed st) ;;
    if (timed : bool) then timed_park worker_index else
    running <- state_read self (fun st => bool_decide (lifecycle st = Lifecycle.Running)) ;;
    if (running : bool) then untimed_park else Ret Again).

(** The first critical section. *)
Definition inspect (worker_index : Z) : prog S Decision :=
  with_lock mon (
    lc <- load (locked lifecycle_l) ;;
    match lc with
    | Lifecycle.Running =>
        surplus <- andp queue_is_empty
          (state_read self (fun st => (maximum_pool_size st <? live_workers st) && (0 <? live_workers st))) ;;
        if (surplus : bool) then unregister_exiting_worker worker_index ;; Ret Leave
        else Ret Park
    | Lifecycle.ShuttingDown =>
        empty <- queue_is_empty ;;
        if negb empty then Ret Again else
        inflight <- tp_inflight_count self ;;
        if inflight =? 0 then unregister_exiting_worker worker_index ;; Ret Leave else
        mark_thread_pool_worker_idle ;;
        still <- andp queue_is_empty (n <- tp_inflight_count self ;; Ret (0 <? n)) ;;
        when still (wait mon) ;;
        unmark_thread_pool_worker_idle ;;
        Ret Again
    | Lifecycle.Stopping | Lifecycle.Terminated =>
        unregister_exiting_worker worker_index ;; Ret Leave
    end).

(** One iteration of [wait_for_job]: [inr] is its result. *)
Definition wait_for_job_iteration (worker_index : Z) (_ : unit) : prog S (unit + option PoolJob) :=
  job <- try_take_queued_job self ;;
  match job with
  | Some job => Ret (inr (Some job))
  | None =>
      decision <- inspect worker_index ;;
      decision <- match decision with Park => park worker_index | d => Ret d end ;;
      Ret (match decision with Leave => inr None | _ => inl tt end)
  end.

Definition wait_for_job (worker_index : Z) : prog S (option PoolJob) :=
  loop (wait_for_job_iteration worker_index) tt.

(** One iteration of the worker loop. *)
Definition thread_pool_worker_iteration (has_hooks : bool) (worker_index : Z) (_ : unit) :
    prog S (unit + unit) :=
  job <- wait_for_job worker_index ;;
  match job with
  | Some job =>
      (if has_hooks then
         hooks <- get_hooks self ;; tp_run_with_task_hooks job hooks worker_index
       else tp_run_without_hooks job) ;;
      tp_finish_running_job self ;;
      Ret (inl tt)
  | None =>
      hooks <- get_hooks self ;;
      run_after_worker_stop hooks worker_index ;;
      finish_worker_exit self ;;
      Ret (inr tt)
  end.

Definition thread_pool_worker_run (worker_index : Z) : prog S unit :=
  hooks <- get_hooks self ;;
  run_before_worker_start hooks worker_index ;;
  loop (thread_pool_worker_iteration (has_task_hooks hooks) worker_index) tt.
End worker.
