(* ===== verification/DynSubmit.v ===== *)
(** [src/dynamic/thread_pool_inner.rs]: dynamic admission, worker creation, and
    prestarting; [src/pool_job_ticket.rs]. *)
From S2P Require Import Prelude Prog Sync AdmissionGate PoolAccounting Types Hooks PoolJob.
From S2P Require Import DynState DynInner DynWorker Builder.
Local Open Scope Z_scope.

Record ReservedWorker : Type := MkReservedWorker { index : Z }.

Section submit.
Context {S M : Type} `{Monitor M} `{UserCode S}.
Variable self : lens S (ThreadPoolInner M).
Local Abbreviation mon := (mon self).
Local Abbreviation locked := (locked self).

Definition reserve_worker_locked : prog S ReservedWorker :=
  index <- load (locked next_worker_index_l) ;;
  guarded_incr (locked next_worker_index_l) ;;
  guarded_incr (locked live_workers_l) ;;
  Ret (MkReservedWorker index).

Definition spawn_reserved_worker_locked (worker : ReservedWorker) :
    prog S (Result unit SubmissionError) :=
  prefix <- Act (fun _ s => Some (thread_name_prefix (get self s), s)) Ret ;;
  stack <- Act (fun _ s => Some (stack_size (get self s), s)) Ret ;;
  spawned <- thread_spawn (worker_thread_name prefix (index worker)) stack
               (thread_pool_worker_run self (index worker)) ;;
  match spawned with
  | Some _ =>
      fetch_add (self ⊚ live_worker_count_l) 1 ;;
      Ret (Ok tt)
  | None =>
      guarded_decr (locked live_workers_l) ;;
      notify_if_idle_or_terminated self ;;
      Ret (Err WorkerSpawnFailed)
  end.

(** Growing by one worker, with a slot for the job it is created for. *)
Definition grow : prog S (Result unit PoolJobSubmissionError) :=
  worker <- reserve_worker_locked ;;
  spawned <- spawn_reserved_worker_locked worker ;;
  match spawned with
  | Err error => Ret (Err (Rejected error))
  | Ok _ => tp_reserve_worker_handoff_slot self ;; Ret (Ok tt)
  end.

Definition reserve_submission_with_state_lock : prog S (Result unit PoolJobSubmissionError) :=
  with_lock mon (
    lc <- load (locked lifecycle_l) ;;
    if negb (bool_decide (lc = Lifecycle.Running)) then Ret (Err (Rejected Shutdown)) else
    below_core <- state_read self (fun st => live_workers st <? core_pool_size st) ;;
    if (below_core : bool) then grow else
    none <- state_read self (fun st => live_workers st =? 0) ;;
    if (none : bool) then grow else
    reserved <- tp_reserve_queue_slot self ;;
    if (reserved : bool) then Ret (Ok tt) else
    below_maximum <- state_read self (fun st => live_workers st <? maximum_pool_size st) ;;
    if (below_maximum : bool) then grow else Ret (Err (Rejected Saturated))).

Definition submit_with_state_lock (job : PoolJob) : prog S (Result unit PoolJobSubmissionError) :=
  reserved <- reserve_submission_with_state_lock ;;
  match reserved with
  | Err error => discard job ;; Ret (Err error)
  | Ok _ => accept_and_enqueue_reserved_job self job
  end.

Definition tp_submit (job : PoolJob) : prog S (Result unit PoolJobSubmissionError) :=
  on_unwind (assert_pool self job) (drop_inner (job_inner job)) ;;
  entered <- tp_begin_submit self ;;
  match entered with
  | Err error => discard job ;; Ret (Err (Rejected error))
  | Ok _ => finally (submit_with_state_lock job) (tp_submit_guard_drop self)
  end.

Definition prestart_core_thread : prog S (Result bool SubmissionError) :=
  with_lock mon (
    lc <- load (locked lifecycle_l) ;;
    if negb (bool_decide (lc = Lifecycle.Running)) then Ret (Err Shutdown) else
    satisfied <- state_read self (fun st => core_pool_size st <=? live_workers st) ;;
    if (satisfied : bool) then Ret (Ok false) else
    worker <- reserve_worker_locked ;;
    spawned <- spawn_reserved_worker_locked worker ;;
    Ret (match spawned with Ok _ => Ok true | Err e => Err e end)).

Definition prestart_all_core_threads : prog S (Result Z SubmissionError) :=
  loop (fun started : Z =>
          r <- prestart_core_thread ;;
          Ret (match r with
               | Ok true => inl (started + 1)
               | Ok false => inr (Ok started)
               | Err e => inr (Err e)
               end)) 0.

(** [PoolJobTicket::cancel_queued] for the ticket of entry [e]; [alive]:
    whether the weak pointer to the pool can be upgraded. *)
Definition cancel_queued (alive : bool) (e : nat) : prog S bool :=
  if negb alive then Ret false else
  entry_lock self e ;;
  state <- entry_read self e ;;
  match state with
  | QueuedJobState.Accepting owner cancel_requested =>
      t <- current_thread ;;
      if (owner =? t)%nat || cancel_requested then entry_unlock self e ;; Ret false else
      entry_write self e (QueuedJobState.Accepting owner true) ;;
      loop (fun _ : unit =>
              state <- entry_read self e ;;
              match state with
              | QueuedJobState.Accepting _ _ | QueuedJobState.Cancelling =>
                  entry_wait self e ;; Ret (inl tt)
              | _ => Ret (inr tt)
              end) tt ;;
      state <- entry_read self e ;;
      entry_unlock self e ;;
      Ret (match state with QueuedJobState.Cancelled => true | _ => false end)
  | QueuedJobState.Queued _ => entry_unlock self e ;; cancel_queued_entry self e
  | _ => entry_unlock self e ;; Ret false
  end.
End submit.
