(* ===== verification/DynPool.v ===== *)
(** [src/dynamic/thread_pool.rs], [thread_pool_builder.rs]: the public dynamic
    pool and its builder. *)
From S2P Require Import Prelude Prog Sync AdmissionGate PoolAccounting Types Hooks PoolJob.
From S2P Require Import DynState DynInner DynWorker DynSubmit Builder.
Local Open Scope Z_scope.

Definition DEFAULT_THREAD_NAME_PREFIX : string := "qubit-thread-pool".
(** sixty seconds *)
Definition DEFAULT_KEEP_ALIVE : Z := 60 * 1000000000.

Record ThreadPoolBuilder : Type := MkThreadPoolBuilder {
  b_core_pool_size : Z;
  b_maximum_pool_size : Z;
  b_queue_capacity : option Z;
  b_thread_name_prefix : string;
  b_stack_size : option Z;
  b_keep_alive : Z;
  b_allow_core_thread_timeout : bool;
  b_prestart_core_threads : bool;
  b_hooks : ThreadPoolHooks;
}.

(** [ExecutorServiceBuilderError::from_submission_error] of the executor library *)
Class BuilderErrors : Type := from_submission_error : SubmissionError -> ExecutorServiceBuilderError.

Module Builder.
Definition default `{Arguments} : ThreadPoolBuilder :=
  MkThreadPoolBuilder default_parallelism default_parallelism None DEFAULT_THREAD_NAME_PREFIX
    None DEFAULT_KEEP_ALIVE false false thread_pool_hooks_new.

Definition core_pool_size (b : ThreadPoolBuilder) (n : Z) : ThreadPoolBuilder :=
  MkThreadPoolBuilder n (b_maximum_pool_size b) (b_queue_capacity b) (b_thread_name_prefix b)
    (b_stack_size b) (b_keep_alive b) (b_allow_core_thread_timeout b)
    (b_prestart_core_threads b) (b_hooks b).
Definition maximum_pool_size (b : ThreadPoolBuilder) (n : Z) : ThreadPoolBuilder :=
  MkThreadPoolBuilder (b_core_pool_size b) n (b_queue_capacity b) (b_thread_name_prefix b)
    (b_stack_size b) (b_keep_alive b) (b_allow_core_thread_timeout b)
    (b_prestart_core_threads b) (b_hooks b).
Definition pool_size (b : ThreadPoolBuilder) (n : Z) : ThreadPoolBuilder :=
  MkThreadPoolBuilder n n (b_queue_capacity b) (b_thread_name_prefix b)
    (b_stack_size b) (b_keep_alive b) (b_allow_core_thread_timeout b)
    (b_prestart_core_threads b) (b_hooks b).
Definition queue_capacity (b : ThreadPoolBuilder) (n : Z) : ThreadPoolBuilder :=
  MkThreadPoolBuilder (b_core_pool_size b) (b_maximum_pool_size b) (Some n)
    (b_thread_name_prefix b) (b_stack_size b) (b_keep_alive b) (b_allow_core_thread_timeout b)
    (b_prestart_core_threads b) (b_hooks b).
Definition unbounded_queue (b : ThreadPoolBuilder) : ThreadPoolBuilder :=
  MkThreadPoolBuilder (b_core_pool_size b) (b_maximum_pool_size b) None
    (b_thread_name_prefix b) (b_stack_size b) (b_keep_alive b) (b_allow_core_thread_timeout b)
    (b_prestart_core_threads b) (b_hooks b).
Definition thread_name_prefix (b : ThreadPoolBuilder) (prefix : string) : ThreadPoolBuilder :=
  MkThreadPoolBuilder (b_core_pool_size b) (b_maximum_pool_size b) (b_queue_capacity b)
    prefix (b_stack_size b) (b_keep_alive b) (b_allow_core_thread_timeout b)
    (b_prestart_core_threads b) (b_hooks b).
Definition stack_size (b : ThreadPoolBuilder) (n : Z) : ThreadPoolBuilder :=
  MkThreadPoolBuilder (b_core_pool_size b) (b_maximum_pool_size b) (b_queue_capacity b)
    (b_thread_name_prefix b) (Some n) (b_keep_alive b) (b_allow_core_thread_timeout b)
    (b_prestart_core_threads b) (b_hooks b).
Definition keep_alive (b : ThreadPoolBuilder) (d : Z) : ThreadPoolBuilder :=
  MkThreadPoolBuilder (b_core_pool_size b) (b_maximum_pool_size b) (b_queue_capacity b)
    (b_thread_name_prefix b) (b_stack_size b) d (b_allow_core_thread_timeout b)
    (b_prestart_core_threads b) (b_hooks b).
Definition allow_core_thread_timeout (b : ThreadPoolBuilder) (allow : bool) : ThreadPoolBuilder :=
  MkThreadPoolBuilder (b_core_pool_size b) (b_maximum_pool_size b) (b_queue_capacity b)
    (b_thread_name_prefix b) (b_stack_size b) (b_keep_alive b) allow
    (b_prestart_core_threads b) (b_hooks b).
Definition prestart_core_threads (b : ThreadPoolBuilder) : ThreadPoolBuilder :=
  MkThreadPoolBuilder (b_core_pool_size b) (b_maximum_pool_size b) (b_queue_capacity b)
    (b_thread_name_prefix b) (b_stack_size b) (b_keep_alive b) (b_allow_core_thread_timeout b)
    true (b_hooks b).
Definition set_hooks (b : ThreadPoolBuilder) (hooks : ThreadPoolHooks) : ThreadPoolBuilder :=
  MkThreadPoolBuilder (b_core_pool_size b) (b_maximum_pool_size b) (b_queue_capacity b)
    (b_thread_name_prefix b) (b_stack_size b) (b_keep_alive b) (b_allow_core_thread_timeout b)
    (b_prestart_core_threads b) hooks.
Definition before_worker_start (b : ThreadPoolBuilder) (hook : nat) : ThreadPoolBuilder :=
  set_hooks b (Hooks.before_worker_start (b_hooks b) hook).
Definition after_worker_stop (b : ThreadPoolBuilder) (hook : nat) : ThreadPoolBuilder :=
  set_hooks b (Hooks.after_worker_stop (b_hooks b) hook).
Definition before_task (b : ThreadPoolBuilder) (hook : nat) : ThreadPoolBuilder :=
  set_hooks b (Hooks.before_task (b_hooks b) hook).
Definition after_task (b : ThreadPoolBuilder) (hook : nat) : ThreadPoolBuilder :=
  set_hooks b (Hooks.after_task (b_hooks b) hook).

Definition validate `{Arguments} (b : ThreadPoolBuilder) :
    Result unit ExecutorServiceBuilderError :=
  map_argument_error (require_positive "maximum_pool_size" (b_maximum_pool_size b))
    ZeroMaximumPoolSize ?;;
  map_argument_error
    (require_at_most "core_pool_size" (b_core_pool_size b) (b_maximum_pool_size b))
    (CorePoolSizeExceedsMaximum (b_core_pool_size b) (b_maximum_pool_size b)) ?;;
  map_argument_error
    (validate_some (require_positive "queue_capacity") (b_queue_capacity b)) ZeroQueueCapacity ?;;
  map_argument_error
    (validate_some (require_positive "stack_size") (b_stack_size b)) ZeroStackSize ?;;
  map_argument_error (duration_require_positive "keep_alive" (b_keep_alive b)) ZeroKeepAlive ?;;
  Ok tt.

Definition config (b : ThreadPoolBuilder) : ThreadPoolConfig :=
  MkThreadPoolConfig (b_core_pool_size b) (b_maximum_pool_size b) (b_queue_capacity b)
    (b_thread_name_prefix b) (b_stack_size b) (b_keep_alive b) (b_allow_core_thread_timeout b).
End Builder.

Section pool.
Context {S M : Type} `{Monitor M} `{UserCode S}.
Variable self : lens S (ThreadPoolInner M).

(** [build] once the shared state exists. *)
Definition start_pool `{BuilderErrors} (b : ThreadPoolBuilder) :
    prog S (Result unit ExecutorServiceBuilderError) :=
  started <- (if b_prestart_core_threads b then prestart_all_core_threads self
              else Ret (Ok 0)) ;;
  match started with
  | Err error =>
      tp_stop self ;;
      tp_wait_for_termination self ;;
      Ret (Err (from_submission_error error))
  | Ok _ => Ret (Ok tt)
  end.

(** [Arc::new] creates the state the lens [self] then refers to. *)
Definition tp_build `{Arguments} `{BuilderErrors} (b : ThreadPoolBuilder) :
    prog S (Result unit ExecutorServiceBuilderError) :=
  match Builder.validate b with
  | Err e => Ret (Err e)
  | Ok _ =>
      store self (thread_pool_inner_new (Builder.config b) (b_hooks b)) ;;
      start_pool b
  end.

Definition thread_pool_new `{Arguments} `{BuilderErrors} (n : Z) :
    prog S (Result unit ExecutorServiceBuilderError) :=
  tp_build (Builder.pool_size Builder.default n).

Definition tp_live_worker_count : prog S Z := read_state self live_workers.
Definition tp_core_pool_size : prog S Z := read_state self core_pool_size.
Definition tp_maximum_pool_size : prog S Z := read_state self maximum_pool_size.
Definition prepare_cancellable_job (accept run cancel : nat) : prog S (PoolJob * nat) :=
  prepare_cancellable self accept run cancel.
Definition submit_job (job : PoolJob) : prog S (Result unit PoolJobSubmissionError) :=
  tp_submit self job.
Definition tp_join : prog S unit := tp_wait_until_idle self.
Definition tp_drop : prog S unit := tp_shutdown self.

Definition tp_submit_runnable (task : nat) : prog S (Result unit SubmissionError) :=
  r <- tp_submit self (detached task) ;; map_submission_error r.
Definition tp_submit_callable (task completion handle : nat) : prog S (Result nat SubmissionError) :=
  r <- tp_submit self (from_task task completion) ;;
  r <- map_submission_error r ;;
  Ret (match r with Ok _ => Ok handle | Err e => Err e end).
Definition tp_submit_tracked_callable (task completion handle : nat) :
    prog S (Result nat SubmissionError) :=
  r <- tp_submit self (from_task task completion) ;;
  r <- map_submission_error r ;;
  Ret (match r with Ok _ => Ok handle | Err e => Err e end).
End pool.
