(* ===== verification/DynQueue.v ===== *)
(** The queue of a dynamic pool, run alone: it is a first-in first-out list of
    jobs from which tickets may remove entries. *)
From S2P Require Import Prelude Prog Sync Seq SeqLogic AdmissionGate PoolAccounting.
From S2P Require Import AccountingRefine Types Hooks PoolJob JobLifecycle SeqPool SeqView DynState DynInner.

Local Open Scope Z_scope.
#[local] Arguments bind : simpl never.

Section entries.
Context {S M : Type} `{Monitor M} `{UserCode S}.
Context (self : lens S (ThreadPoolInner M)) `{!LensLaws self}.
Implicit Types (w : world S).

(** The pool with another state of entry [e]. *)
Definition with_entry (e : nat) (entry : QueuedJob) (w : world S) : world S :=
  with_part self (set entries_l (<[e := entry]> (entries (part self w))) (part self w)) w.

Lemma runs_entry_act {B} e f t w (entry entry' : QueuedJob) (b : B) :
  entries (part self w) !! e = Some entry -> f t entry = Some (b, entry') ->
  runs t (entry_act self e f) w (Returned b (with_entry e entry' w)).
Proof.
  intros He Hf. eapply runs_act; [|apply runs_ret]. unfold part in He. cbn. by rewrite He, Hf.
Qed.

Lemma entries_with_entry e entry w : entries (part self (with_entry e entry w)) !! e = Some entry.
Proof. unfold with_entry. rewrite part_with by apply _. cbn. by rewrite lookup_insert_eq. Qed.

Lemma with_entry_twice e x y w : with_entry e x (with_entry e y w) = with_entry e x w.
Proof.
  unfold with_entry. rewrite part_with, with_part_twice by apply _. cbn. by rewrite insert_insert_eq.
Qed.

Lemma runs_take_queued e t w (entry : QueuedJob) job :
  entries (part self w) !! e = Some entry -> entry_state entry = MkMutex None (QueuedJobState.Queued job) ->
  runs t (take_queued self e) w
    (Returned (Some job) (with_entry e
       (MkQueuedJob (MkMutex None QueuedJobState.Taken) (entry_changed entry) (entry_pool entry)) w)).
Proof.
  intros He Hs. unfold take_queued.
  eapply runs_bind; [eapply runs_entry_act; [exact He|by rewrite Hs]|].
  eapply runs_bind; [eapply runs_entry_act; [apply entries_with_entry|done]|]. rewrite with_entry_twice.
  eapply runs_bind; [eapply runs_entry_act; [apply entries_with_entry|done]|]. rewrite with_entry_twice.
  eapply runs_bind; [eapply runs_entry_act; [apply entries_with_entry|done]|]. rewrite with_entry_twice.
  apply runs_ret.
Qed.
End entries.

(** ** The abstract pool *)

(** What submission, cancellation and the workers leave as it is: how threads are
    made, the hooks, and the entries that are not in the queue. *)
Record Rest : Type := MkRest {
  rest_prefix : string;
  rest_stack : option Z;
  rest_hooks : ThreadPoolHooks;
  rest_entries : gmap nat QueuedJob;
}.

(** The queue lists jobs with the identities of their entries; [qv_workers] is
    the atomic count of workers. *)
Record QView : Type := MkQView {
  qv_ledger : Ledger;
  qv_queue : list (nat * PoolJob);
  qv_state : ThreadPoolState;
  qv_stop : bool;
  qv_workers : Z;
  qv_rest : Rest;
}.

(** A view with one part replaced. *)
Definition v_after (v : QView) (a : Ledger) (q : list (nat * PoolJob)) : QView :=
  MkQView a q (qv_state v) (qv_stop v) (qv_workers v) (qv_rest v).
Definition with_state (st : ThreadPoolState) (v : QView) : QView :=
  MkQView (qv_ledger v) (qv_queue v) st (qv_stop v) (qv_workers v) (qv_rest v).
Definition with_ledger (a : Ledger) (v : QView) : QView :=
  MkQView a (qv_queue v) (qv_state v) (qv_stop v) (qv_workers v) (qv_rest v).
Definition with_stop (b : bool) (v : QView) : QView :=
  MkQView (qv_ledger v) (qv_queue v) (qv_state v) b (qv_workers v) (qv_rest v).
Definition with_workers (n : Z) (v : QView) : QView :=
  MkQView (qv_ledger v) (qv_queue v) (qv_state v) (qv_stop v) n (qv_rest v).
Definition with_others (m : gmap nat QueuedJob) (v : QView) : QView :=
  MkQView (qv_ledger v) (qv_queue v) (qv_state v) (qv_stop v) (qv_workers v)
    (MkRest (rest_prefix (qv_rest v)) (rest_stack (qv_rest v)) (rest_hooks (qv_rest v)) m).
Definition qv_others (v : QView) : gmap nat QueuedJob := rest_entries (qv_rest v).

Section view.
Context {M : Type} `{Monitor M}.
Implicit Types (v : QView) (p : ThreadPoolInner M).

(** Every queued entry holds its job, and the queue is as long as the
    ledger's count of queued jobs. *)
Record qview_of v p : Prop := {
  qv_counts : ledger_repr (qv_ledger v) (accounting p);
  qv_length : led_queued (qv_ledger v) = Z.of_nat (length (qv_queue v));
  qv_list : global_queue p = MkMutex None (map fst (qv_queue v));
  qv_entries : forall e job, (e, job) ∈ qv_queue v ->
    exists entry, entries p !! e = Some entry /\ entry_state entry = MkMutex None (QueuedJobState.Queued job);
  qv_distinct : NoDup (map fst (qv_queue v));
  qv_free : mon_owner (mon_sync (state_monitor p)) = None;
  qv_data : mon_data (state_monitor p) = qv_state v;
  qv_stop_now : stop_now p = qv_stop v;
  qv_live_count : live_worker_count p = qv_workers v;
  qv_prefix : thread_name_prefix p = rest_prefix (qv_rest v);
  qv_stack : stack_size p = rest_stack (qv_rest v);
  qv_hooks : hooks p = rest_hooks (qv_rest v);
  qv_unqueued : forall e entry, qv_others v !! e = Some entry ->
    entries p !! e = Some entry /\ e ∉ map fst (qv_queue v);
}.

#[export] Instance dyn_view : PoolView QView (ThreadPoolInner M) M ThreadPoolState := {|
  pv_monitor := state_monitor_l;
  pv_accounting := accounting_l;
  pv_of := qview_of;
  pv_state := qv_state;
  pv_with_state := with_state;
  pv_ledger := qv_ledger;
  pv_with_ledger := with_ledger;
  pv_fits a v := led_queued a = led_queued (qv_ledger v);
|}.

#[export] Instance dyn_view_laws : PoolViewLaws QView (ThreadPoolInner M) M ThreadPoolState.
Proof.
  split; try apply _; cbn; try done.
  - intros v p Hv. apply (qv_free _ _ Hv).
  - intros v p Hv. apply (qv_data _ _ Hv).
  - intros v p Hv. apply (qv_counts _ _ Hv).
  - intros v p x [] Hx. by split.
  - intros v p st []. by split.
  - intros v p a x [] Hx Ha. split; cbn; first [done|congruence].
  - by intros [].
Qed.
End view.

(** The rules of [SeqView] for this view. *)
Abbreviation qview_ledger := (pv_set_ledger (PoolViewLaws := dyn_view_laws)) (only parsing).
Abbreviation qview_sync := (pv_sync (PoolViewLaws := dyn_view_laws)) (only parsing).
Abbreviation held := (SeqView.held (PoolView0 := dyn_view)) (only parsing).
Abbreviation pdoes_held := (SeqView.pdoes_held (PoolView0 := dyn_view)) (only parsing).
Abbreviation held_with_sync := (SeqView.held_with_sync (PoolView0 := dyn_view)) (only parsing).
Abbreviation held_view := (SeqView.held_view (PoolView0 := dyn_view)) (only parsing).
Abbreviation held_state := (SeqView.held_state (PoolView0 := dyn_view)) (only parsing).
Abbreviation held_counts := (SeqView.held_counts (PoolView0 := dyn_view)) (only parsing).
Abbreviation held_ledger := (SeqView.held_ledger (PoolView0 := dyn_view)) (only parsing).
Abbreviation pdoes_locked_load := (SeqView.pdoes_locked_load (PoolView0 := dyn_view)) (only parsing).
Abbreviation pdoes_locked_read := (SeqView.pdoes_locked_read (PoolView0 := dyn_view)) (only parsing).
Abbreviation pdoes_locked_store := (SeqView.pdoes_locked_store (PoolView0 := dyn_view)) (only parsing).
Abbreviation pdoes_locked_incr := (SeqView.pdoes_locked_incr (PoolView0 := dyn_view)) (only parsing).
Abbreviation pdoes_locked_decr := (SeqView.pdoes_locked_decr (PoolView0 := dyn_view)) (only parsing).
Abbreviation pdoes_held_notify_all := (SeqView.pdoes_held_notify_all (PoolView0 := dyn_view)) (only parsing).
Abbreviation pdoes_held_when := (SeqView.pdoes_held_when (PoolView0 := dyn_view)) (only parsing).
Abbreviation pdoes_notify := (SeqView.pdoes_notify (PoolView0 := dyn_view)) (only parsing).
Abbreviation pdoes_try_enter := (SeqView.pdoes_try_enter (PoolView0 := dyn_view)) (only parsing).
Abbreviation pdoes_leave := (SeqView.pdoes_leave (PoolView0 := dyn_view)) (only parsing).
Abbreviation pdoes_is_open := (SeqView.pdoes_is_open (PoolView0 := dyn_view)) (only parsing).
Abbreviation pdoes_notify_when := (SeqView.pdoes_notify_when (PoolView0 := dyn_view)) (only parsing).
Abbreviation pdoes_ledger := (SeqView.pdoes_ledger (PoolView0 := dyn_view)) (only parsing).
Abbreviation pdoes_held_ledger := (SeqView.pdoes_held_ledger (PoolView0 := dyn_view)) (only parsing).
Abbreviation pdoes_held_idle := (SeqView.pdoes_held_idle (PoolView0 := dyn_view)) (only parsing).
Abbreviation pdoes_finish := (SeqView.pdoes_finish (PoolView0 := dyn_view)) (only parsing).

Section queue.
Context {S M : Type} `{MonitorLaws M}.
Context (self : lens S (ThreadPoolInner M)) (log : lens S (list Event)).
Context `{!LensLaws self, !LensLaws log, !Apart self log} (panics : Event -> bool).
Implicit Types (w : world S) (v : QView) (p : ThreadPoolInner M) (t : nat).
Definition queue_user : UserCode S := recording log panics.
#[local] Existing Instance queue_user.
Local Abbreviation Seen := (Seen S (ThreadPoolInner M)).
Implicit Types (s : Seen).

(** Entry [e] with its job taken out. *)
Definition taken (entry : QueuedJob) : QueuedJob :=
  MkQueuedJob (MkMutex None QueuedJobState.Taken) (entry_changed entry) (entry_pool entry).

Lemma pdoes_take_queued t e s entry job (Post : option PoolJob -> Seen -> list Event -> Prop) :
  entries (seen_pool s) !! e = Some entry -> entry_state entry = MkMutex None (QueuedJobState.Queued job) ->
  Post (Some job) (with_pool (set entries_l (<[e := taken entry]> (entries (seen_pool s))) (seen_pool s)) s) [] ->
  pdoes self log t (take_queued self e) s Post.
Proof.
  intros He Hs HP. eapply pdoes_part; [apply _..| |exact HP]. intros w [Hw _].
  rewrite <- Hw in *. by apply runs_take_queued.
Qed.

Lemma pdoes_pop_front t s (Post : option nat -> Seen -> list Event -> Prop) :
  match mutex_data (global_queue (seen_pool s)) with
  | [] => Post None s []
  | e :: q => Post (Some e) (with_pool (set (global_queue_l ⊚ mutex_data_l) q (seen_pool s)) s) []
  end ->
  pdoes self log t (pop_front self) s Post.
Proof.
  intros HP. destruct (mutex_data (global_queue (seen_pool s))) as [|e q] eqn:Hq.
  - intros [st orc sp] [Hw Hs]. exists None, (World st orc sp), s, []. rewrite app_nil_r. split; [|done].
    eapply runs_act; [|apply runs_ret]. unfold part in Hw. cbn in *. by rewrite Hw, Hq.
  - eapply pdoes_part; [apply _..| |exact HP]. intros w [Hw _]. eapply runs_act; [|apply runs_ret].
    unfold with_part, part in *. cbn. by rewrite Hw, Hq.
Qed.

Lemma pdoes_push_back t e s (Post : unit -> Seen -> list Event -> Prop) :
  Post tt (with_pool (set (global_queue_l ⊚ mutex_data_l)
    (mutex_data (global_queue (seen_pool s)) ++ [e]) (seen_pool s)) s) [] ->
  pdoes self log t (push_back self e) s Post.
Proof.
  intros HP. eapply pdoes_part; [apply _..| |exact HP]. intros w [Hw _]. eapply runs_act; [|apply runs_ret].
  unfold with_part, part in *. cbn. by rewrite Hw.
Qed.

(** Removing one entry from the queue: it is known to be taken from then on. *)
Lemma qview_take v p e job q1 q2 entry a x :
  qview_of v p -> qv_queue v = q1 ++ (e, job) :: q2 -> entries p !! e = Some entry ->
  ledger_repr a x -> led_queued a = led_queued (qv_ledger v) - 1 ->
  qview_of (with_others (<[e := taken entry]> (qv_others v)) (v_after v a (q1 ++ q2)))
    (set accounting_l x (set global_queue_l (MkMutex None (map fst (q1 ++ q2)))
       (set entries_l (<[e := taken entry]> (entries p)) p))).
Proof.
  intros Hp Hv Hent Hx Ha. pose proof Hp as [Hc Hl Hq He Hd Hf Hs Ht Hwk Hpr Hsz Hho Hu]. rewrite Hv in *.
  assert (Hne : forall e', e' ∈ map fst (q1 ++ q2) -> e' <> e).
  { rewrite map_app in Hd |- *. cbn in Hd. apply NoDup_app in Hd as (_ & Hd & Hd').
    apply NoDup_cons in Hd' as [Hd' _]. intros e' [Hin|Hin]%elem_of_app ->; [|done]. apply (Hd e Hin). set_solver. }
  split; cbn; try done.
  - rewrite Ha, Hl, !length_app. cbn. lia.
  - intros e' job' Hin. destruct (He e' job') as (en & He1 & He2); [set_solver|].
    exists en. split; [|done]. rewrite lookup_insert_ne; [done|]. intros <-.
    apply (Hne e); [|done]. apply list_elem_of_fmap. by exists (e, job').
  - rewrite map_app in Hd |- *. cbn in Hd. apply NoDup_app in Hd as (Hd1 & Hd2 & Hd3).
    apply NoDup_cons in Hd3 as [_ Hd3]. apply NoDup_app. split; [done|]. split; [|done]. set_solver.
  - intros e' entry'. unfold qv_others. cbn. rewrite !lookup_insert_Some. intros [[<- <-]|[Hee Ho]].
    + split; [by left|]. intros Hin. by apply (Hne e).
    + destruct (Hu e' entry' Ho) as [Hu1 Hu2]. split; [by right|]. rewrite map_app in Hu2 |- *. cbn in Hu2. set_solver.
Qed.

(** Knowing less about the other entries. *)
Lemma qview_forget v p m : qview_of v p -> m ⊆ qv_others v -> qview_of (with_others m v) p.
Proof.
  intros [Hc Hl Hq He Hd Hf Hs Ht Hwk Hpr Hsz Hho Hu] Hm. split; try done.
  intros e entry Hin. apply Hu. by eapply lookup_weaken.
Qed.

Lemma with_others_id v : with_others (qv_others v) v = v.
Proof. by destruct v as [? ? ? ? ? []]. Qed.

Lemma qview_remove v p e job q1 q2 entry a x :
  qview_of v p -> qv_queue v = q1 ++ (e, job) :: q2 -> entries p !! e = Some entry ->
  ledger_repr a x -> led_queued a = led_queued (qv_ledger v) - 1 ->
  qview_of (v_after v a (q1 ++ q2))
    (set accounting_l x (set global_queue_l (MkMutex None (map fst (q1 ++ q2)))
       (set entries_l (<[e := taken entry]> (entries p)) p))).
Proof.
  intros Hp Hv Hent Hx Ha. rewrite <- (with_others_id (v_after _ _ _)).
  apply (qview_forget (with_others (<[e := taken entry]> (qv_others v)) (v_after v a (q1 ++ q2))));
    [by eapply qview_take|].
  apply insert_subseteq. destruct (qv_others v !! e) as [en|] eqn:Ho; [|done].
  destruct (qv_unqueued _ _ Hp _ _ Ho) as [_ Hn]. rewrite Hv, map_app in Hn. set_solver.
Qed.

(** Accounting operations without a result. *)
Lemma pdoes_count t op (p : prog S unit) a a' s (Post : unit -> Seen -> list Event -> Prop) :
  accounting_op (acc self) op = bind p (fun _ => Ret ReplyUnit) ->
  ledger_repr a (accounting (seen_pool s)) -> led_step op a = Answer ReplyUnit a' ->
  (forall x, ledger_repr a' x -> Post tt (with_pool (set accounting_l x (seen_pool s)) s) []) ->
  pdoes self log t p s Post.
Proof.
  intros Heq Ha Hs HP.
  eapply (pdoes_acc self log t accounting_l op p (fun _ => ReplyUnit) a tt a'); [exact Heq|by intros [] []|exact Ha|exact Hs|exact HP].
Qed.

(** Taking the front job: none when the pool is stopping or the queue is empty. *)
Lemma pdoes_try_take t v s :
  qview_of v (seen_pool s) ->
  pdoes self log t (try_take_queued_job self) s (fun r s' e =>
    e = [] /\ seen_threads s' = seen_threads s /\
    match (if qv_stop v then [] else qv_queue v) with
    | [] => r = None /\ qview_of v (seen_pool s')
    | (_, job) :: q => r = Some job /\
        qview_of (v_after v (led_add (qv_ledger v) 0 (-1) 1 0 0 0) q) (seen_pool s')
    end).
Proof.
  intros Hv. pose proof Hv as [Hc Hl Hq He Hd Hf Hs Ht Hwk Hpr Hsz Hho Hu]. unfold try_take_queued_job.
  apply (pdoes_with_mutex self log t global_queue_l); cbn [get global_queue_l]; rewrite Hq; [done|].
  apply pdoes_bind. apply pdoes_load. cbn [get stop_now_l seen_pool with_pool]. 
  cbn. rewrite Ht. destruct (qv_stop v) eqn:Hstop.
  { apply pdoes_ret. cbn. split; [done|]. split; [done|]. split; [done|]. split; cbn; rewrite ?Hstop; done. }
  apply pdoes_bind. apply pdoes_pop_front. cbn.
  destruct (qv_queue v) as [|[e job] q] eqn:Hqv; cbn [map fst].
  { apply pdoes_ret. cbn. split; [done|]. split; [done|]. split; [done|].
    split; cbn; rewrite ?Hqv, ?Hstop; done. }
  destruct (He e job) as (entry & Hent & Hst); [set_solver|].
  apply pdoes_bind. eapply pdoes_take_queued; [exact Hent|exact Hst|]. cbn.
  apply pdoes_bind. eapply (pdoes_count t LClaim); [reflexivity|exact Hc| |].
  { cbn. rewrite Hl. cbn. destruct (Z.ltb_spec 0 (Z.of_nat (Datatypes.S (length q)))); [done|lia]. }
  intros x Hx. apply pdoes_ret. cbn. split; [done|]. split; [done|]. split; [done|].
  pose proof (qview_remove v (seen_pool s) e job [] q entry _ x Hv Hqv Hent Hx) as Hr.
  assert (Ha : led_queued (led_add (qv_ledger v) 0 (-1) 1 0 0 0) = led_queued (qv_ledger v) - 1) by (cbn; lia).
  destruct (Hr Ha). constructor; cbn in *; first [done|congruence].
Qed.

Lemma position_some e (l1 l2 : list nat) : e ∉ l1 -> position e (l1 ++ e :: l2) = Some (length l1).
Proof.
  induction l1 as [|x l1 IH]; intros Hn; cbn.
  - by rewrite Nat.eqb_refl.
  - destruct (Nat.eqb_spec e x) as [->|]; [set_solver|]. rewrite IH by set_solver. done.
Qed.

Lemma position_none e l : e ∉ l -> position e l = None.
Proof.
  induction l as [|x l IH]; intros Hn; cbn; [done|].
  destruct (Nat.eqb_spec e x) as [->|]; [set_solver|]. by rewrite IH by set_solver.
Qed.

(** The last part of a cancellation, and of a run. *)
Lemma pdoes_finish_cancelled t v s (Post : unit -> Seen -> list Event -> Prop) :
  qview_of v (seen_pool s) -> 0 < led_cancelling (qv_ledger v) ->
  (forall s', qview_of (v_after v (led_add (qv_ledger v) 0 0 0 (-1) 0 1) (qv_queue v)) (seen_pool s') ->
     seen_threads s' = seen_threads s -> Post tt s' []) ->
  pdoes self log t (tp_finish_cancelled_job self) s Post.
Proof.
  intros Hv Hpos HP. apply Z.ltb_lt in Hpos.
  eapply (pdoes_finish self log t LFinishCancelled); [reflexivity|exact Hv|cbn; by rewrite Hpos|cbn; lia|exact HP].
Qed.

Lemma pdoes_finish_running t v s (Post : unit -> Seen -> list Event -> Prop) :
  qview_of v (seen_pool s) -> 0 < led_running (qv_ledger v) ->
  (forall s', qview_of (v_after v (led_add (qv_ledger v) 0 0 (-1) 0 1 0) (qv_queue v)) (seen_pool s') ->
     seen_threads s' = seen_threads s -> Post tt s' []) ->
  pdoes self log t (tp_finish_running_job self) s Post.
Proof.
  intros Hv Hpos HP. apply Z.ltb_lt in Hpos.
  eapply (pdoes_finish self log t LFinishRunning); [reflexivity|exact Hv|cbn; by rewrite Hpos|cbn; lia|exact HP].
Qed.

(** A ticket's cancellation of a queued entry: the job leaves its place, is
    cancelled by its callbacks outside the locks, and counted. *)
Lemma pdoes_cancel_entry t v s e j q1 q2 :
  qview_of v (seen_pool s) -> qv_queue v = q1 ++ (e, (accepted_job panics j).2) :: q2 ->
  pdoes self log t (cancel_queued_entry self e) s (fun b s' evs =>
    b = true /\ seen_threads s' = seen_threads s /\ cancelled j evs /\ exists entry,
    qview_of (with_others (<[e := taken entry]> (qv_others v))
      (v_after v (led_add (qv_ledger v) 0 (-1) 0 0 0 1) (q1 ++ q2))) (seen_pool s')).
Proof.
  intros Hv Hqv. pose proof Hv as [Hc Hl Hq He Hd Hf Hs Ht Hwk Hpr Hsz Hho Hu]. unfold cancel_queued_entry.
  assert (Hnin : e ∉ map fst q1).
  { rewrite Hqv, map_app in Hd. cbn in Hd. apply NoDup_app in Hd as (_ & Hd & _). intros Hin. apply (Hd e Hin). set_solver. }
  apply pdoes_bind.
  apply (pdoes_with_mutex self log t global_queue_l); cbn [get global_queue_l]; rewrite Hq; [done|].
  apply pdoes_bind. apply (pdoes_load self log t (global_queue_l ⊚ mutex_data_l)). cbn.
  rewrite Hqv, map_app. cbn [map fst]. rewrite position_some by done.
  destruct (He e (accepted_job panics j).2) as (entry & Hent & Hst); [rewrite Hqv; set_solver|].
  apply pdoes_bind. eapply pdoes_take_queued; [exact Hent|exact Hst|]. cbn.
  apply pdoes_bind. apply (pdoes_store self log t (global_queue_l ⊚ mutex_data_l)). cbn.
  apply pdoes_bind. eapply (pdoes_count t LBeginCancel); [reflexivity|exact Hc| |].
  { cbn. rewrite Hl, Hqv, length_app. cbn. match goal with |- context [0 <? ?n] => destruct (Z.ltb_spec 0 n) end; [done|lia]. }
  intros x Hx. apply pdoes_ret. cbn [app].
  match goal with |- pdoes _ _ _ _ ?s1 _ => set (s1' := s1) end.
  assert (Hv1 : qview_of (with_others (<[e := taken entry]> (qv_others v))
    (v_after v (led_add (qv_ledger v) 0 (-1) 0 1 0 0) (q1 ++ q2))) (seen_pool s1')).
  { pose proof (qview_take v (seen_pool s) e _ q1 q2 entry _ x Hv Hqv Hent Hx) as Hr.
    destruct Hr; [cbn; lia|]. constructor; cbn in *; try done.
    rewrite map_app. f_equal. apply delete_middle. }
  destruct (cancel_logs log panics j) as (evs & Hlog & Hcan).
  apply pdoes_bind. eapply pdoes_user; [apply _..|exact Hlog|].
  apply pdoes_bind. eapply (pdoes_finish_cancelled t); [exact Hv1| |].
  { cbn. destruct (lr_nonneg _ _ Hc) as (_ & _ & _ & Hnn & _). lia. }
  intros s2 Hv2 Hs2. apply pdoes_ret. rewrite !app_nil_r. split; [done|]. split; [done|]. split; [exact Hcan|].
  cbn in Hv2. unfold v_after in Hv2. cbn in Hv2. rewrite led_add_add in Hv2. exists entry. exact Hv2.
Qed.

(** An entry that is not queued any more (or not yet) is not cancelled. *)
Lemma pdoes_cancel_absent t v s e :
  qview_of v (seen_pool s) -> e ∉ map fst (qv_queue v) ->
  pdoes self log t (cancel_queued_entry self e) s (fun b s' evs =>
    b = false /\ seen_threads s' = seen_threads s /\ evs = [] /\ qview_of v (seen_pool s')).
Proof.
  intros Hv Hn. pose proof Hv as [Hc Hl Hq He Hd Hf Hs Ht Hwk Hpr Hsz Hho Hu]. unfold cancel_queued_entry.
  apply pdoes_bind.
  apply (pdoes_with_mutex self log t global_queue_l); cbn [get global_queue_l]; rewrite Hq; [done|].
  apply pdoes_bind. apply (pdoes_load self log t (global_queue_l ⊚ mutex_data_l)). cbn.
  rewrite position_none by done. apply pdoes_ret. cbn. apply pdoes_ret. do 3 (split; [done|]).
  split; cbn; done.
Qed.

Lemma pdoes_entry_alloc t q s (Post : nat -> Seen -> list Event -> Prop) :
  (let e := fresh (dom (entries (seen_pool s))) in
   Post e (with_pool (set entries_l (<[e := q]> (entries (seen_pool s))) (seen_pool s)) s) []) ->
  pdoes self log t (entry_alloc self q) s Post.
Proof.
  intros HP. eapply pdoes_part; [apply _..| |exact HP]. intros w [Hw _].
  eapply runs_act; [|apply runs_ret]. unfold with_part, part in *. cbn. by rewrite Hw.
Qed.

Lemma pdoes_wake t v s (Post : unit -> Seen -> list Event -> Prop) :
  qview_of v (seen_pool s) ->
  (forall s', qview_of v (seen_pool s') -> seen_threads s' = seen_threads s -> Post tt s' []) ->
  pdoes self log t (tp_wake_one_idle_worker self) s Post.
Proof.
  intros Hv HP. unfold tp_wake_one_idle_worker. apply pdoes_bind. apply pdoes_load. cbn [app].
  destruct (_ =? 0); [apply pdoes_ret; by apply HP|].
  apply pdoes_bind. apply pdoes_fetch_update; [apply _..|]. cbn.
  destruct (pending_worker_wakes (seen_pool s) <? idle_worker_count (seen_pool s)); cbn [when is_ok].
  - eapply (pdoes_notify self log t v); [destruct Hv; constructor; cbn; done|].
    intros s' Hv' Hs'. by apply HP.
  - apply pdoes_ret. by apply HP.
Qed.

(** An entry that was not queued, at the end of the queue. *)
Lemma qview_enqueue v p e job entry a x :
  qview_of v p -> e ∉ map fst (qv_queue v) -> entry_state entry = MkMutex None (QueuedJobState.Queued job) ->
  ledger_repr a x -> led_queued a = led_queued (qv_ledger v) + 1 ->
  qview_of (with_others (delete e (qv_others v)) (v_after v a (qv_queue v ++ [(e, job)])))
    (set accounting_l x (set global_queue_l (MkMutex None (map fst (qv_queue v) ++ [e]))
       (set entries_l (<[e := entry]> (entries p)) p))).
Proof.
  intros [Hc Hl Hq He Hd Hf Hs Ht Hwk Hpr Hsz Hho Hu] Hnew Hent Hx Ha.
  split; cbn; try done.
  - rewrite Ha, Hl, length_app. cbn. lia.
  - by rewrite map_app.
  - intros e' job' [Hin|Hin]%elem_of_app.
    + rewrite lookup_insert_ne; [by apply He|]. intros <-. apply Hnew. apply list_elem_of_fmap. by exists (e, job').
    + apply list_elem_of_singleton in Hin as [= -> ->]. exists entry. by rewrite lookup_insert_eq.
  - rewrite map_app. cbn. apply NoDup_app. split; [done|]. split; [|apply NoDup_singleton].
    by intros e' Hin ->%list_elem_of_singleton.
  - intros e' entry'. unfold qv_others. cbn. rewrite lookup_delete_Some. intros [Hee Ho].
    destruct (Hu e' entry' Ho) as [Hu1 Hu2]. rewrite lookup_insert_ne by done. split; [done|].
    rewrite map_app. cbn. set_solver.
Qed.

(** A new entry at the end of the queue. *)
Lemma qview_push v p e job entry a x :
  qview_of v p -> entries p !! e = None -> entry_state entry = MkMutex None (QueuedJobState.Queued job) ->
  ledger_repr a x -> led_queued a = led_queued (qv_ledger v) + 1 ->
  qview_of (v_after v a (qv_queue v ++ [(e, job)]))
    (set accounting_l x (set global_queue_l (MkMutex None (map fst (qv_queue v) ++ [e]))
       (set entries_l (<[e := entry]> (entries p)) p))).
Proof.
  intros Hv Hfresh Hent Hx Ha. rewrite <- (with_others_id (v_after _ _ _)).
  replace (qv_others (v_after v a (qv_queue v ++ [(e, job)]))) with (delete e (qv_others v)).
  - apply qview_enqueue; try done. intros ([e' job'] & Heq & Hin)%list_elem_of_fmap. cbn in Heq. subst.
    destruct (qv_entries _ _ Hv _ _ Hin) as (en & Hen & _). congruence.
  - apply delete_id. destruct (qv_others v !! e) eqn:Ho; [|done].
    destruct (qv_unqueued _ _ Hv _ _ Ho). congruence.
Qed.

(** Acceptance and publication of an ordinary job that holds a slot. *)
Lemma pdoes_accept_and_enqueue t v s j :
  qview_of v (seen_pool s) -> 0 < led_reserved (qv_ledger v) -> led_submitted (qv_ledger v) + 1 < USIZE_MOD ->
  pdoes self log t (accept_and_enqueue_reserved_job self (new_job j)) s (fun r s' evs =>
    seen_threads s' = seen_threads s /\
    if acceptance_fails panics j then
      r = Err AcceptancePanicked /\ concat (map consumes evs) ≡ₚ pieces j /\
      filter (fun e => is_destructor e = false) evs = accept_events j /\
      qview_of (v_after v (led_add (qv_ledger v) (-1) 0 0 0 0 0) (qv_queue v)) (seen_pool s')
    else
      r = Ok tt /\ evs = accept_events j /\
      exists e, qview_of (v_after v (led_add (qv_ledger v) (-1) 1 0 0 0 0)
        (qv_queue v ++ [(e, (accepted_job panics j).2)])) (seen_pool s')).
Proof.
  intros Hv Hres Hsub. pose proof Hv as [Hc Hl Hq He Hd Hf Hs Ht Hwk Hpr Hsz Hho Hu].
  assert (Hj : take_queue_entry (new_job j) = (None, new_job j)) by by destruct j.
  unfold accept_and_enqueue_reserved_job. rewrite Hj. apply pdoes_bind. apply pdoes_ret. cbn [app].
  apply pdoes_bind. eapply pdoes_user; [apply _..|apply accept_logs; apply _|]. rewrite accepted_job_result.
  apply Z.ltb_lt in Hres, Hsub.
  destruct (acceptance_fails panics j) eqn:Hacc.
  - apply pdoes_bind. eapply (pdoes_count t LRollback); [reflexivity|exact Hc|cbn; by rewrite Hres|].
    intros x Hx. cbn [app]. apply pdoes_bind. apply pdoes_ret. cbn [app]. apply pdoes_bind.
    eapply (pdoes_notify self log t (v_after v (led_add (qv_ledger v) (-1) 0 0 0 0 0) (qv_queue v))).
    { destruct Hv; constructor; cbn in *; first [done|lia]. }
    intros s' Hv' Hs'. destruct (discard_failed_logs log panics j Hacc) as (evs & Hdl & Hcp & Hfl).
    apply pdoes_bind. eapply pdoes_user; [apply _..|exact Hdl|]. apply pdoes_ret. rewrite !app_nil_r. cbn [app].
    split; [done|]. split; [done|]. split; [done|]. split; [|done].
    rewrite filter_app, Hfl, app_nil_r. apply accept_events_visible.
  - apply pdoes_bind.
    apply (pdoes_with_mutex self log t global_queue_l); cbn [get global_queue_l]; rewrite Hq; [done|].
    unfold publish_reserved. apply pdoes_bind.
    eapply (pdoes_count t LPublish); [reflexivity|exact Hc|cbn; by rewrite Hres, Hsub|].
    intros x Hx. apply pdoes_bind. apply pdoes_entry_alloc. cbn zeta. apply pdoes_bind. apply pdoes_push_back.
    apply pdoes_ret. cbn [app]. apply pdoes_bind.
    match goal with |- pdoes _ _ _ _ ?s1 _ => set (s1' := s1) end.
    set (e := fresh (dom (entries (seen_pool s)))).
    set (v' := v_after v (led_add (qv_ledger v) (-1) 1 0 0 0 0) (qv_queue v ++ [(e, (accepted_job panics j).2)])).
    assert (Hv1 : qview_of v' (seen_pool s1')).
    { assert (Hfr : entries (seen_pool s) !! e = None) by (apply not_elem_of_dom; apply is_fresh).
      pose proof (qview_push v (seen_pool s) e (accepted_job panics j).2
        (queued_job_new (accepted_job panics j).2) _ x Hv Hfr eq_refl Hx) as Hp.
      destruct Hp; [cbn; lia|]. constructor; cbn in *; done. }
    apply (pdoes_wake t v'); [exact Hv1|]. intros s2 Hv2 Hs2. apply pdoes_ret. rewrite !app_nil_r.
    split; [done|]. split; [done|]. split; [done|]. by exists e.
Qed.
End queue.
