(* ===== verification/DynQueueList.v ===== *)
(** The queue of a dynamic pool as a list: sequences of publications, takes and
    ticket cancellations. *)
From S2P Require Import Prelude Prog Sync Seq SeqLogic AdmissionGate PoolAccounting.
From S2P Require Import AccountingRefine Types Hooks PoolJob JobLifecycle SeqPool DynState DynInner.
From S2P Require Import DynQueue Concrete.
Local Open Scope Z_scope.
#[local] Arguments bind : simpl never.

(** ** Sequences of queue operations *)
Inductive QueueOp : Type := QPublish (j : JobSpec) | QTake | QCancel (e : nat).

Inductive QueueReply : Type :=
| ReplyPublish (r : Result unit PoolJobSubmissionError)
| ReplyTake (job : option PoolJob)
| ReplyCancel (won : bool).

(** The specification: a list of jobs with distinct identities. *)
Inductive queue_step (panics : Event -> bool) :
    QueueOp -> list (nat * JobSpec) -> QueueReply -> list (nat * JobSpec) -> Prop :=
| publish_accepted j q e :
    acceptance_fails panics j = false -> e ∉ map fst q ->
    queue_step panics (QPublish j) q (ReplyPublish (Ok tt)) (q ++ [(e, j)])
| publish_panicked j q :
    acceptance_fails panics j = true ->
    queue_step panics (QPublish j) q (ReplyPublish (Err AcceptancePanicked)) q
| take_front e j q :
    queue_step panics QTake ((e, j) :: q) (ReplyTake (Some (accepted_job panics j).2)) q
| take_empty : queue_step panics QTake [] (ReplyTake None) []
| cancel_queued e j q1 q2 :
    queue_step panics (QCancel e) (q1 ++ (e, j) :: q2) (ReplyCancel true) (q1 ++ q2)
| cancel_late e q :
    e ∉ map fst q -> queue_step panics (QCancel e) q (ReplyCancel false) q.

Inductive queue_steps (panics : Event -> bool) :
    list QueueOp -> list (nat * JobSpec) -> list QueueReply -> list (nat * JobSpec) -> Prop :=
| steps_done q : queue_steps panics [] q [] q
| steps_next op ops q r q1 rs q2 :
    queue_step panics op q r q1 -> queue_steps panics ops q1 rs q2 ->
    queue_steps panics (op :: ops) q (r :: rs) q2.

(** The code: publication gets its slot as a growing pool gives it. *)
Definition queue_op {S M} `{Monitor M} `{UserCode S} (self : lens S (ThreadPoolInner M)) (op : QueueOp) :
    prog S QueueReply :=
  match op with
  | QPublish j =>
      tp_reserve_worker_handoff_slot self ;;
      r <- accept_and_enqueue_reserved_job self (new_job j) ;; Ret (ReplyPublish r)
  | QTake => job <- try_take_queued_job self ;; Ret (ReplyTake job)
  | QCancel e => won <- cancel_queued_entry self e ;; Ret (ReplyCancel won)
  end.

Fixpoint queue_ops {S M} `{Monitor M} `{UserCode S} (self : lens S (ThreadPoolInner M)) (ops : list QueueOp) :
    prog S (list QueueReply) :=
  match ops with
  | [] => Ret []
  | op :: ops => r <- queue_op self op ;; rs <- queue_ops self ops ;; Ret (r :: rs)
  end.

Section sequences.
Context {S M : Type} `{MonitorLaws M}.
Context (self : lens S (ThreadPoolInner M)) (log : lens S (list Event)).
Context `{!LensLaws self, !LensLaws log, !Apart self log} (panics : Event -> bool).
Implicit Types (v : QView) (t : nat) (q : list (nat * JobSpec)).
Definition sequence_user : UserCode S := queue_user log panics.
#[local] Existing Instance sequence_user.

Definition queue_jobs q : list (nat * PoolJob) := map (fun x => (x.1, (accepted_job panics x.2).2)) q.

(** [n] more jobs can be counted. *)
Definition room_for (n : Z) (a : Ledger) : Prop :=
  led_slots a + n < USIZE_MOD /\ led_submitted a + n < USIZE_MOD /\ 0 <= led_reserved a.

(** A pool that is not stopping, with room for [n] more jobs and queue [q]. *)
Definition queue_at (n : Z) q (p : ThreadPoolInner M) : Prop :=
  exists a st k rest, qview_of (MkQView a (queue_jobs q) st false k rest) p /\ room_for n a.

Lemma queue_jobs_ids q : map fst (queue_jobs q) = map fst q.
Proof. unfold queue_jobs. by rewrite map_map. Qed.

Lemma pdoes_queue_op t op n q s :
  0 <= n -> queue_at (n + 1) q (seen_pool s) ->
  pdoes self log t (queue_op self op) s (fun r s' _ =>
    exists q', queue_step panics op q r q' /\ queue_at n q' (seen_pool s')).
Proof.
  intros Hn (a & st & k & rest & Hv & Hr1 & Hr2 & Hr3). destruct op as [j| |e]; cbn [queue_op]; apply pdoes_bind.
  - assert (Hlt : (led_slots a + 1 <? USIZE_MOD) = true) by lia.
    eapply (pdoes_count self log t LHandoff); [reflexivity|apply (qv_counts _ _ Hv)|cbn; unfold led_reserve; by rewrite Hlt|].
    intros x Hx. apply pdoes_bind. set (s1 := with_pool _ s).
    assert (Hv1 : qview_of (MkQView (led_add a 1 0 0 0 0 0) (queue_jobs q) st false k rest) (seen_pool s1)).
    { destruct Hv. constructor; cbn in *; first [done|lia]. }
    eapply pdoes_mono; [apply (pdoes_accept_and_enqueue self log panics t _ s1 j Hv1); unfold led_submitted in *; cbn in *; lia|].
    intros r s2 evs [_ Hacc]. apply pdoes_ret. cbn in Hacc. rewrite !led_add_add in Hacc.
    destruct (acceptance_fails panics j) eqn:Hf.
    + destruct Hacc as (-> & _ & _ & Hv2). exists q. split; [by constructor|]. rewrite led_add_0 in Hv2.
      exists a, st, k, rest. split; [exact Hv2|]. unfold room_for. lia.
    + destruct Hacc as (-> & _ & e & Hv2). exists (q ++ [(e, j)]). split.
      * constructor; [done|]. pose proof (qv_distinct _ _ Hv2) as Hd. cbn in Hd.
        rewrite map_app, queue_jobs_ids in Hd. apply NoDup_app in Hd as (_ & Hd & _). intros Hin. apply (Hd e Hin). set_solver.
      * eexists _, st, k, rest. unfold queue_jobs. rewrite map_app. split; [exact Hv2|].
        unfold room_for, led_slots, led_submitted in *. cbn. lia.
  - eapply pdoes_mono; [apply (pdoes_try_take self log t _ s Hv)|]. cbn.
    intros r s1 e (_ & _ & Hr). apply pdoes_ret. destruct q as [|[e1 j] q]; cbn in Hr; destruct Hr as [-> Hv1].
    + exists []. split; [constructor|]. exists a, st, k, rest. split; [exact Hv1|]. unfold room_for. lia.
    + exists q. split; [constructor|]. eexists _, st, k, rest. split; [exact Hv1|].
      unfold room_for, led_slots, led_submitted in *. cbn. lia.
  - destruct (decide (e ∈ map fst q)) as [Hin|Hin].
    + apply list_elem_of_fmap in Hin as ([e1 j] & -> & Hin). apply list_elem_of_split in Hin as (q1 & q2 & ->).
      eapply pdoes_mono.
      { apply (pdoes_cancel_entry self log panics t _ s e1 j (queue_jobs q1) (queue_jobs q2) Hv). cbn.
        unfold queue_jobs. by rewrite map_app. }
      intros r s1 evs (-> & _ & _ & entry & Hv1). apply pdoes_ret. exists (q1 ++ q2). split; [constructor|].
      eexists _, st, k, _. unfold queue_jobs. rewrite map_app. split; [exact Hv1|].
      unfold room_for, led_slots, led_submitted in *. cbn. lia.
    + eapply pdoes_mono; [apply (pdoes_cancel_absent self log panics t _ s e Hv); cbn; by rewrite queue_jobs_ids|].
      intros r s1 evs (-> & _ & _ & Hv1). apply pdoes_ret. exists q. split; [by constructor|].
      exists a, st, k, rest. split; [exact Hv1|]. unfold room_for. lia.
Qed.

Lemma pdoes_queue_ops t ops : forall q s,
  queue_at (Z.of_nat (length ops)) q (seen_pool s) ->
  pdoes self log t (queue_ops self ops) s (fun rs s' _ =>
    exists q', queue_steps panics ops q rs q' /\ queue_at 0 q' (seen_pool s')).
Proof.
  induction ops as [|op ops IH]; intros q s Hq; cbn [queue_ops].
  - apply pdoes_ret. exists q. split; [constructor|exact Hq].
  - apply pdoes_bind. eapply pdoes_mono.
    { apply (pdoes_queue_op t op (Z.of_nat (length ops)) q s); [lia|]. cbn [length] in Hq.
      replace (Z.of_nat (length ops) + 1) with (Z.of_nat (Datatypes.S (length ops))) by lia. exact Hq. }
    intros r s1 e (q1 & Hstep & Hq1). apply pdoes_bind. eapply pdoes_mono; [by apply (IH q1)|].
    intros rs s2 e2 (q2 & Hsteps & Hq2). apply pdoes_ret. exists q2. split; [by econstructor|exact Hq2].
Qed.
End sequences.

(** C13. The queue of a dynamic pool is a first-in first-out list of jobs from which
    tickets remove single entries: any sequence of publications, takes by workers
    and ticket cancellations, run from a pool that is not stopping, ends without
    a panic and answers what the abstract list answers. A take yields the oldest
    job left, a cancellation wins exactly when its entry is still queued and keeps
    the order of the others, and no entry is ever handed out twice. *)
Theorem dyn_queue_refines_list {S M} `{Monitor M} (HM : MonitorLaws M)
    (self : lens S (ThreadPoolInner M)) (log : lens S (list Event))
    (HL : LensLaws self) (HLl : LensLaws log) (HA : Apart self log)
    (panics : Event -> bool) (t : nat) (ops : list QueueOp) (q : list (nat * JobSpec)) (w : world S)
    (Hq : queue_at panics (Z.of_nat (length ops)) q (part self w)) :
  exists rs w' q',
    runs t (queue_ops (H0 := recording log panics) self ops) w (Returned rs w') /\
    queue_steps panics ops q rs q' /\ queue_at panics 0 q' (part self w').
Proof.
  destruct (pdoes_queue_ops self log panics t ops q (MkSeen (part self w) (w_spawned w)) Hq w)
    as (rs & w' & s' & e & Hr & [Hp _] & _ & _ & q' & Hs & Hq').
  { by split. }
  exists rs, w', q'. split; [exact Hr|]. split; [exact Hs|]. by rewrite Hp.
Qed.

(** A pool that may grow from one to two workers, with a queue of one. *)
Definition demo_config : ThreadPoolConfig := MkThreadPoolConfig 1 2 (Some 1) "w" None 60 false.
Definition demo_pool : ThreadPoolInner CMon := thread_pool_inner_new demo_config thread_pool_hooks_new.
Definition demo_world : world (ThreadPoolInner CMon * list Event) := World (demo_pool, []) [] [].
Definition demo_view : QView := MkQView (ledger_empty (Some 1)) [] (thread_pool_state_new demo_config) false 0
  (MkRest "w" None thread_pool_hooks_new ∅).

Lemma demo_qview : qview_of demo_view (part fst_l demo_world).
Proof.
  constructor; try done; try constructor; try (vm_compute; repeat split; discriminate || reflexivity).
  intros e job Hin. by apply not_elem_of_nil in Hin.
Qed.

Lemma dyn_queue_refines_list_witness :
  let ops := [QPublish (SpecDetached 1); QPublish (SpecCustom 0 2 3); QPublish (SpecTask 4 5); QTake; QTake; QTake] in
  let panics e := match e with Called 0 => true | _ => false end in
  queue_at panics 6 [] (part fst_l demo_world) /\
  exists rs w' q', runs 0 (queue_ops (H0 := recording snd_l panics) fst_l ops) demo_world (Returned rs w') /\
    queue_steps panics ops [] rs q' /\ queue_at panics 0 q' (part fst_l w').
Proof.
  intros ops panics. assert (Hq : queue_at panics 6 [] (part fst_l demo_world)).
  { exists (ledger_empty (Some 1)), (thread_pool_state_new demo_config), 0, (MkRest "w" None thread_pool_hooks_new ∅). split; [exact demo_qview|].
    vm_compute. repeat split; discriminate || reflexivity. }
  split; [exact Hq|].
  exact (dyn_queue_refines_list _ fst_l snd_l _ _ _ panics 0 ops [] demo_world Hq).
Defined.
