(* ===== verification/DynTicket.v ===== *)
(** Jobs with a ticket in a dynamic pool, run alone: what acceptance does to the
    entry a ticket shares with the queue. *)
From S2P Require Import Prelude Prog Sync Seq SeqLogic AdmissionGate PoolAccounting.
From S2P Require Import AccountingRefine Types Hooks PoolJob JobLifecycle SeqPool SeqView DynState DynInner.
From S2P Require Import DynQueue.
Local Open Scope Z_scope.
#[local] Arguments bind : simpl never.

(** The job [j], and the entry [e] of its ticket if it has one. *)
Definition ticketed (ticket : option nat) (j : JobSpec) : PoolJob := MkPoolJob (job_inner (new_job j)) ticket.

Lemma ticketed_none j : ticketed None j = new_job j.
Proof. by destruct j. Qed.

(** An entry nobody holds, in state [x]. *)
Definition in_state (x : QueuedJobState.t) (entry : QueuedJob) : QueuedJob :=
  MkQueuedJob (MkMutex None x) (entry_changed entry) (entry_pool entry).
Definition rejected (entry : QueuedJob) : QueuedJob :=
  MkQueuedJob (MkMutex None QueuedJobState.Rejected) [] (entry_pool entry).
Definition unheld (entry : QueuedJob) : Prop := mutex_owner (entry_state entry) = None.

Section tickets.
Context {S M : Type} `{MonitorLaws M}.
Context (self : lens S (ThreadPoolInner M)) (log : lens S (list Event)).
Context `{!LensLaws self, !LensLaws log, !Apart self log} (panics : Event -> bool).
Implicit Types (v : QView) (p : ThreadPoolInner M) (t : nat) (e : nat) (entry : QueuedJob).
Definition ticket_user : UserCode S := queue_user log panics.
#[local] Existing Instance ticket_user.
Local Abbreviation Seen := (Seen S (ThreadPoolInner M)).
Implicit Types (s : Seen).

(** *** Operations on one entry *)
Definition with_entry_seen e entry s : Seen :=
  with_pool (set entries_l (<[e := entry]> (entries (seen_pool s))) (seen_pool s)) s.

Lemma with_entry_seen_twice e x y s : with_entry_seen e x (with_entry_seen e y s) = with_entry_seen e x s.
Proof. unfold with_entry_seen, with_pool. cbn. by rewrite insert_insert_eq. Qed.

Lemma entry_seen e entry s : entries (seen_pool (with_entry_seen e entry s)) !! e = Some entry.
Proof. cbn. by rewrite lookup_insert_eq. Qed.

Lemma pdoes_entry_act {B} t e f entry entry' (b : B) s (Post : B -> Seen -> list Event -> Prop) :
  entries (seen_pool s) !! e = Some entry -> f t entry = Some (b, entry') ->
  Post b (with_entry_seen e entry' s) [] ->
  pdoes self log t (entry_act self e f) s Post.
Proof.
  intros He Hf HP. eapply pdoes_part; [apply _..| |exact HP]. intros w [Hw _].
  rewrite <- Hw in *. by eapply (runs_entry_act self).
Qed.

(** Reading changes nothing. *)
Lemma pdoes_entry_get {B} t e (f : QueuedJob -> B) entry s (Post : B -> Seen -> list Event -> Prop) :
  entries (seen_pool s) !! e = Some entry -> Post (f entry) s [] ->
  pdoes self log t (entry_act self e (fun _ j => Some (f j, j))) s Post.
Proof.
  intros He HP. eapply pdoes_entry_act; [exact He|done|].
  replace (with_entry_seen e entry s) with s; [exact HP|].
  destruct s as [[] th]. unfold with_entry_seen, with_pool. cbn in *. by rewrite insert_id.
Qed.

Lemma pdoes_entry_set t e x entry s (Post : unit -> Seen -> list Event -> Prop) :
  entries (seen_pool s) !! e = Some entry -> unheld entry ->
  Post tt (with_entry_seen e (in_state x entry) s) [] ->
  pdoes self log t (entry_set self e x) s Post.
Proof.
  intros He Hu HP. unfold entry_set, unheld in *. apply pdoes_bind.
  eapply pdoes_entry_act; [exact He|by rewrite Hu|]. apply pdoes_bind.
  eapply pdoes_entry_act; [apply entry_seen|done|]. rewrite with_entry_seen_twice.
  eapply pdoes_entry_act; [apply entry_seen|done|]. rewrite with_entry_seen_twice. exact HP.
Qed.

Lemma pdoes_entry_notify t e entry s (Post : unit -> Seen -> list Event -> Prop) :
  entries (seen_pool s) !! e = Some entry ->
  Post tt (with_entry_seen e (MkQueuedJob (entry_state entry) [] (entry_pool entry)) s) [] ->
  pdoes self log t (entry_notify self e) s Post.
Proof. intros He HP. eapply pdoes_entry_act; [exact He|done|exact HP]. Qed.

(** Changing an entry that is not queued. *)
Lemma qview_set_other v p e entry entry' :
  qview_of v p -> qv_others v !! e = Some entry ->
  qview_of (with_others (<[e := entry']> (qv_others v)) v) (set entries_l (<[e := entry']> (entries p)) p).
Proof.
  intros [Hc Hl Hq He Hd Hf Hs Ht Hwk Hpr Hsz Hho Hu] Ho. destruct (Hu _ _ Ho) as [_ Hn]. split; cbn; try done.
  - intros e' job Hin. destruct (He e' job Hin) as (en & He1 & He2). exists en. split; [|done].
    rewrite lookup_insert_ne; [done|]. intros <-. apply Hn. apply list_elem_of_fmap. by exists (e, job).
  - intros e' entry1. unfold qv_others. cbn. rewrite !lookup_insert_Some. intros [[<- <-]|[Hne Hin]].
    + split; [by left|done].
    + destruct (Hu _ _ Hin). split; [by right|done].
Qed.

Lemma others_at v p e entry : qview_of v p -> qv_others v !! e = Some entry -> entries p !! e = Some entry.
Proof. intros Hv Ho. by destruct (qv_unqueued _ _ Hv _ _ Ho). Qed.

(** *** Acceptance of a job with a ticket *)

(** The entry goes from being accepted to being queued, unless a cancellation
    was requested meanwhile. *)
Lemma pdoes_publish_entry t e owner job entry s (Post : bool -> Seen -> list Event -> Prop) :
  entries (seen_pool s) !! e = Some (in_state (QueuedJobState.Accepting owner false) entry) ->
  Post false (with_entry_seen e (in_state (QueuedJobState.Queued job) entry) s) [] ->
  pdoes self log t (
    entry_lock self e ;;
    finally (
      state <- entry_read self e ;;
      match state with
      | QueuedJobState.Accepting _ true =>
          entry_write self e QueuedJobState.Cancelling ;;
          tp_begin_cancel_queued_job self ;;
          Ret true
      | _ => entry_write self e (QueuedJobState.Queued job) ;; Ret false
      end) (entry_unlock self e)) s Post.
Proof.
  intros He HP. apply pdoes_bind. eapply pdoes_entry_act; [exact He|done|]. apply pdoes_finally. apply pdoes_bind.
  eapply pdoes_entry_get; [apply entry_seen|]. cbn [mutex_data entry_state]. apply pdoes_bind.
  eapply pdoes_entry_act; [apply entry_seen|done|]. rewrite with_entry_seen_twice. apply pdoes_ret.
  eapply pdoes_entry_act; [apply entry_seen|done|]. rewrite with_entry_seen_twice. exact HP.
Qed.

(** A failed acceptance: the slot is given back and the ticket told. *)
Lemma pdoes_reject_ticketed t v s j e entry (Post : Result unit PoolJobSubmissionError -> Seen -> list Event -> Prop) :
  qview_of v (seen_pool s) -> qv_others v !! e = Some entry -> unheld entry ->
  0 < led_reserved (qv_ledger v) -> acceptance_fails panics j = true ->
  (forall s' evs,
     concat (map consumes (accept_events j ++ evs)) ≡ₚ pieces j ->
     filter (fun x => is_destructor x = false) evs = [] -> seen_threads s' = seen_threads s ->
     qview_of (with_others (<[e := rejected entry]> (qv_others v))
       (v_after v (led_add (qv_ledger v) (-1) 0 0 0 0 0) (qv_queue v))) (seen_pool s') ->
     Post (Err AcceptancePanicked) s' evs) ->
  pdoes self log t (
    tp_release_queue_slot self ;;
    (entry_set self e QueuedJobState.Rejected ;; entry_notify self e) ;;
    tp_notify_waiters_after_atomic_change self ;;
    discard (accepted_job panics j).2 ;;
    Ret (Err AcceptancePanicked)) s Post.
Proof.
  intros Hv Ho Hu Hres Hacc HP. apply Z.ltb_lt in Hres.
  apply pdoes_bind. eapply (pdoes_count self log t LRollback);
    [reflexivity|apply (qv_counts _ _ Hv)|cbn; by rewrite Hres|].
  intros x Hx. set (s1 := with_pool _ s).
  assert (Hv1 : qview_of (v_after v (led_add (qv_ledger v) (-1) 0 0 0 0 0) (qv_queue v)) (seen_pool s1)).
  { apply qview_ledger; [done|exact Hx|cbn; lia]. }
  assert (He : entries (seen_pool s1) !! e = Some entry) by by eapply others_at.
  apply pdoes_bind, pdoes_bind. eapply pdoes_entry_set; [exact He|exact Hu|].
  eapply pdoes_entry_notify; [apply entry_seen|]. rewrite with_entry_seen_twice. cbn [app].
  apply pdoes_bind. eapply (pdoes_notify self log); [exact (qview_set_other _ _ _ _ (rejected entry) Hv1 Ho)|].
  intros s2 Hv2 Hs2. destruct (discard_failed_logs log panics j Hacc) as (evs & Hdl & Hcp & Hfl).
  apply pdoes_bind. eapply (pdoes_user self log); [exact Hdl|]. apply pdoes_ret. rewrite !app_nil_r. cbn [app].
  apply HP; [exact Hcp|exact Hfl|by rewrite Hs2|exact Hv2].
Qed.

Lemma pdoes_accept_ticketed t v s j e entry :
  qview_of v (seen_pool s) -> qv_others v !! e = Some entry -> unheld entry ->
  0 < led_reserved (qv_ledger v) -> led_submitted (qv_ledger v) + 1 < USIZE_MOD ->
  pdoes self log t (accept_and_enqueue_reserved_job self (ticketed (Some e) j)) s (fun r s' evs =>
    seen_threads s' = seen_threads s /\
    if acceptance_fails panics j then
      r = Err AcceptancePanicked /\ concat (map consumes evs) ≡ₚ pieces j /\
      filter (fun x => is_destructor x = false) evs = accept_events j /\
      qview_of (with_others (<[e := rejected entry]> (qv_others v))
        (v_after v (led_add (qv_ledger v) (-1) 0 0 0 0 0) (qv_queue v))) (seen_pool s')
    else
      r = Ok tt /\ evs = accept_events j /\
      qview_of (with_others (delete e (qv_others v)) (v_after v (led_add (qv_ledger v) (-1) 1 0 0 0 0)
        (qv_queue v ++ [(e, (accepted_job panics j).2)]))) (seen_pool s')).
Proof.
  intros Hv Ho Hu Hres Hsub. unfold accept_and_enqueue_reserved_job.
  change (take_queue_entry (ticketed (Some e) j)) with (Some e, ticketed None j). cbn beta iota. rewrite ticketed_none.
  set (v1 := with_others (<[e := in_state (QueuedJobState.Accepting t false) entry]> (qv_others v)) v).
  apply pdoes_bind, pdoes_bind, pdoes_current_thread. eapply pdoes_entry_set; [by eapply others_at|exact Hu|].
  set (s1 := with_entry_seen e _ s). cbn [app].
  assert (Hv1 : qview_of v1 (seen_pool s1)) by by apply (qview_set_other v _ e entry).
  assert (Ho1 : qv_others v1 !! e = Some (in_state (QueuedJobState.Accepting t false) entry))
    by by apply lookup_insert_eq.
  apply pdoes_bind. eapply (pdoes_user self log); [apply accept_logs; apply _|]. rewrite accepted_job_result.
  destruct (acceptance_fails panics j) eqn:Hacc.
  - eapply (pdoes_reject_ticketed t v1); [exact Hv1|exact Ho1|done|exact Hres|exact Hacc|].
    intros s2 evs Hc Hf Hs2 Hv2. cbn [app]. split; [by rewrite Hs2|]. split; [done|]. split; [exact Hc|].
    split; [rewrite filter_app, Hf, app_nil_r; apply accept_events_visible|].
    revert Hv2. unfold v1, with_others, qv_others. cbn. by rewrite insert_insert_eq.
  - apply pdoes_bind. apply (pdoes_with_mutex self log t global_queue_l); cbn [get global_queue_l];
      rewrite (qv_list _ _ Hv1); [done|].
    unfold publish_reserved. apply pdoes_bind. apply Z.ltb_lt in Hres, Hsub.
    eapply (pdoes_count self log t LPublish); [reflexivity|apply (qv_counts _ _ Hv1)|cbn; by rewrite Hres, Hsub|].
    intros x Hx. rewrite <- bind_assoc. apply pdoes_bind. eapply pdoes_publish_entry.
    { cbn. apply (others_at v1 _ e _ Hv1 Ho1). }
    apply pdoes_bind. apply (pdoes_push_back self log). apply pdoes_ret. cbn [app].
    match goal with |- pdoes _ _ _ _ ?s2 _ => set (s2' := s2) end.
    set (v2 := with_others (delete e (qv_others v)) (v_after v (led_add (qv_ledger v) (-1) 1 0 0 0 0)
      (qv_queue v ++ [(e, (accepted_job panics j).2)]))).
    assert (Hv2 : qview_of v2 (seen_pool s2')).
    { destruct (qv_unqueued _ _ Hv1 _ _ Ho1) as [_ Hn].
      pose proof (qview_enqueue self log v1 (seen_pool s1) e (accepted_job panics j).2
        (in_state (QueuedJobState.Queued (accepted_job panics j).2) entry) _ x Hv1 Hn eq_refl Hx) as Hp.
      assert (Hd : delete e (qv_others v1) = delete e (qv_others v)) by apply delete_insert_eq. rewrite Hd in Hp.
      destruct Hp; [cbn; lia|]. constructor; cbn in *; done. }
    apply pdoes_bind. eapply (pdoes_wake self log); [exact Hv2|]. intros s3 Hv3 Hs3. apply pdoes_ret.
    rewrite !app_nil_r. split; [by rewrite Hs3|]. split; [done|]. split; [done|exact Hv3].
Qed.
End tickets.
