(* ===== verification/DynAdmission.v ===== *)
(** Admission to a dynamic pool, run alone: the decision taken under the state
    lock, and the whole of [submit]. *)
From S2P Require Import Prelude Prog Sync Seq SeqLogic AdmissionGate PoolAccounting.
From S2P Require Import AccountingRefine Types Hooks PoolJob JobLifecycle SeqPool SeqView Builder.
From S2P Require Import DynState DynInner DynWorker DynSubmit DynQueue DynQueueList DynTicket Concrete.
Local Open Scope Z_scope.
#[local] Arguments bind : simpl never.

(** ** The admission rule *)
Inductive Admission : Type :=
| Refuse (error : SubmissionError)
| Enqueue
| Grow.

(** Core workers first, then the queue, then workers up to the maximum; a pool
    without workers always grows. *)
Definition admission_rule (st : ThreadPoolState) (a : Ledger) : Admission :=
  if negb (bool_decide (lifecycle st = Lifecycle.Running)) then Refuse Shutdown
  else if (live_workers st <? core_pool_size st) || (live_workers st =? 0) then Grow
  else if negb (saturated a) then Enqueue
  else if live_workers st <? maximum_pool_size st then Grow
  else Refuse Saturated.

(** The state after a worker was started, or could not be. *)
Definition grown (st : ThreadPoolState) : ThreadPoolState :=
  set next_worker_index_l (next_worker_index st + 1) (set live_workers_l (live_workers st + 1) st).
Definition not_grown (st : ThreadPoolState) : ThreadPoolState :=
  set next_worker_index_l (next_worker_index st + 1) st.

Section admission.
Context {S M : Type} `{MonitorLaws M}.
Context (self : lens S (ThreadPoolInner M)) (log : lens S (list Event)).
Context `{!LensLaws self, !LensLaws log, !Apart self log} (panics : Event -> bool).
Implicit Types (w : world S) (v : QView) (p : ThreadPoolInner M) (t : nat).
Definition admission_user : UserCode S := queue_user log panics.
#[local] Existing Instance admission_user.
Local Abbreviation Seen := (Seen S (ThreadPoolInner M)).
Implicit Types (s : Seen).

(** The thread of worker [index]. *)
Definition dyn_worker_thread v (index : Z) : string * option Z * prog S unit :=
  (worker_thread_name (rest_prefix (qv_rest v)) index, rest_stack (qv_rest v), thread_pool_worker_run self index).

(** One more worker. *)
Definition with_new_worker v : QView :=
  with_workers (qv_workers v + 1) (with_state (grown (qv_state v)) v).

(** The machine words have room for [n] more workers, for one more job. *)
Definition worker_room (n : Z) v : Prop :=
  0 <= live_workers (qv_state v) /\ live_workers (qv_state v) + n < USIZE_MOD /\
  next_worker_index (qv_state v) + n < USIZE_MOD /\
  0 <= qv_workers v /\ qv_workers v + n < USIZE_MOD.
Definition dyn_room v : Prop :=
  led_slots (qv_ledger v) + 1 < USIZE_MOD /\ led_submitted (qv_ledger v) + 1 < USIZE_MOD /\
  0 <= led_reserved (qv_ledger v) /\ worker_room 1 v.

Lemma pdoes_handoff t v s (Post : unit -> Seen -> list Event -> Prop) :
  held t v s -> led_slots (qv_ledger v) + 1 < USIZE_MOD ->
  (forall s', held t (with_ledger (led_add (qv_ledger v) 1 0 0 0 0 0) v) s' -> seen_threads s' = seen_threads s ->
     Post tt s' []) ->
  pdoes self log t (tp_reserve_worker_handoff_slot self) s Post.
Proof.
  intros Hv Hroom HP. apply Z.ltb_lt in Hroom.
  eapply (pdoes_count self log t LHandoff); [reflexivity|by eapply held_counts| |].
  { cbn. unfold led_reserve. by rewrite Hroom. }
  intros x Hx. apply HP; [|done]. apply held_ledger; [done|done|cbn; lia].
Qed.

Lemma pdoes_queue_slot t v s (Post : bool -> Seen -> list Event -> Prop) :
  held t v s -> led_slots (qv_ledger v) + 1 < USIZE_MOD ->
  (forall s', seen_threads s' = seen_threads s ->
     (if saturated (qv_ledger v) then held t v s'
      else held t (with_ledger (led_add (qv_ledger v) 1 0 0 0 0 0) v) s') ->
     Post (negb (saturated (qv_ledger v))) s' []) ->
  pdoes self log t (tp_reserve_queue_slot self) s Post.
Proof.
  intros Hv Hroom HP.
  eapply (pdoes_held_ledger self log t LReserve _ ReplyBool);
    [reflexivity|by intros ? ? [=]|exact Hv|by apply led_step_reserve| |].
  - cbn. destruct (saturated (qv_ledger v)); cbn; lia.
  - intros s1 Hv1 Hs1. apply HP; [exact Hs1|]. cbn in Hv1. destruct (saturated (qv_ledger v)); [|exact Hv1].
    by destruct v.
Qed.

(** The decisions taken under the monitor: nothing left to do, and terminated. *)
Definition terminated v : bool :=
  negb (bool_decide (lifecycle (qv_state v) = Lifecycle.Running)) &&
  (live_workers (qv_state v) =? 0) && (exiting_workers (qv_state v) =? 0) && led_idle (qv_ledger v).

Lemma pdoes_held_terminated t v s (Post : bool -> Seen -> list Event -> Prop) :
  held t v s ->
  (forall s', held t v s' -> seen_threads s' = seen_threads s -> Post (terminated v) s' []) ->
  pdoes self log t (tp_is_terminated_locked self) s Post.
Proof.
  intros Hv. unfold tp_is_terminated_locked, terminated.
  do 3 (intros HP; apply pdoes_bind; eapply (pdoes_locked_read self log); [exact Hv|]; cbn [pv_state dyn_view];
    match goal with |- pdoes _ _ _ (if ?b then _ else _) _ _ => destruct b end;
    [cbn [andb app] in *; revert HP|apply pdoes_ret; by apply HP]).
  cbn [andb]. by apply (pdoes_held_idle self log).
Qed.

(** Waking waiters after a change, still holding the monitor. *)
Lemma pdoes_notify_held t v s (Post : unit -> Seen -> list Event -> Prop) :
  held t v s ->
  (forall s', held t v s' -> seen_threads s' = seen_threads s -> Post tt s' []) ->
  pdoes self log t (notify_if_idle_or_terminated self) s Post.
Proof.
  intros Hv HP. apply pdoes_bind. unfold orp. apply pdoes_bind. eapply (pdoes_held_idle self log); [exact Hv|].
  intros s1 Hv1 Hs1. cbn [app pv_ledger dyn_view]. destruct (led_idle (qv_ledger v)).
  - apply pdoes_ret. eapply (pdoes_held_when self log); [exact Hv1|]. intros s2 Hv2 Hs2. apply HP; [done|congruence].
  - eapply pdoes_held_terminated; [exact Hv1|]. intros s2 Hv2 Hs2.
    eapply (pdoes_held_when self log); [exact Hv2|]. intros s3 Hv3 Hs3. apply HP; [done|congruence].
Qed.

Lemma pdoes_notify_terminated t v s (Post : unit -> Seen -> list Event -> Prop) :
  held t v s ->
  (forall s', held t v s' -> seen_threads s' = seen_threads s -> Post tt s' []) ->
  pdoes self log t (notify_if_terminated self) s Post.
Proof.
  intros Hv HP. apply pdoes_bind. eapply pdoes_held_terminated; [exact Hv|]. intros s1 Hv1 Hs1.
  eapply (pdoes_held_when self log); [exact Hv1|]. intros s2 Hv2 Hs2. apply HP; [done|congruence].
Qed.

(** Starting one worker, as far as the operating system lets it. *)
Lemma pdoes_start_worker t v s (Post : Result unit SubmissionError -> Seen -> list Event -> Prop) :
  held t v s -> worker_room 1 v ->
  (forall s', held t (with_new_worker v) s' ->
     seen_threads s' = seen_threads s ++ [dyn_worker_thread v (next_worker_index (qv_state v))] ->
     Post (Ok tt) s' []) ->
  (forall s', held t (with_state (not_grown (qv_state v)) v) s' -> seen_threads s' = seen_threads s ->
     Post (Err WorkerSpawnFailed) s' []) ->
  pdoes self log t (worker <- reserve_worker_locked self ;; spawn_reserved_worker_locked self worker) s Post.
Proof.
  intros Hv (Hr0 & Hr2 & Hr3 & Hr4 & Hr5) HOk HErr. unfold reserve_worker_locked.
  apply pdoes_bind. apply pdoes_bind. eapply (pdoes_locked_load self log); [exact Hv|].
  apply pdoes_bind. eapply (pdoes_locked_incr self log); [exact Hv|exact Hr3|]. intros s1 Hv1 Hs1.
  apply pdoes_bind. eapply (pdoes_locked_incr self log); [exact Hv1|exact Hr2|]. intros s2 Hv2 Hs2.
  destruct (held_view _ _ _ Hv2) as (x & Hx).
  pose proof (qv_prefix _ _ Hx) as Hpre. pose proof (qv_stack _ _ Hx) as Hstk. pose proof (qv_live_count _ _ Hx) as Hn.
  cbn in Hpre, Hstk, Hn. clear x Hx.
  apply pdoes_ret. cbn [app]. unfold spawn_reserved_worker_locked.
  apply pdoes_bind. apply (pdoes_read self log t thread_name_prefix).
  apply pdoes_bind. apply (pdoes_read self log t stack_size).
  apply pdoes_bind. apply pdoes_thread_spawn; cbn [app].
  - apply pdoes_bind. eapply (pdoes_locked_decr self log); [exact Hv2|cbn; lia|]. intros s3 Hv3 Hs3.
    apply pdoes_bind. eapply pdoes_notify_held; [exact Hv3|]. intros s4 Hv4 Hs4.
    apply pdoes_ret. cbn [app]. apply HErr; [|congruence].
    replace (with_state (not_grown (qv_state v)) v) with (pv_with_state (PoolView := dyn_view) (M := M)
      (set live_workers_l (live_workers (qv_state v) + 1 - 1) (grown (qv_state v))) v); [exact Hv4|].
    unfold grown, not_grown. cbn. by rewrite Z.add_simpl_r.
  - intros h. apply pdoes_bind. apply (pdoes_fetch_add self log t live_worker_count_l).
    apply pdoes_ret. cbn [app].
    match goal with |- Post _ ?s3 _ => set (s3' := s3) end.
    assert (Hv3 : held t (with_new_worker v) s3').
    { destruct Hv2 as [Ho Hv2]. split; [exact Ho|]. intros y Hy.
      destruct (Hv2 y Hy). constructor; cbn in *; try done. rewrite Hn. apply wrap_small. split; lia. }
    apply HOk; [exact Hv3|]. unfold s3', dyn_worker_thread. cbn. by rewrite Hpre, Hstk, Hs2, Hs1.
Qed.

Lemma pdoes_grow t v s (Post : Result unit PoolJobSubmissionError -> Seen -> list Event -> Prop) :
  held t v s -> dyn_room v ->
  (forall s', held t (with_ledger (led_add (qv_ledger v) 1 0 0 0 0 0) (with_new_worker v)) s' ->
     seen_threads s' = seen_threads s ++ [dyn_worker_thread v (next_worker_index (qv_state v))] ->
     Post (Ok tt) s' []) ->
  (forall s', held t (with_state (not_grown (qv_state v)) v) s' -> seen_threads s' = seen_threads s ->
     Post (Err (Rejected WorkerSpawnFailed)) s' []) ->
  pdoes self log t (grow self) s Post.
Proof.
  intros Hv (Hr1 & _ & _ & Hroom) HOk HErr. unfold grow. rewrite <- bind_assoc.
  apply pdoes_bind. eapply pdoes_start_worker; [exact Hv|exact Hroom|..]; intros s1 Hv1 Hs1.
  - apply pdoes_bind. eapply pdoes_handoff; [exact Hv1|exact Hr1|]. intros s2 Hv2 Hs2. apply pdoes_ret.
    apply HOk; [exact Hv2|by rewrite Hs2].
  - apply pdoes_ret. by apply HErr.
Qed.

(** What the reservation may end in, from view [v] and pool [s]. *)
Definition reserved v s (r : Result unit PoolJobSubmissionError) s' : Prop :=
  match admission_rule (qv_state v) (qv_ledger v) with
  | Refuse error =>
      r = Err (Rejected error) /\ qview_of v (seen_pool s') /\ seen_threads s' = seen_threads s
  | Enqueue =>
      r = Ok tt /\ qview_of (with_ledger (led_add (qv_ledger v) 1 0 0 0 0 0) v) (seen_pool s') /\
      seen_threads s' = seen_threads s
  | Grow =>
      (r = Ok tt /\
       qview_of (with_ledger (led_add (qv_ledger v) 1 0 0 0 0 0) (with_new_worker v)) (seen_pool s') /\
       seen_threads s' = seen_threads s ++ [dyn_worker_thread v (next_worker_index (qv_state v))]) \/
      (r = Err (Rejected WorkerSpawnFailed) /\
       qview_of (with_state (not_grown (qv_state v)) v) (seen_pool s') /\ seen_threads s' = seen_threads s)
  end.

Lemma pdoes_reserve_submission t v s :
  qview_of v (seen_pool s) -> dyn_room v ->
  pdoes self log t (reserve_submission_with_state_lock self) s (fun r s' e => e = [] /\ reserved v s r s').
Proof.
  intros Hv Hroom. unfold reserve_submission_with_state_lock. apply (pdoes_held self log t _ v); [exact Hv|].
  intros s1 Hv1 Hs1.
  assert (Hgrow : forall s0, held t v s0 -> seen_threads s0 = seen_threads s1 ->
    admission_rule (qv_state v) (qv_ledger v) = Grow ->
    pdoes self log t (grow self) s0 (fun r s2 e => exists v2, held t v2 s2 /\
       forall s3, qview_of v2 (seen_pool s3) -> seen_threads s3 = seen_threads s2 -> e = [] /\ reserved v s r s3)).
  { intros s0 Hv0 Hs0 Hrule. apply (pdoes_grow t v); [exact Hv0|exact Hroom| |].
    - intros s2 Hv2 Hs2. eexists. split; [exact Hv2|]. intros s3 Hv3 Hs3. split; [done|].
      unfold reserved. rewrite Hrule. left. split; [done|]. split; [exact Hv3|].
      congruence.
    - intros s2 Hv2 Hs2. eexists. split; [exact Hv2|]. intros s3 Hv3 Hs3. split; [done|].
      unfold reserved. rewrite Hrule. right. split; [done|]. split; [exact Hv3|]. congruence. }
  assert (Hstop : forall r v2 s0, held t v2 s0 -> seen_threads s0 = seen_threads s1 ->
    (forall s3, qview_of v2 (seen_pool s3) -> seen_threads s3 = seen_threads s -> reserved v s r s3) ->
    pdoes self log t (Ret r) s0 (fun r s2 e => exists v2, held t v2 s2 /\
       forall s3, qview_of v2 (seen_pool s3) -> seen_threads s3 = seen_threads s2 -> e = [] /\ reserved v s r s3)).
  { intros r v2 s0 Hv2 Hs0 HP. apply pdoes_ret. exists v2. split; [exact Hv2|]. intros s3 Hv3 Hs3.
    split; [done|]. apply HP; [exact Hv3|congruence]. }
  unfold reserved, admission_rule in *.
  apply pdoes_bind. eapply (pdoes_locked_load self log); [exact Hv1|]. cbn [get lifecycle_l pv_state dyn_view].
  destruct (negb (bool_decide (lifecycle (qv_state v) = Lifecycle.Running))).
  { eapply Hstop; [exact Hv1|done|]. done. }
  apply pdoes_bind. eapply (pdoes_locked_read self log); [exact Hv1|]. cbn [pv_state dyn_view].
  destruct (live_workers (qv_state v) <? core_pool_size (qv_state v)); cbn [orb] in *; [by apply Hgrow|].
  apply pdoes_bind. eapply (pdoes_locked_read self log); [exact Hv1|]. cbn [pv_state dyn_view].
  destruct (live_workers (qv_state v) =? 0); [by apply Hgrow|].
  apply pdoes_bind. apply (pdoes_queue_slot t v); [exact Hv1|apply Hroom|]. intros s2 Hs2 Hv2.
  destruct (saturated (qv_ledger v)); cbn [negb] in *; [|eapply Hstop; [exact Hv2|exact Hs2|done]].
  apply pdoes_bind. eapply (pdoes_locked_read self log); [exact Hv2|]. cbn [pv_state dyn_view].
  destruct (live_workers (qv_state v) <? maximum_pool_size (qv_state v)).
  - by apply Hgrow.
  - eapply Hstop; [exact Hv2|exact Hs2|done].
Qed.

(** ** The whole of [submit] *)
Definition set_gate (g : GateSpec) v : QView := with_ledger (led_set_gate (qv_ledger v) g) v.
Definition qv_gate v : GateSpec := led_gate (qv_ledger v).

(** A ticket made by this pool and not submitted yet. *)
Definition ticket_ok v (ticket : option nat) : Prop :=
  match ticket with
  | Some e => exists entry, qv_others v !! e = Some entry /\ unheld entry /\ belongs_to_pool entry = true
  | None => True
  end.

(** What becomes of its entry when acceptance panics, and when it succeeds. *)
Definition ticket_rejected (ticket : option nat) v : QView :=
  match ticket with Some e => with_others (alter rejected e (qv_others v)) v | None => v end.
Definition ticket_queued (ticket : option nat) v : QView :=
  match ticket with Some e => with_others (delete e (qv_others v)) v | None => v end.

(** The job holds a slot in view [v]: acceptance decides. *)
Definition accepted v (ticket : option nat) (j : JobSpec) (r : Result unit PoolJobSubmissionError) s' (evs : list Event) : Prop :=
  if acceptance_fails panics j then
    r = Err AcceptancePanicked /\ concat (map consumes evs) ≡ₚ pieces j /\
    filter (fun e => is_destructor e = false) evs = accept_events j /\
    qview_of (ticket_rejected ticket v) (seen_pool s')
  else
    r = Ok tt /\ evs = accept_events j /\
    exists e, (ticket = None \/ ticket = Some e) /\
      qview_of (ticket_queued ticket (v_after v (led_add (qv_ledger v) 0 1 0 0 0 0)
        (qv_queue v ++ [(e, (accepted_job panics j).2)]))) (seen_pool s').

Definition refused v (j : JobSpec) (error : SubmissionError)
    (r : Result unit PoolJobSubmissionError) s' (evs : list Event) : Prop :=
  r = Err (Rejected error) /\ discarded j evs /\ qview_of v (seen_pool s').

Definition submitted v s (ticket : option nat) (j : JobSpec) (r : Result unit PoolJobSubmissionError) s' (evs : list Event) : Prop :=
  match (if spec_open (qv_gate v) then admission_rule (qv_state v) (qv_ledger v) else Refuse Shutdown) with
  | Refuse error => refused v j error r s' evs /\ seen_threads s' = seen_threads s
  | Enqueue => accepted v ticket j r s' evs /\ seen_threads s' = seen_threads s
  | Grow =>
      (accepted (with_new_worker v) ticket j r s' evs /\
       seen_threads s' = seen_threads s ++ [dyn_worker_thread v (next_worker_index (qv_state v))]) \/
      (refused (with_state (not_grown (qv_state v)) v) j WorkerSpawnFailed r s' evs /\
       seen_threads s' = seen_threads s)
  end.

Lemma pdoes_accept t v s ticket j (Post : Result unit PoolJobSubmissionError -> Seen -> list Event -> Prop) :
  qview_of (with_ledger (led_add (qv_ledger v) 1 0 0 0 0 0) v) (seen_pool s) -> ticket_ok v ticket ->
  led_submitted (qv_ledger v) + 1 < USIZE_MOD -> 0 <= led_reserved (qv_ledger v) ->
  (forall r s' evs, accepted v ticket j r s' evs -> seen_threads s' = seen_threads s -> Post r s' evs) ->
  pdoes self log t (accept_and_enqueue_reserved_job self (ticketed ticket j)) s Post.
Proof.
  intros Hv Ht Hsub Hres HP. unfold led_submitted in Hsub. destruct ticket as [e|].
  - destruct Ht as (entry & Ho & Hu & _). eapply pdoes_mono.
    { eapply (pdoes_accept_ticketed self log panics t _ s j e entry Hv Ho Hu); unfold led_submitted; cbn; lia. }
    intros r s' evs [Hs' Ha]. apply HP; [|exact Hs']. unfold accepted, v_after in *. cbn in Ha.
    rewrite !led_add_add in Ha. destruct (acceptance_fails panics j).
    + destruct Ha as (-> & Hc & Hf & Hv'). rewrite led_add_0 in Hv'. do 3 (split; [done|]). cbn.
      replace (alter rejected e (qv_others v)) with (<[e:=rejected entry]> (qv_others v)); [by destruct v|].
      rewrite <- (insert_id _ _ _ Ho) at 2. by rewrite alter_insert_eq.
    + destruct Ha as (-> & -> & Hv'). do 2 (split; [done|]). exists e. split; [by right|exact Hv'].
  - rewrite ticketed_none. eapply pdoes_mono.
    { apply (pdoes_accept_and_enqueue self log panics t _ s j Hv); unfold led_submitted; cbn; lia. }
    intros r s' evs [Hs' Ha]. apply HP; [|exact Hs']. unfold accepted, v_after in *. cbn in Ha.
    rewrite !led_add_add in Ha. destruct (acceptance_fails panics j).
    + destruct Ha as (-> & Hc & Hf & Hv'). rewrite led_add_0 in Hv'. do 3 (split; [done|]). by destruct v.
    + destruct Ha as (-> & -> & e & Hv'). do 2 (split; [done|]). exists e. split; [by left|exact Hv'].
Qed.

Lemma pdoes_discard t s ticket j (Post : unit -> Seen -> list Event -> Prop) :
  (forall evs, discarded j evs -> Post tt s evs) -> pdoes self log t (discard (ticketed ticket j)) s Post.
Proof.
  change (discard (ticketed ticket j)) with (discard (S := S) (new_job j)).
  intros HP. destruct (discard_logs log panics j) as (evs & Hd & Hde).
  eapply pdoes_user; [apply _..|exact Hd|by apply HP].
Qed.

Lemma pdoes_submit_locked t v s ticket j :
  qview_of v (seen_pool s) -> ticket_ok v ticket -> dyn_room v -> spec_open (qv_gate v) = true ->
  pdoes self log t (submit_with_state_lock self (ticketed ticket j)) s
    (fun r s' evs => submitted v s ticket j r s' evs).
Proof.
  intros Hv Hticket Hroom Hopen. unfold submit_with_state_lock, submitted. rewrite Hopen. apply pdoes_bind.
  eapply pdoes_mono; [by apply pdoes_reserve_submission|]. intros r s1 e [-> Hr]. unfold reserved in Hr. cbn [app].
  destruct (admission_rule (qv_state v) (qv_ledger v)).
  - destruct Hr as (-> & Hv1 & Hs1). apply pdoes_bind. apply pdoes_discard. intros evs Hd.
    apply pdoes_ret. rewrite app_nil_r. by split.
  - destruct Hr as (-> & Hv1 & Hs1).
    apply (pdoes_accept t v); [exact Hv1|exact Hticket|apply Hroom..|]. intros r s' evs Ha Hs'. split; [done|congruence].
  - destruct Hr as [(-> & Hv1 & Hs1)|(-> & Hv1 & Hs1)].
    + apply (pdoes_accept t (with_new_worker v)); [exact Hv1|exact Hticket|apply Hroom..|].
      intros r s' evs Ha Hs'. left. split; [done|congruence].
    + apply pdoes_bind. apply pdoes_discard. intros evs Hd. apply pdoes_ret. rewrite app_nil_r. right. by split.
Qed.

(** Entering and leaving the gate. *)
Lemma pdoes_enter t v s (Post : Result unit SubmissionError -> Seen -> list Event -> Prop) :
  qview_of v (seen_pool s) -> 0 <= spec_inflight (qv_gate v) < COUNT_MASK ->
  (forall s', seen_threads s' = seen_threads s ->
     if spec_open (qv_gate v)
     then qview_of (set_gate (MkGateSpec true (spec_inflight (qv_gate v) + 1)) v) (seen_pool s') -> Post (Ok tt) s' []
     else qview_of v (seen_pool s') -> Post (Err Shutdown) s' []) ->
  pdoes self log t (tp_begin_submit self) s Post.
Proof.
  intros Hv Hn HP. apply pdoes_bind. eapply (pdoes_try_enter self log); [exact Hv|exact Hn|].
  intros s1 Hs1. specialize (HP s1 Hs1). unfold qv_gate in HP. cbn [pv_ledger dyn_view].
  destruct (spec_open (led_gate (qv_ledger v))); intros Hv1; apply pdoes_ret; by apply HP.
Qed.

Lemma pdoes_guard_drop t v s n (Post : unit -> Seen -> list Event -> Prop) :
  qview_of v (seen_pool s) -> qv_gate v = MkGateSpec true (n + 1) -> 0 <= n ->
  (forall s', qview_of (set_gate (MkGateSpec true n) v) (seen_pool s') -> seen_threads s' = seen_threads s ->
     Post tt s' []) ->
  pdoes self log t (tp_submit_guard_drop self) s Post.
Proof.
  intros Hv Hg Hn HP. apply pdoes_bind. eapply (pdoes_leave self log); [exact Hv|exact Hg|exact Hn|].
  intros last s1 Hv1 Hs1. cbn [app].
  assert (Hend : forall b, pdoes self log t (when b (tp_notify_waiters_after_atomic_change self)) s1 Post).
  { intros b. eapply (pdoes_notify_when self log); [exact Hv1|]. intros s2 Hv2 Hs2. apply HP; [exact Hv2|congruence]. }
  destruct last; cbn [when]; [|apply pdoes_ret; by apply HP].
  unfold tp_notify_submitter_departure, orp. do 3 apply pdoes_bind. apply (pdoes_is_open self log). intros b.
  apply pdoes_ret. cbn [app]. destruct (negb b).
  - apply pdoes_ret. cbn [app]. apply Hend.
  - unfold tp_has_idle_waiters. apply pdoes_bind. apply pdoes_load. apply pdoes_ret. cbn [app]. apply Hend.
Qed.

Lemma set_gate_back v g : set_gate (qv_gate v) (set_gate g v) = v.
Proof. destruct v as [[]]. reflexivity. Qed.

(** The outcome seen inside the gate, after leaving it. *)
Lemma submitted_leave v s s1 ticket j r s2 evs n :
  qv_gate v = MkGateSpec true n ->
  seen_threads s1 = seen_threads s ->
  submitted (set_gate (MkGateSpec true (n + 1)) v) s1 ticket j r s2 evs ->
  exists v2, qview_of v2 (seen_pool s2) /\ qv_gate v2 = MkGateSpec true (n + 1) /\
    forall s3, qview_of (set_gate (MkGateSpec true n) v2) (seen_pool s3) -> seen_threads s3 = seen_threads s2 ->
      submitted v s ticket j r s3 evs.
Proof.
  destruct v as [[g cap a1 a2 a3 a4 a5 a6] q st stop k rest]. unfold qv_gate. cbn [qv_ledger led_gate]. intros ->.
  intros Hth. unfold submitted. cbn [qv_gate set_gate with_ledger led_set_gate qv_ledger led_gate spec_open qv_state].
  change (admission_rule st (MkLedger (MkGateSpec true (n + 1)) cap a1 a2 a3 a4 a5 a6))
    with (admission_rule st (MkLedger (MkGateSpec true n) cap a1 a2 a3 a4 a5 a6)).
  set (v := MkQView (MkLedger (MkGateSpec true n) cap a1 a2 a3 a4 a5 a6) q st stop k rest).
  assert (Hacc : forall u, qv_gate u = MkGateSpec true n ->
    accepted (set_gate (MkGateSpec true (n + 1)) u) ticket j r s2 evs ->
    exists v2, qview_of v2 (seen_pool s2) /\ qv_gate v2 = MkGateSpec true (n + 1) /\
      forall s3, qview_of (set_gate (MkGateSpec true n) v2) (seen_pool s3) -> accepted u ticket j r s3 evs).
  { intros u Hw. destruct u as [[] ? ? ? ? []]. unfold qv_gate in Hw. cbn in Hw. subst.
    unfold accepted. destruct (acceptance_fails panics j).
    - intros (-> & Hc & Hf & Hv2). eexists. split; [exact Hv2|]. split; [by destruct ticket|]. intros s3 Hv3.
      do 3 (split; [done|]). by destruct ticket.
    - intros (-> & -> & e & He & Hv2). eexists. split; [exact Hv2|]. split; [by destruct ticket|]. intros s3 Hv3.
      do 2 (split; [done|]). exists e. split; [exact He|]. by destruct ticket. }
  assert (Href : forall u e, qv_gate u = MkGateSpec true n ->
    refused (set_gate (MkGateSpec true (n + 1)) u) j e r s2 evs ->
    exists v2, qview_of v2 (seen_pool s2) /\ qv_gate v2 = MkGateSpec true (n + 1) /\
      forall s3, qview_of (set_gate (MkGateSpec true n) v2) (seen_pool s3) -> refused u j e r s3 evs).
  { intros u e Hw (-> & Hd & Hv2). eexists. split; [exact Hv2|]. split; [done|]. intros s3 Hv3.
    rewrite <- Hw, set_gate_back in Hv3. done. }
  destruct (admission_rule _ _) as [e| |].
  - intros [Hr Ht]. destruct (Href v e eq_refl Hr) as (v2 & H1 & H2 & H3). exists v2. split; [done|]. split; [done|].
    intros s3 Hv3 Hs3. split; [by apply H3|congruence].
  - intros [Hr Ht]. destruct (Hacc v eq_refl Hr) as (v2 & H1 & H2 & H3). exists v2. split; [done|]. split; [done|].
    intros s3 Hv3 Hs3. split; [by apply H3|congruence].
  - intros [[Hr Ht]|[Hr Ht]].
    + destruct (Hacc (with_new_worker v) eq_refl Hr) as (v2 & H1 & H2 & H3). exists v2.
      split; [done|]. split; [done|]. intros s3 Hv3 Hs3. left. split; [by apply H3|by rewrite Hs3, Ht, Hth].
    + destruct (Href (with_state (not_grown st) v) _ eq_refl Hr) as (v2 & H1 & H2 & H3). exists v2.
      split; [done|]. split; [done|]. intros s3 Hv3 Hs3. right. split; [by apply H3|congruence].
Qed.

Lemma pdoes_assert_pool t v s ticket j (Post : unit -> Seen -> list Event -> Prop) :
  qview_of v (seen_pool s) -> ticket_ok v ticket -> Post tt s [] ->
  pdoes self log t (assert_pool self (ticketed ticket j)) s Post.
Proof.
  intros Hv Ht HP. unfold assert_pool. cbn [ticketed job_queued]. destruct ticket as [e|]; [|by apply pdoes_ret].
  destruct Ht as (entry & Ho & _ & Hb). apply pdoes_bind.
  eapply (pdoes_entry_get self log); [by eapply others_at|]. rewrite Hb. by apply pdoes_ret.
Qed.

Lemma pdoes_submit t v s ticket j :
  qview_of v (seen_pool s) -> ticket_ok v ticket -> dyn_room v -> 0 <= spec_inflight (qv_gate v) < COUNT_MASK ->
  pdoes self log t (tp_submit self (ticketed ticket j)) s (fun r s' evs => submitted v s ticket j r s' evs).
Proof.
  intros Hv Hticket Hroom Hn. unfold tp_submit.
  apply pdoes_bind. apply pdoes_on_unwind; try apply _. eapply pdoes_assert_pool; [exact Hv|exact Hticket|].
  cbn [app]. apply pdoes_bind. apply (pdoes_enter t v); [done..|].
  intros s1 Hs1. destruct (spec_open (qv_gate v)) eqn:Ho; intros Hv1; cbn [app].
  - apply pdoes_finally. eapply pdoes_mono; [apply (pdoes_submit_locked t _ s1 ticket j Hv1); [exact Hticket|exact Hroom|done]|].
    assert (Hg : qv_gate v = MkGateSpec true (spec_inflight (qv_gate v))).
    { destruct (qv_gate v). cbn in *. by subst. }
    intros r s2 evs Hsub. destruct (submitted_leave v s s1 ticket j r s2 evs _ Hg Hs1 Hsub) as (v2 & Hv2 & Hg2 & Hend).
    apply (pdoes_guard_drop t v2 s2 (spec_inflight (qv_gate v))); [done|done|lia|].
    intros s3 Hv3 Hs3. rewrite app_nil_r. by apply Hend.
  - apply pdoes_bind. apply pdoes_discard. intros evs Hd. apply pdoes_ret. rewrite app_nil_r.
    unfold submitted. rewrite Ho. split; [by split|done].
Qed.
End admission.

(** C12. [submit] on a dynamic pool, run alone from any consistent state with
    room for one more job and worker, for a job with or without a ticket. A closed
    gate refuses with [Shutdown].
    Otherwise the rule decides under the state lock: below the core size, or with
    no worker at all, the pool grows; else the job takes a queue slot; a full queue
    makes the pool grow up to its maximum, and then refuses with [Saturated]. Growing
    starts exactly one thread, named by the next index, and admits the job past the
    capacity; when the thread cannot be started the job is refused with
    [WorkerSpawnFailed] and only the index is used up. A refused job has lost each
    of its pieces once and changed no counter; an admitted one is accepted outside
    the lock and queued last, under its ticket's entry if it has one, or discarded
    with its slot, and its entry marked, when acceptance panics. *)
Theorem dyn_submit_alone {S M} `{Monitor M} (HM : MonitorLaws M)
    (self : lens S (ThreadPoolInner M)) (log : lens S (list Event))
    (HL : LensLaws self) (HLl : LensLaws log) (HA : Apart self log)
    (panics : Event -> bool) (t : nat) (v : QView) (ticket : option nat) (j : JobSpec) (w : world S)
    (Hv : qview_of v (part self w)) (Hticket : ticket_ok v ticket) (Hroom : dyn_room v)
    (Hn : 0 <= spec_inflight (qv_gate v) < COUNT_MASK) :
  exists r w' evs,
    runs t (tp_submit (H0 := recording log panics) self (ticketed ticket j)) w (Returned r w') /\
    part log w' = part log w ++ evs /\
    submitted self log panics v (seen_of self w) ticket j r (seen_of self w') evs.
Proof.
  destruct (pdoes_submit self log panics t v (seen_of self w) ticket j Hv Hticket Hroom Hn w)
    as (r & w' & s' & evs & Hr & [Hp Hs] & Hl & _ & Hsub).
  { by split. }
  exists r, w', evs. split; [exact Hr|]. split; [exact Hl|]. unfold seen_of at 2. rewrite Hp, Hs. by destruct s'.
Qed.

(** An entry prepared for the demonstration pool. *)
Definition ticket_pool : ThreadPoolInner CMon := set entries_l {[0%nat := queued_job_prepared]} demo_pool.
Definition ticket_world : world (ThreadPoolInner CMon * list Event) := World (ticket_pool, []) [] [].
Definition ticket_view : QView := with_others {[0%nat := queued_job_prepared]} demo_view.

Lemma ticket_qview : qview_of ticket_view (part fst_l ticket_world).
Proof.
  destruct demo_qview. constructor; try done.
  - intros e job Hin. by apply not_elem_of_nil in Hin.
  - intros e entry Ho. split; [exact Ho|]. apply not_elem_of_nil.
Qed.

Lemma dyn_submit_alone_witness :
  let panics e := match e with Called 0 => true | _ => false end in
  qview_of ticket_view (part fst_l ticket_world) /\
  exists r w' evs,
    runs 0 (tp_submit (H0 := recording snd_l panics) fst_l (ticketed (Some 0%nat) (SpecCustom 1 2 3))) ticket_world (Returned r w') /\
    part snd_l w' = part snd_l ticket_world ++ evs /\
    submitted fst_l snd_l panics ticket_view (seen_of fst_l ticket_world) (Some 0%nat) (SpecCustom 1 2 3) r (seen_of fst_l w') evs.
Proof.
  intros panics. split; [exact ticket_qview|].
  apply (dyn_submit_alone _ fst_l snd_l _ _ _ panics 0 ticket_view (Some 0%nat) (SpecCustom 1 2 3) ticket_world).
  - exact ticket_qview.
  - by exists queued_job_prepared.
  - vm_compute. repeat split; discriminate || reflexivity.
  - vm_compute. split; [discriminate|reflexivity].
Defined.
