(* ===== verification/DynConfig.v ===== *)
(** Reconfiguring a dynamic pool, run alone: the setters of
    [thread_pool_inner.rs] against a record of four settings. *)
From S2P Require Import Prelude Prog Sync Seq SeqLogic AdmissionGate PoolAccounting.
From S2P Require Import AccountingRefine Types Hooks PoolJob JobLifecycle SeqPool SeqView Builder.
From S2P Require Import DynState DynInner DynWorker DynSubmit DynQueue DynQueueList DynAdmission DynPool Concrete.
Local Open Scope Z_scope.
#[local] Arguments bind : simpl never.

(** ** The settings a caller may change *)
Record Settings : Type := MkSettings {
  set_core : Z;
  set_maximum : Z;
  set_keep : Z;
  set_timeout : bool;
}.

Definition settings_of (st : ThreadPoolState) : Settings :=
  MkSettings (core_pool_size st) (maximum_pool_size st) (keep_alive st) (allow_core_thread_timeout st).

Definition with_settings (c : Settings) (st : ThreadPoolState) : ThreadPoolState :=
  MkThreadPoolState (lifecycle st) (live_workers st) (exiting_workers st) (idle_workers st)
    (set_core c) (set_maximum c) (set_keep c) (set_timeout c) (next_worker_index st).

Inductive ConfigOp : Type :=
| SetCorePoolSize (n : Z)
| SetMaximumPoolSize (n : Z)
| SetKeepAlive (d : Z)
| AllowCoreThreadTimeout (allow : bool).

(** What a setter does to the settings and answers. *)
Definition config_step (op : ConfigOp) (c : Settings) : Result unit ExecutorServiceBuilderError * Settings :=
  match op with
  | SetCorePoolSize n =>
      if n <=? set_maximum c then (Ok tt, MkSettings n (set_maximum c) (set_keep c) (set_timeout c))
      else (Err (CorePoolSizeExceedsMaximum n (set_maximum c)), c)
  | SetMaximumPoolSize n =>
      if n =? 0 then (Err ZeroMaximumPoolSize, c)
      else if set_core c <=? n then (Ok tt, MkSettings (set_core c) n (set_keep c) (set_timeout c))
      else (Err (CorePoolSizeExceedsMaximum (set_core c) n), c)
  | SetKeepAlive d =>
      if d =? 0 then (Err ZeroKeepAlive, c)
      else (Ok tt, MkSettings (set_core c) (set_maximum c) d (set_timeout c))
  | AllowCoreThreadTimeout allow =>
      (Ok tt, MkSettings (set_core c) (set_maximum c) (set_keep c) allow)
  end.

Fixpoint config_steps (ops : list ConfigOp) (c : Settings) :
    list (Result unit ExecutorServiceBuilderError) * Settings :=
  match ops with
  | [] => ([], c)
  | op :: ops =>
      let r := config_step op c in
      let rs := config_steps ops r.2 in
      (r.1 :: rs.1, rs.2)
  end.

(** The code's setters. *)
Definition config_op {S M} `{Monitor M} (self : lens S (ThreadPoolInner M)) (op : ConfigOp) :
    prog S (Result unit ExecutorServiceBuilderError) :=
  match op with
  | SetCorePoolSize n => set_core_pool_size self n
  | SetMaximumPoolSize n => set_maximum_pool_size self n
  | SetKeepAlive d => set_keep_alive self d
  | AllowCoreThreadTimeout allow => tp_allow_core_thread_timeout self allow ;; Ret (Ok tt)
  end.

Fixpoint config_ops {S M} `{Monitor M} (self : lens S (ThreadPoolInner M)) (ops : list ConfigOp) :
    prog S (list (Result unit ExecutorServiceBuilderError)) :=
  match ops with
  | [] => Ret []
  | op :: ops => r <- config_op self op ;; rs <- config_ops self ops ;; Ret (r :: rs)
  end.

Section config.
Context {S M : Type} `{MonitorLaws M}.
Context (self : lens S (ThreadPoolInner M)) (log : lens S (list Event)).
Context `{!LensLaws self, !LensLaws log, !Apart self log}.
Implicit Types (v : QView) (t : nat) (c : Settings).
Local Abbreviation Seen := (Seen S (ThreadPoolInner M)).
Implicit Types (s : Seen).

(** The pool differs in its settings only. *)
Definition reconfigured v c : QView := with_state (with_settings c (qv_state v)) v.

Lemma reconfigured_id v : reconfigured v (settings_of (qv_state v)) = v.
Proof. destruct v as [a q [] b k rest]. reflexivity. Qed.

Lemma reconfigured_twice v c c' : reconfigured (reconfigured v c) c' = reconfigured v c'.
Proof. reflexivity. Qed.

Lemma settings_reconfigured v c : settings_of (qv_state (reconfigured v c)) = c.
Proof. by destruct c. Qed.

(** Waking the waiters without holding the lock. *)
Lemma pdoes_notify_free t v s (Post : unit -> Seen -> list Event -> Prop) :
  qview_of v (seen_pool s) ->
  (forall s', qview_of v (seen_pool s') -> seen_threads s' = seen_threads s -> Post tt s' []) ->
  pdoes self log t (notify_all (mon self)) s Post.
Proof.
  intros Hv HP. apply (pdoes_notify_all self log state_monitor_l). apply HP; [|done].
  apply qview_sync; [done|]. rewrite mon_notify_owner. apply (qv_free _ _ Hv).
Qed.

(** A critical section that notifies when it is done. *)
Lemma pdoes_write_notify {B} t (l : lens ThreadPoolState B) x v s (Post : unit -> Seen -> list Event -> Prop) :
  qview_of v (seen_pool s) ->
  (forall s', qview_of (with_state (set l x (qv_state v)) v) (seen_pool s') ->
     seen_threads s' = seen_threads s -> Post tt s' []) ->
  pdoes self log t (with_write_notify_all (mon self) (store (locked self l) x)) s Post.
Proof.
  intros Hv HP. unfold with_write_notify_all. apply (pdoes_held self log t _ v); [exact Hv|].
  intros s1 Hv1 Hs1. apply pdoes_bind. eapply (pdoes_locked_store self log); [exact Hv1|]. intros s2 Hv2 Hs2.
  apply pdoes_bind. eapply (pdoes_held_notify_all self log); [exact Hv2|]. intros s3 Hv3 Hs3. apply pdoes_ret.
  eexists. split; [exact Hv3|]. intros s4 Hv4 Hs4. apply HP; [exact Hv4|]. cbn in *. congruence.
Qed.

(** A check of [f] against the argument under the lock, then a write. *)
Lemma pdoes_checked t (f l : lens ThreadPoolState Z) (refuse : Z -> bool) n v s
    (Post : option Z -> Seen -> list Event -> Prop) :
  qview_of v (seen_pool s) ->
  (forall s', seen_threads s' = seen_threads s ->
     if refuse (get f (qv_state v))
     then qview_of v (seen_pool s') -> Post (Some (get f (qv_state v))) s' []
     else qview_of (with_state (set l n (qv_state v)) v) (seen_pool s') -> Post None s' []) ->
  pdoes self log t (with_lock (mon self) (
    x <- load (locked self f) ;;
    if refuse x then Ret (Some x) else store (locked self l) n ;; Ret None)) s Post.
Proof.
  intros Hv HP. apply (pdoes_held self log t _ v); [exact Hv|].
  intros s1 Hv1 Hs1. apply pdoes_bind. eapply (pdoes_locked_load self log); [exact Hv1|]. cbn [pv_state dyn_view].
  destruct (refuse (get f (qv_state v))).
  - apply pdoes_ret. eexists. split; [exact Hv1|]. intros s4 Hv4 Hs4. apply HP; [|done]. congruence.
  - apply pdoes_bind. eapply (pdoes_locked_store self log); [exact Hv1|]. intros s2 Hv2 Hs2. apply pdoes_ret.
    eexists. split; [exact Hv2|]. intros s4 Hv4 Hs4. apply HP; [|done]. cbn in *. congruence.
Qed.

Lemma pdoes_config_op t op v s :
  qview_of v (seen_pool s) ->
  pdoes self log t (config_op self op) s (fun r s' e =>
    e = [] /\ seen_threads s' = seen_threads s /\
    r = (config_step op (settings_of (qv_state v))).1 /\
    qview_of (reconfigured v (config_step op (settings_of (qv_state v))).2) (seen_pool s')).
Proof.
  intros Hv. destruct op as [n|n|d|allow]; cbn [config_op config_step].
  - unfold set_core_pool_size. apply pdoes_bind.
    apply (pdoes_checked t maximum_pool_size_l core_pool_size_l (fun m => m <? n) n v); [exact Hv|].
    intros s1 Hs1. cbn [get maximum_pool_size_l settings_of set_maximum].
    rewrite (Z.leb_antisym _ n). destruct (maximum_pool_size (qv_state v) <? n); cbn [negb]; intros Hv1.
    + apply pdoes_ret. cbn. rewrite reconfigured_id. done.
    + apply pdoes_bind. eapply pdoes_notify_free; [exact Hv1|]. intros s2 Hv2 Hs2. apply pdoes_ret.
      split; [done|]. split; [congruence|]. split; [done|exact Hv2].
  - unfold set_maximum_pool_size. destruct (n =? 0); [apply pdoes_ret; cbn; by rewrite reconfigured_id|].
    apply pdoes_bind.
    apply (pdoes_checked t core_pool_size_l maximum_pool_size_l (fun m => n <? m) n v); [exact Hv|].
    intros s1 Hs1. cbn [get core_pool_size_l settings_of set_core].
    rewrite (Z.leb_antisym n). destruct (n <? core_pool_size (qv_state v)); cbn [negb]; intros Hv1.
    + apply pdoes_ret. cbn. rewrite reconfigured_id. done.
    + apply pdoes_bind. eapply pdoes_notify_free; [exact Hv1|]. intros s2 Hv2 Hs2. apply pdoes_ret.
      split; [done|]. split; [congruence|]. split; [done|exact Hv2].
  - unfold set_keep_alive. destruct (d =? 0); [apply pdoes_ret; cbn; by rewrite reconfigured_id|].
    apply pdoes_bind. eapply pdoes_write_notify; [exact Hv|]. intros s1 Hv1 Hs1. by apply pdoes_ret.
  - unfold tp_allow_core_thread_timeout. apply pdoes_bind. eapply pdoes_write_notify; [exact Hv|].
    intros s1 Hv1 Hs1. by apply pdoes_ret.
Qed.

Lemma pdoes_config_ops t ops : forall v s,
  qview_of v (seen_pool s) ->
  pdoes self log t (config_ops self ops) s (fun rs s' e =>
    e = [] /\ seen_threads s' = seen_threads s /\
    rs = (config_steps ops (settings_of (qv_state v))).1 /\
    qview_of (reconfigured v (config_steps ops (settings_of (qv_state v))).2) (seen_pool s')).
Proof.
  induction ops as [|op ops IH]; intros v s Hv; cbn [config_ops config_steps].
  - apply pdoes_ret. cbn. by rewrite reconfigured_id.
  - apply pdoes_bind. eapply pdoes_mono; [by apply pdoes_config_op|]. intros r s1 e1 (-> & Hs1 & -> & Hv1).
    apply pdoes_bind. eapply pdoes_mono; [by apply IH|]. intros rs s2 e2 (-> & Hs2 & -> & Hv2). apply pdoes_ret.
    rewrite settings_reconfigured in *. split; [done|]. split; [congruence|]. split; [done|].
    by rewrite reconfigured_twice in Hv2.
Qed.
End config.

(** ** What the settings must satisfy *)
Definition valid_settings (c : Settings) : Prop :=
  0 <= set_core c <= set_maximum c /\ 1 <= set_maximum c /\ 0 < set_keep c.

(** Sizes are unsigned, and so are durations. *)
Definition unsigned_op (op : ConfigOp) : Prop :=
  match op with
  | SetCorePoolSize n | SetMaximumPoolSize n => 0 <= n
  | SetKeepAlive d => 0 <= d
  | AllowCoreThreadTimeout _ => True
  end.
Definition unsigned_builder (b : ThreadPoolBuilder) : Prop :=
  0 <= b_core_pool_size b /\ 0 <= b_maximum_pool_size b /\ 0 <= b_keep_alive b.

(** The settings a request asks for. *)
Definition requested (op : ConfigOp) (c : Settings) : Settings :=
  match op with
  | SetCorePoolSize n => MkSettings n (set_maximum c) (set_keep c) (set_timeout c)
  | SetMaximumPoolSize n => MkSettings (set_core c) n (set_keep c) (set_timeout c)
  | SetKeepAlive d => MkSettings (set_core c) (set_maximum c) d (set_timeout c)
  | AllowCoreThreadTimeout allow => MkSettings (set_core c) (set_maximum c) (set_keep c) allow
  end.

(** A setter does what it is asked exactly when that leaves valid settings. *)
Lemma config_step_valid op c :
  valid_settings c -> unsigned_op op ->
  valid_settings (config_step op c).2 /\
  match (config_step op c).1 with
  | Ok _ => (config_step op c).2 = requested op c
  | Err _ => (config_step op c).2 = c /\ ~ valid_settings (requested op c)
  end.
Proof.
  unfold valid_settings. intros Hc Hop. destruct op as [n|n|d|allow]; cbn in *.
  - destruct (Z.leb_spec n (set_maximum c)); cbn; (split; [lia|first [done|split; [done|lia]]]).
  - destruct (Z.eqb_spec n 0); [|destruct (Z.leb_spec (set_core c) n)]; cbn;
      (split; [lia|first [done|split; [done|lia]]]).
  - destruct (Z.eqb_spec d 0); cbn; (split; [lia|first [done|split; [done|lia]]]).
  - split; [lia|done].
Qed.

(** Every answer of a sequence is right for the settings it was given in. *)
Fixpoint answers_right (ops : list ConfigOp) (rs : list (Result unit ExecutorServiceBuilderError))
    (c c' : Settings) : Prop :=
  match ops, rs with
  | [], [] => c' = c
  | op :: ops, r :: rs =>
      match r with
      | Ok _ => valid_settings (requested op c) /\ answers_right ops rs (requested op c) c'
      | Err _ => ~ valid_settings (requested op c) /\ answers_right ops rs c c'
      end
  | _, _ => False
  end.

Lemma config_steps_valid ops : forall c,
  valid_settings c -> Forall unsigned_op ops ->
  valid_settings (config_steps ops c).2 /\
  answers_right ops (config_steps ops c).1 c (config_steps ops c).2.
Proof.
  induction ops as [|op ops IH]; intros c Hc Hops; cbn; [done|].
  apply Forall_cons in Hops as [Hop Hops].
  destruct (config_step_valid op c Hc Hop) as [Hv Ha]. destruct (IH _ Hv Hops) as [Hv' Ha'].
  split; [exact Hv'|]. destruct (config_step op c).1.
  - rewrite Ha in *. done.
  - destruct Ha as [Ha Hn]. rewrite Ha in *. done.
Qed.

(** ** The builder's checks *)

(** The first rule a configuration breaks, in the order of the checks. *)
Definition dyn_first_error (b : ThreadPoolBuilder) : option ExecutorServiceBuilderError :=
  if negb (0 <? b_maximum_pool_size b) then Some ZeroMaximumPoolSize
  else if negb (b_core_pool_size b <=? b_maximum_pool_size b)
  then Some (CorePoolSizeExceedsMaximum (b_core_pool_size b) (b_maximum_pool_size b))
  else if negb (positive_or_absent (b_queue_capacity b)) then Some ZeroQueueCapacity
  else if negb (positive_or_absent (b_stack_size b)) then Some ZeroStackSize
  else if negb (0 <? b_keep_alive b) then Some ZeroKeepAlive
  else None.

Lemma dyn_validate_first_error `{ArgumentsLaws} b :
  Builder.validate b = match dyn_first_error b with Some e => Err e | None => Ok tt end.
Proof.
  unfold Builder.validate, dyn_first_error.
  rewrite (validate_check _ _ _ _ (require_positive_ok _ _)), (validate_check _ _ _ _ (require_at_most_ok _ _ _)).
  rewrite !(validate_check _ _ _ _ (validate_some_positive _ _)).
  rewrite (validate_check _ _ _ _ (duration_require_positive_ok _ _)).
  destruct (0 <? b_maximum_pool_size b); [|done].
  destruct (b_core_pool_size b <=? b_maximum_pool_size b); [|done].
  destruct (positive_or_absent (b_queue_capacity b)); [|done].
  destruct (positive_or_absent (b_stack_size b)); [|done].
  by destruct (0 <? b_keep_alive b).
Qed.

Lemma accepted_builder_valid b :
  dyn_first_error b = None -> unsigned_builder b ->
  valid_settings (settings_of (thread_pool_state_new (Builder.config b))).
Proof.
  unfold dyn_first_error, unsigned_builder, valid_settings. cbn. intros He Hb.
  destruct (Z.ltb_spec 0 (b_maximum_pool_size b)); [|done].
  destruct (Z.leb_spec (b_core_pool_size b) (b_maximum_pool_size b)); [|done]. cbn in He.
  destruct (positive_or_absent (b_queue_capacity b)), (positive_or_absent (b_stack_size b)); cbn in He; try done.
  destruct (Z.ltb_spec 0 (b_keep_alive b)); [|done]. lia.
Qed.

(** A new pool: no jobs, no workers. *)
Definition new_view (config : ThreadPoolConfig) (hooks : ThreadPoolHooks) : QView :=
  MkQView (ledger_empty (cfg_queue_capacity config)) [] (thread_pool_state_new config) false 0
    (MkRest (cfg_thread_name_prefix config) (cfg_stack_size config) hooks ∅).

Lemma new_qview {M} `{MonitorLaws M} config hooks :
  qview_of (new_view config hooks) (thread_pool_inner_new config hooks : ThreadPoolInner M).
Proof.
  constructor; cbn; try done; try constructor; cbn; try done; try lia.
  - intros e job Hin. by apply not_elem_of_nil in Hin.
  - apply mon_new_free.
Qed.

(** C25. Reconfiguring a dynamic pool, run alone in any consistent state: a
    sequence of calls of the four setters answers and leaves the settings as the
    four-field specification says, and changes nothing else: no counter, no queued
    job, no worker, no callback. A core size above the maximum, a maximum below
    the core size or zero, and a zero keep-alive are refused with their errors. *)
Theorem dyn_reconfigure_alone {S M} `{Monitor M} (HM : MonitorLaws M)
    (self : lens S (ThreadPoolInner M)) (log : lens S (list Event))
    (HL : LensLaws self) (HLl : LensLaws log) (HA : Apart self log)
    (t : nat) (v : QView) (ops : list ConfigOp) (w : world S) (Hv : qview_of v (part self w)) :
  let spec := config_steps ops (settings_of (qv_state v)) in
  exists w', runs t (config_ops self ops) w (Returned spec.1 w') /\
    qview_of (reconfigured v spec.2) (part self w') /\
    part log w' = part log w /\ w_spawned w' = w_spawned w.
Proof.
  intros spec. destruct (pdoes_config_ops self log t ops v (seen_of self w) Hv w)
    as (rs & w' & s' & e & Hr & [Hp Hsp] & Hl & _ & -> & Hs & -> & Hv'); [by split|].
  exists w'. split; [exact Hr|]. rewrite Hp, Hsp, Hs, Hl, app_nil_r. done.
Qed.

Definition demo_config_ops : list ConfigOp :=
  [SetCorePoolSize 3; SetMaximumPoolSize 4; SetCorePoolSize 3; SetMaximumPoolSize 2; SetKeepAlive 0;
   SetKeepAlive 7; AllowCoreThreadTimeout true; SetMaximumPoolSize 0].

Lemma dyn_reconfigure_alone_witness :
  qview_of demo_view (part fst_l demo_world) /\
  exists w', runs 0 (config_ops fst_l demo_config_ops) demo_world
      (Returned [Err (CorePoolSizeExceedsMaximum 3 2); Ok tt; Ok tt; Err (CorePoolSizeExceedsMaximum 3 2);
                 Err ZeroKeepAlive; Ok tt; Ok tt; Err ZeroMaximumPoolSize] w') /\
    settings_of (mon_data (state_monitor (part fst_l w'))) = MkSettings 3 4 7 true.
Proof.
  split; [exact demo_qview|].
  destruct (dyn_reconfigure_alone _ fst_l snd_l _ _ _ 0 demo_view demo_config_ops demo_world demo_qview)
    as (w' & Hr & Hv & _). exists w'. split; [exact Hr|]. rewrite (qv_data _ _ Hv). reflexivity.
Defined.

(** C26. The settings of a dynamic pool stay valid: a builder the checks accept
    yields a pool whose core size is at most its maximum, whose maximum and
    keep-alive are positive, and every sequence of setter calls, run alone, keeps
    this, refusing exactly the requests that would break it and obeying all others. *)
Theorem dyn_settings_stay_valid {S M} `{Monitor M} (HM : MonitorLaws M) `{Arguments} (HAr : ArgumentsLaws)
    (self : lens S (ThreadPoolInner M)) (log : lens S (list Event))
    (HL : LensLaws self) (HLl : LensLaws log) (HA : Apart self log)
    (t : nat) (b : ThreadPoolBuilder) (ops : list ConfigOp) (w : world S)
    (Hb : unsigned_builder b) (Hok : Builder.validate b = Ok tt) (Hops : Forall unsigned_op ops)
    (Hnew : part self w = thread_pool_inner_new (Builder.config b) (b_hooks b)) :
  let settings w := settings_of (mon_data (state_monitor (part self w))) in
  valid_settings (settings w) /\
  exists rs w', runs t (config_ops self ops) w (Returned rs w') /\
    valid_settings (settings w') /\ answers_right ops rs (settings w) (settings w').
Proof.
  intros settings. rewrite dyn_validate_first_error in Hok.
  destruct (dyn_first_error b) eqn:He; [done|]. clear Hok.
  assert (Hs : settings w = settings_of (thread_pool_state_new (Builder.config b))).
  { unfold settings. by rewrite Hnew. }
  pose proof (accepted_builder_valid b He Hb) as Hv. rewrite Hs. split; [exact Hv|].
  pose proof (new_qview (Builder.config b) (b_hooks b) : qview_of _ _) as Hq. rewrite <- Hnew in Hq.
  destruct (pdoes_config_ops self log t ops _ (seen_of self w) Hq w)
    as (rs & w' & s' & e & Hr & [Hp _] & _ & _ & _ & _ & -> & Hv'); [by split|].
  eexists _, w'. split; [exact Hr|].
  assert (Hs' : settings w' = (config_steps ops (settings_of (thread_pool_state_new (Builder.config b)))).2).
  { unfold settings. rewrite Hp, (qv_data _ _ Hv'). apply settings_reconfigured. }
  rewrite Hs'. by apply config_steps_valid.
Qed.

Lemma dyn_settings_stay_valid_witness :
  let b := MkThreadPoolBuilder 1 2 (Some 3) "w" None 60 false true thread_pool_hooks_new in
  let w : world (ThreadPoolInner CMon * list Event) :=
    World (thread_pool_inner_new (Builder.config b) (b_hooks b), []) [] [] in
  Builder.validate b = Ok tt /\
  exists rs w', runs 0 (config_ops fst_l demo_config_ops) w (Returned rs w') /\
    valid_settings (settings_of (mon_data (state_monitor (part fst_l w')))).
Proof.
  intros b w. assert (Hok : Builder.validate b = Ok tt) by reflexivity. split; [exact Hok|].
  assert (Hb : unsigned_builder b) by (vm_compute; repeat split; discriminate).
  assert (Hops : Forall unsigned_op demo_config_ops).
  { unfold demo_config_ops. repeat constructor; vm_compute; discriminate. }
  destruct (dyn_settings_stay_valid _ _ fst_l snd_l _ _ _ 0 b demo_config_ops w Hb Hok Hops eq_refl)
    as (_ & rs & w' & Hr & Hv & _). exists rs, w'. split; [exact Hr|exact Hv].
Defined.
