(* ===== verification/DynStop.v ===== *)
(** Stopping a dynamic pool, run alone: what [stop] reports, cancels and leaves. *)
From S2P Require Import Prelude Prog Sync Seq SeqLogic AdmissionGate PoolAccounting.
From S2P Require Import AccountingRefine Types Hooks PoolJob JobLifecycle SeqPool SeqView Builder.
From S2P Require Import DynState DynInner DynQueue DynQueueList DynAdmission Concrete.
Local Open Scope Z_scope.
#[local] Arguments bind : simpl never.

Section stop.
Context {S M : Type} `{MonitorLaws M}.
Context (self : lens S (ThreadPoolInner M)) (log : lens S (list Event)).
Context `{!LensLaws self, !LensLaws log, !Apart self log} (panics : Event -> bool).
Implicit Types (v : QView) (t : nat) (n : Z).
Definition stop_user : UserCode S := queue_user log panics.
#[local] Existing Instance stop_user.
Local Abbreviation Seen := (Seen S (ThreadPoolInner M)).
Implicit Types (s : Seen).

(** [n] queued jobs moved to the cancelling phase. *)
Definition dequeued n v q : QView := v_after v (led_add (qv_ledger v) 0 (- n) 0 n 0 0) q.

Lemma dequeued_0 v : dequeued 0 v (qv_queue v) = v.
Proof. unfold dequeued, v_after. cbn. rewrite led_add_0. by destruct v. Qed.

Lemma dequeued_more n v q q' : dequeued n (dequeued 1 v q') q = dequeued (n + 1) v q.
Proof.
  unfold dequeued, v_after. cbn. f_equal. rewrite led_add_add. f_equal; lia.
Qed.

(** The queue lock is held along with the monitor. *)
Definition with_queue_free s : Seen :=
  with_pool (set global_queue_l (MkMutex None (mutex_data (global_queue (seen_pool s)))) (seen_pool s)) s.
Definition draining t v s : Prop :=
  mutex_owner (global_queue (seen_pool s)) = Some t /\ held t v (with_queue_free s).

(** One round of the drain takes the front job. *)
Lemma draining_front t v s e job q :
  draining t v s -> qv_queue v = (e, job) :: q ->
  mutex_data (global_queue (seen_pool s)) = e :: map fst q /\
  ledger_repr (qv_ledger v) (accounting (seen_pool s)) /\ 0 < led_queued (qv_ledger v) /\
  exists entry, entries (seen_pool s) !! e = Some entry /\
    entry_state entry = MkMutex None (QueuedJobState.Queued job) /\
    forall x, ledger_repr (led_add (qv_ledger v) 0 (-1) 0 1 0 0) x ->
      draining t (dequeued 1 v q)
        (with_pool (set accounting_l x (set entries_l (<[e := taken entry]> (entries (seen_pool s)))
           (set (global_queue_l ⊚ mutex_data_l) (map fst q) (seen_pool s)))) s).
Proof.
  intros [Ho [Hm Hv]] Hq. pose proof (Hv mon_new mon_new_free) as Hv0.
  pose proof (qv_list _ _ Hv0) as Hl. cbn in Hl. rewrite Hq in Hl. injection Hl as Hl.
  pose proof (qv_counts _ _ Hv0) as Hc. cbn in Hc. pose proof (qv_length _ _ Hv0) as Hlen. rewrite Hq in Hlen.
  destruct (qv_entries _ _ Hv0 e job) as (entry & He & Hs); [rewrite Hq; set_solver|]. cbn in He.
  split; [done|]. split; [done|]. split; [cbn in Hlen; lia|]. exists entry. split; [done|]. split; [done|].
  intros x Hx. split; [exact Ho|]. split; [exact Hm|]. intros y Hy. specialize (Hv y Hy).
  pose proof (qview_remove self log v _ e job [] q entry _ x Hv Hq He Hx) as Hr. destruct Hr; [cbn; lia|].
  constructor; cbn in *; first [done|congruence].
Qed.

Lemma pdoes_drain_loop t js : forall v s acc0 Post,
  draining t v s -> map snd (qv_queue v) = js ->
  (forall s', draining t (dequeued (Z.of_nat (length js)) v []) s' -> seen_threads s' = seen_threads s ->
     Post (acc0 ++ js) s' []) ->
  pdoes self log t
    (loop (fun jobs : list PoolJob =>
            entry <- pop_front self ;;
            match entry with
            | None => Ret (inr jobs)
            | Some e =>
                job <- take_queued self e ;;
                match job with
                | Some job => tp_begin_cancel_queued_job self ;; Ret (inl (jobs ++ [job]))
                | None => Ret (inl jobs)
                end
            end) acc0) s Post.
Proof.
  induction js as [|job js IH]; intros v s acc0 Post Hd Hjs HP; unfold loop; apply pdoes_loop, pdoes_bind, pdoes_bind;
    apply pdoes_pop_front; try apply _.
  - destruct (qv_queue v) eqn:Hq; [|done]. destruct Hd as [Ho [Hm Hv]].
    pose proof (qv_list _ _ (Hv mon_new mon_new_free)) as Hl. cbn in Hl. rewrite Hq in Hl. injection Hl as Hl.
    rewrite Hl. apply pdoes_ret, pdoes_ret. cbn in *. rewrite app_nil_r in HP. apply HP; [|done].
    change (Z.of_nat 0) with 0. rewrite <- Hq, dequeued_0. done.
  - destruct (qv_queue v) as [|[e job'] q] eqn:Hq; [done|]. cbn in Hjs. injection Hjs as -> Hjs.
    destruct (draining_front t v s e job q Hd Hq) as (Hfr & Hc & Hpos & entry & He & Hs & Hnext). rewrite Hfr.
    apply pdoes_bind. eapply (pdoes_take_queued self log); [exact He|exact Hs|]. cbn [app].
    apply pdoes_bind. apply Z.ltb_lt in Hpos.
    eapply (pdoes_count self log t LBeginCancel); [reflexivity|exact Hc|cbn; by rewrite Hpos|].
    intros x Hx. apply pdoes_ret. cbn [app]. eapply (IH (dequeued 1 v q)); [by apply Hnext|done|].
    intros s' Hd' Hs'. rewrite dequeued_more in Hd'. rewrite <- app_assoc. apply HP; [|done].
    cbn [length]. by replace (Z.of_nat (Datatypes.S (length js))) with (Z.of_nat (length js) + 1) by lia.
Qed.

Lemma pdoes_drain t v s (Post : list PoolJob -> Seen -> list Event -> Prop) :
  held t v s ->
  (forall s', held t (dequeued (Z.of_nat (length (qv_queue v))) v []) s' -> seen_threads s' = seen_threads s ->
     Post (map snd (qv_queue v)) s' []) ->
  pdoes self log t (drain_visible_queued_jobs self) s Post.
Proof.
  intros [Hm Hv] HP. pose proof (qv_list _ _ (Hv mon_new mon_new_free)) as Hl. cbn in Hl.
  unfold drain_visible_queued_jobs.
  apply (pdoes_with_mutex self log t global_queue_l); cbn [get global_queue_l]; rewrite Hl; [done|].
  eapply (pdoes_drain_loop t _ v); [|reflexivity|].
  - split; [done|]. split; [exact Hm|]. intros y Hy. destruct (Hv y Hy). constructor; cbn in *; done.
  - rewrite length_map. intros s' [Ho Hh] Hs'. apply HP; [exact Hh|done].
Qed.

(** *** The whole of [stop] *)

Definition v_stopping v : QView :=
  with_stop true (with_state (set lifecycle_l
       (match lifecycle (qv_state v) with
        | Lifecycle.Terminated => Lifecycle.Terminated | _ => Lifecycle.Stopping end) (qv_state v))
    (set_gate (MkGateSpec false (spec_inflight (qv_gate v))) v)).

Lemma pdoes_close t v s (Post : unit -> Seen -> list Event -> Prop) :
  qview_of v (seen_pool s) ->
  (forall s', qview_of (set_gate (MkGateSpec false (spec_inflight (qv_gate v))) v) (seen_pool s') ->
     seen_threads s' = seen_threads s -> Post tt s' []) ->
  pdoes self log t (close_admission (acc self)) s Post.
Proof.
  intros Hv HP. eapply (pdoes_count self log t LClose); [reflexivity|apply (qv_counts _ _ Hv)|reflexivity|].
  intros x Hx. apply HP; [|done]. by apply qview_ledger.
Qed.

Lemma qview_stop v p b : qview_of v p ->
  qview_of (with_stop b v) (set stop_now_l b p).
Proof. intros Hv. destruct Hv. constructor; cbn in *; done. Qed.

(** The part of [stop] under the monitor, nobody being inside admission. *)
Lemma pdoes_stop_locked t v s (Post : list PoolJob * Z * Z -> Seen -> list Event -> Prop) :
  qview_of v (seen_pool s) -> spec_inflight (qv_gate v) = 0 ->
  (forall s', qview_of (dequeued (Z.of_nat (length (qv_queue v)))
       (with_state (qv_state (v_stopping v)) (with_stop true v)) []) (seen_pool s') ->
     seen_threads s' = seen_threads s ->
     Post (map snd (qv_queue v), Z.of_nat (length (qv_queue v)), led_running (qv_ledger v)) s' []) ->
  pdoes self log t (with_lock (mon self) (
    store (self ⊚ stop_now_l) true ;;
    lc <- load (locked self lifecycle_l) ;;
    when (bool_decide (lc = Lifecycle.Running \/ lc = Lifecycle.ShuttingDown))
      (store (locked self lifecycle_l) Lifecycle.Stopping) ;;
    tp_wait_for_submitters self ;;
    running <- tp_running_count self ;;
    jobs <- drain_visible_queued_jobs self ;;
    notify_all (mon self) ;;
    Ret (jobs, Z.of_nat (length jobs), running))) s Post.
Proof.
  intros Hv Hin HP. apply (pdoes_held self log t _ v); [exact Hv|]. intros s1 Hv1 Hs1.
  apply pdoes_bind. apply (pdoes_store self log t stop_now_l).
  set (s2 := with_pool (set stop_now_l true (seen_pool s1)) s1).
  set (v1 := with_stop true v) in *.
  assert (Hv2 : held t v1 s2).
  { destruct Hv1 as [Ho Hv1]. split; [exact Ho|]. intros y Hy. destruct (Hv1 y Hy). constructor; cbn in *; done. }
  apply pdoes_bind. eapply (pdoes_locked_load self log); [exact Hv2|]. cbn [get lifecycle_l app pv_state dyn_view].
  set (v2 := with_state (qv_state (v_stopping v)) v1) in *.
  set (p := when _ _). apply pdoes_bind.
  assert (Hlc : pdoes self log t p s2 (fun _ s3 e => e = [] /\ held t v2 s3 /\ seen_threads s3 = seen_threads s2)).
  { subst p v2. unfold v_stopping. cbn [qv_state].
    assert (Hset : set lifecycle_l (lifecycle (qv_state v)) (qv_state v) = qv_state v) by (by destruct (qv_state v)).
    change (qv_state v1) with (qv_state v). destruct (lifecycle (qv_state v)) eqn:Hlc; cbn [when bool_decide].
    1,2: rewrite bool_decide_true by auto; cbn [when]; eapply (pdoes_locked_store self log); [exact Hv2|];
      cbn; intros s3 Hv3 Hs3; split; [done|]; split; [exact Hv3|exact Hs3].
    all: rewrite bool_decide_false by (intros [|]; congruence); cbn [when]; apply pdoes_ret; split; [done|];
      split; [|done]; change (with_state ?x v1) with (MkQView (qv_ledger v) (qv_queue v) x true (qv_workers v) (qv_rest v)); rewrite Hset; exact Hv2. }
  eapply pdoes_mono; [exact Hlc|]. intros [] s3 e (-> & Hv3 & Hs3). cbn [app].
  pose proof (held_counts t v2 s3 Hv3) as Hc3. cbn in Hc3.
  apply pdoes_bind. unfold tp_wait_for_submitters, tp_inflight_count, inflight_count, gate_inflight_count.
  apply pdoes_bind. apply pdoes_bind. apply (pdoes_load self log t (accounting_l ⊚ admission_l ⊚ gate_state_l)).
  apply pdoes_ret. cbn [app get lens_comp accounting_l admission_l gate_state_l].
  rewrite (gate_word_count _ _ (lr_gate _ _ Hc3)). unfold qv_gate in Hin. rewrite Hin. cbn [when Z.ltb Z.compare].
  apply pdoes_ret. cbn [app]. apply pdoes_bind. unfold tp_running_count, running_count.
  apply (pdoes_load self log t (accounting_l ⊚ running_task_count_l)). cbn [app get lens_comp accounting_l running_task_count_l].
  rewrite (lr_running _ _ Hc3). apply pdoes_bind. eapply pdoes_drain; [exact Hv3|]. intros s4 Hv4 Hs4. cbn [app].
  apply pdoes_bind. eapply (pdoes_held_notify_all self log); [exact Hv4|]. intros s5 Hv5 Hs5. apply pdoes_ret.
  eexists. split; [exact Hv5|]. intros s6 Hv6 Hs6. cbn [app]. rewrite length_map. apply HP; [exact Hv6|].
  rewrite Hs6, Hs5, Hs4, Hs3. exact Hs1.
Qed.

(** Cancelling the drained jobs, one after the other. *)
Lemma pdoes_cancel_all t js : forall v s (Post : unit -> Seen -> list Event -> Prop),
  qview_of v (seen_pool s) -> Z.of_nat (length js) <= led_cancelling (qv_ledger v) ->
  (forall s' evs, all_cancelled js evs -> seen_threads s' = seen_threads s ->
     qview_of (v_after v (led_add (qv_ledger v) 0 0 0 (- Z.of_nat (length js)) 0 (Z.of_nat (length js)))
       (qv_queue v)) (seen_pool s') -> Post tt s' evs) ->
  pdoes self log t
    (for_each (map (fun j => (accepted_job panics j).2) js)
       (fun job => job_cancel job ;; tp_finish_cancelled_job self)) s Post.
Proof.
  induction js as [|j js IH]; intros v s Post Hv Hn HP; cbn [map for_each length] in *.
  - apply pdoes_ret. apply HP; [by exists []|done|]. cbn. rewrite led_add_0. by destruct v.
  - destruct (cancel_logs log panics j) as (evs & Hlog & Hcan).
    apply pdoes_bind, pdoes_bind. eapply (pdoes_user self log); [exact Hlog|].
    eapply (pdoes_finish_cancelled self log t v); [exact Hv|lia|]. intros s1 Hv1 Hs1.
    rewrite app_nil_r. eapply IH; [exact Hv1|cbn; lia|]. intros s2 evs2 (parts & Hp & ->) Hs2 Hv2. apply HP.
    + exists (evs :: parts). split; [by constructor|done].
    + congruence.
    + cbn in Hv2. unfold v_after in *. cbn in Hv2. rewrite led_add_add in Hv2.
      match goal with |- qview_of (MkQView ?a _ _ _ _ _) _ => match type of Hv2 with qview_of (MkQView ?b _ _ _ _ _) _ =>
        replace a with b; [exact Hv2|f_equal; lia] end end.
Qed.

(** What [stop] leaves: closed, empty, every queued job counted as cancelled. *)
Definition v_stopped v : QView :=
  let n := Z.of_nat (length (qv_queue v)) in
  v_after (v_stopping v) (led_add (qv_ledger (v_stopping v)) 0 (- n) 0 0 0 n) [].

Lemma pdoes_stop t v s q :
  qview_of v (seen_pool s) -> spec_inflight (qv_gate v) = 0 -> qv_queue v = queue_jobs panics q ->
  pdoes self log t (tp_stop self) s (fun r s' evs =>
    r = MkStopReport (Z.of_nat (length q)) (led_running (qv_ledger v)) (Z.of_nat (length q)) /\
    all_cancelled (map snd q) evs /\ seen_threads s' = seen_threads s /\
    qview_of (v_stopped v) (seen_pool s')).
Proof.
  intros Hv Hin Hq. unfold tp_stop. apply pdoes_bind. apply (pdoes_close t v); [exact Hv|]. intros s1 Hv1 Hs1.
  apply pdoes_bind. apply (pdoes_store self log t stop_now_l). set (s2 := with_pool (set stop_now_l true (seen_pool s1)) s1).
  pose proof (qview_stop _ _ true Hv1) as Hv2. cbn [app]. apply pdoes_bind.
  eapply pdoes_stop_locked; [exact Hv2|done|]. intros s3 Hv3 Hs3. cbn [app].
  assert (Hlen : length (qv_queue v) = length q) by (rewrite Hq; unfold queue_jobs; by rewrite length_map).
  assert (Hjobs : map snd (qv_queue v) = map (fun j => (accepted_job panics j).2) (map snd q)).
  { rewrite Hq. unfold queue_jobs. by rewrite !map_map. }
  cbn beta iota. cbn [qv_queue set_gate with_ledger with_stop]. rewrite Hjobs. cbn beta iota. apply pdoes_bind.
  pose proof (lr_nonneg _ _ (qv_counts _ _ Hv)) as (_ & _ & _ & Hnn & _).
  eapply pdoes_cancel_all; [exact Hv3|cbn; rewrite Hlen, length_map; lia|].
  intros s4 evs Hevs Hs4 Hv4. apply pdoes_bind.
  eapply (pdoes_notify self log t); [exact Hv4|]. intros s5 Hv5 Hs5. apply pdoes_ret.
  cbn [app]. rewrite !app_nil_r. split; [by rewrite Hlen|]. split; [exact Hevs|].
  split; [rewrite Hs5, Hs4, Hs3; exact Hs1|]. revert Hv5. unfold dequeued, v_stopped, v_after. cbn.
  rewrite led_add_add, length_map, Hlen. intros Hv5.
  match goal with |- qview_of (MkQView ?a _ _ _ _ _) _ => match type of Hv5 with qview_of (MkQView ?b _ _ _ _ _) _ =>
    replace a with b; [exact Hv5|] end end.
  destruct (qv_ledger v). unfold led_add, led_set_gate, qv_gate. cbn. f_equal; lia.
Qed.
End stop.

(** C23. [stop] on a dynamic pool, run alone with nobody inside admission: it
    reports the number of queued jobs as queued and as cancelled and the number of
    running jobs, closes admission, moves a live pool to [Stopping], empties the
    queue, cancels every queued job exactly once, oldest first, by its own
    callbacks whatever they panic with, and counts each as cancelled. Nothing else
    changes: running jobs go on, no worker is started. A second [stop] reports an
    empty queue. *)
Theorem dyn_stop_alone {S M} `{Monitor M} (HM : MonitorLaws M)
    (self : lens S (ThreadPoolInner M)) (log : lens S (list Event))
    (HL : LensLaws self) (HLl : LensLaws log) (HA : Apart self log)
    (panics : Event -> bool) (t : nat) (v : QView) (q : list (nat * JobSpec)) (w : world S)
    (Hv : qview_of v (part self w)) (Hin : spec_inflight (qv_gate v) = 0)
    (Hq : qv_queue v = queue_jobs panics q) :
  let n := Z.of_nat (length q) in let running := led_running (qv_ledger v) in
  let stop := tp_stop (H0 := recording log panics) self in
  exists w' evs, runs t stop w (Returned (MkStopReport n running n) w') /\
    qview_of (v_stopped v) (part self w') /\
    part log w' = part log w ++ evs /\ all_cancelled (map snd q) evs /\ w_spawned w' = w_spawned w /\
    exists w2, runs t stop w' (Returned (MkStopReport 0 running 0) w2) /\ part log w2 = part log w'.
Proof.
  intros n running stop.
  destruct (pdoes_stop self log panics t v (seen_of self w) q Hv Hin Hq w)
    as (r & w' & s' & evs & Hr & [Hp Hsp] & Hl & _ & -> & Hevs & Hs & Hv'); [by split|].
  rewrite <- Hp in Hv'. exists w', evs. split; [exact Hr|]. split; [exact Hv'|]. split; [exact Hl|].
  split; [exact Hevs|]. split; [rewrite Hsp; exact Hs|].
  destruct (pdoes_stop self log panics t (v_stopped v) (seen_of self w') [] Hv' Hin eq_refl w')
    as (r2 & w2 & s2 & evs2 & Hr2 & _ & Hl2 & _ & -> & (parts & Hparts & ->) & _); [by split|].
  exists w2. cbn in Hparts. inversion Hparts; subst. rewrite app_nil_r in Hl2. split; [|exact Hl2].
  cbn in Hr2. replace (led_running (qv_ledger v) + 0) with (led_running (qv_ledger v)) in Hr2 by lia. exact Hr2.
Qed.

(** A pool with one running job and two queued ones. *)
Definition busy_jobs : list (nat * JobSpec) := [(0%nat, SpecCustom 1 2 3); (1%nat, SpecDetached 4)].
Definition busy_panics (e : Event) : bool := match e with Called 3 => true | _ => false end.
Definition busy_state : ThreadPoolState := MkThreadPoolState Lifecycle.Running 1 0 0 1 2 60 false 1.
Definition busy_pool : ThreadPoolInner CMon :=
  MkThreadPoolInner (MkMonitor mon_new busy_state)
    (MkPoolAccounting (MkAdmissionGate 0) (Some 3) 2 2 1 0 3 0 0) false 1 0 0 0 0
    (MkMutex None [0%nat; 1%nat])
    (list_to_map (map (fun x => (x.1, queued_job_new x.2)) (queue_jobs busy_panics busy_jobs)))
    "w" None thread_pool_hooks_new.
Definition busy_world : world (ThreadPoolInner CMon * list Event) := World (busy_pool, []) [] [].
Definition busy_view : QView :=
  MkQView (MkLedger (MkGateSpec true 0) (Some 3) 0 2 1 0 0 0) (queue_jobs busy_panics busy_jobs) busy_state false 1
    (MkRest "w" None thread_pool_hooks_new ∅).

Lemma busy_qview : qview_of busy_view (part fst_l busy_world).
Proof.
  constructor; try done.
  - intros e job Hin. cbn in Hin. rewrite !elem_of_cons in Hin.
    destruct Hin as [[= -> ->]|[[= -> ->]|Hin%elem_of_nil]]; [..|done]; (eexists; split; reflexivity).
  - cbn. repeat constructor; set_solver.
Qed.

Lemma dyn_stop_alone_witness :
  qview_of busy_view (part fst_l busy_world) /\
  exists w' evs, runs 0 (tp_stop (H0 := recording snd_l busy_panics) fst_l) busy_world
      (Returned (MkStopReport 2 1 2) w') /\
    part snd_l w' = evs /\ all_cancelled [SpecCustom 1 2 3; SpecDetached 4] evs /\
    global_queue (part fst_l w') = MkMutex None [] /\ cancelled_task_count (accounting (part fst_l w')) = 2.
Proof.
  split; [exact busy_qview|].
  destruct (dyn_stop_alone _ fst_l snd_l _ _ _ busy_panics 0 busy_view busy_jobs busy_world busy_qview eq_refl eq_refl)
    as (w' & evs & Hr & Hv & Hl & Hc & _). exists w', evs. split; [exact Hr|]. split; [exact Hl|]. split; [exact Hc|].
  split; [apply (qv_list _ _ Hv)|]. rewrite (lr_cancelled _ _ (qv_counts _ _ Hv)). reflexivity.
Defined.
