(* ===== verification/DynBuild.v ===== *)
(** Building a dynamic pool, run alone: the configurations it refuses, the core
    workers it starts, and what it leaves when one cannot be started. *)
From S2P Require Import Prelude Prog Sync Seq SeqLogic AdmissionGate PoolAccounting.
From S2P Require Import AccountingRefine Types Hooks PoolJob JobLifecycle SeqPool SeqView Builder.
From S2P Require Import DynState DynInner DynWorker DynSubmit DynQueue DynQueueList DynAdmission.
From S2P Require Import DynConfig DynStop DynPool Concrete.
Local Open Scope Z_scope.
#[local] Arguments bind : simpl never.

(** [k] more workers. *)
Definition more_workers (k : Z) (v : QView) : QView :=
  with_workers (qv_workers v + k)
    (with_state (set next_worker_index_l (next_worker_index (qv_state v) + k)
       (set live_workers_l (live_workers (qv_state v) + k) (qv_state v))) v).

Lemma more_workers_0 v : more_workers 0 v = v.
Proof.
  destruct v as [a q [] stop n rest]. unfold more_workers, with_workers, with_state. cbn. by rewrite !Z.add_0_r.
Qed.

Lemma more_workers_more k v : more_workers k (with_new_worker v) = more_workers (k + 1) v.
Proof.
  destruct v as [a q [] stop n rest]. unfold more_workers, with_new_worker, grown, with_workers, with_state. cbn.
  f_equal; [f_equal; lia|lia].
Qed.

Section prestart.
Context {S M : Type} `{MonitorLaws M}.
Context (self : lens S (ThreadPoolInner M)) (log : lens S (list Event)).
Context `{!LensLaws self, !LensLaws log, !Apart self log} (panics : Event -> bool).
Implicit Types (v : QView) (t : nat) (k : nat).
Definition prestart_user : UserCode S := queue_user log panics.
#[local] Existing Instance prestart_user.
Local Abbreviation Seen := (Seen S (ThreadPoolInner M)).
Implicit Types (s : Seen).

(** The threads of the next [k] workers. *)
Definition new_threads v k : list (string * option Z * prog S unit) :=
  map (fun i => dyn_worker_thread self log panics v (next_worker_index (qv_state v) + Z.of_nat i)) (seq 0 k).

Lemma new_threads_more v k :
  dyn_worker_thread self log panics v (next_worker_index (qv_state v)) :: new_threads (with_new_worker v) k =
  new_threads v (Datatypes.S k).
Proof.
  unfold new_threads. cbn [seq map]. rewrite Z.add_0_r. f_equal. rewrite <- seq_shift, map_map.
  apply map_ext. intros i.
  assert (Hi : next_worker_index (qv_state (with_new_worker v)) + Z.of_nat i =
    next_worker_index (qv_state v) + Z.of_nat (Datatypes.S i)) by (cbn; lia). by rewrite Hi.
Qed.

Definition missing v : Z := core_pool_size (qv_state v) - live_workers (qv_state v).

Lemma pdoes_prestart_one t v s (Post : Result bool SubmissionError -> Seen -> list Event -> Prop) :
  qview_of v (seen_pool s) -> lifecycle (qv_state v) = Lifecycle.Running ->
  (if 0 <? missing v then
     worker_room 1 v /\
     (forall s', qview_of (with_new_worker v) (seen_pool s') ->
        seen_threads s' = seen_threads s ++ [dyn_worker_thread self log panics v (next_worker_index (qv_state v))] ->
        Post (Ok true) s' []) /\
     (forall s', qview_of (with_state (not_grown (qv_state v)) v) (seen_pool s') ->
        seen_threads s' = seen_threads s -> Post (Err WorkerSpawnFailed) s' [])
   else forall s', qview_of v (seen_pool s') -> seen_threads s' = seen_threads s -> Post (Ok false) s' []) ->
  pdoes self log t (prestart_core_thread self) s Post.
Proof.
  intros Hv Hlc HP. unfold prestart_core_thread, missing in *. apply (pdoes_held self log t _ v); [exact Hv|].
  intros s1 Hv1 Hs1. apply pdoes_bind. eapply (pdoes_locked_load self log); [exact Hv1|].
  cbn [get lifecycle_l pv_state dyn_view]. rewrite Hlc. cbn [bool_decide negb]. rewrite bool_decide_true by done. cbn [negb app].
  apply pdoes_bind. eapply (pdoes_locked_read self log); [exact Hv1|]. cbn [pv_state dyn_view].
  replace (core_pool_size (qv_state v) <=? live_workers (qv_state v))
    with (negb (0 <? core_pool_size (qv_state v) - live_workers (qv_state v))) by lia.
  destruct (0 <? core_pool_size (qv_state v) - live_workers (qv_state v)); cbn [negb app].
  - destruct HP as (Hroom & HOk & HErr). rewrite <- bind_assoc. apply pdoes_bind.
    eapply (pdoes_start_worker self log); [exact Hv1|exact Hroom|..]; intros s2 Hv2 Hs2; apply pdoes_ret;
      (eexists; split; [exact Hv2|]); intros s3 Hv3 Hs3; cbn [app].
    + apply HOk; [exact Hv3|congruence].
    + apply HErr; [exact Hv3|congruence].
  - apply pdoes_ret. exists v. split; [exact Hv1|]. intros s2 Hv2 Hs2. apply HP; [exact Hv2|congruence].
Qed.

(** The outcome of starting all core workers. *)
Definition prestarted v s (n0 : Z) (r : Result Z SubmissionError) s' : Prop :=
  exists k, seen_threads s' = seen_threads s ++ new_threads v k /\
    ((Z.of_nat k = Z.max 0 (missing v) /\ r = Ok (n0 + Z.of_nat k) /\ qview_of (more_workers (Z.of_nat k) v) (seen_pool s')) \/
     (Z.of_nat k < missing v /\ r = Err WorkerSpawnFailed /\
      let u := more_workers (Z.of_nat k) v in qview_of (with_state (not_grown (qv_state u)) u) (seen_pool s'))).

Lemma prestarted_none v s n0 s' :
  missing v <= 0 -> qview_of v (seen_pool s') -> seen_threads s' = seen_threads s -> prestarted v s n0 (Ok n0) s'.
Proof.
  intros Hz Hv' Hs'. exists 0%nat. split; [by rewrite Hs', app_nil_r|]. left.
  split; [lia|]. split; [by rewrite Z.add_0_r|by rewrite more_workers_0].
Qed.

Lemma pdoes_prestart_loop t m : forall v s n0,
  qview_of v (seen_pool s) -> lifecycle (qv_state v) = Lifecycle.Running ->
  missing v <= Z.of_nat m -> worker_room (Z.max 0 (missing v)) v ->
  pdoes self log t
    (loop (fun started : Z =>
          r <- prestart_core_thread self ;;
          Ret (match r with
               | Ok true => inl (started + 1)
               | Ok false => inr (Ok started)
               | Err e => inr (Err e)
               end)) n0) s (fun r s' e => e = [] /\ prestarted v s n0 r s').
Proof.
  induction m as [|m IH]; intros v s n0 Hv Hlc Hm Hroom; apply pdoes_loop, pdoes_bind, pdoes_bind;
    (eapply pdoes_prestart_one; [exact Hv|exact Hlc|]).
  - replace (0 <? missing v) with false by lia. intros s1 Hv1 Hs1. apply pdoes_ret, pdoes_ret. split; [done|].
    apply prestarted_none; [lia|exact Hv1|exact Hs1].
  - destruct (Z.ltb_spec 0 (missing v)) as [Hlt|Hge].
    + unfold worker_room in Hroom. split; [unfold worker_room; lia|]. split; intros s1 Hv1 Hs1; apply pdoes_ret.
      * cbn [app]. eapply pdoes_mono.
        { apply (IH (with_new_worker v) s1 (n0 + 1)); [exact Hv1|exact Hlc|unfold missing in *; cbn in *; lia|].
          unfold worker_room, missing in *. cbn in *. lia. }
        intros r s2 e (-> & k & Hth & Hr). split; [done|]. exists (Datatypes.S k). split.
        { rewrite Hth, Hs1, <- app_assoc. f_equal. apply new_threads_more. }
        rewrite more_workers_more in Hr. unfold missing in *. cbn in Hr |- *.
        replace (Z.of_nat k + 1) with (Z.of_nat (Datatypes.S k)) in Hr by lia.
        destruct Hr as [(Hk & -> & Hv2)|(Hk & -> & Hv2)]; [left|right].
        -- split; [lia|]. split; [f_equal; lia|exact Hv2].
        -- split; [lia|]. split; [done|exact Hv2].
      * apply pdoes_ret. split; [done|]. exists 0%nat. split; [by rewrite Hs1, app_nil_r|]. right.
        split; [lia|]. split; [done|]. cbn zeta. by rewrite more_workers_0.
    + intros s1 Hv1 Hs1. apply pdoes_ret, pdoes_ret. split; [done|].
      apply prestarted_none; [lia|exact Hv1|exact Hs1].
Qed.

Lemma pdoes_wait_termination t v s (Post : unit -> Seen -> list Event -> Prop) :
  qview_of v (seen_pool s) -> terminated v = true ->
  (forall s', qview_of v (seen_pool s') -> seen_threads s' = seen_threads s -> Post tt s' []) ->
  pdoes self log t (tp_wait_for_termination self) s Post.
Proof.
  intros Hv Ht HP. apply (pdoes_held self log t _ v); [exact Hv|]. intros s1 Hv1 Hs1.
  apply pdoes_loop, pdoes_bind, pdoes_bind. eapply (pdoes_held_terminated self log); [exact Hv1|].
  intros s2 Hv2 Hs2. rewrite Ht. apply pdoes_ret, pdoes_ret. exists v. split; [exact Hv2|].
  intros s3 Hv3 Hs3. apply HP; [exact Hv3|congruence].
Qed.

(** Giving up a pool that has no worker: stopped, and terminated at once. *)
Lemma pdoes_give_up t v s (Post : unit -> Seen -> list Event -> Prop) :
  qview_of v (seen_pool s) -> qv_queue v = [] -> spec_inflight (qv_gate v) = 0 ->
  terminated (v_stopped v) = true ->
  (forall s', qview_of (v_stopped v) (seen_pool s') -> seen_threads s' = seen_threads s -> Post tt s' []) ->
  pdoes self log t (tp_stop self ;; tp_wait_for_termination self) s Post.
Proof.
  intros Hv Hq Hin Ht HP. apply pdoes_bind. eapply pdoes_mono; [by apply (pdoes_stop self log panics t v s [])|].
  intros r s1 evs (_ & (parts & Hparts & ->) & Hs1 & Hv1). inversion Hparts. cbn [concat app].
  eapply pdoes_wait_termination; [exact Hv1|exact Ht|]. intros s2 Hv2 Hs2. apply HP; [exact Hv2|congruence].
Qed.
End prestart.

(** A new pool whose first worker could not be started. *)
Definition abandoned_view (b : ThreadPoolBuilder) : QView :=
  v_stopped (with_state (not_grown (thread_pool_state_new (Builder.config b))) (new_view (Builder.config b) (b_hooks b))).

Lemma abandoned_terminated b : terminated (abandoned_view b) = true.
Proof. unfold terminated, led_idle. cbn. by rewrite bool_decide_false. Qed.


(** Two core workers of three, prestarted: the first thread starts, then all do,
    then the first is refused. *)
Definition prestart_builder : ThreadPoolBuilder :=
  MkThreadPoolBuilder 2 3 (Some 4) "w" None 60 false true thread_pool_hooks_new.
#[local] Instance demo_errors : BuilderErrors := fun _ => ZeroKeepAlive.

(** What prestarting answers in a world, by evaluation. *)
Lemma prestart_runs orc (r0 : Result Z SubmissionError) (n : nat) :
  let w0 : world (ThreadPoolInner CMon * list Event) :=
    World (thread_pool_inner_new (Builder.config prestart_builder) thread_pool_hooks_new, []) orc [] in
  let prestart := prestart_all_core_threads (H0 := recording snd_l (fun _ => false)) fst_l in
  match run 20 0 prestart w0 with Returned r w' => r = r0 /\ length (w_spawned w') = n | _ => False end ->
  forall r w1, runs 0 prestart w0 (Returned r w1) -> r = r0 /\ length (w_spawned w1) = n.
Proof.
  intros w0 prestart He r w1 Hr. destruct (run 20 0 prestart w0) as [r' w'| | |] eqn:Hrun; [|done..].
  assert (Hr' : runs 0 prestart w0 (Returned r' w')) by (split; [done|by exists 20%nat]).
  pose proof (runs_det _ _ _ _ _ Hr Hr') as [= -> ->]. exact He.
Qed.

