(* ===== verification/DynDrain.v ===== *)
(** A worker of a dynamic pool that is shut down or stopped, run alone: it runs
    what is queued, oldest first, and ends. *)
From S2P Require Import Prelude Prog Sync Seq SeqLogic AdmissionGate PoolAccounting.
From S2P Require Import AccountingRefine Types Hooks PoolJob JobLifecycle SeqPool SeqView Builder.
From S2P Require Import DynState DynInner DynWorker DynQueue DynQueueList DynAdmission DynStop Concrete.
Local Open Scope Z_scope.
#[local] Arguments bind : simpl never.

Section drain.
Context {S M : Type} `{MonitorLaws M}.
Context (self : lens S (ThreadPoolInner M)) (log : lens S (list Event)).
Context `{!LensLaws self, !LensLaws log, !Apart self log} (panics : Event -> bool).
Implicit Types (v : QView) (t : nat) (n i : Z) (q : list (nat * JobSpec)).
Definition drain_user : UserCode S := queue_user log panics.
#[local] Existing Instance drain_user.
Local Abbreviation Seen := (Seen S (ThreadPoolInner M)).
Implicit Types (s : Seen).

Definition v_hooks v : ThreadPoolHooks := rest_hooks (qv_rest v).

Lemma pdoes_hooks t v s (Post : ThreadPoolHooks -> Seen -> list Event -> Prop) :
  qview_of v (seen_pool s) -> Post (v_hooks v) s [] -> pdoes self log t (get_hooks self) s Post.
Proof.
  intros Hv HP. apply (pdoes_read self log t hooks). by rewrite (qv_hooks _ _ Hv).
Qed.

(** *** Serving one job *)
Lemma pdoes_serve t v s i j (Post : unit -> Seen -> list Event -> Prop) :
  qview_of v (seen_pool s) -> (forall evs, served (v_hooks v) i j evs -> Post tt s evs) ->
  pdoes self log t
    (if has_task_hooks (v_hooks v)
     then hooks <- get_hooks self ;; tp_run_with_task_hooks (accepted_job panics j).2 hooks i
     else tp_run_without_hooks (accepted_job panics j).2) s Post.
Proof.
  intros Hv HP. destruct (run_logs log panics j) as (o & es & Hlog & Hex).
  assert (Hs : served (v_hooks v) i j
    (hook_events (hook_before_task (v_hooks v)) i ++ es ++ hook_events (hook_after_task (v_hooks v)) i)) by by exists es.
  destruct (has_task_hooks (v_hooks v)) eqn:Hh.
  - apply pdoes_bind. eapply pdoes_hooks; [exact Hv|]. unfold tp_run_with_task_hooks.
    apply pdoes_bind. eapply (pdoes_user self log); [apply hook_logs; apply _|].
    apply pdoes_bind. eapply (pdoes_user self log); [exact Hlog|].
    eapply (pdoes_user self log); [apply hook_logs; apply _|]. by apply HP.
  - unfold tp_run_without_hooks. apply pdoes_bind. eapply (pdoes_user self log); [exact Hlog|].
    apply pdoes_ret. rewrite app_nil_r. apply HP. unfold has_task_hooks in Hh.
    apply orb_false_iff in Hh as [Hb Ha]. apply bool_decide_eq_false in Hb, Ha.
    destruct (hook_before_task (v_hooks v)); [by destruct Hb|].
    destruct (hook_after_task (v_hooks v)); [by destruct Ha|]. cbn in Hs. by rewrite app_nil_r in Hs.
Qed.

(** *** Leaving *)

(** A pool whose workers leave once its queue is empty. *)
Definition winding_down v : Prop :=
  (lifecycle (qv_state v) = Lifecycle.ShuttingDown /\ spec_inflight (qv_gate v) = 0) \/
  lifecycle (qv_state v) = Lifecycle.Stopping \/ lifecycle (qv_state v) = Lifecycle.Terminated.

(** The worker being counted. *)
Definition counted v : Prop :=
  1 <= live_workers (qv_state v) /\ 0 <= exiting_workers (qv_state v) /\
  exiting_workers (qv_state v) + 1 < USIZE_MOD /\ 1 <= qv_workers v /\ in_usize (qv_workers v).

(** Deregistered, and gone. *)
Definition v_exiting v : QView :=
  with_workers (qv_workers v - 1)
    (with_state (set live_workers_l (live_workers (qv_state v) - 1)
       (set exiting_workers_l (exiting_workers (qv_state v) + 1) (qv_state v))) v).
Definition v_exited v : QView :=
  with_workers (qv_workers v - 1)
    (with_state (set live_workers_l (live_workers (qv_state v) - 1) (qv_state v)) v).

Lemma pdoes_unregister t v s i (Post : unit -> Seen -> list Event -> Prop) :
  held t v s -> counted v ->
  (forall s', held t (v_exiting v) s' -> seen_threads s' = seen_threads s -> Post tt s' []) ->
  pdoes self log t (unregister_exiting_worker self i) s Post.
Proof.
  intros Hv (Hl & He0 & He & Hw & Hwu) HP. unfold unregister_exiting_worker, unregister_worker_locked.
  apply pdoes_bind. eapply (pdoes_locked_incr self log); [exact Hv|exact He|]. intros s1 Hv1 Hs1.
  apply pdoes_bind. eapply (pdoes_locked_decr self log); [exact Hv1|exact Hl|]. intros s2 Hv2 Hs2.
  assert (Hn : live_worker_count (seen_pool s2) = qv_workers v) by exact (qv_live_count _ _ (proj2 Hv2 mon_new mon_new_free)).
  apply pdoes_bind. apply (pdoes_fetch_sub self log t live_worker_count_l). cbn [get live_worker_count_l].
  match goal with |- pdoes _ _ _ _ ?s3 _ => set (s3' := s3) end.
  assert (Hv3 : held t (v_exiting v) s3').
  { destruct Hv2 as [Ho Hv2]. split; [exact Ho|]. intros y Hy. destruct (Hv2 y Hy). constructor; cbn in *; try done.
    rewrite Hn. apply wrap_small. unfold in_usize in *. lia. }
  rewrite Hn. apply pdoes_bind. unfold assert. destruct (Z.ltb_spec 0 (qv_workers v)); [|lia]. apply pdoes_ret.
  eapply (pdoes_notify_terminated self log); [exact Hv3|]. intros s4 Hv4 Hs4. apply HP; [exact Hv4|cbn in *; congruence].
Qed.

Lemma pdoes_worker_exit t v s (Post : unit -> Seen -> list Event -> Prop) :
  qview_of (v_exiting v) (seen_pool s) -> 0 <= exiting_workers (qv_state v) ->
  (forall s', qview_of (v_exited v) (seen_pool s') -> seen_threads s' = seen_threads s -> Post tt s' []) ->
  pdoes self log t (finish_worker_exit self) s Post.
Proof.
  intros Hv He HP. apply (pdoes_held self log t _ (v_exiting v)); [exact Hv|]. intros s1 Hv1 Hs1.
  apply pdoes_bind. eapply (pdoes_locked_decr self log); [exact Hv1|cbn; lia|]. intros s2 Hv2 Hs2.
  apply pdoes_bind. eapply (pdoes_notify_terminated self log); [exact Hv2|]. intros s3 Hv3 Hs3.
  eapply (pdoes_held_notify_all self log); [exact Hv3|]. intros s4 Hv4 Hs4.
  exists (v_exited v). split; [|intros s5 Hv5 Hs5; apply HP; [exact Hv5|cbn in *; congruence]].
  revert Hv4. cbn. unfold v_exited, v_exiting. cbn. by rewrite Z.add_simpl_r.
Qed.

(** The look at a lifecycle that is over. *)
Lemma pdoes_inspect t v s i (Post : Decision -> Seen -> list Event -> Prop) :
  qview_of v (seen_pool s) -> winding_down v -> counted v -> qv_queue v = [] ->
  (forall s', qview_of (v_exiting v) (seen_pool s') -> seen_threads s' = seen_threads s -> Post Leave s' []) ->
  pdoes self log t (inspect self i) s Post.
Proof.
  intros Hv Hw Hc Hq HP. apply (pdoes_held self log t _ v); [exact Hv|]. intros s1 Hv1 Hs1.
  assert (Hleave : pdoes self log t (unregister_exiting_worker self i ;; Ret Leave) s1
    (fun r s2 e => exists v2, held t v2 s2 /\
       forall s3, qview_of v2 (seen_pool s3) -> seen_threads s3 = seen_threads s2 -> Post r s3 e)).
  { apply pdoes_bind. eapply pdoes_unregister; [exact Hv1|exact Hc|]. intros s2 Hv2 Hs2. apply pdoes_ret.
    exists (v_exiting v). split; [exact Hv2|]. intros s3 Hv3 Hs3. apply HP; [exact Hv3|congruence]. }
  apply pdoes_bind. eapply (pdoes_locked_load self log); [exact Hv1|]. cbn [get lifecycle_l pv_state dyn_view].
  destruct Hw as [[-> Hin]|[->| ->]]; [|exact Hleave..].
  pose proof (held_counts t v s1 Hv1) as Hled. cbn in Hled.
  assert (Hzero : queued_task_count (accounting (seen_pool s1)) = 0).
  { rewrite (lr_queued _ _ Hled), (qv_length _ _ Hv), Hq. done. }
  apply pdoes_bind. unfold queue_is_empty, tp_queued_count, queued_count. apply pdoes_bind.
  apply (pdoes_load self log t (accounting_l ⊚ queued_task_count_l)). apply pdoes_ret.
  cbn [get lens_comp accounting_l queued_task_count_l]. rewrite Hzero. cbn [app Z.eqb negb].
  apply pdoes_bind. unfold tp_inflight_count, inflight_count, gate_inflight_count.
  apply pdoes_bind. apply (pdoes_load self log t (accounting_l ⊚ admission_l ⊚ gate_state_l)). apply pdoes_ret.
  cbn [app get lens_comp accounting_l admission_l gate_state_l]. unfold qv_gate in Hin.
  rewrite (gate_word_count _ _ (lr_gate _ _ Hled)), Hin. exact Hleave.
Qed.

(** *** The loops *)

(** [n] queued jobs were run. *)
Definition v_ran n v (jobs : list (nat * PoolJob)) : QView :=
  v_after v (led_add (qv_ledger v) 0 (- n) 0 0 n 0) jobs.

Lemma v_ran_more n v (q1 q2 : list (nat * PoolJob)) : v_ran n (v_ran 1 v q1) q2 = v_ran (n + 1) v q2.
Proof. unfold v_ran, v_after. cbn. rewrite led_add_add. do 2 f_equal; lia. Qed.

Lemma pdoes_wait_for_job_some t v s i e job (jobs : list (nat * PoolJob)) (Post : option PoolJob -> Seen -> list Event -> Prop) :
  qview_of v (seen_pool s) -> qv_stop v = false -> qv_queue v = (e, job) :: jobs ->
  (forall s', qview_of (v_after v (led_add (qv_ledger v) 0 (-1) 1 0 0 0) jobs) (seen_pool s') ->
     seen_threads s' = seen_threads s -> Post (Some job) s' []) ->
  pdoes self log t (wait_for_job self i) s Post.
Proof.
  intros Hv Hstop Hq HP. unfold wait_for_job, loop. apply pdoes_loop.
  unfold wait_for_job_iteration. apply pdoes_bind, pdoes_bind.
  eapply pdoes_mono; [apply (pdoes_try_take self log t v); exact Hv|]. intros r s1 e1 (-> & Hs1 & Hr).
  rewrite Hstop, Hq in Hr. destruct Hr as [-> Hv1]. apply pdoes_ret, pdoes_ret. by apply HP.
Qed.

Lemma pdoes_wait_for_job_none t v s i (Post : option PoolJob -> Seen -> list Event -> Prop) :
  qview_of v (seen_pool s) -> winding_down v -> counted v -> qv_queue v = [] ->
  (forall s', qview_of (v_exiting v) (seen_pool s') -> seen_threads s' = seen_threads s -> Post None s' []) ->
  pdoes self log t (wait_for_job self i) s Post.
Proof.
  intros Hv Hw Hc Hq HP. unfold wait_for_job, loop. apply pdoes_loop.
  unfold wait_for_job_iteration. apply pdoes_bind, pdoes_bind.
  eapply pdoes_mono; [apply (pdoes_try_take self log t v); exact Hv|]. intros r s1 e1 (-> & Hs1 & Hr).
  rewrite Hq in Hr. assert (Hn : r = None /\ qview_of v (seen_pool s1)) by (by destruct (qv_stop v)).
  destruct Hn as [-> Hv1]. apply pdoes_bind. eapply pdoes_inspect; [exact Hv1|done..|]. intros s2 Hv2 Hs2.
  apply pdoes_bind. apply pdoes_ret, pdoes_ret, pdoes_ret. apply HP; [exact Hv2|congruence].
Qed.

Lemma pdoes_worker_loop t i q : forall v s (Post : unit -> Seen -> list Event -> Prop),
  qview_of v (seen_pool s) -> winding_down v -> counted v ->
  qv_queue v = queue_jobs panics q -> (qv_stop v = true -> q = []) ->
  (forall s' evs, all_served (v_hooks v) i (map snd q) evs ->
     qview_of (v_exited (v_ran (Z.of_nat (length q)) v [])) (seen_pool s') -> seen_threads s' = seen_threads s ->
     Post tt s' (evs ++ hook_events (hook_after_worker_stop (v_hooks v)) i)) ->
  pdoes self log t (loop (thread_pool_worker_iteration self (has_task_hooks (v_hooks v)) i) tt) s Post.
Proof.
  induction q as [|[e j] q IH]; intros v s Post Hv Hw Hc Hq Hstop HP; apply pdoes_loop, pdoes_bind;
    unfold thread_pool_worker_iteration; apply pdoes_bind.
  - eapply pdoes_wait_for_job_none; [exact Hv|done..|]. intros s1 Hv1 Hs1.
    apply pdoes_bind. eapply (pdoes_hooks t (v_exiting v)); [exact Hv1|]. apply pdoes_bind.
    eapply (pdoes_user self log); [apply hook_logs; apply _|].
    apply pdoes_bind. eapply pdoes_worker_exit; [exact Hv1|apply Hc|]. intros s2 Hv2 Hs2.
    apply pdoes_ret, pdoes_ret. cbn [app]. rewrite !app_nil_r. apply (HP s2 []).
    + by exists [].
    + revert Hv2. unfold v_ran. cbn. rewrite led_add_0. replace (v_after v (qv_ledger v) []) with v;
        [done|]. destruct v; cbn in *; by subst.
    + congruence.
  - assert (Hst : qv_stop v = false) by (destruct (qv_stop v); [by specialize (Hstop eq_refl)|done]).
    eapply pdoes_wait_for_job_some; [exact Hv|exact Hst|exact Hq|]. cbn [fst snd]. intros s1 Hv1 Hs1.
    apply pdoes_bind. eapply (pdoes_serve t (v_after v _ _)); [exact Hv1|]. intros evs1 Hev1.
    apply pdoes_bind. eapply (pdoes_finish_running self log); [exact Hv1| |].
    { pose proof (lr_nonneg _ _ (qv_counts _ _ Hv)) as Hnn. cbn. lia. }
    intros s2 Hv2 Hs2. apply pdoes_ret. cbn [app]. rewrite app_nil_r.
    assert (Hv2' : qview_of (v_ran 1 v (queue_jobs panics q)) (seen_pool s2)).
    { revert Hv2. unfold v_ran, v_after. cbn. by rewrite led_add_add. }
    eapply (IH (v_ran 1 v (queue_jobs panics q))); [exact Hv2'|done..|cbn; by rewrite Hst|].
    intros s3 evs3 (parts & Hparts & ->) Hv3 Hs3. rewrite v_ran_more in Hv3. rewrite app_assoc.
    apply HP; [|by replace (Z.of_nat (length ((e, j) :: q))) with (Z.of_nat (length q) + 1) by (cbn [length]; lia)|congruence].
    exists (evs1 :: parts). split; [by constructor|done].
Qed.

Lemma pdoes_worker_run t v s i q :
  qview_of v (seen_pool s) -> winding_down v -> counted v ->
  qv_queue v = queue_jobs panics q -> (qv_stop v = true -> q = []) ->
  pdoes self log t (thread_pool_worker_run self i) s (fun _ s' evs => exists es,
    evs = hook_events (hook_before_worker_start (v_hooks v)) i ++ es ++ hook_events (hook_after_worker_stop (v_hooks v)) i /\
    all_served (v_hooks v) i (map snd q) es /\ seen_threads s' = seen_threads s /\
    qview_of (v_exited (v_ran (Z.of_nat (length q)) v [])) (seen_pool s')).
Proof.
  intros Hv Hw Hc Hq Hstop. unfold thread_pool_worker_run. apply pdoes_bind. eapply pdoes_hooks; [exact Hv|].
  apply pdoes_bind. eapply (pdoes_user self log); [apply hook_logs; apply _|]. cbn [app].
  eapply pdoes_worker_loop; [done..|]. intros s' evs Hevs Hv' Hs'. by exists evs.
Qed.

(** What [is_terminated] answers. *)
Lemma pdoes_is_terminated t v s (Post : bool -> Seen -> list Event -> Prop) :
  qview_of v (seen_pool s) ->
  (forall s', qview_of v (seen_pool s') -> seen_threads s' = seen_threads s -> Post (terminated v) s' []) ->
  pdoes self log t (tp_is_terminated self) s Post.
Proof.
  intros Hv HP. apply (pdoes_held self log t _ v); [exact Hv|]. intros s1 Hv1 Hs1.
  eapply (pdoes_held_terminated self log); [exact Hv1|]. intros s2 Hv2 Hs2.
  exists v. split; [exact Hv2|]. intros s3 Hv3 Hs3. apply HP; [exact Hv3|congruence].
Qed.
End drain.

(** C19. A worker of a dynamic pool that is shut down with nobody inside admission,
    or stopped with its queue drained, run alone, ends: it calls its start hook,
    runs every queued job once, oldest first, between its task hooks and whatever
    any of them panics with, calls its stop hook, and leaves, for any number of
    queued jobs. It counts each job as completed and itself as gone, and changes
    nothing else. Afterwards the pool reports termination exactly when this was the
    last worker and no job, submitter or slot is left. *)
Theorem dyn_worker_drains_and_ends {S M} `{Monitor M} (HM : MonitorLaws M)
    (self : lens S (ThreadPoolInner M)) (log : lens S (list Event))
    (HL : LensLaws self) (HLl : LensLaws log) (HA : Apart self log)
    (panics : Event -> bool) (t : nat) (i : Z) (v : QView) (q : list (nat * JobSpec)) (w : world S)
    (Hv : qview_of v (part self w)) (Hw : winding_down v) (Hc : counted v)
    (Hq : qv_queue v = queue_jobs panics q) (Hstop : qv_stop v = true -> q = []) :
  let hooks := v_hooks v in let a := qv_ledger v in
  exists w' evs,
    runs t (thread_pool_worker_run (H0 := recording log panics) self i) w (Returned tt w') /\
    part log w' = part log w ++ hook_events (hook_before_worker_start hooks) i ++ evs
                  ++ hook_events (hook_after_worker_stop hooks) i /\
    all_served hooks i (map snd q) evs /\ w_spawned w' = w_spawned w /\
    qview_of (v_exited (v_ran (Z.of_nat (length q)) v [])) (part self w') /\
    exists w2, runs t (tp_is_terminated self) w'
      (Returned ((live_workers (qv_state v) =? 1) && (exiting_workers (qv_state v) =? 0) &&
         (spec_inflight (qv_gate v) =? 0) && (led_reserved a =? 0) && (led_running a =? 0) &&
         (led_cancelling a =? 0)) w2).
Proof.
  intros hooks a.
  destruct (pdoes_worker_run self log panics t v (seen_of self w) i q Hv Hw Hc Hq Hstop w)
    as ([] & w' & s' & evs & Hr & [Hp Hs] & Hl & _ & es & -> & Hes & Hsp & Hv'); [by split|].
  rewrite <- Hp in Hv'. exists w', es. split; [exact Hr|]. split; [exact Hl|]. split; [exact Hes|].
  split; [rewrite Hs; exact Hsp|]. split; [exact Hv'|].
  destruct (pdoes_is_terminated self log t _ (seen_of self w') (fun b _ _ => b = terminated _) Hv'
    ltac:(done) w') as (b & w2 & s2 & e2 & Hr2 & _ & _ & _ & ->); [by split|].
  exists w2. replace (_ && _) with (terminated (v_exited (v_ran (Z.of_nat (length q)) v []))); [exact Hr2|].
  pose proof (qv_length _ _ Hv) as Hlen. rewrite Hq in Hlen. unfold queue_jobs in Hlen. rewrite length_map in Hlen.
  unfold terminated, led_idle, qv_gate. cbn. rewrite Hlen, !Z.add_0_r, Z.add_opp_diag_r.
  rewrite bool_decide_false.
  - replace (live_workers (qv_state v) - 1 =? 0) with (live_workers (qv_state v) =? 1) by lia.
    cbn. fold a. by rewrite !andb_true_r, !andb_assoc.
  - destruct Hw as [[-> _]|[->| ->]]; done.
Qed.

(** One worker, shut down while two jobs wait, with all hooks set. *)
Definition drain_hooks : ThreadPoolHooks := MkThreadPoolHooks (Some 7%nat) (Some 8%nat) (Some 9%nat) None.
Definition drain_panics (e : Event) : bool :=
  match e with Called 2 | HookCalled 9 _ | RunnableRan 4 => true | _ => false end.
Definition drain_state : ThreadPoolState := MkThreadPoolState Lifecycle.ShuttingDown 1 0 0 1 2 60 false 1.
Definition drain_pool : ThreadPoolInner CMon :=
  MkThreadPoolInner (MkMonitor mon_new drain_state)
    (MkPoolAccounting (MkAdmissionGate CLOSED) (Some 3) 2 2 0 0 2 0 0) false 1 0 0 0 0
    (MkMutex None [0%nat; 1%nat])
    (list_to_map (map (fun x => (x.1, queued_job_new x.2)) (queue_jobs drain_panics busy_jobs)))
    "w" None drain_hooks.
Definition drain_world : world (ThreadPoolInner CMon * list Event) := World (drain_pool, []) [] [].
Definition drain_view : QView :=
  MkQView (MkLedger (MkGateSpec false 0) (Some 3) 0 2 0 0 0 0) (queue_jobs drain_panics busy_jobs) drain_state false 1
    (MkRest "w" None drain_hooks ∅).

Lemma drain_qview : qview_of drain_view (part fst_l drain_world).
Proof.
  constructor; try done.
  - intros e job Hin. cbn in Hin. rewrite !elem_of_cons in Hin.
    destruct Hin as [[= -> ->]|[[= -> ->]|Hin%elem_of_nil]]; [..|done]; (eexists; split; reflexivity).
  - cbn. repeat constructor; set_solver.
Qed.

Lemma dyn_worker_drains_and_ends_witness :
  qview_of drain_view (part fst_l drain_world) /\
  exists w' evs, runs 1 (thread_pool_worker_run (H0 := recording snd_l drain_panics) fst_l 0) drain_world (Returned tt w') /\
    part snd_l w' = HookCalled 7 0 :: evs ++ [HookCalled 8 0] /\
    all_served drain_hooks 0 [SpecCustom 1 2 3; SpecDetached 4] evs /\
    completed_task_count (accounting (part fst_l w')) = 2 /\
    exists w2, runs 1 (tp_is_terminated fst_l) w' (Returned true w2).
Proof.
  split; [exact drain_qview|].
  destruct (dyn_worker_drains_and_ends _ fst_l snd_l _ _ _ drain_panics 1 0 drain_view busy_jobs drain_world drain_qview)
    as (w' & evs & Hr & Hl & Hs & _ & Hv & Ht).
  - left. done.
  - unfold counted. vm_compute. repeat split; discriminate || reflexivity.
  - reflexivity.
  - discriminate.
  - exists w', evs. split; [exact Hr|]. split; [exact Hl|]. split; [exact Hs|]. split; [|exact Ht].
    rewrite (lr_completed _ _ (qv_counts _ _ Hv)). reflexivity.
Defined.
