(* ===== verification/DynRetire.v ===== *)
(** An idle worker of a running dynamic pool, run alone: when it retires. *)
From S2P Require Import Prelude Prog Sync Seq SeqLogic SeqOnly AdmissionGate PoolAccounting.
From S2P Require Import AccountingRefine Types Hooks PoolJob JobLifecycle SeqPool SeqView.
From S2P Require Import DynState DynInner DynWorker DynQueue DynAdmission DynDrain DynStop Concrete.
Local Open Scope Z_scope.
#[local] Arguments Z.land : simpl never.
#[local] Arguments Z.add : simpl never.
#[local] Arguments Z.sub : simpl never.
#[local] Arguments Z.ltb : simpl never.
#[local] Arguments Z.leb : simpl never.
#[local] Arguments wrap : simpl never.

(** More workers than the maximum allows. *)
Definition surplus (st : ThreadPoolState) : bool := maximum_pool_size st <? live_workers st.

(** Whether an idle worker of a running pool with [inflight] submitters retires:
    at once when there are too many workers, and otherwise when its keep-alive time
    is over, unless it is the last worker and a submitter may still publish. *)
Definition retires (st : ThreadPoolState) (inflight : Z) : bool :=
  surplus st || (worker_wait_is_timed st && ((1 <? live_workers st) || (inflight =? 0))).

Lemma idle_and_back st :
  set idle_workers_l (idle_workers (set idle_workers_l (idle_workers st + 1) st) - 1)
    (set idle_workers_l (idle_workers st + 1) st) = st.
Proof. destruct st. cbn. f_equal. lia. Qed.

Section idle.
Context {S M : Type} `{MonitorLaws M}.
Context (self : lens S (ThreadPoolInner M)) `{!LensLaws self}.
Implicit Types (t : nat) (st : ThreadPoolState) (x y z : M).

(** The pool at rest: nothing is queued, no wake-up is pending. *)
Context (p : ThreadPoolInner M) (inflight : Z).
Record resting : Prop := {
  rs_queue : global_queue p = MkMutex None [];
  rs_queued : queued_task_count (accounting p) = 0;
  rs_inflight : Z.land (gate_state (admission (accounting p))) COUNT_MASK = inflight;
  rs_pending : pending_worker_wakes p = 0;
}.
Hypothesis Hrest : resting.

(** The pool while the worker is at work on it: [x] is the lock, [st] the data
    behind it, [lw] and [iw] the atomic counts of live and of idle workers. *)
Definition idle_pool x st lw iw : ThreadPoolInner M :=
  MkThreadPoolInner (MkMonitor x st) (accounting p) (stop_now p) lw iw (pending_worker_wakes p)
    (submit_waiter_count p) (idle_waiter_count p) (global_queue p) (entries p) (thread_name_prefix p)
    (stack_size p) (hooks p).

Context (s0 : S) (sp : list (string * option Z * prog S unit)).
Definition idle_world orc x st lw iw : world S := World (set self (idle_pool x st lw iw) s0) orc sp.

Ltac settle := unfold idle_world, idle_pool; rewrite ?(rs_queue Hrest), ?(rs_pending Hrest).
(** Straight-line code on such a world, one action at a time. *)
Ltac act := eapply runs_act;
  [cbn; rewrite ?get_set; cbn; rewrite ?(rs_queue Hrest), ?(rs_queued Hrest), ?(rs_inflight Hrest), ?(rs_pending Hrest);
   cbn; reflexivity|];
  cbn; rewrite ?get_set, ?set_set; cbn.

Lemma runs_take_nothing t orc x st lw iw :
  runs t (try_take_queued_job self) (idle_world orc x st lw iw) (Returned None (idle_world orc x st lw iw)).
Proof using All.
  unfold try_take_queued_job, with_mutex, mutex_lock, finally, load, pop_front, mutex_unlock. cbn.
  act. act. destruct (stop_now p) eqn:Hs; cbn.
  - act. settle. rewrite Hs. apply runs_ret.
  - act. act. settle. rewrite Hs. apply runs_ret.
Qed.

Lemma runs_mark t orc x st lw iw : idle_workers st + 1 < USIZE_MOD ->
  runs t (mark_thread_pool_worker_idle self) (idle_world orc x st lw iw)
    (Returned tt (idle_world orc x (set idle_workers_l (idle_workers st + 1) st) lw (wrap (iw + 1)))).
Proof using All.
  intros Hi. apply Z.ltb_lt in Hi. unfold mark_thread_pool_worker_idle, guarded_incr, checked_add, tp_mark_worker_idle, fetch_add, fetch_modify. cbn.
  eapply runs_act; [cbn; rewrite ?get_set; cbn; rewrite Hi; reflexivity|]. cbn. act. settle. apply runs_ret.
Qed.

Lemma runs_unmark t orc x st lw iw : 1 <= idle_workers st -> 1 <= iw ->
  runs t (unmark_thread_pool_worker_idle self) (idle_world orc x st lw iw)
    (Returned tt (idle_world orc x (set idle_workers_l (idle_workers st - 1) st) lw (wrap (iw - 1)))).
Proof using All.
  intros Hi Hw. unfold unmark_thread_pool_worker_idle, guarded_decr, checked_sub, tp_unmark_worker_idle,
    tp_consume_pending_worker_wake, fetch_sub, fetch_modify, fetch_update. cbn.
  apply Z.leb_le in Hi. eapply runs_act; [cbn; rewrite ?get_set; cbn; rewrite Hi; reflexivity|].
  cbn. act. destruct (Z.ltb_spec 0 iw); [|lia]. cbn.
  eapply runs_act; [cbn; rewrite ?get_set; cbn; rewrite ?(rs_pending Hrest); cbn; reflexivity|].
  cbn. settle. apply runs_ret.
Qed.

(** Nothing to do, in the two ways the code asks. *)
Lemma runs_queue_empty t orc x st lw iw :
  runs t (queue_is_empty self) (idle_world orc x st lw iw) (Returned true (idle_world orc x st lw iw)).
Proof using All.
  unfold queue_is_empty, tp_queued_count, queued_count, load. cbn. act. apply runs_ret.
Qed.

Lemma runs_no_pending t orc x st lw iw :
  runs t (no_pending_wake self) (idle_world orc x st lw iw) (Returned true (idle_world orc x st lw iw)).
Proof using All. unfold no_pending_wake, tp_has_pending_worker_wake, load. cbn. act. apply runs_ret. Qed.

Lemma runs_nothing t orc x st lw iw :
  runs t (andp (queue_is_empty self) (no_pending_wake self)) (idle_world orc x st lw iw)
    (Returned true (idle_world orc x st lw iw)).
Proof using All. eapply runs_bind; [apply runs_queue_empty|apply runs_no_pending]. Qed.

Lemma runs_unregister t i orc x st lw iw :
  lifecycle st = Lifecycle.Running -> exiting_workers st + 1 < USIZE_MOD -> 1 <= live_workers st -> 1 <= lw < USIZE_MOD ->
  runs t (unregister_exiting_worker self i) (idle_world orc x st lw iw)
    (Returned tt (idle_world orc x (set live_workers_l (live_workers st - 1)
       (set exiting_workers_l (exiting_workers st + 1) st)) (lw - 1) iw)).
Proof using All.
  intros Hr He Hl Hw. unfold unregister_exiting_worker, unregister_worker_locked, guarded_incr, guarded_decr, checked_add,
    checked_sub, notify_if_terminated, tp_is_terminated_locked, andp, state_read, fetch_sub, fetch_modify. cbn.
  apply Z.ltb_lt in He. apply Z.leb_le in Hl.
  eapply runs_act; [cbn; rewrite ?get_set; cbn; rewrite He; reflexivity|]. cbn.
  eapply runs_act; [cbn; rewrite ?get_set; cbn; rewrite Hl; reflexivity|]. cbn.
  act. destruct (Z.ltb_spec 0 lw); [|lia]. cbn.
  eapply runs_act; [cbn; rewrite ?get_set; cbn; rewrite Hr; reflexivity|]. cbn.
  rewrite ?set_set, wrap_small by (unfold in_usize; lia). settle. rewrite ?Hr. apply runs_ret.
Qed.

(** Reading the data behind the lock, and the submitters inside. *)
Lemma runs_state_read {B} t (f : ThreadPoolState -> B) orc x st lw iw :
  runs t (state_read self f) (idle_world orc x st lw iw) (Returned (f st) (idle_world orc x st lw iw)).
Proof using All. unfold state_read. act. settle. apply runs_ret. Qed.

Lemma runs_inflight_zero t orc x st lw iw :
  runs t (n <- tp_inflight_count self ;; Ret (n =? 0)) (idle_world orc x st lw iw)
    (Returned (inflight =? 0) (idle_world orc x st lw iw)).
Proof using All.
  unfold tp_inflight_count, inflight_count, gate_inflight_count, load. cbn. act. settle. rewrite ?(rs_inflight Hrest). apply runs_ret.
Qed.

(** The lock *)
Lemma runs_lock t orc x st lw iw : mon_owner x = None ->
  exists y, mon_owner y = Some t /\
    runs t (monitor_lock (mon self)) (idle_world orc x st lw iw) (Returned tt (idle_world orc y st lw iw)).
Proof using All.
  intros Hx. destruct (mon_lock_free t x Hx) as [y Hy]. exists y.
  pose proof (mon_lock_some _ _ _ Hy) as (_ & Ho & _). split; [done|].
  unfold monitor_lock, mon_try. eapply runs_act; [cbn; rewrite ?get_set; cbn; rewrite Hy; reflexivity|].
  cbn. rewrite ?get_set, ?set_set. cbn. settle. apply runs_ret.
Qed.

Lemma runs_unlock t orc x st lw iw : mon_owner x = Some t ->
  exists y, mon_owner y = None /\
    runs t (monitor_unlock (mon self)) (idle_world orc x st lw iw) (Returned tt (idle_world orc y st lw iw)).
Proof using All.
  intros Hx. exists (mon_unlock t x). split; [by apply mon_unlock_free|].
  unfold monitor_unlock, mon_do. act. settle. apply runs_ret.
Qed.

(** A critical section that leaves the lock held. *)
Lemma runs_section {B} t (body : prog S B) orc x st lw iw (Post : B -> world S -> Prop) :
  mon_owner x = None ->
  (forall y, mon_owner y = Some t -> exists b orc' y' st' lw' iw', mon_owner y' = Some t /\
     runs t body (idle_world orc y st lw iw) (Returned b (idle_world orc' y' st' lw' iw')) /\
     forall z, mon_owner z = None -> Post b (idle_world orc' z st' lw' iw')) ->
  exists b w', runs t (with_lock (mon self) body) (idle_world orc x st lw iw) (Returned b w') /\ Post b w'.
Proof using All.
  intros Hx Hb. destruct (runs_lock t orc x st lw iw Hx) as (y & Hy & Hl).
  destruct (Hb y Hy) as (b & orc' & y' & st' & lw' & iw' & Hy' & Hr & HP).
  destruct (runs_unlock t orc' y' st' lw' iw' Hy') as (z & Hz & Hu).
  exists b, (idle_world orc' z st' lw' iw'). split; [|by apply HP].
  eapply runs_bind; [exact Hl|]. by eapply runs_finally.
Qed.

Lemma only_section {B} t (body : prog S B) orc x st lw iw (Post : B -> world S -> Prop) :
  mon_owner x = None ->
  (forall y, mon_owner y = Some t -> only t body (idle_world orc y st lw iw) (fun b w' =>
     exists orc' y' st' lw' iw', mon_owner y' = Some t /\ w' = idle_world orc' y' st' lw' iw' /\
     forall z, mon_owner z = None -> Post b (idle_world orc' z st' lw' iw'))) ->
  only t (with_lock (mon self) body) (idle_world orc x st lw iw) Post.
Proof using All.
  intros Hx Hb. destruct (runs_lock t orc x st lw iw Hx) as (y & Hy & Hl).
  apply only_bind. eapply only_runs; [exact Hl|]. apply only_finally. eapply only_mono; [by apply Hb|].
  intros b w' (orc' & y' & st' & lw' & iw' & Hy' & -> & HP).
  destruct (runs_unlock t orc' y' st' lw' iw' Hy') as (z & Hz & Hu). eapply only_runs; [exact Hu|]. by apply HP.
Qed.

(** *** Waiting *)
Lemma runs_park_entry t orc x st lw iw : mon_owner x = Some t ->
  exists y, mon_owner y = None /\
    runs t (mon_do (mon self) mon_park) (idle_world orc x st lw iw) (Returned tt (idle_world orc y st lw iw)).
Proof using All.
  intros Hx. exists (mon_park t x). split; [by apply mon_park_asleep|].
  unfold mon_do. act. settle. apply runs_ret.
Qed.

(** An attempt to leave the wait queue: with a free lock an expired timer succeeds. *)
Lemma runs_attempt t (b : bool) orc x st lw iw : mon_owner x = None ->
  exists (left : bool) y, (b = false -> left = true) /\ mon_owner y = (if left then Some t else None) /\
    runs t (mon_attempt (mon self) (if b then mon_resume else mon_expire)) (idle_world orc x st lw iw)
      (Returned left (idle_world orc y st lw iw)).
Proof using All.
  intros Hx. set (f := if b then mon_resume else mon_expire).
  assert (Hf : (b = false -> is_Some (f t x)) /\ forall y, f t x = Some y -> mon_owner y = Some t).
  { subst f. destruct b; (split; [try done|]).
    - intros y Hy. by apply mon_resume_some in Hy as (_ & Ho & _).
    - intros _. by apply mon_expire_free.
    - intros y Hy. by apply mon_expire_some in Hy as (_ & Ho & _). }
  destruct Hf as [Hs Hf]. unfold mon_attempt. destruct (f t x) as [y|] eqn:Hy.
  - exists true, y. split; [done|]. split; [by apply Hf|].
    eapply runs_act; [cbn; rewrite ?get_set; cbn; rewrite Hy; reflexivity|].
    cbn. rewrite ?get_set, ?set_set. cbn. settle. apply runs_ret.
  - exists false, x. split; [by intros [? [=]]%Hs|]. split; [done|].
    eapply runs_act; [cbn; rewrite ?get_set; cbn; rewrite Hy; reflexivity|].
    cbn. settle. apply runs_ret.
Qed.

(** [wait_for] until its timer fires: [false] is the environment's word for that. *)
Lemma runs_wait_for t orc x st lw iw : mon_owner x = Some t -> false ∈ orc ->
  exists (b : bool) orc' y, mon_owner y = Some t /\ (b = false -> false ∈ orc' /\ (length orc' < length orc)%nat) /\
    runs t (wait_for (mon self)) (idle_world orc x st lw iw) (Returned (Ok b) (idle_world orc' y st lw iw)).
Proof using All.
  intros Hx Hin. destruct (runs_park_entry t orc x st lw iw Hx) as (x1 & Hx1 & Hp).
  match goal with |- context [wait_for ?m] => set (l := m) in * end.
  set (body := fun _ : unit => notified <- choose ;;
    left <- mon_attempt l (if (notified : bool) then mon_resume else mon_expire) ;;
    Ret (if (left : bool) then inr (@Ok bool unit (negb notified)) else inl tt)).
  assert (Hl : forall orc x, mon_owner x = None -> false ∈ orc ->
    exists (b : bool) orc' y, mon_owner y = Some t /\ (b = false -> false ∈ orc' /\ (length orc' < length orc)%nat) /\
      runs t (Loop body tt Ret) (idle_world orc x st lw iw) (Returned (Ok b) (idle_world orc' y st lw iw))).
  { clear -Hrest H0 LensLaws0. intros orc. induction orc as [|c orc IH]; intros x Hx Hin; [by apply elem_of_nil in Hin|].
    destruct (runs_attempt t c orc x st lw iw Hx) as (lf & y & Hc & Hy & Hr).
    assert (Hstep : forall o, runs t (match (if lf then inr (@Ok bool unit (negb c)) else inl tt) with
        inl x' => Loop body x' Ret | inr b => Ret b end) (idle_world orc y st lw iw) o ->
      runs t (Loop body tt Ret) (idle_world (c :: orc) x st lw iw) o).
    { intros o Ho. apply runs_loop. unfold body. rewrite bind_assoc. apply runs_choose. cbn [oracle_next fst snd].
      rewrite bind_assoc. eapply runs_bind; [exact Hr|]. exact Ho. }
    destruct lf.
    - exists (negb c), orc, y. split; [done|]. split; [|apply Hstep, runs_ret].
      intros Hb. destruct c; [|done]. apply elem_of_cons in Hin as [[=]|Hin]. cbn. split; [done|lia].
    - destruct c; [|by specialize (Hc eq_refl)]. apply elem_of_cons in Hin as [[=]|Hin].
      destruct (IH y Hy Hin) as (b & orc' & z & Hz & Hb & Hrun). exists b, orc', z. split; [done|].
      split; [|by apply Hstep]. intros [Hi Hlt]%Hb. cbn. split; [done|lia]. }
  destruct (Hl orc x1 Hx1 Hin) as (b & orc' & y & Hy & Hb & Hrun). exists b, orc', y. split; [done|]. split; [done|].
  unfold wait_for. eapply runs_bind; [eapply runs_act; [cbn; rewrite mon_timer_registers; reflexivity|apply runs_ret]|].
  cbn [w_state w_oracle w_spawned idle_world]. eapply runs_bind; [exact Hp|]. exact Hrun.
Qed.

(** Both ways to wait, whatever ends them. *)
Definition back_with_lock {R} t st lw iw (r : R) (w : world S) : Prop :=
  exists orc y, mon_owner y = Some t /\ w = idle_world orc y st lw iw.

Lemma only_wait t orc x st lw iw : mon_owner x = Some t ->
  only t (wait (mon self)) (idle_world orc x st lw iw) (back_with_lock t st lw iw).
Proof using All.
  intros Hx. destruct (runs_park_entry t orc x st lw iw Hx) as (x1 & Hx1 & Hp). apply only_bind.
  eapply only_runs; [exact Hp|]. apply only_act. cbn. rewrite get_set. cbn. intros [] s' Hs.
  destruct (mon_resume t x1) as [y|] eqn:Hy; [|done]. injection Hs as <-.
  apply mon_resume_some in Hy as (_ & Ho & _). apply only_ret. exists orc, y. split; [done|].
  unfold idle_world. by rewrite set_set.
Qed.

Lemma only_wait_for t orc x st lw iw : mon_owner x = Some t ->
  only t (wait_for (mon self)) (idle_world orc x st lw iw)
    (fun r w => is_ok r = true /\ back_with_lock t st lw iw r w).
Proof using All.
  intros Hx. destruct (runs_park_entry t orc x st lw iw Hx) as (x1 & Hx1 & Hp). unfold wait_for.
  apply only_bind. eapply only_runs; [eapply runs_act; [cbn; rewrite mon_timer_registers; reflexivity|apply runs_ret]|].
  cbn [w_state w_oracle w_spawned idle_world]. apply only_bind. eapply only_runs; [exact Hp|].
  apply (only_loop t _ _ (fun _ w => exists orc x, mon_owner x = None /\ w = idle_world orc x st lw iw)).
  - intros _ w (orc1 & x2 & Hx2 & ->). apply only_bind, only_choose. intros c orc2. apply only_ret, only_bind.
    destruct (runs_attempt t c orc2 x2 st lw iw Hx2) as (lf & y & _ & Hy & Hr).
    eapply only_runs; [exact Hr|]. apply only_ret. destruct lf; [apply only_ret; split; [done|]|]; by exists orc2, y.
  - by exists orc, x1.
Qed.

(** *** Parking *)

Context (st : ThreadPoolState) (lw iw : Z).

(** The worker is counted and the counters have room for one more change. *)
Record roomy : Prop := {
  rm_running : lifecycle st = Lifecycle.Running;
  rm_idle : 0 <= idle_workers st /\ idle_workers st + 1 < USIZE_MOD;
  rm_idle_atomic : 0 <= iw /\ iw + 1 < USIZE_MOD;
  rm_exiting : 0 <= exiting_workers st /\ exiting_workers st + 1 < USIZE_MOD;
  rm_live : 1 <= live_workers st;
  rm_live_atomic : 1 <= lw < USIZE_MOD;
}.
Hypothesis Hroom : roomy.

Definition counted_idle : ThreadPoolState := set idle_workers_l (idle_workers st + 1) st.
Definition deregistered : ThreadPoolState :=
  set live_workers_l (live_workers st - 1) (set exiting_workers_l (exiting_workers st + 1) st).

(** The pool with the worker counted as idle, and with the worker gone. *)
Definition parked orc x : world S := idle_world orc x counted_idle lw (iw + 1).
Definition there orc x : world S := idle_world orc x st lw iw.
Definition gone orc x : world S := idle_world orc x deregistered (lw - 1) iw.

Lemma runs_go_idle t orc x : runs t (mark_thread_pool_worker_idle self) (there orc x) (Returned tt (parked orc x)).
Proof using All.
  destruct Hroom. unfold parked. rewrite <- (wrap_small (iw + 1)) by (unfold in_usize; lia).
  apply runs_mark. lia.
Qed.

Lemma runs_leave_idle t orc x : runs t (unmark_thread_pool_worker_idle self) (parked orc x) (Returned tt (there orc x)).
Proof using All.
  destruct Hroom. pose proof (runs_unmark t orc x counted_idle lw (iw + 1)) as Hr. unfold counted_idle in Hr.
  rewrite idle_and_back, Z.add_simpl_r, wrap_small in Hr by (unfold in_usize; lia).
  unfold parked, there, counted_idle. apply Hr; cbn; lia.
Qed.

Lemma runs_deregister t i orc x :
  runs t (unregister_exiting_worker self i ;; Ret Leave) (there orc x) (Returned Leave (gone orc x)).
Proof using All. destruct Hroom. eapply runs_bind; [apply runs_unregister; first [done|lia]|apply runs_ret]. Qed.

(** What the worker does once its timed wait is over. *)
Definition may_go : bool := ((1 <? live_workers st) || (inflight =? 0)) && idle_worker_can_retire st.
Definition after_wait i (timed_out : bool) : prog S Decision :=
  should_retire <-
    andp (Ret timed_out) (andp (queue_is_empty self) (andp (no_pending_wake self)
      (andp (orp (state_read self (fun st => 1 <? live_workers st))
                 (n <- tp_inflight_count self ;; Ret (n =? 0)))
            (state_read self idle_worker_can_retire)))) ;;
  unmark_thread_pool_worker_idle self ;;
  if (should_retire : bool) then unregister_exiting_worker self i ;; Ret Leave
  else Ret Again.

Lemma runs_after_wait t i (timed_out : bool) orc x :
  runs t (after_wait i timed_out) (parked orc x)
    (Returned (if timed_out && may_go then Leave else Again)
       (if timed_out && may_go then gone orc x else there orc x)).
Proof using All.
  unfold after_wait. eapply (runs_bind _ _ _ _ (timed_out && may_go) (parked orc x)).
  - destruct timed_out; [|apply runs_ret]. cbn [andp bind andb]. unfold may_go.
    eapply runs_bind; [apply runs_queue_empty|]. eapply runs_bind; [apply runs_no_pending|].
    eapply (runs_bind _ _ _ _ ((1 <? live_workers st) || (inflight =? 0))).
    + eapply runs_bind; [exact (runs_state_read t (fun st => 1 <? live_workers st) orc x counted_idle lw (iw + 1))|].
      cbn [live_workers counted_idle set idle_workers_l].
      destruct (1 <? live_workers st); [apply runs_ret|apply runs_inflight_zero].
    + destruct ((1 <? live_workers st) || (inflight =? 0)); [|apply runs_ret].
      exact (runs_state_read t idle_worker_can_retire orc x counted_idle lw (iw + 1)).
  - eapply runs_bind; [apply runs_leave_idle|]. destruct (timed_out && may_go); [apply runs_deregister|apply runs_ret].
Qed.

Definition wait_result (status : Result bool unit) : option bool :=
  match status with Ok timed_out => Some timed_out | Err _ => None end.

Lemma timed_park_steps i :
  timed_park self i =
  (_keep_alive <- load (locked self keep_alive_l) ;;
   mark_thread_pool_worker_idle self ;;
   nothing <- andp (queue_is_empty self) (no_pending_wake self) ;;
   timed_out <- (if (nothing : bool) then status <- wait_for (mon self) ;; expect (wait_result status) else Ret false) ;;
   after_wait i timed_out).
Proof. reflexivity. Qed.

Lemma runs_keep_alive t orc x :
  runs t (load (locked self keep_alive_l)) (there orc x) (Returned (keep_alive st) (there orc x)).
Proof using All. unfold load, there. act. settle. apply runs_ret. Qed.

Lemma runs_timed_park t i orc x : mon_owner x = Some t -> false ∈ orc ->
  exists (b : bool) orc' y, mon_owner y = Some t /\ (b = false -> false ∈ orc' /\ (length orc' < length orc)%nat) /\
    runs t (timed_park self i) (there orc x)
      (Returned (if b && may_go then Leave else Again) (if b && may_go then gone orc' y else there orc' y)).
Proof using All.
  intros Hx Hin. destruct (runs_wait_for t orc x counted_idle lw (iw + 1) Hx Hin) as (b & orc' & y & Hy & Hb & Hr).
  exists b, orc', y. split; [done|]. split; [done|]. rewrite timed_park_steps.
  eapply runs_bind; [apply runs_keep_alive|]. eapply runs_bind; [apply runs_go_idle|].
  eapply runs_bind; [apply runs_nothing|]. eapply runs_bind; [|apply runs_after_wait].
  eapply runs_bind; [exact Hr|]. apply runs_ret.
Qed.

(** A worker that may not leave goes back to where it was. *)
Definition stays t (d : Decision) (w : world S) : Prop :=
  d = Again /\ exists orc y, mon_owner y = Some t /\ w = there orc y.

Lemma only_timed_park t i orc x : mon_owner x = Some t -> may_go = false ->
  only t (timed_park self i) (there orc x) (stays t).
Proof using All.
  intros Hx Hgo. rewrite timed_park_steps.
  apply only_bind. eapply only_runs; [apply runs_keep_alive|]. apply only_bind. eapply only_runs; [apply runs_go_idle|].
  apply only_bind. eapply only_runs; [apply runs_nothing|]. apply only_bind, only_bind.
  eapply only_mono; [by apply only_wait_for|]. intros r w [Hok (orc1 & y & Hy & ->)].
  destruct r as [b|]; [|done]. apply only_ret. eapply only_runs; [apply runs_after_wait|].
  rewrite Hgo, andb_false_r. split; [done|]. by exists orc1, y.
Qed.

Lemma only_untimed_park t orc x : mon_owner x = Some t -> only t (untimed_park self) (there orc x) (stays t).
Proof using All.
  intros Hx. unfold untimed_park. apply only_bind. eapply only_runs; [apply runs_go_idle|].
  apply only_bind. eapply only_runs; [apply runs_nothing|]. apply only_bind. cbn [when].
  eapply only_mono; [by apply only_wait|]. intros _ w (orc1 & y & Hy & ->).
  apply only_bind. eapply only_runs; [apply runs_leave_idle|]. apply only_ret. split; [done|]. by exists orc1, y.
Qed.

(** *** The critical sections of one round *)
Lemma runs_load_lifecycle t orc x :
  runs t (load (locked self lifecycle_l)) (there orc x) (Returned Lifecycle.Running (there orc x)).
Proof using All. unfold load, there. act. settle. rewrite ?(rm_running Hroom). apply runs_ret. Qed.

Lemma runs_inspect t i orc x : mon_owner x = None ->
  exists z, mon_owner z = None /\
    runs t (inspect self i) (there orc x)
      (Returned (if surplus st then Leave else Park) (if surplus st then gone orc z else there orc z)).
Proof using All.
  intros Hx. assert (Hs : exists d w', runs t (inspect self i) (there orc x) (Returned d w') /\
    d = (if surplus st then Leave else Park) /\
    exists z, mon_owner z = None /\ w' = (if surplus st then gone orc z else there orc z)).
  { apply runs_section; [done|]. intros y Hy.
    exists (if surplus st then Leave else Park), orc, y,
      (if surplus st then deregistered else st), (if surplus st then lw - 1 else lw), iw. split; [done|]. split.
    - eapply runs_bind; [apply runs_load_lifecycle|].
      eapply runs_bind; [eapply runs_bind; [apply runs_queue_empty|apply runs_state_read]|].
      pose proof (rm_live Hroom). destruct (Z.ltb_spec 0 (live_workers st)); [|lia]. rewrite andb_true_r. fold (surplus st).
      destruct (surplus st); [apply runs_deregister|apply runs_ret].
    - intros z Hz. split; [done|]. exists z. split; [done|]. by destruct (surplus st). }
  destruct Hs as (d & w' & Hr & -> & z & Hz & ->). by exists z.
Qed.

Lemma runs_park_kind t orc x :
  runs t (state_read self (fun st => bool_decide (lifecycle st = Lifecycle.Running) && worker_wait_is_timed st))
    (there orc x) (Returned (worker_wait_is_timed st) (there orc x)).
Proof using All.
  pose proof (runs_state_read t (fun st => bool_decide (lifecycle st = Lifecycle.Running) && worker_wait_is_timed st)
    orc x st lw iw) as Hr. cbv beta in Hr. by rewrite bool_decide_true in Hr by apply Hroom.
Qed.

Lemma runs_still_running t orc x :
  runs t (state_read self (fun st => bool_decide (lifecycle st = Lifecycle.Running))) (there orc x)
    (Returned true (there orc x)).
Proof using All.
  pose proof (runs_state_read t (fun st => bool_decide (lifecycle st = Lifecycle.Running)) orc x st lw iw) as Hr.
  cbv beta in Hr. by rewrite bool_decide_true in Hr by apply Hroom.
Qed.

Lemma runs_park t i orc x : mon_owner x = None -> false ∈ orc -> worker_wait_is_timed st = true -> may_go = true ->
  exists (b : bool) orc' z, mon_owner z = None /\ (b = false -> false ∈ orc' /\ (length orc' < length orc)%nat) /\
    runs t (park self i) (there orc x) (Returned (if b then Leave else Again) (if b then gone orc' z else there orc' z)).
Proof using All.
  intros Hx Hin Hti Hgo. assert (Hs : exists d w', runs t (park self i) (there orc x) (Returned d w') /\
    exists (b : bool) orc' z, mon_owner z = None /\ (b = false -> false ∈ orc' /\ (length orc' < length orc)%nat) /\
      d = (if b then Leave else Again) /\ w' = (if b then gone orc' z else there orc' z)).
  { apply runs_section; [done|]. intros y Hy. destruct (runs_timed_park t i orc y Hy Hin) as (b & orc' & y' & Hy' & Hb & Hr).
    rewrite Hgo, andb_true_r in Hr.
    exists (if b then Leave else Again), orc', y', (if b then deregistered else st), (if b then lw - 1 else lw), iw.
    split; [done|]. split.
    - eapply runs_bind; [apply runs_park_kind|]. rewrite Hti. by destruct b.
    - intros z Hz. exists b, orc', z. split; [done|]. split; [done|]. split; [done|]. by destruct b. }
  destruct Hs as (d & w' & Hr & b & orc' & z & Hz & Hb & -> & ->). by exists b, orc', z.
Qed.

Lemma only_park t i orc x : mon_owner x = None -> worker_wait_is_timed st = false \/ may_go = false ->
  only t (park self i) (there orc x) (fun d w => d = Again /\ exists orc' z, mon_owner z = None /\ w = there orc' z).
Proof using All.
  intros Hx Hor. apply only_section; [done|]. intros y Hy. apply only_bind. eapply only_runs; [apply runs_park_kind|].
  assert (Hback : forall d w, stays t d w -> exists orc' y' st' lw' iw', mon_owner y' = Some t /\
    w = idle_world orc' y' st' lw' iw' /\ forall z, mon_owner z = None -> d = Again /\
      exists orc1 z1, mon_owner z1 = None /\ idle_world orc' z st' lw' iw' = there orc1 z1).
  { intros d w (-> & orc1 & y1 & Hy1 & ->). exists orc1, y1, st, lw, iw. split; [done|]. split; [done|].
    intros z Hz. split; [done|]. by exists orc1, z. }
  destruct (worker_wait_is_timed st) eqn:Hti.
  - eapply only_mono; [apply only_timed_park; [done|by destruct Hor]|exact Hback].
  - apply only_bind. eapply only_runs; [apply runs_still_running|].
    eapply only_mono; [by apply only_untimed_park|exact Hback].
Qed.

(** *** Waiting for a job that does not come *)
Lemma retires_surplus : surplus st = true -> retires st inflight = true.
Proof using. unfold retires. by intros ->. Qed.

Lemma retires_timed : surplus st = false -> retires st inflight = worker_wait_is_timed st && may_go.
Proof using.
  intros Hs. unfold retires, may_go, idle_worker_can_retire. fold (surplus st). rewrite Hs. cbn [orb].
  destruct (worker_wait_is_timed st) eqn:Hti; [|done]. cbn [andb]. unfold worker_wait_is_timed in Hti.
  rewrite orb_comm in Hti. by rewrite Hti, andb_true_r.
Qed.

Lemma runs_wait_for_job t i orc : forall x, mon_owner x = None -> retires st inflight = true ->
  surplus st = true \/ false ∈ orc ->
  exists orc' z, mon_owner z = None /\ runs t (wait_for_job self i) (there orc x) (Returned None (gone orc' z)).
Proof using All.
  induction orc as [orc IH] using (induction_ltof1 _ (@length bool)); intros x Hx Hret Hwhen. unfold wait_for_job, loop.
  destruct (runs_inspect t i orc x Hx) as (z & Hz & Hin). destruct (surplus st) eqn:Hs.
  - exists orc, z. split; [done|]. apply runs_loop.
    assert (Hround : runs t (wait_for_job_iteration self i tt) (there orc x) (Returned (inr None) (gone orc z))).
    { eapply runs_bind; [apply runs_take_nothing|]. eapply runs_bind; [exact Hin|]. apply runs_ret. }
    eapply runs_bind; [exact Hround|]. apply runs_ret.
  - pose proof Hret as Hrt. rewrite retires_timed in Hrt by done. apply andb_true_iff in Hrt as [Hti Hgo].
    destruct Hwhen as [|Hor]; [done|].
    destruct (runs_park t i orc z Hz Hor Hti Hgo) as (b & orc1 & z1 & Hz1 & Hb & Hpk).
    assert (Hround : runs t (wait_for_job_iteration self i tt) (there orc x)
      (Returned (if b then inr None else inl tt) (if b then gone orc1 z1 else there orc1 z1))).
    { eapply runs_bind; [apply runs_take_nothing|]. eapply runs_bind; [exact Hin|].
      eapply runs_bind; [exact Hpk|]. destruct b; apply runs_ret. }
    destruct b.
    + exists orc1, z1. split; [done|]. apply runs_loop. eapply runs_bind; [exact Hround|]. apply runs_ret.
    + destruct Hb as [Hf Hlt]; [done|]. destruct (IH orc1 Hlt z1 Hz1 Hret (or_intror Hf)) as (orc2 & z2 & Hz2 & Hr).
      exists orc2, z2. split; [done|]. apply runs_loop. eapply runs_bind; [exact Hround|]. exact Hr.
Qed.

Lemma only_wait_for_job t i orc x : mon_owner x = None -> retires st inflight = false ->
  only t (wait_for_job self i) (there orc x) (fun _ _ => False).
Proof using All.
  intros Hx Hret. assert (Hs : surplus st = false) by (destruct (surplus st) eqn:Hs; [by rewrite retires_surplus in Hret|done]).
  rewrite retires_timed in Hret by done. apply andb_false_iff in Hret.
  apply (only_loop t _ _ (fun _ w => exists orc x, mon_owner x = None /\ w = there orc x)); [|by exists orc, x].
  intros [] w (orc1 & x1 & Hx1 & ->). apply only_bind. eapply only_runs; [apply runs_take_nothing|].
  destruct (runs_inspect t i orc1 x1 Hx1) as (z & Hz & Hin). rewrite Hs in Hin.
  apply only_bind. eapply only_runs; [exact Hin|]. apply only_bind.
  eapply only_mono; [by apply only_park|]. intros d w (-> & orc2 & z2 & Hz2 & ->). apply only_ret. by exists orc2, z2.
Qed.

(** *** Leaving *)
Definition left_pool (orc : list bool) x : world S :=
  idle_world orc x (set live_workers_l (live_workers st - 1) st) (lw - 1) iw.

Lemma runs_exit t orc x : mon_owner x = None ->
  exists z, mon_owner z = None /\ runs t (finish_worker_exit self) (gone orc x) (Returned tt (left_pool orc z)).
Proof using All.
  intros Hx. assert (Hs : exists u w', runs t (finish_worker_exit self) (gone orc x) (Returned u w') /\
    exists z, mon_owner z = None /\ w' = left_pool orc z).
  { apply runs_section; [done|]. intros y Hy.
    exists tt, orc, (mon_notify_all y), (set live_workers_l (live_workers st - 1) st), (lw - 1), iw.
    split; [by rewrite mon_notify_owner|]. split; [|by intros z Hz; exists z].
    unfold guarded_decr, checked_sub, notify_if_terminated, tp_is_terminated_locked, andp, state_read, notify_all, mon_do. cbn.
    assert (He : 1 <=? exiting_workers st + 1 = true) by (destruct Hroom; apply Z.leb_le; lia).
    eapply runs_act; [cbn; rewrite ?get_set; cbn; rewrite He; reflexivity|]. cbn.
    eapply runs_act; [cbn; rewrite ?get_set; cbn; rewrite (rm_running Hroom); reflexivity|]. cbn.
    act. settle. rewrite Z.add_simpl_r, ?(rm_running Hroom). apply runs_ret. }
  destruct Hs as ([] & w' & Hr & z & Hz & ->). by exists z.
Qed.
End idle.

Lemma world_shape {S M} (self : lens S (ThreadPoolInner M)) `{!LensLaws self} p x st lw iw (w : world S) :
  part self w = idle_pool p x st lw iw -> w = idle_world self p (w_state w) (w_spawned w) (w_oracle w) x st lw iw.
Proof.
  intros Hp. destruct w as [s orc sp]. unfold idle_world, part in *. cbn in *. by rewrite <- Hp, set_get.
Qed.

Section worker.
Context {S M : Type} `{MonitorLaws M}.
Context (self : lens S (ThreadPoolInner M)) (log : lens S (list Event)).
Context `{!LensLaws self, !LensLaws log, !Apart self log} (panics : Event -> bool).
Definition retire_user : UserCode S := queue_user log panics.
#[local] Existing Instance retire_user.
Implicit Types (w : world S) (v : QView).

(** The worker's stop hook leaves the pool alone, and its exit takes it off. *)
Lemma runs_get_hooks t w : runs t (get_hooks self) w (Returned (hooks (part self w)) w).
Proof. apply runs_read. Qed.

Lemma part_logged evs w : part self (with_part log evs w) = part self w.
Proof. unfold part, with_part. cbn. apply apart_get. Qed.

Lemma runs_worker_stop t i p inflight st lw iw w x : resting p inflight -> roomy st lw iw -> mon_owner x = None ->
  part self w = idle_pool p x (deregistered st) (lw - 1) iw ->
  exists z w', mon_owner z = None /\
    runs t (hooks <- get_hooks self ;; run_after_worker_stop hooks i ;; finish_worker_exit self ;;
            Ret (@inr unit unit tt)) w (Returned (inr tt) w') /\
    part self w' = idle_pool p z (set live_workers_l (live_workers st - 1) st) (lw - 1) iw /\
    part log w' = part log w ++ hook_events (hook_after_worker_stop (hooks p)) i /\
    w_spawned w' = w_spawned w.
Proof.
  intros Hp Hr Hx Hw. set (evs := hook_events (hook_after_worker_stop (hooks p)) i).
  set (w1 := with_part log (part log w ++ evs) w).
  assert (Hw1 : part self w1 = idle_pool p x (deregistered st) (lw - 1) iw) by (by unfold w1; rewrite part_logged).
  destruct (runs_exit self p inflight Hp (w_state w1) (w_spawned w1) st lw iw Hr t (w_oracle w1) x Hx) as (z & Hz & Hrun).
  unfold gone in Hrun. rewrite <- (world_shape self p _ _ _ _ w1 Hw1) in Hrun.
  eexists z, _. split; [done|]. split.
  - eapply runs_bind; [apply runs_get_hooks|]. rewrite Hw. eapply runs_bind; [apply hook_logs; apply _|].
    eapply runs_bind; [exact Hrun|]. apply runs_ret.
  - split; [unfold left_pool, idle_world, part; cbn; by rewrite get_set|]. split; [|done].
    unfold left_pool, idle_world, part. cbn. rewrite apart_get'. apply get_set.
Qed.

(** Room for the worker to count itself as idle, and no wake-up owed to anyone. *)
Definition idle_room v (p : ThreadPoolInner M) : Prop :=
  pending_worker_wakes p = 0 /\ 0 <= idle_workers (qv_state v) /\ idle_workers (qv_state v) + 1 < USIZE_MOD /\
  0 <= idle_worker_count p /\ idle_worker_count p + 1 < USIZE_MOD.

Lemma idle_resting v p : qview_of v p -> qv_queue v = [] -> idle_room v p -> resting p (spec_inflight (qv_gate v)).
Proof.
  intros Hv Hq Hi. pose proof (qv_counts _ _ Hv) as Hc. split.
  - by rewrite (qv_list _ _ Hv), Hq.
  - by rewrite (lr_queued _ _ Hc), (qv_length _ _ Hv), Hq.
  - apply (gate_word_count _ _ (lr_gate _ _ Hc)).
  - apply Hi.
Qed.

Lemma idle_roomy v p : lifecycle (qv_state v) = Lifecycle.Running -> counted v -> idle_room v p ->
  roomy (qv_state v) (qv_workers v) (idle_worker_count p).
Proof. intros Hr (? & ? & ? & ? & ?) (? & ? & ? & ? & ?). unfold in_usize in *. split; [done|lia..]. Qed.

Lemma idle_pool_self v p : qview_of v p ->
  p = idle_pool p (mon_sync (state_monitor p)) (qv_state v) (qv_workers v) (idle_worker_count p).
Proof. intros Hv. rewrite <- (qv_data _ _ Hv), <- (qv_live_count _ _ Hv). by destruct p as [[]]. Qed.

(** The world once the worker has started: the pool is as it was. *)
Definition started i v w : world S :=
  with_part log (part log w ++ hook_events (hook_before_worker_start (v_hooks v)) i) w.

Lemma runs_start t i v w o : qview_of v (part self w) ->
  runs t (loop (thread_pool_worker_iteration self (has_task_hooks (v_hooks v)) i) tt) (started i v w) o ->
  runs t (thread_pool_worker_run self i) w o.
Proof.
  intros Hv Ho. eapply runs_bind; [apply runs_get_hooks|]. rewrite (qv_hooks _ _ Hv).
  eapply runs_bind; [apply hook_logs; apply _|]. exact Ho.
Qed.

Lemma started_shape i v w : qview_of v (part self w) -> started i v w =
  idle_world self (part self w) (w_state (started i v w)) (w_spawned w) (w_oracle w)
    (mon_sync (state_monitor (part self w))) (qv_state v) (qv_workers v) (idle_worker_count (part self w)).
Proof.
  intros Hv. refine (world_shape self (part self w) _ _ _ _ (started i v w) _).
  unfold started. rewrite part_logged. by apply idle_pool_self.
Qed.

(** The pool without the worker. *)
Definition without_worker v x (p : ThreadPoolInner M) : ThreadPoolInner M :=
  set state_monitor_l (MkMonitor x (set live_workers_l (live_workers (qv_state v) - 1) (qv_state v)))
    (set live_worker_count_l (qv_workers v - 1) p).

Lemma worker_retires t i v w :
  qview_of v (part self w) -> lifecycle (qv_state v) = Lifecycle.Running -> qv_queue v = [] -> counted v ->
  idle_room v (part self w) -> retires (qv_state v) (spec_inflight (qv_gate v)) = true ->
  surplus (qv_state v) = true \/ false ∈ w_oracle w ->
  exists w' x, runs t (thread_pool_worker_run self i) w (Returned tt w') /\ mon_owner x = None /\
    part self w' = without_worker v x (part self w) /\
    part log w' = part log w ++ hook_events (hook_before_worker_start (v_hooks v)) i
                  ++ hook_events (hook_after_worker_stop (v_hooks v)) i /\
    w_spawned w' = w_spawned w.
Proof.
  intros Hv Hrun Hq Hc Hi Hret Hwhen. set (p := part self w) in *.
  pose proof (idle_resting v p Hv Hq Hi) as Hrest. pose proof (idle_roomy v p Hrun Hc Hi) as Hroom.
  destruct (runs_wait_for_job self p _ Hrest (w_state (started i v w)) (w_spawned w) _ _ _ Hroom t i (w_oracle w)
    _ (qv_free _ _ Hv) Hret Hwhen) as (orc & z & Hz & Hw).
  unfold there in Hw. pose proof (started_shape i v w Hv) as Hsh. fold p in Hsh. rewrite <- Hsh in Hw.
  match type of Hw with runs _ _ _ (Returned _ ?w1) => set (w2 := w1) in * end.
  assert (Hp2 : part self w2 = idle_pool p z (deregistered (qv_state v)) (qv_workers v - 1) (idle_worker_count p))
    by apply get_set.
  destruct (runs_worker_stop t i p _ _ _ _ w2 z Hrest Hroom Hz Hp2) as (x & w' & Hx & Hs & Hp' & Hl & Hsp).
  exists w', x. split; [|split; [done|split; [by rewrite Hp'|split]]].
  - eapply runs_start; [done|]. unfold loop. apply runs_loop.
    eapply runs_bind; [eapply runs_bind; [exact Hw|exact Hs]|]. apply runs_ret.
  - rewrite Hl. unfold w2, gone, idle_world, part, started, with_part. cbn. rewrite apart_get', get_set, <- app_assoc.
    by rewrite (qv_hooks v p Hv).
  - by rewrite Hsp.
Qed.

Lemma worker_stays t i v w :
  qview_of v (part self w) -> lifecycle (qv_state v) = Lifecycle.Running -> qv_queue v = [] -> counted v ->
  idle_room v (part self w) -> retires (qv_state v) (spec_inflight (qv_gate v)) = false ->
  only t (thread_pool_worker_run self i) w (fun _ _ => False).
Proof.
  intros Hv Hrun Hq Hc Hi Hret. set (p := part self w) in *.
  apply only_bind. eapply only_runs; [apply runs_get_hooks|]. apply only_bind.
  rewrite (qv_hooks v (part self w) Hv). eapply only_runs; [apply hook_logs; apply _|].
  fold (v_hooks v). fold (started i v w).
  apply (only_loop t _ _ (fun _ w1 => w1 = started i v w)); [|done]. intros [] w1 ->. apply only_bind.
  apply (only_mono _ _ _ (fun _ _ => False)); [|by intros ? ? []].
  pose proof (started_shape i v w Hv) as Hsh. fold p in Hsh. rewrite Hsh.
  apply (only_wait_for_job self p _ (idle_resting v p Hv Hq Hi) _ _ _ _ _ (idle_roomy v p Hrun Hc Hi)).
  - apply (qv_free _ _ Hv).
  - done.
Qed.
End worker.

(** C30. When an idle worker retires. Run alone on a running dynamic pool with an
    empty queue, a worker calls its start hook and waits. If the pool has more
    workers than its maximum it leaves at once; if waits are timed - because core
    workers may time out or there are more workers than the core size - it leaves
    once the environment lets a timer fire, whatever wake-ups come before, unless it
    is the last worker and a submitter is inside admission. It then calls its stop
    hook, and the pool is as before but for this worker. In every other case it stays
    for ever: it never returns and never panics. *)
Theorem dyn_idle_worker_retires {S M} `{Monitor M} (HM : MonitorLaws M)
    (self : lens S (ThreadPoolInner M)) (log : lens S (list Event))
    (HL : LensLaws self) (HLl : LensLaws log) (HA : Apart self log)
    (panics : Event -> bool) (t : nat) (i : Z) (v : QView) (w : world S)
    (Hv : qview_of v (part self w)) (Hrun : lifecycle (qv_state v) = Lifecycle.Running)
    (Hq : qv_queue v = []) (Hc : counted v) (Hi : idle_room v (part self w)) :
  let worker := thread_pool_worker_run (H0 := recording log panics) self i in
  if retires (qv_state v) (spec_inflight (qv_gate v))
  then surplus (qv_state v) = true \/ false ∈ w_oracle w ->
    exists w' x, runs t worker w (Returned tt w') /\ mon_owner x = None /\
      part self w' = without_worker v x (part self w) /\
      part log w' = part log w ++ hook_events (hook_before_worker_start (v_hooks v)) i
                    ++ hook_events (hook_after_worker_stop (v_hooks v)) i /\
      w_spawned w' = w_spawned w
  else (forall w', ~ runs t worker w (Returned tt w')) /\ (forall w', ~ runs t worker w (Panicked w')).
Proof.
  intros worker. destruct (retires _ _) eqn:Hr.
  - by apply worker_retires.
  - pose proof (worker_stays self log panics t i v w Hv Hrun Hq Hc Hi Hr) as Ho.
    split; intros w'; [intros Hw; exact (only_returned _ _ _ _ _ _ Ho Hw)|by eapply only_panicked].
Qed.

(** Two idle workers over a core of one: this one goes at the first timeout. *)
Definition rest_hooks2 : ThreadPoolHooks := MkThreadPoolHooks (Some 7%nat) (Some 8%nat) None None.
Definition over_state : ThreadPoolState := MkThreadPoolState Lifecycle.Running 2 0 1 1 2 60 false 2.
Definition over_pool (st : ThreadPoolState) : ThreadPoolInner CMon :=
  MkThreadPoolInner (MkMonitor mon_new st)
    (MkPoolAccounting (MkAdmissionGate 0) (Some 3) 0 0 0 0 0 0 0) false (live_workers st) 1 0 0 0
    (MkMutex None []) ∅ "w" None rest_hooks2.
Definition over_view (st : ThreadPoolState) : QView :=
  MkQView (MkLedger (MkGateSpec true 0) (Some 3) 0 0 0 0 0 0) [] st false (live_workers st) (MkRest "w" None rest_hooks2 ∅).
Definition over_world (st : ThreadPoolState) : world (ThreadPoolInner CMon * list Event) :=
  World (over_pool st, []) [true; true; false] [].
(** The same with one worker fewer. *)
Definition core_state : ThreadPoolState := set live_workers_l 1 over_state.

Lemma over_qview st : qview_of (over_view st) (part fst_l (over_world st)).
Proof. constructor; try done. - intros e job Hin. by apply elem_of_nil in Hin. - constructor. Qed.

Lemma dyn_idle_worker_retires_witness :
  (exists w', runs 1 (thread_pool_worker_run (H0 := recording snd_l drain_panics) fst_l 1) (over_world over_state) (Returned tt w') /\
     live_workers (mon_data (state_monitor (part fst_l w'))) = 1 /\
     part snd_l w' = [HookCalled 7 1; HookCalled 8 1]) /\
  (forall w', ~ runs 1 (thread_pool_worker_run (H0 := recording snd_l drain_panics) fst_l 1) (over_world core_state) (Returned tt w')).
Proof.
  split.
  - destruct (dyn_idle_worker_retires _ fst_l snd_l _ _ _ drain_panics 1 1 (over_view over_state) (over_world over_state))
      as (w' & x & Hr & Hx & Hp & Hl & _).
    + apply over_qview.
    + reflexivity.
    + reflexivity.
    + unfold counted. vm_compute. repeat split; discriminate || reflexivity.
    + unfold idle_room. vm_compute. repeat split; discriminate || reflexivity.
    + right. cbn. set_solver.
    + exists w'. split; [exact Hr|]. split; [by rewrite Hp|]. rewrite Hl. reflexivity.
  - apply (dyn_idle_worker_retires _ fst_l snd_l _ _ _ drain_panics 1 1 (over_view core_state) (over_world core_state)).
    + apply over_qview.
    + reflexivity.
    + reflexivity.
    + unfold counted. vm_compute. repeat split; discriminate || reflexivity.
    + unfold idle_room. vm_compute. repeat split; discriminate || reflexivity.
Defined.
