(* ===== verification/DynCancel.v ===== *)
(** Tickets of a dynamic pool, run alone: what [cancel_queued] answers for every
    state of its entry, and the round trip from preparing a job to cancelling it. *)
From S2P Require Import Prelude Prog Sync Seq SeqLogic AdmissionGate PoolAccounting.
From S2P Require Import AccountingRefine Types Hooks PoolJob JobLifecycle SeqPool SeqView Builder.
From S2P Require Import DynState DynInner DynWorker DynSubmit DynQueue DynQueueList DynTicket DynAdmission DynStop DynPool Concrete.
Local Open Scope Z_scope.
#[local] Arguments bind : simpl never.

(** States in which a ticket has nothing to cancel, and nothing to wait for. *)
Definition settled (x : QueuedJobState.t) : Prop :=
  match x with QueuedJobState.Accepting _ _ | QueuedJobState.Queued _ => False | _ => True end.

(** Preparing a job, submitting it, and cancelling it twice by its ticket. *)
Definition cancel_round_trip {S M} `{Monitor M} `{UserCode S} (self : lens S (ThreadPoolInner M))
    (accept run cancel : nat) : prog S (Result unit PoolJobSubmissionError * bool * bool) :=
  prepared <- prepare_cancellable_job self accept run cancel ;;
  submitted <- submit_job self prepared.1 ;;
  first <- DynSubmit.cancel_queued self true prepared.2 ;;
  second <- DynSubmit.cancel_queued self true prepared.2 ;;
  Ret (submitted, first, second).

Section cancel.
Context {S M : Type} `{MonitorLaws M}.
Context (self : lens S (ThreadPoolInner M)) (log : lens S (list Event)).
Context `{!LensLaws self, !LensLaws log, !Apart self log} (panics : Event -> bool).
Implicit Types (v : QView) (t e : nat) (entry : QueuedJob) (q : list (nat * PoolJob)).
Definition cancel_user : UserCode S := queue_user log panics.
#[local] Existing Instance cancel_user.
Local Abbreviation Seen := (Seen S (ThreadPoolInner M)).
Implicit Types (s : Seen).

Lemma in_state_same x entry : entry_state entry = MkMutex None x -> in_state x entry = entry.
Proof. destruct entry. cbn. by intros ->. Qed.

(** Locking an entry to look at it, and unlocking it, changes nothing. *)
Lemma pdoes_entry_look {B} t e x entry (f : QueuedJobState.t -> prog S B) s (Post : B -> Seen -> list Event -> Prop) :
  entries (seen_pool s) !! e = Some entry -> entry_state entry = MkMutex None x ->
  pdoes self log t (f x)
    (with_entry_seen e (MkQueuedJob (MkMutex (Some t) x) (entry_changed entry) (entry_pool entry)) s) Post ->
  pdoes self log t (entry_lock self e ;; state <- entry_read self e ;; f state) s Post.
Proof.
  intros He Hx HP. apply pdoes_bind. eapply (pdoes_entry_act self log); [exact He|by rewrite Hx|].
  apply pdoes_bind. eapply (pdoes_entry_get self log); [apply entry_seen|]. cbn [mutex_data entry_state].
  exact HP.
Qed.

Lemma pdoes_entry_release {B} t e x entry (p : prog S B) s (Post : B -> Seen -> list Event -> Prop) :
  entries (seen_pool s) !! e = Some entry -> entry_state entry = MkMutex None x ->
  pdoes self log t p s Post ->
  pdoes self log t (entry_unlock self e ;; p)
    (with_entry_seen e (MkQueuedJob (MkMutex (Some t) x) (entry_changed entry) (entry_pool entry)) s) Post.
Proof.
  intros He Hx HP. apply pdoes_bind. eapply (pdoes_entry_act self log); [apply entry_seen|done|].
  rewrite with_entry_seen_twice. cbn [mutex_data entry_state entry_changed entry_pool].
  replace (with_entry_seen e _ s) with s; [exact HP|].
  destruct s as [[] th]. unfold with_entry_seen, with_pool. cbn in *. rewrite insert_id; [done|].
  rewrite He. destruct entry. cbn in *. by rewrite Hx.
Qed.

Lemma pdoes_cancel_settled t v s e entry (Post : bool -> Seen -> list Event -> Prop) :
  qview_of v (seen_pool s) -> qv_others v !! e = Some entry -> unheld entry ->
  settled (mutex_data (entry_state entry)) -> Post false s [] ->
  pdoes self log t (DynSubmit.cancel_queued self true e) s Post.
Proof.
  intros Hv Ho Hu Hs HP. pose proof (others_at _ _ _ _ Hv Ho) as He.
  assert (Hx : entry_state entry = MkMutex None (mutex_data (entry_state entry))).
  { unfold unheld in Hu. destruct (entry_state entry). cbn in *. by subst. }
  unfold DynSubmit.cancel_queued. cbn [negb]. eapply pdoes_entry_look; [exact He|exact Hx|].
  destruct (mutex_data (entry_state entry)); try done;
    (eapply pdoes_entry_release; [exact He|exact Hx|by apply pdoes_ret]).
Qed.

Lemma pdoes_cancel_queued t v s e j q1 q2 :
  qview_of v (seen_pool s) -> qv_queue v = q1 ++ (e, (accepted_job panics j).2) :: q2 ->
  pdoes self log t (DynSubmit.cancel_queued self true e) s (fun b s' evs =>
    b = true /\ seen_threads s' = seen_threads s /\ cancelled j evs /\ exists entry,
    qview_of (with_others (<[e := taken entry]> (qv_others v))
      (v_after v (led_add (qv_ledger v) 0 (-1) 0 0 0 1) (q1 ++ q2))) (seen_pool s')).
Proof.
  intros Hv Hq. destruct (qv_entries _ _ Hv e (accepted_job panics j).2) as (entry & He & Hx); [rewrite Hq; set_solver|].
  unfold DynSubmit.cancel_queued. cbn [negb]. eapply pdoes_entry_look; [exact He|exact Hx|].
  eapply pdoes_entry_release; [exact He|exact Hx|]. by apply (pdoes_cancel_entry self log).
Qed.

(** A prepared job and its ticket: a new entry that is not queued. *)
Lemma pdoes_prepare t v s a r c (Post : PoolJob * nat -> Seen -> list Event -> Prop) :
  qview_of v (seen_pool s) ->
  (forall e s', qview_of (with_others (<[e := queued_job_prepared]> (qv_others v)) v) (seen_pool s') ->
     seen_threads s' = seen_threads s -> Post (ticketed (Some e) (SpecCustom a r c), e) s' []) ->
  pdoes self log t (prepare_cancellable_job self a r c) s Post.
Proof.
  intros Hv HP. apply pdoes_bind. apply (pdoes_entry_alloc self log). cbn zeta. apply pdoes_ret. apply HP; [|done].
  set (e := fresh (dom (entries (seen_pool s)))).
  assert (Hfr : entries (seen_pool s) !! e = None) by (apply not_elem_of_dom; apply is_fresh).
  destruct Hv as [Hc Hl Hq He Hd Hf Hs Ht Hwk Hpr Hsz Hho Hu]. split; cbn; try done.
  - intros e' job Hin. destruct (He e' job Hin) as (en & He1 & He2). exists en. split; [|done].
    rewrite lookup_insert_ne; [done|]. intros <-. congruence.
  - intros e' entry. unfold qv_others. cbn. rewrite !lookup_insert_Some. intros [[<- <-]|[Hne Hin]].
    + split; [by left|]. intros ([e' job] & Heq & Hin)%list_elem_of_fmap. cbn in Heq. subst.
      destruct (He _ _ Hin) as (en & He1 & _). fold e in He1. congruence.
    + destruct (Hu _ _ Hin). split; [by right|done].
Qed.

(** What the round trip needs of a submission. *)
Definition visible_result (j : JobSpec) (r : Result unit PoolJobSubmissionError) : list Event :=
  match r with
  | Ok _ => accept_events j ++ cancel_events j
  | Err AcceptancePanicked => accept_events j
  | Err (Rejected _) => []
  end.

Definition spent (j : JobSpec) (r : Result unit PoolJobSubmissionError) (evs : list Event) : Prop :=
  concat (map consumes evs) ≡ₚ pieces j /\ filter (fun x => is_destructor x = false) evs = visible_result j r.

Definition kept v u : Prop :=
  qv_stop u = qv_stop v /\
  (qv_state u = qv_state v \/ qv_state u = grown (qv_state v) \/ qv_state u = not_grown (qv_state v)).

Lemma accepted_summary v u s' e j r evs :
  (exists entry, qv_others v !! e = Some entry) -> kept u v ->
  accepted panics v (Some e) j r s' evs ->
  exists v', qview_of v' (seen_pool s') /\ kept u v' /\
    if acceptance_fails panics j then
      r = Err AcceptancePanicked /\ spent j r evs /\ qv_queue v' = qv_queue v /\ qv_ledger v' = qv_ledger v /\
      exists entry, qv_others v' !! e = Some entry /\ unheld entry /\ settled (mutex_data (entry_state entry))
    else
      r = Ok tt /\ evs = accept_events j /\ qv_queue v' = qv_queue v ++ [(e, (accepted_job panics j).2)] /\
      qv_ledger v' = led_add (qv_ledger v) 0 1 0 0 0 0.
Proof.
  intros [entry Ho] Hk. unfold accepted. destruct (acceptance_fails panics j).
  - intros (-> & Hc & Hf & Hv). eexists. split; [exact Hv|]. split; [done|]. split; [done|]. split; [done|].
    split; [done|]. split; [done|]. exists (rejected entry). split; [|done].
    change (alter rejected e (qv_others v) !! e = Some (rejected entry)). by rewrite lookup_alter_eq, Ho.
  - intros (-> & -> & e' & He & Hv). eexists. split; [exact Hv|]. split; [done|].
    destruct He as [|[= <-]]; [done|]. done.
Qed.

Lemma refused_summary v u s' e j err r evs :
  (exists entry, qv_others v !! e = Some entry /\ unheld entry /\ settled (mutex_data (entry_state entry))) ->
  kept u v -> refused v j err r s' evs ->
  exists v', qview_of v' (seen_pool s') /\ kept u v' /\ is_ok r = false /\ spent j r evs /\
    qv_queue v' = qv_queue v /\ qv_ledger v' = qv_ledger v /\
    exists entry, qv_others v' !! e = Some entry /\ unheld entry /\ settled (mutex_data (entry_state entry)).
Proof. intros He Hk (-> & Hd & Hv). exists v. done. Qed.

Definition submit_summary v u (e : nat) (j : JobSpec) r s' evs : Prop :=
  exists v', qview_of v' (seen_pool s') /\ kept u v' /\
    ((r = Ok tt /\ evs = accept_events j /\ qv_queue v' = qv_queue v ++ [(e, (accepted_job panics j).2)] /\
      qv_ledger v' = led_add (qv_ledger v) 0 1 0 0 0 0) \/
     (is_ok r = false /\ spent j r evs /\ qv_queue v' = qv_queue v /\ qv_ledger v' = qv_ledger v /\
      exists entry, qv_others v' !! e = Some entry /\ unheld entry /\ settled (mutex_data (entry_state entry)))).

Lemma submitted_summary v s s' e j r evs :
  (exists entry, qv_others v !! e = Some entry /\ unheld entry /\ settled (mutex_data (entry_state entry))) ->
  submitted self log panics v s (Some e) j r s' evs -> submit_summary v v e j r s' evs.
Proof.
  intros He. assert (He' : exists entry, qv_others v !! e = Some entry) by (destruct He as (en & ? & _); by exists en).
  assert (Hacc : forall u, kept v u -> qv_others u = qv_others v -> qv_queue u = qv_queue v -> qv_ledger u = qv_ledger v ->
    accepted panics u (Some e) j r s' evs -> submit_summary v v e j r s' evs).
  { intros u Hk Ho Hq Hl Ha. rewrite <- Ho in He'. destruct (accepted_summary u v s' e j r evs He' Hk Ha) as (v' & Hv' & Hk' & Hr).
    exists v'. rewrite <- Hq, <- Hl. split; [done|]. split; [done|]. destruct (acceptance_fails panics j); [right|by left].
    destruct Hr as (-> & Hr). done. }
  assert (Href : forall u err, kept v u -> qv_others u = qv_others v -> qv_queue u = qv_queue v -> qv_ledger u = qv_ledger v ->
    refused u j err r s' evs -> submit_summary v v e j r s' evs).
  { intros u err Hk Ho Hq Hl Hr. rewrite <- Ho in He. destruct (refused_summary u v s' e j err r evs He Hk Hr) as (v' & Hv' & Hk' & Hr').
    exists v'. rewrite <- Hq, <- Hl. auto. }
  unfold submitted. destruct (if spec_open (qv_gate v) then _ else _) as [err| |].
  - intros [Hr _]. eapply (Href v); [by split; [|left]|done..|exact Hr].
  - intros [Ha _]. by apply (Hacc v); [split; [|left]|..].
  - intros [[Ha _]|[Hr _]].
    + by apply (Hacc (with_new_worker v)); [split; [|right; left]|..].
    + eapply (Href (with_state (not_grown (qv_state v)) v)); [by split; [|right; right]|done..|exact Hr].
Qed.

(** *** The round trip *)
Definition round_trip_end v u (r : Result unit PoolJobSubmissionError) : Prop :=
  kept v u /\ qv_queue u = qv_queue v /\
  qv_ledger u = led_add (qv_ledger v) 0 0 0 0 0 (if is_ok r then 1 else 0).

Lemma pdoes_two_cancels t v s e j r evs u :
  submit_summary v u e j r s evs -> u = v ->
  pdoes self log t (
    first <- DynSubmit.cancel_queued self true e ;;
    second <- DynSubmit.cancel_queued self true e ;;
    Ret (r, first, second)) s (fun x s' evs' => x = (r, is_ok r, false) /\ seen_threads s' = seen_threads s /\
      spent j r (evs ++ evs') /\ exists v', round_trip_end v v' r /\ qview_of v' (seen_pool s')).
Proof.
  intros (v1 & Hv1 & Hk & [(-> & -> & Hq & Hl)|(Hr & Hsp & Hq & Hl & entry & Ho & Hu & Hset)]) ->.
  - apply pdoes_bind. eapply pdoes_mono; [eapply (pdoes_cancel_queued t v1); [exact Hv1|exact Hq]|].
    intros b s1 evs1 (-> & Hs1 & [Hc Hf] & entry & Hv2). apply pdoes_bind.
    eapply pdoes_cancel_settled; [exact Hv2|by apply lookup_insert_eq|done..|]. apply pdoes_ret.
    split; [done|]. split; [exact Hs1|]. cbn [app]. rewrite app_nil_r.
    split; [split; [exact Hc|cbn; by rewrite filter_app, Hf, accept_events_visible]|].
    eexists. split; [|exact Hv2]. split; [exact Hk|]. cbn. rewrite app_nil_r. split; [done|].
    rewrite Hl, led_add_add. done.
  - apply pdoes_bind. eapply pdoes_cancel_settled; [exact Hv1|exact Ho|exact Hu|exact Hset|].
    apply pdoes_bind. eapply pdoes_cancel_settled; [exact Hv1|exact Ho|exact Hu|exact Hset|]. apply pdoes_ret.
    rewrite Hr. split; [done|]. split; [done|]. cbn [app]. rewrite app_nil_r. split; [exact Hsp|].
    exists v1. split; [|exact Hv1]. split; [exact Hk|]. split; [exact Hq|]. by rewrite Hl, Hr, led_add_0.
Qed.

Lemma pdoes_round_trip t v s a r c :
  qview_of v (seen_pool s) -> dyn_room v -> 0 <= spec_inflight (qv_gate v) < COUNT_MASK ->
  pdoes self log t (cancel_round_trip self a r c) s (fun x s' evs => exists res v',
    x = (res, is_ok res, false) /\ spent (SpecCustom a r c) res evs /\ round_trip_end v v' res /\
    qview_of v' (seen_pool s') /\
    (spec_open (qv_gate v) = true -> admission_rule (qv_state v) (qv_ledger v) = Enqueue ->
     panics (Called a) = false -> res = Ok tt)).
Proof.
  intros Hv Hroom Hn. unfold cancel_round_trip. apply pdoes_bind. eapply pdoes_prepare; [exact Hv|].
  intros e s1 Hv1 Hs1. cbn [fst snd app].
  set (v1 := with_others (<[e := queued_job_prepared]> (qv_others v)) v) in *.
  assert (He : qv_others v1 !! e = Some queued_job_prepared) by apply lookup_insert_eq.
  apply pdoes_bind. eapply pdoes_mono.
  { apply (pdoes_submit self log panics t v1 s1 (Some e) (SpecCustom a r c) Hv1); [|exact Hroom|exact Hn].
    by exists queued_job_prepared. }
  intros res s2 evs Hsub. cbn [app]. pose proof (submitted_summary _ _ _ _ _ _ _ ltac:(by exists queued_job_prepared) Hsub) as Hsum.
  eapply pdoes_mono; [by eapply pdoes_two_cancels|]. intros x s3 evs' (-> & Hs3 & Hsp & v' & Hend & Hv').
  exists res, v'. split; [done|]. split; [exact Hsp|]. split; [exact Hend|]. split; [exact Hv'|].
  intros Hopen Hrule Hp. unfold submitted in Hsub.
  change (qv_gate v1) with (qv_gate v) in Hsub. change (qv_state v1) with (qv_state v) in Hsub.
  change (qv_ledger v1) with (qv_ledger v) in Hsub. rewrite Hopen, Hrule in Hsub.
  destruct Hsub as [Ha _]. unfold accepted in Ha. cbn [acceptance_fails] in Ha. rewrite Hp in Ha. by destruct Ha.
Qed.
End cancel.

(** C21. A job's ticket undoes its submission. Preparing a cancellable job on a
    dynamic pool, submitting it and cancelling it twice by its ticket, run alone:
    the first cancellation succeeds exactly when the submission did and the second
    never does; the queue is as it was before, in content and order; the ledger is
    as it was but for one cancelled job if the submission succeeded. The job's three
    callbacks are each consumed once: an accepted job has its acceptance and its
    cancellation callback called, never its run callback, whatever they panic with.
    A job that fits in the queue and is accepted without a panic is submitted. *)
Theorem dyn_cancel_undoes_submit {S M} `{Monitor M} (HM : MonitorLaws M)
    (self : lens S (ThreadPoolInner M)) (log : lens S (list Event))
    (HL : LensLaws self) (HLl : LensLaws log) (HA : Apart self log)
    (panics : Event -> bool) (t : nat) (v : QView) (accept run cancel : nat) (w : world S)
    (Hv : qview_of v (part self w)) (Hroom : dyn_room v) (Hn : 0 <= spec_inflight (qv_gate v) < COUNT_MASK) :
  let job := SpecCustom accept run cancel in
  exists r w' evs v',
    runs t (cancel_round_trip (H0 := recording log panics) self accept run cancel) w
      (Returned (r, is_ok r, false) w') /\
    part log w' = part log w ++ evs /\ spent job r evs /\
    round_trip_end v v' r /\ qview_of v' (part self w') /\
    (spec_open (qv_gate v) = true -> admission_rule (qv_state v) (qv_ledger v) = Enqueue ->
     panics (Called accept) = false -> r = Ok tt).
Proof.
  intros job. destruct (pdoes_round_trip self log panics t v (seen_of self w) accept run cancel Hv Hroom Hn w)
    as (x & w' & s' & evs & Hr & [Hp _] & Hl & _ & r & v' & -> & Hsp & Hend & Hv' & Hok); [by split|].
  rewrite <- Hp in Hv'. by exists r, w', evs, v'.
Qed.

(** On a pool with one worker, one running and two queued jobs. *)
Lemma dyn_cancel_undoes_submit_witness :
  qview_of busy_view (part fst_l busy_world) /\
  exists w' evs,
    runs 0 (cancel_round_trip (H0 := recording snd_l busy_panics) fst_l 5 6 7) busy_world
      (Returned (Ok tt, true, false) w') /\
    filter (fun x => is_destructor x = false) evs = [Called 5; Called 7] /\ part snd_l w' = evs /\
    global_queue (part fst_l w') = MkMutex None [0%nat; 1%nat] /\
    cancelled_task_count (accounting (part fst_l w')) = 1.
Proof.
  split; [exact busy_qview|].
  destruct (dyn_cancel_undoes_submit _ fst_l snd_l _ _ _ busy_panics 0 busy_view 5 6 7 busy_world busy_qview)
    as (r & w' & evs & v' & Hr & Hl & [_ Hf] & (_ & Hq & Hled) & Hv' & Hok).
  - vm_compute. repeat split; discriminate || reflexivity.
  - vm_compute. split; [discriminate|reflexivity].
  - rewrite (Hok eq_refl eq_refl eq_refl) in *. exists w', evs. split; [exact Hr|]. split; [exact Hf|].
    split; [exact Hl|]. split; [rewrite (qv_list _ _ Hv'), Hq; reflexivity|].
    rewrite (lr_cancelled _ _ (qv_counts _ _ Hv')), Hled. reflexivity.
Defined.
