(* ===== verification/DynLogic.v ===== *)
(** Ghost ownership for the dynamic pool: every thread's submissions, jobs and
    worker counts, what it knows while it holds the monitor or a queue entry,
    the pool invariant, and the basic rules under it. *)
From S2P Require Import Prelude Prog Conc Sync AdmissionGate PoolAccounting AccountingLogic.
From S2P Require Import AccountingSpecs Types Hooks PoolJob DynState DynInner.
Local Open Scope Z_scope.

(** Counters outside the accounting that must not underflow. *)
Inductive didx : Type := DLive | DExit | DIdle | DIdleAtomic | DSubmitWaiter | DIdleWaiter.

#[export] Instance didx_eq_dec : EqDecision didx.
Proof. solve_decision. Defined.

(** What the holder of the monitor knows: the configured sizes and the two
    counts of live workers. *)
Record Sizes : Type := MkSizes { sz_core : Z; sz_max : Z; sz_live : Z; sz_atomic : Z }.

(** The two counts agree whenever the monitor is free. *)
Definition synced (z : Sizes) : Prop := sz_live z = sz_atomic z.

(** A thread's contribution.  [dt_mon]: it holds the monitor;
    [dt_entry]: the queue entry it has locked and that entry's state;
    [dt_mine]: entries it knows to belong to the pool. *)
Record dtok : Type := MkDtok {
  dt_acct : tok;
  dt_count : didx -> nat;
  dt_mon : option Sizes;
  dt_entry : option (nat * QueuedJobState.t);
  dt_mine : gset nat;
}.

Definition dt_acct_l : lens dtok tok :=
  Lens dt_acct (fun x p => MkDtok x (dt_count p) (dt_mon p) (dt_entry p) (dt_mine p)).
#[export] Instance dt_acct_l_laws : LensLaws dt_acct_l.
Proof. solve_lens. Qed.

Definition dtok0 : dtok := MkDtok tok0 (fun _ => 0%nat) None None ∅.

Definition with_mon (m : option Sizes) (g : dtok) : dtok :=
  MkDtok (dt_acct g) (dt_count g) m (dt_entry g) (dt_mine g).
Definition with_entry (e : option (nat * QueuedJobState.t)) (g : dtok) : dtok :=
  MkDtok (dt_acct g) (dt_count g) (dt_mon g) e (dt_mine g).
Definition with_mine (m : gset nat) (g : dtok) : dtok :=
  MkDtok (dt_acct g) (dt_count g) (dt_mon g) (dt_entry g) m.
Definition with_count (n : didx -> nat) (g : dtok) : dtok :=
  MkDtok (dt_acct g) n (dt_mon g) (dt_entry g) (dt_mine g).
Definition inc (c : didx) (g : dtok) : dtok :=
  with_count (fun c' => dt_count g c' + if decide (c' = c) then 1 else 0)%nat g.
Definition dec (c : didx) (g : dtok) : dtok :=
  with_count (fun c' => dt_count g c' - if decide (c' = c) then 1 else 0)%nat g.

Definition count_total (c : didx) (G : list dtok) : nat := sum_with (fun g => dt_count g c) G.
Definition acct_total (G : list dtok) : tok := fun i => sum_with (fun g => dt_acct g i) G.

(** *** Entries waiting in the queue *)

Definition is_queued (v : QueuedJobState.t) : bool :=
  match v with QueuedJobState.Queued _ => true | _ => false end.
Definition entry_value (j : QueuedJob) : QueuedJobState.t := mutex_data (entry_state j).
Definition waits (j : QueuedJob) : nat := if is_queued (entry_value j) then 1 else 0.
Definition waiting_entries (m : gmap nat QueuedJob) : nat :=
  size (filter (fun ej => is_queued (entry_value ej.2) = true) m).

Lemma waiting_fresh m e j : m !! e = None -> waiting_entries (<[e:=j]> m) = (waits j + waiting_entries m)%nat.
Proof.
  intros He. unfold waiting_entries, waits. destruct (is_queued (entry_value j)) eqn:Hq.
  - rewrite map_filter_insert_True by done. rewrite map_size_insert_None; [done|].
    apply map_lookup_filter_None. by left.
  - rewrite map_filter_insert_False by (cbn; congruence).
    rewrite delete_id by done. done.
Qed.

Lemma waiting_insert m e j j' :
  m !! e = Some j -> (waiting_entries (<[e:=j']> m) + waits j = waiting_entries m + waits j')%nat.
Proof.
  intros He. rewrite <- (insert_delete_id m e j He) at 2. rewrite <- insert_delete_eq.
  rewrite !waiting_fresh by apply lookup_delete_eq. lia.
Qed.

(** *** The counters *)

#[export] Instance mon_data_l_laws {M A} : LensLaws (@mon_data_l M A).
Proof. solve_lens. Qed.

Definition dcounter_l {M} (c : didx) : lens (ThreadPoolInner M) Z :=
  match c with
  | DLive => state_monitor_l ⊚ mon_data_l ⊚ live_workers_l
  | DExit => state_monitor_l ⊚ mon_data_l ⊚ exiting_workers_l
  | DIdle => state_monitor_l ⊚ mon_data_l ⊚ idle_workers_l
  | DIdleAtomic => idle_worker_count_l
  | DSubmitWaiter => submit_waiter_count_l
  | DIdleWaiter => idle_waiter_count_l
  end.

#[export] Instance dcounter_l_laws {M} c : LensLaws (@dcounter_l M c).
Proof.
  destruct c; (split; [intros; reflexivity| |intros; reflexivity]); intros s; destruct s as [[? []]];
    reflexivity.
Qed.

Definition locked_data {M} (p : ThreadPoolInner M) : ThreadPoolState := mon_data (state_monitor p).
Definition owner_of {M} `{Monitor M} (p : ThreadPoolInner M) : option nat :=
  mon_owner (mon_sync (state_monitor p)).
Definition sizes_of {M} (p : ThreadPoolInner M) : Sizes :=
  MkSizes (core_pool_size (locked_data p)) (maximum_pool_size (locked_data p))
    (live_workers (locked_data p)) (live_worker_count p).

Section inv.
Context {S M : Type} `{Monitor M}.
Variable self : lens S (ThreadPoolInner M).
Context `{!LensLaws self}.
(** observed moment, queue limit, bound on the number of workers *)
Variables (T : nat) (cap : option Z) (B : Z).
Local Abbreviation Inner := (ThreadPoolInner M).
Implicit Types (p : Inner) (G : list dtok) (g : dtok) (k : nat).

(** Every queued entry stands for a waiting job. *)
Definition acct_part (h : list S) (s : S) (G : list dtok) : Prop :=
  exists q : tok, (forall i, (forall o, i <> ix o Waiting) -> q i = 0%nat) /\
    (waiting_entries (entries (get self s)) <= all q Waiting)%nat /\
    acct_inv (acc self) T cap false h s (tadd (acct_total G) q).

Definition count_part (n : nat) (p : Inner) (G : list dtok) : Prop :=
  (forall c, get (dcounter_l c) p = Z.of_nat (count_total c G) /\
     Z.of_nat (count_total c G) <= Z.of_nat n) /\
  0 <= next_worker_index (locked_data p) <= Z.of_nat n.

(** The configured sizes stay ordered and bound the number of workers. *)
Definition sizes_ok (z : Sizes) : Prop := sz_core z <= sz_max z <= B /\ sz_live z <= B.

Record mon_part (p : Inner) (G : list dtok) : Prop := {
  mp_owner : forall k, owner_of p = Some k <-> exists g, G !! k = Some g /\ is_Some (dt_mon g);
  mp_known : forall k g z, G !! k = Some g -> dt_mon g = Some z -> z = sizes_of p;
  mp_synced : owner_of p = None -> synced (sizes_of p);
  mp_sizes : sizes_ok (sizes_of p);
}.

Record entry_part (m : gmap nat QueuedJob) (G : list dtok) : Prop := {
  ep_held : forall k g e v, G !! k = Some g -> dt_entry g = Some (e, v) ->
    exists j, m !! e = Some j /\ mutex_owner (entry_state j) = Some k /\ entry_value j = v;
  ep_mine : forall k g e, G !! k = Some g -> e ∈ dt_mine g ->
    exists j, m !! e = Some j /\ entry_pool j = true;
}.

Record dyn_inv (h : list S) (s : S) (G : list dtok) : Prop := {
  di_acct : acct_part h s G;
  di_count : count_part (length h) (get self s) G;
  di_mon : mon_part (get self s) G;
  di_entry : entry_part (entries (get self s)) G;
}.

(** *** How each part follows a step of one thread *)

Lemma dyn_acct_insert G k g g' i :
  G !! k = Some g -> (acct_total (<[k:=g']> G) i + dt_acct g i = acct_total G i + dt_acct g' i)%nat.
Proof. intros Hg. unfold acct_total. by apply (sum_with_insert (fun g => dt_acct g i)). Qed.

Lemma dyn_count_insert c G k g g' :
  G !! k = Some g -> (count_total c (<[k:=g']> G) + dt_count g c = count_total c G + dt_count g' c)%nat.
Proof. intros Hg. unfold count_total. by apply (sum_with_insert (fun g => dt_count g c)). Qed.

Lemma dyn_acct_lookup G k g i : G !! k = Some g -> (dt_acct g i <= acct_total G i)%nat.
Proof. intros Hg. unfold acct_total. by apply (sum_with_lookup (fun g => dt_acct g i)) in Hg. Qed.

Lemma dyn_count_lookup c G k g : G !! k = Some g -> (dt_count g c <= count_total c G)%nat.
Proof. intros Hg. unfold count_total. by apply (sum_with_lookup (fun g => dt_count g c)) in Hg. Qed.

Lemma acct_total_same G k g g' :
  G !! k = Some g -> dt_acct g' = dt_acct g -> acct_total (<[k:=g']> G) = acct_total G.
Proof.
  intros Hg He. apply FunctionalExtensionality.functional_extensionality. intros i.
  pose proof (dyn_acct_insert G k g g' i Hg). rewrite He in *. lia.
Qed.

Lemma acct_part_keep h s s' G k g g' :
  in_time h -> acct_part h s G -> G !! k = Some g -> dt_acct g' = dt_acct g ->
  accounting (get self s') = accounting (get self s) ->
  (waiting_entries (entries (get self s')) <= waiting_entries (entries (get self s)))%nat ->
  acct_part (s :: h) s' (<[k:=g']> G).
Proof.
  intros Ht (q & Hq & Hw & Ha) Hg He Hacc Hent. exists q. split; [done|]. split; [lia|].
  rewrite (acct_total_same G k g) by done. eapply acct_frame; [done|exact Ha|]. exact Hacc.
Qed.

Lemma count_part_keep n p p' G k g g' :
  count_part n p G -> G !! k = Some g -> dt_count g' = dt_count g ->
  (forall c, get (dcounter_l c) p' = get (dcounter_l c) p) ->
  next_worker_index (locked_data p') = next_worker_index (locked_data p) ->
  count_part (Datatypes.S n) p' (<[k:=g']> G).
Proof.
  intros [Hc Hn] Hg He Hp Hx. split; [|rewrite Hx; lia]. intros c.
  assert (count_total c (<[k:=g']> G) = count_total c G) as ->.
  { pose proof (dyn_count_insert c G k g g' Hg). rewrite He in *. lia. }
  rewrite Hp. destruct (Hc c) as [-> ?]. lia.
Qed.

Lemma mon_part_keep p p' G k g g' :
  mon_part p G -> G !! k = Some g -> dt_mon g' = dt_mon g ->
  owner_of p' = owner_of p -> sizes_of p' = sizes_of p -> mon_part p' (<[k:=g']> G).
Proof.
  intros [Ho Hk Hs Hb] Hg He Ho' Hs'. split.
  - intros u. rewrite Ho', Ho. destruct (decide (u = k)) as [->|Hne].
    + rewrite list_lookup_insert_eq by (by eapply lookup_lt_Some). split.
      * intros (g1 & Hg1 & ?). simplify_eq. exists g'. by rewrite He.
      * intros (g1 & [= <-] & Hm). exists g. by rewrite <- He.
    + by rewrite list_lookup_insert_ne by done.
  - intros u g1 z Hu Hz. rewrite Hs'. destruct (decide (u = k)) as [->|Hne].
    + rewrite list_lookup_insert_eq in Hu by (by eapply lookup_lt_Some). simplify_eq.
      apply (Hk k g); [done|congruence].
    + rewrite list_lookup_insert_ne in Hu by done. by eapply Hk.
  - rewrite Ho', Hs'. exact Hs.
  - by rewrite Hs'.
Qed.

Lemma entry_part_keep m G k g g' :
  entry_part m G -> G !! k = Some g -> dt_entry g' = dt_entry g -> dt_mine g' = dt_mine g ->
  entry_part m (<[k:=g']> G).
Proof.
  intros [Hh Hm] Hg He Hmine. split.
  - intros u g1 e v Hu Hv. destruct (decide (u = k)) as [->|Hne].
    + rewrite list_lookup_insert_eq in Hu by (by eapply lookup_lt_Some). simplify_eq.
      apply (Hh k g); [done|congruence].
    + rewrite list_lookup_insert_ne in Hu by done. by eapply Hh.
  - intros u g1 e Hu Hv. destruct (decide (u = k)) as [->|Hne].
    + rewrite list_lookup_insert_eq in Hu by (by eapply lookup_lt_Some). simplify_eq.
      apply (Hm k g); [done|congruence].
    + rewrite list_lookup_insert_ne in Hu by done. by eapply Hm.
Qed.

(** What the invariant depends on. *)
Record same_core (p p' : Inner) : Prop := {
  sc_accounting : accounting p' = accounting p;
  sc_entries : entries p' = entries p;
  sc_counters : forall c, get (dcounter_l c) p' = get (dcounter_l c) p;
  sc_index : next_worker_index (locked_data p') = next_worker_index (locked_data p);
  sc_owner : owner_of p' = owner_of p;
  sc_sizes : sizes_of p' = sizes_of p;
}.

Lemma dyn_inv_frame h s s' G k g :
  in_time h -> dyn_inv h s G -> G !! k = Some g -> same_core (get self s) (get self s') ->
  dyn_inv (s :: h) s' (<[k:=g]> G).
Proof.
  intros Ht [Ha Hc Hm He] Hg [H1 H2 H3 H4 H5 H6]. split.
  - eapply acct_part_keep; try done. by rewrite H2.
  - by eapply count_part_keep.
  - by eapply mon_part_keep.
  - rewrite H2. by eapply entry_part_keep.
Qed.

Lemma same_core_refl p : same_core p p.
Proof. done. Qed.

#[export] Instance dyn_inv_stutter : Stutter dyn_inv.
Proof.
  intros h s G Ht HI. destruct G as [|g G].
  - destruct HI as [(q & Hq & Hw & Ha) [Hc Hn] Hm He]. split; [|split|done|done].
    + exists q. split; [done|]. split; [done|]. by eapply acct_frame.
    + intros c. destruct (Hc c) as [-> ?]. cbn [length]. lia.
    + cbn [length]. lia.
  - exact (dyn_inv_frame h s s (g :: G) 0 g Ht HI eq_refl (same_core_refl _)).
Qed.

#[export] Instance acc_laws : LensLaws (acc self).
Proof. unfold acc. apply _. Qed.

#[export] Instance dyn_acct_client : AcctClient (acc self) dt_acct_l T cap false dyn_inv.
Proof.
  intros h s G k g Ht [(q & Hq & Hw & Ha) Hc Hm He] Hg. exists (tadd (acct_total G) q).
  split; [done|]. split.
  { intros i. pose proof (dyn_acct_lookup G k g i Hg). unfold tadd. cbn. lia. }
  intros s' a' src dst Hs' Hmv Hstep.
  assert (Hp : get self s' = set accounting_l (get (acc self) s') (get self s)).
  { rewrite Hs'. unfold acc. cbn [get set lens_comp]. by rewrite !get_set. }
  split.
  - exists q. split; [done|]. split; [by rewrite Hp|]. apply Hstep. intros i.
    destruct (Hmv i) as [Hs He']. pose proof (dyn_acct_insert G k g (set dt_acct_l a' g) i Hg).
    pose proof (dyn_acct_lookup G k g i Hg). cbn in *. unfold tadd. lia.
  - rewrite Hp. eapply count_part_keep; try done. by intros [].
  - rewrite Hp. by eapply mon_part_keep.
  - rewrite Hp. by eapply entry_part_keep.
Qed.
End inv.

(** *** Arithmetic of contributions *)

Lemma dyn_dec_inc c g : dec c (inc c g) = g.
Proof.
  destruct g as [a n m e o]. unfold dec, inc, with_count. cbn. f_equal.
  apply FunctionalExtensionality.functional_extensionality. intros c'. destruct (decide _); lia.
Qed.

Lemma dyn_dec_inc_ne c d g : c <> d -> dec c (inc d g) = inc d (dec c g).
Proof.
  intros Hne. unfold dec, inc, with_count. cbn. f_equal.
  apply FunctionalExtensionality.functional_extensionality.
  intros e. destruct (decide (e = c)), (decide (e = d)); subst; try lia. done.
Qed.

Lemma dyn_inc_has c g : (1 <= dt_count (inc c g) c)%nat.
Proof. cbn. rewrite decide_True by done. lia. Qed.

#[export] Hint Resolve dyn_inc_has : core.

Lemma with_mon_id g : with_mon (dt_mon g) g = g.
Proof. by destruct g. Qed.

Lemma with_mon_back z g : dt_mon g = None -> with_mon None (with_mon z g) = g.
Proof. destruct g; cbn. by intros ->. Qed.

Lemma with_entry_back e g : dt_entry g = None -> with_entry None (with_entry e g) = g.
Proof. destruct g; cbn. by intros ->. Qed.

(** *** Basic rules *)

Section rules.
Context {S M : Type} `{MonitorLaws M}.
Variable self : lens S (ThreadPoolInner M).
Context `{!LensLaws self} (T : nat) (cap : option Z) (B : Z).
Context (Fin FinP : dtok -> Prop).
Local Abbreviation I := (dyn_inv self T cap B).
Local Abbreviation WP := (WP I Fin FinP).
Local Abbreviation holds := (holds dt_acct_l).
Local Abbreviation Inner := (ThreadPoolInner M).
Implicit Types (r : tok) (o : bool) (k : nat) (g : dtok) (p : Inner).

(** An action outside everything the invariant depends on. *)
Lemma DP_core k {R X} (f : nat -> S -> option (R * S)) (kont : R -> prog S X) g Q' E :
  (forall s, match f k s with
             | None => True
             | Some (b, s') => same_core (get self s) (get self s') /\ WP k (kont b) g Q' E
             end) ->
  WP k (Act f kont) g Q' E.
Proof.
  intros Hf. apply WP_act. intros h s G Ht HI Hg. specialize (Hf s).
  destruct (f k s) as [[b s']|]; [|done]. destruct Hf as [Hcore Hk]. exists g. split; [|done].
  by eapply dyn_inv_frame.
Qed.

(** An update of counter [c], which is not the number of live workers. *)
Lemma DP_count k {R X} (f : nat -> S -> option (R * S)) (kont : R -> prog S X) c g g' Q' E :
  c <> DLive -> (forall c', c' <> c -> dt_count g' c' = dt_count g c') ->
  g' = with_count (dt_count g') g ->
  (forall s n, get (self ⊚ dcounter_l c) s = Z.of_nat n -> (dt_count g c <= n)%nat ->
     Z.of_nat n < 2 ^ 62 ->
     exists b n', f k s = Some (b, set (self ⊚ dcounter_l c) (Z.of_nat n') s) /\
       (n' + dt_count g c = n + dt_count g' c)%nat /\ (n' <= n + 1)%nat /\
       WP k (kont b) g' Q' E) ->
  WP k (Act f kont) g Q' E.
Proof.
  intros Hc Hoth Hg' Hf. apply WP_act. intros h s G Ht [Ha [Hcnt Hidx] Hm He] Hg.
  destruct (Hcnt c) as [Hcv Hcb]. unfold in_time, STEP_BOUND in Ht.
  assert (Hlt : Z.of_nat (count_total c G) < 2 ^ 62) by lia.
  pose proof (dyn_count_lookup c G k g Hg) as Hle.
  destruct (Hf s (count_total c G) Hcv Hle Hlt) as (b & n' & -> & Hn' & Hn1 & Hk).
  exists g'. split; [|done]. cbn [set lens_comp].
  set (p := get self s) in *.
  assert (Hp : forall l : lens Inner Z, get self (set self (set l (Z.of_nat n') p) s) = set l (Z.of_nat n') p)
    by (intros; apply get_set).
  split.
  - eapply acct_part_keep; try done; [by rewrite Hg'|..]; rewrite Hp; by destruct c.
  - rewrite Hp. split.
    2: { assert (next_worker_index (locked_data (set (dcounter_l c) (Z.of_nat n') p)) =
           next_worker_index (locked_data p)) as -> by (by destruct c). cbn [length]. lia. }
    intros c'. pose proof (dyn_count_insert c' G k g g' Hg) as Hins.
    destruct (decide (c' = c)) as [->|Hne].
    + rewrite get_set. cbn [length]. lia.
    + rewrite (Hoth c' Hne) in Hins.
      assert (get (dcounter_l c') (set (dcounter_l c) (Z.of_nat n') p) = get (dcounter_l c') p) as ->
        by (by destruct c, c').
      destruct (Hcnt c') as [Hv ?]. fold p in Hv. cbn [get lens_comp] in Hv. fold p in Hv. rewrite Hv.
      cbn [length]. lia.
  - rewrite Hp. eapply mon_part_keep; [exact Hm|exact Hg|by rewrite Hg'|by destruct c|].
    unfold sizes_of. by destruct c.
  - rewrite Hp. assert (entries (set (dcounter_l c) (Z.of_nat n') p) = entries p) as -> by (by destruct c).
    eapply entry_part_keep; [exact He|exact Hg|by rewrite Hg'..].
Qed.

Lemma DP_fetch_add_count k c g (Q' : Z -> dtok -> Prop) E :
  c <> DLive -> (forall v, Q' v (inc c g)) ->
  WP k (fetch_add (self ⊚ dcounter_l c) 1) g Q' E.
Proof.
  intros Hc HQ. unfold fetch_add, fetch_modify. eapply (DP_count _ _ _ c g (inc c g)); [done|..].
  - intros c' Hne. cbn. rewrite decide_False by done. lia.
  - done.
  - intros s n -> Hle Hn. eexists _, (n + 1)%nat. split.
    { f_equal. f_equal. f_equal. rewrite wrap_small; [lia|].
      unfold in_usize. change USIZE_MOD with (2 ^ 64). lia. }
    split; [cbn; rewrite decide_True by done; lia|]. split; [lia|]. by apply WP_ret.
Qed.

Lemma DP_fetch_sub_count k c g (Q' : Z -> dtok -> Prop) E :
  c <> DLive -> (1 <= dt_count g c)%nat -> (forall v, 0 < v -> Q' v (dec c g)) ->
  WP k (fetch_sub (self ⊚ dcounter_l c) 1) g Q' E.
Proof.
  intros Hc H1 HQ. unfold fetch_sub, fetch_modify. eapply (DP_count _ _ _ c g (dec c g)); [done|..].
  - intros c' Hne. cbn. rewrite decide_False by done. lia.
  - done.
  - intros s n -> Hle Hn. eexists _, (n - 1)%nat. split.
    { f_equal. f_equal. f_equal. rewrite wrap_small; [lia|].
      unfold in_usize. change USIZE_MOD with (2 ^ 64). lia. }
    split; [cbn; rewrite decide_True by done; lia|]. split; [lia|].
    apply WP_ret. apply HQ. lia.
Qed.

Lemma checked_add_small n : 0 <= n < 2 ^ 62 -> checked_add n 1 = Some (n + 1).
Proof.
  intros Hn. unfold checked_add. destruct (Z.ltb_spec (n + 1) USIZE_MOD) as [_|Hlt]; [done|].
  change USIZE_MOD with (2 ^ 64) in Hlt. lia.
Qed.

Lemma checked_sub_pos n : 1 <= n -> checked_sub n 1 = Some (n - 1).
Proof. intros Hn. unfold checked_sub. by destruct (Z.leb_spec 1 n) as [_|Hlt]; [|lia]. Qed.

Lemma DP_guarded_incr_count k c g (Q' : unit -> dtok -> Prop) E :
  c <> DLive -> Q' tt (inc c g) -> WP k (guarded_incr (self ⊚ dcounter_l c)) g Q' E.
Proof.
  intros Hc HQ. unfold guarded_incr. cbn [bind]. eapply (DP_count _ _ _ c g (inc c g)); [done|..].
  - intros c' Hne. cbn. rewrite decide_False by done. lia.
  - done.
  - intros s n -> Hle Hn. exists true, (n + 1)%nat. rewrite checked_add_small by lia.
    split; [by rewrite Nat2Z.inj_add|].
    split; [cbn; rewrite decide_True by done; lia|]. split; [lia|]. by apply WP_ret.
Qed.

Lemma DP_guarded_decr_count k c g (Q' : unit -> dtok -> Prop) E :
  c <> DLive -> (1 <= dt_count g c)%nat -> Q' tt (dec c g) ->
  WP k (guarded_decr (self ⊚ dcounter_l c)) g Q' E.
Proof.
  intros Hc H1 HQ. unfold guarded_decr. cbn [bind]. eapply (DP_count _ _ _ c g (dec c g)); [done|..].
  - intros c' Hne. cbn. rewrite decide_False by done. lia.
  - done.
  - intros s n -> Hle Hn. exists true, (n - 1)%nat. rewrite checked_sub_pos by lia.
    split; [by rewrite Nat2Z.inj_sub by lia|].
    split; [cbn; rewrite decide_True by done; lia|]. split; [lia|]. by apply WP_ret.
Qed.

(** *** Holding the monitor *)

(** What changes of the monitor part when thread [k] moves from [g] to [g']. *)
Lemma mon_part_update p p' G k g g' :
  mon_part B p G -> G !! k = Some g ->
  (is_Some (dt_mon g) \/ owner_of p = None) ->
  owner_of p' = match dt_mon g' with Some _ => Some k | None => None end ->
  (forall z, dt_mon g' = Some z -> z = sizes_of p') ->
  (dt_mon g' = None -> synced (sizes_of p')) ->
  sizes_ok B (sizes_of p') -> mon_part B p' (<[k:=g']> G).
Proof.
  intros [Ho Hk _ _] Hg Hmine Ho' Hz Hsy Hok.
  assert (Hothers : forall u g1, u <> k -> G !! u = Some g1 -> dt_mon g1 = None).
  { intros u g1 Hne Hu. destruct (dt_mon g1) eqn:Hg1; [|done]. exfalso.
    assert (owner_of p = Some u) as Hou by (apply Ho; eauto). destruct Hmine as [Hm|Hm]; [|congruence].
    assert (owner_of p = Some k) by (apply Ho; eauto). congruence. }
  assert (Hlt : (k < length G)%nat) by (by eapply lookup_lt_Some). split; [| | |done].
  - intros u. destruct (decide (u = k)) as [->|Hne].
    + rewrite list_lookup_insert_eq by done. rewrite Ho'. split.
      * intros Hs. exists g'. split; [done|]. destruct (dt_mon g'); [by eexists|done].
      * intros (g1 & [= <-] & [z Hz']). by rewrite Hz'.
    + rewrite list_lookup_insert_ne by done. rewrite Ho'. split.
      * intros Hs. destruct (dt_mon g'); congruence.
      * intros (g1 & Hu & [z Hz']). rewrite (Hothers u g1 Hne Hu) in Hz'. done.
  - intros u g1 z Hu Hzu. destruct (decide (u = k)) as [->|Hne].
    + rewrite list_lookup_insert_eq in Hu by done. simplify_eq. by apply Hz.
    + rewrite list_lookup_insert_ne in Hu by done. by rewrite (Hothers u g1 Hne Hu) in Hzu.
  - intros Hn. apply Hsy. rewrite Ho' in Hn. by destruct (dt_mon g').
Qed.

Lemma holder_owns p G k g z :
  mon_part B p G -> G !! k = Some g -> dt_mon g = Some z ->
  owner_of p = Some k /\ z = sizes_of p.
Proof. intros [Ho Hk _ _] Hg Hz. split; [apply Ho; eauto|eauto]. Qed.

Definition put_sync (x : M) (p : Inner) : Inner :=
  set state_monitor_l (MkMonitor x (mon_data (state_monitor p))) p.

(** An operation on the lock itself. *)
Lemma dyn_inv_sync h s G k g g' x :
  in_time h -> I h s G -> G !! k = Some g -> g' = with_mon (dt_mon g') g ->
  mon_part B (put_sync x (get self s)) (<[k:=g']> G) ->
  I (s :: h) (set self (put_sync x (get self s)) s) (<[k:=g']> G).
Proof.
  intros Ht [Ha Hc Hm He] Hg Hg' Hm'. split.
  - eapply acct_part_keep; try done; [by rewrite Hg'|..]; by rewrite get_set.
  - rewrite get_set. eapply count_part_keep; [exact Hc|exact Hg|by rewrite Hg'| |done]. by intros [].
  - by rewrite get_set.
  - rewrite get_set. eapply entry_part_keep; [exact He|exact Hg|by rewrite Hg'..].
Qed.

(** Acquiring a free monitor. *)
Lemma mon_part_acquire p G k g x :
  mon_part B p G -> G !! k = Some g -> owner_of p = None -> mon_owner x = Some k ->
  mon_part B (put_sync x p) (<[k:=with_mon (Some (sizes_of p)) g]> G).
Proof.
  intros Hm Hg Hn Hx.
  eapply mon_part_update; [exact Hm|exact Hg|by right|done|by intros z [= <-]|done|apply Hm].
Qed.

(** Acquiring: by [lock] or when a wait ends. *)
Lemma DP_acquire k (f : nat -> M -> option M) g (Q' : unit -> dtok -> Prop) E :
  (forall m m', f k m = Some m' -> mon_owner m = None /\ mon_owner m' = Some k) ->
  (forall z, synced z -> sizes_ok B z -> Q' tt (with_mon (Some z) g)) ->
  WP k (mon_try (mon self) f) g Q' E.
Proof.
  intros Hf HQ. unfold mon_try. apply WP_act. intros h s G Ht HI Hg.
  destruct (f k _) as [x|] eqn:Hx; [|done]. destruct (Hf _ _ Hx) as [Hn Hs].
  pose proof (di_mon _ _ _ _ _ _ _ HI) as Hm. eexists. split; [|apply WP_ret, HQ; [by apply Hm|apply Hm]].
  eapply (dyn_inv_sync h s G k g); [done|done|done|done|]. by apply mon_part_acquire.
Qed.

(** An attempt to leave a wait. *)
Lemma DP_attempt k (f : nat -> M -> option M) g (Q' : bool -> dtok -> Prop) E :
  (forall m m', f k m = Some m' -> mon_owner m = None /\ mon_owner m' = Some k) ->
  Q' false g -> (forall z, synced z -> sizes_ok B z -> Q' true (with_mon (Some z) g)) ->
  WP k (mon_attempt (mon self) f) g Q' E.
Proof.
  intros Hf HQn HQ. unfold mon_attempt. apply WP_act. intros h s G Ht HI Hg.
  destruct (f k _) as [x|] eqn:Hx.
  - destruct (Hf _ _ Hx) as [Hn Hs]. pose proof (di_mon _ _ _ _ _ _ _ HI) as Hm.
    eexists. split; [|apply WP_ret, HQ; [by apply Hm|apply Hm]].
    eapply (dyn_inv_sync h s G k g); [done|done|done|done|]. by apply mon_part_acquire.
  - exists g. split; [|by apply WP_ret]. eapply dyn_inv_frame; [done|done|done|]. apply same_core_refl.
Qed.

Lemma DP_lock k g (Q' : unit -> dtok -> Prop) E :
  (forall z, synced z -> sizes_ok B z -> Q' tt (with_mon (Some z) g)) ->
  WP k (monitor_lock (mon self)) g Q' E.
Proof. intros HQ. apply DP_acquire; [|done]. intros m m' Hl. by apply mon_lock_some in Hl as (? & ? & _). Qed.

Lemma DP_release k (f : nat -> M -> M) g z (Q' : unit -> dtok -> Prop) E :
  (forall m, mon_owner m = Some k -> mon_owner (f k m) = None) ->
  dt_mon g = Some z -> synced z -> Q' tt (with_mon None g) ->
  WP k (mon_do (mon self) f) g Q' E.
Proof.
  intros Hf Hz Hsy HQ. unfold mon_do. apply WP_act. intros h s G Ht HI Hg.
  pose proof (di_mon _ _ _ _ _ _ _ HI) as Hm.
  destruct (holder_owns _ _ _ _ _ Hm Hg Hz) as [Ho ->].
  exists (with_mon None g). split; [|by apply WP_ret].
  eapply (dyn_inv_sync h s G k g); [done|done|done|done|].
  eapply mon_part_update; [exact Hm|exact Hg|by left; eexists|by apply Hf|done|done|apply Hm].
Qed.

Lemma DP_unlock k g z (Q' : unit -> dtok -> Prop) E :
  dt_mon g = Some z -> synced z -> Q' tt (with_mon None g) ->
  WP k (monitor_unlock (mon self)) g Q' E.
Proof. apply DP_release. intros m Hm. by apply mon_unlock_free. Qed.

Lemma DP_notify_all k g (Q' : unit -> dtok -> Prop) E :
  Q' tt g -> WP k (notify_all (mon self)) g Q' E.
Proof.
  intros HQ. unfold notify_all, mon_do. apply DP_core. intros s. split; [|by apply WP_ret].
  cbn. rewrite !get_set. split; try done; [by intros []|]. unfold owner_of. cbn. apply mon_notify_owner.
Qed.

Lemma DP_wait k g z (Q' : unit -> dtok -> Prop) E :
  dt_mon g = Some z -> synced z ->
  (forall z', synced z' -> sizes_ok B z' -> Q' tt (with_mon (Some z') g)) ->
  WP k (wait (mon self)) g Q' E.
Proof.
  intros Hz Hs HQ. apply WP_bind. eapply DP_release; [|exact Hz|exact Hs|].
  { intros m Hm. by apply mon_park_asleep. }
  apply DP_acquire; [|done]. intros m m' Hl. by apply mon_resume_some in Hl as (? & ? & _).
Qed.

(** [wait_for]: released while it sleeps, holding the monitor again however it
    is woken. *)
Lemma DP_wait_for k g z (Q' : Result bool unit -> dtok -> Prop) E :
  dt_mon g = Some z -> synced z ->
  (forall b z', synced z' -> sizes_ok B z' -> Q' (Ok b) (with_mon (Some z') g)) ->
  WP k (wait_for (mon self)) g Q' E.
Proof.
  intros Hz Hs HQ. apply WP_bind, DP_core. intros s. split; [apply same_core_refl|].
  rewrite mon_timer_registers. apply WP_ret, WP_bind. eapply DP_release; [|exact Hz|exact Hs|].
  { intros m Hm. by apply mon_park_asleep. }
  unfold loop. apply (WP_loop _ _ _ _ _ _ _ _ (fun _ g' => g' = with_mon None g)); [|done].
  intros [] g' ->. apply WP_bind. unfold choose. apply WP_choose. intros notified.
  apply WP_ret, WP_bind, DP_attempt.
  - intros m m' Hl. destruct notified; [apply mon_resume_some in Hl|apply mon_expire_some in Hl];
      by destruct Hl as (? & ? & _).
  - by apply WP_ret.
  - intros z' Hz' Hok. apply WP_ret, WP_ret. by apply HQ.
Qed.

(** The body of a critical section starts and ends with the two counts of live
    workers in agreement, and does not unwind. *)
Lemma DP_with_lock k {R} (body : prog S R) g (Q' : R -> dtok -> Prop) E :
  (forall z, synced z -> sizes_ok B z ->
     WP k body (with_mon (Some z) g)
       (fun b g' => exists z', dt_mon g' = Some z' /\ synced z' /\ Q' b (with_mon None g'))
       (fun _ => False)) ->
  WP k (with_lock (mon self) body) g Q' E.
Proof.
  intros Hb. apply WP_bind, DP_lock. intros z Hz Hok. apply WP_finally.
  eapply WP_mono; [by apply Hb| |done]. intros b g' (z' & Hz' & Hsy & HQ). by eapply DP_unlock.
Qed.

Lemma DP_lock_notify_all k g (Q' : unit -> dtok -> Prop) E :
  dt_mon g = None -> Q' tt g -> WP k (lock_notify_all (mon self)) g Q' E.
Proof.
  intros Hn HQ. apply WP_bind, DP_lock. intros z Hz _. apply WP_bind, DP_notify_all.
  eapply DP_unlock; [done|done|]. by rewrite with_mon_back.
Qed.

(** *** What the holder of the monitor may do *)

(** All but the sizes and the next worker's index. *)
Record same_base (p p' : Inner) : Prop := {
  sb_accounting : accounting p' = accounting p;
  sb_entries : entries p' = entries p;
  sb_counters : forall c, c <> DLive -> get (dcounter_l c) p' = get (dcounter_l c) p;
  sb_owner : owner_of p' = owner_of p;
}.

Lemma DP_holder k {R X} (f : nat -> S -> option (R * S)) (kont : R -> prog S X) g g' z Q' E :
  dt_mon g = Some z ->
  g' = with_mon (dt_mon g') (with_count (dt_count g') g) ->
  (forall c, c <> DLive -> dt_count g' c = dt_count g c) ->
  (forall s n, let p := get self s in z = sizes_of p -> sizes_ok B z -> sz_live z = Z.of_nat n ->
     (dt_count g DLive <= n)%nat -> Z.of_nat n < 2 ^ 62 ->
     0 <= next_worker_index (locked_data p) < 2 ^ 62 ->
     exists b p' n', f k s = Some (b, set self p' s) /\ same_base p p' /\
       dt_mon g' = Some (sizes_of p') /\ sizes_ok B (sizes_of p') /\
       sz_live (sizes_of p') = Z.of_nat n' /\
       (n' + dt_count g DLive = n + dt_count g' DLive)%nat /\ (n' <= n + 1)%nat /\
       0 <= next_worker_index (locked_data p') <= next_worker_index (locked_data p) + 1 /\
       WP k (kont b) g' Q' E) ->
  WP k (Act f kont) g Q' E.
Proof.
  intros Hz Hg' Hoth Hf. apply WP_act. intros h s G Ht [Ha [Hcnt Hidx] Hm He] Hg.
  destruct (holder_owns _ _ _ _ _ Hm Hg Hz) as [Ho Hzs]. destruct (Hcnt DLive) as [Hlv Hlb].
  unfold in_time, STEP_BOUND in Ht.
  assert (Hlive : sz_live z = Z.of_nat (count_total DLive G)) by (by rewrite Hzs).
  assert (Hok : sizes_ok B z) by (rewrite Hzs; apply Hm).
  assert (Hlt : Z.of_nat (count_total DLive G) < 2 ^ 62) by lia.
  assert (Hix : 0 <= next_worker_index (locked_data (get self s)) < 2 ^ 62) by lia.
  destruct (Hf s (count_total DLive G) Hzs Hok Hlive (dyn_count_lookup _ _ _ _ Hg) Hlt Hix)
    as (b & p' & n' & -> & [Hb1 Hb2 Hb3 Hb4] & Hz' & Hok' & Hl' & Hn' & Hn1 & Hi' & Hk).
  exists g'. split; [|done]. split.
  - eapply acct_part_keep; try done; [by rewrite Hg'|..]; rewrite get_set; [done|by rewrite Hb2].
  - rewrite get_set. split; [|cbn [length]; lia]. intros c.
    pose proof (dyn_count_insert c G k g g' Hg) as Hins. destruct (decide (c = DLive)) as [->|Hne].
    + split; [|cbn [length]; lia]. change (get (dcounter_l DLive) p') with (sz_live (sizes_of p')). lia.
    + rewrite (Hoth c Hne) in Hins. rewrite (Hb3 c Hne). destruct (Hcnt c) as [-> ?]. cbn [length]. lia.
  - rewrite get_set. eapply mon_part_update; [exact Hm|exact Hg|by left; eexists|..|done].
    + by rewrite Hz', Hb4.
    + rewrite Hz'. by intros z' [= <-].
    + by rewrite Hz'.
  - rewrite get_set, Hb2. eapply entry_part_keep; [exact He|exact Hg|by rewrite Hg'..].
Qed.

(** Reading the locked state. *)
Lemma DP_holder_read k {R X} (f : Inner -> R) (kont : R -> prog S X) g z Q' E :
  dt_mon g = Some z ->
  (forall p, z = sizes_of p -> sizes_ok B z -> WP k (kont (f p)) g Q' E) ->
  WP k (Act (fun _ s => Some (f (get self s), s)) kont) g Q' E.
Proof.
  intros Hz Hk. eapply (DP_holder _ _ _ g g z); [done|by rewrite Hz; destruct g; cbn in *; subst|done|].
  intros s n p Hp Hok Hn Hle Hlt Hix. exists (f p), p, n. subst z.
  split; [subst p; by rewrite set_get|]. do 4 (split; [done|]).
  split; [lia|]. split; [lia|]. split; [lia|]. by apply Hk.
Qed.

Lemma DP_state_read k {R} (f : ThreadPoolState -> R) g z (Q' : R -> dtok -> Prop) E :
  dt_mon g = Some z ->
  (forall st, core_pool_size st = sz_core z -> maximum_pool_size st = sz_max z ->
     live_workers st = sz_live z -> Q' (f st) g) ->
  WP k (state_read self f) g Q' E.
Proof.
  intros Hz HQ. apply (DP_holder_read k (fun p => f (locked_data p)) Ret g z); [done|].
  intros p -> _. apply WP_ret. by apply HQ.
Qed.

Lemma DP_locked_load k {R} (l : lens ThreadPoolState R) g z (Q' : R -> dtok -> Prop) E :
  dt_mon g = Some z ->
  (forall st, core_pool_size st = sz_core z -> maximum_pool_size st = sz_max z ->
     live_workers st = sz_live z -> Q' (get l st) g) ->
  WP k (load (locked self l)) g Q' E.
Proof. intros Hz HQ. exact (DP_state_read k (get l) g z Q' E Hz HQ). Qed.

(** Writing the configured sizes. *)
Definition set_core (n : Z) (z : Sizes) : Sizes := MkSizes n (sz_max z) (sz_live z) (sz_atomic z).
Definition set_max (n : Z) (z : Sizes) : Sizes := MkSizes (sz_core z) n (sz_live z) (sz_atomic z).
Definition set_live (n : Z) (z : Sizes) : Sizes := MkSizes (sz_core z) (sz_max z) n (sz_atomic z).
Definition set_atomic (n : Z) (z : Sizes) : Sizes := MkSizes (sz_core z) (sz_max z) (sz_live z) n.

Ltac sizes_lia := unfold sizes_ok in *; cbn in *; unfold locked_data in *; cbn in *; lia.
Ltac holder_step :=
  split; [reflexivity|split; [split; try done; by intros []|]];
  split; [reflexivity|].

Lemma DP_store_core k n g z (Q' : unit -> dtok -> Prop) E :
  dt_mon g = Some z -> n <= sz_max z -> Q' tt (with_mon (Some (set_core n z)) g) ->
  WP k (store (locked self core_pool_size_l) n) g Q' E.
Proof.
  intros Hz Hn HQ. unfold store. eapply (DP_holder _ _ _ g (with_mon (Some (set_core n z)) g) z); [done..|].
  intros s m p -> Hok Hm Hle Hlt Hix.
  exists tt, (set (state_monitor_l ⊚ mon_data_l ⊚ core_pool_size_l) n p), m. holder_step.
  split; [sizes_lia|]. split; [exact Hm|]. split; [done|]. split; [lia|].
  split; [sizes_lia|]. by apply WP_ret.
Qed.

Lemma DP_store_max k n g z (Q' : unit -> dtok -> Prop) E :
  dt_mon g = Some z -> sz_core z <= n <= B -> Q' tt (with_mon (Some (set_max n z)) g) ->
  WP k (store (locked self maximum_pool_size_l) n) g Q' E.
Proof.
  intros Hz Hn HQ. unfold store. eapply (DP_holder _ _ _ g (with_mon (Some (set_max n z)) g) z); [done..|].
  intros s m p -> Hok Hm Hle Hlt Hix.
  exists tt, (set (state_monitor_l ⊚ mon_data_l ⊚ maximum_pool_size_l) n p), m. holder_step.
  split; [sizes_lia|]. split; [exact Hm|]. split; [done|]. split; [lia|].
  split; [sizes_lia|]. by apply WP_ret.
Qed.

(** Counting a worker in and out. *)
Lemma DP_incr_index k g z (Q' : unit -> dtok -> Prop) E :
  dt_mon g = Some z -> Q' tt g -> WP k (guarded_incr (locked self next_worker_index_l)) g Q' E.
Proof.
  intros Hz HQ. unfold guarded_incr. cbn [bind].
  eapply (DP_holder _ _ _ g g z); [done|by rewrite Hz; destruct g; cbn in *; subst|done|].
  intros s m p Hp Hok Hm Hle Hlt Hix. cbn [get locked mon lens_comp].
  exists true, (set (state_monitor_l ⊚ mon_data_l ⊚ next_worker_index_l) (next_worker_index (locked_data p) + 1) p), m.
  split; [fold p; cbn; fold p; unfold locked_data in *; by rewrite checked_add_small by lia|].
  split; [split; try done; by intros []|]. split; [by rewrite Hz, Hp|]. subst z.
  split; [exact Hok|]. split; [exact Hm|]. split; [done|]. split; [lia|]. split; [sizes_lia|].
  by apply WP_ret.
Qed.

Lemma DP_live_incr k g z (Q' : unit -> dtok -> Prop) E :
  dt_mon g = Some z -> sz_live z < B ->
  Q' tt (with_mon (Some (set_live (sz_live z + 1) z)) (inc DLive g)) ->
  WP k (guarded_incr (locked self live_workers_l)) g Q' E.
Proof.
  intros Hz Hlb HQ. unfold guarded_incr. cbn [bind].
  eapply (DP_holder _ _ _ g (with_mon (Some (set_live (sz_live z + 1) z)) (inc DLive g)) z); [done|done|..].
  { intros c Hc. cbn. rewrite decide_False by done. lia. }
  intros s m p -> Hok Hm Hle Hlt Hix.
  exists true, (set (state_monitor_l ⊚ mon_data_l ⊚ live_workers_l) (live_workers (locked_data p) + 1) p),
    (Datatypes.S m).
  split; [cbn in *; fold p; unfold locked_data in *; by rewrite checked_add_small by lia|].
  split; [split; try done; by intros []|]. split; [done|]. 
  split; [sizes_lia|]. split; [sizes_lia|]. split; [cbn; rewrite (decide_True (P := DLive = DLive)) by done; lia|].
  split; [lia|]. split; [sizes_lia|]. by apply WP_ret.
Qed.

Lemma DP_live_decr k g z (Q' : unit -> dtok -> Prop) E :
  dt_mon g = Some z -> (1 <= dt_count g DLive)%nat ->
  Q' tt (with_mon (Some (set_live (sz_live z - 1) z)) (dec DLive g)) ->
  WP k (guarded_decr (locked self live_workers_l)) g Q' E.
Proof.
  intros Hz H1 HQ. unfold guarded_decr. cbn [bind].
  eapply (DP_holder _ _ _ g (with_mon (Some (set_live (sz_live z - 1) z)) (dec DLive g)) z); [done|done|..].
  { intros c Hc. cbn. rewrite decide_False by done. lia. }
  intros s m p -> Hok Hm Hle Hlt Hix.
  exists true, (set (state_monitor_l ⊚ mon_data_l ⊚ live_workers_l) (live_workers (locked_data p) - 1) p),
    (m - 1)%nat.
  split; [cbn in *; fold p; unfold locked_data in *; by rewrite checked_sub_pos by lia|].
  split; [split; try done; by intros []|]. split; [done|]. 
  split; [sizes_lia|]. split; [sizes_lia|]. split; [cbn; rewrite (decide_True (P := DLive = DLive)) by done; lia|].
  split; [lia|]. split; [sizes_lia|]. by apply WP_ret.
Qed.

(** The atomic copy of the count follows under the same lock. *)
Lemma DP_atomic_incr k g z (Q' : Z -> dtok -> Prop) E :
  dt_mon g = Some z -> sz_live z = sz_atomic z + 1 ->
  (forall v, Q' v (with_mon (Some (set_atomic (sz_live z) z)) g)) ->
  WP k (fetch_add (self ⊚ live_worker_count_l) 1) g Q' E.
Proof.
  intros Hz Hs HQ. unfold fetch_add, fetch_modify.
  eapply (DP_holder _ _ _ g (with_mon (Some (set_atomic (sz_live z) z)) g) z); [done..|].
  intros s m p -> Hok Hm Hle Hlt Hix.
  exists (live_worker_count p), (set live_worker_count_l (live_workers (locked_data p)) p), m.
  split; [|].
  { cbn in *. fold p. rewrite wrap_small; [by rewrite <- Hs|].
    unfold in_usize. change USIZE_MOD with (2 ^ 64). lia. }
  split; [split; try done; by intros []|]. split; [done|]. split; [exact Hok|]. split; [exact Hm|].
  split; [done|]. split; [lia|]. split; [sizes_lia|]. by apply WP_ret.
Qed.

Lemma DP_atomic_decr k g z (Q' : Z -> dtok -> Prop) E :
  dt_mon g = Some z -> sz_atomic z = sz_live z + 1 ->
  (forall v, 0 < v -> Q' v (with_mon (Some (set_atomic (sz_live z) z)) g)) ->
  WP k (fetch_sub (self ⊚ live_worker_count_l) 1) g Q' E.
Proof.
  intros Hz Hs HQ. unfold fetch_sub, fetch_modify.
  eapply (DP_holder _ _ _ g (with_mon (Some (set_atomic (sz_live z) z)) g) z); [done..|].
  intros s m p -> Hok Hm Hle Hlt Hix.
  exists (live_worker_count p), (set live_worker_count_l (live_workers (locked_data p)) p), m.
  split; [|].
  { cbn in *. fold p. rewrite wrap_small; [by replace (live_worker_count p - 1) with (live_workers (locked_data p)) by lia|].
    unfold in_usize. change USIZE_MOD with (2 ^ 64). lia. }
  split; [split; try done; by intros []|]. split; [done|]. split; [exact Hok|]. split; [exact Hm|].
  split; [done|]. split; [lia|]. split; [sizes_lia|]. apply WP_ret, HQ. cbn in *. lia.
Qed.
End rules.
