(* ===== verification/DynEntryLogic.v ===== *)
(** Rules for the dynamic pool's queue entries: locking, changing their state,
    and the jobs that wait in them. *)
From S2P Require Import Prelude Prog Conc Sync AdmissionGate PoolAccounting AccountingLogic.
From S2P Require Import AccountingSpecs Types Hooks PoolJob DynState DynInner DynLogic.
Local Open Scope Z_scope.

Section rules.
Context {S M : Type} `{MonitorLaws M}.
Variable self : lens S (ThreadPoolInner M).
Context `{!LensLaws self} (T : nat) (cap : option Z) (B : Z).
Context (Fin FinP : dtok -> Prop).
Local Abbreviation I := (dyn_inv self T cap B).
Local Abbreviation WP := (WP I Fin FinP).
Local Abbreviation holds := (holds dt_acct_l).
Local Abbreviation Inner := (ThreadPoolInner M).
Implicit Types (r q : tok) (o : bool) (k e : nat) (g : dtok) (p : Inner).

Lemma holds_exact g0 g' : holds g0 (dt_acct g0) g' -> g' = g0.
Proof.
  intros [Hg Hr]. rewrite Hr. destruct g0 as [a n m e o]. cbn in *. f_equal.
  apply FunctionalExtensionality.functional_extensionality. exact Hg.
Qed.

(** An action on the queue entries by which thread [k], which contributes
    [r], and the queue, which holds [q], exchange waiting jobs. *)
Lemma DP_entries k {R X} (f : nat -> S -> option (R * S)) (kont : R -> prog S X) g0 g r Q' E :
  holds g0 r g ->
  (forall s (q : tok) G, (forall i, (forall o, i <> ix o Waiting) -> q i = 0%nat) ->
     (waiting_entries (entries (get self s)) <= all q Waiting)%nat ->
     entry_part (entries (get self s)) G -> G !! k = Some g ->
     match f k s with
     | None => True
     | Some (b, s') => exists m g0' (r' q' : tok),
         s' = set (self ⊚ entries_l) m s /\ dt_mon g0' = dt_mon g0 /\ dt_count g0' = dt_count g0 /\
         (forall i, (forall o, i <> ix o Waiting) -> q' i = 0%nat) /\
         (waiting_entries m <= all q' Waiting)%nat /\
         (forall i, (r' i + q' i = r i + q i)%nat) /\
         (forall g', dt_entry g' = dt_entry g0' -> dt_mine g' = dt_mine g0' ->
            entry_part m (<[k:=g']> G)) /\
         forall g', holds g0' r' g' -> WP k (kont b) g' Q' E
     end) ->
  WP k (Act f kont) g Q' E.
Proof.
  intros [Hown Hrest] Hf. apply WP_act. intros h s G Ht [(q & Hq & Hw & Ha) Hc Hm He] Hg.
  specialize (Hf s q G Hq Hw He Hg). destruct (f k s) as [[b s']|]; [|done].
  destruct Hf as (m & g0' & r' & q' & -> & Hmon & Hcnt & Hq' & Hw' & Hex & Hent & Hk).
  set (g' := set dt_acct_l r' g0'). exists g'. split; [|apply Hk; by split].
  assert (Hp : get self (set (self ⊚ entries_l) m s) = set entries_l m (get self s))
    by (cbn; by rewrite get_set).
  split.
  - exists q'. split; [done|]. split; [by rewrite Hp|].
    assert (tadd (acct_total (<[k:=g']> G)) q' = tadd (acct_total G) q) as ->.
    { apply FunctionalExtensionality.functional_extensionality. intros i. unfold tadd.
      pose proof (dyn_acct_insert G k g g' i Hg) as Hins. pose proof (dyn_acct_lookup G k g i Hg).
      assert (Ea : dt_acct g' i = r' i) by done. specialize (Hown i). specialize (Hex i).
      cbn in Hown. lia. }
    eapply acct_frame; [done|exact Ha|]. unfold acc. cbn [get lens_comp]. by rewrite Hp.
  - rewrite Hp. eapply count_part_keep; [exact Hc|exact Hg| |by intros []|done].
    cbn. rewrite Hcnt, Hrest. done.
  - rewrite Hp. eapply mon_part_keep; [exact Hm|exact Hg| |done|done]. cbn. by rewrite Hmon, Hrest.
  - rewrite Hp. by apply Hent.
Qed.

(** The same for an action on one entry. *)
Lemma DP_entry_act k e {R} (f : nat -> QueuedJob -> option (R * QueuedJob)) g0 g r (Q' : R -> dtok -> Prop) E :
  holds g0 r g ->
  (forall j (q : tok) m G, (forall i, (forall o, i <> ix o Waiting) -> q i = 0%nat) ->
     (waiting_entries m <= all q Waiting)%nat -> m !! e = Some j ->
     entry_part m G -> G !! k = Some g ->
     match f k j with
     | None => True
     | Some (b, j') => exists g0' (r' q' : tok),
         dt_mon g0' = dt_mon g0 /\ dt_count g0' = dt_count g0 /\
         (forall i, (forall o, i <> ix o Waiting) -> q' i = 0%nat) /\
         (waiting_entries (<[e:=j']> m) <= all q' Waiting)%nat /\
         (forall i, (r' i + q' i = r i + q i)%nat) /\
         (forall g', dt_entry g' = dt_entry g0' -> dt_mine g' = dt_mine g0' ->
            entry_part (<[e:=j']> m) (<[k:=g']> G)) /\
         forall g', holds g0' r' g' -> Q' b g'
     end) ->
  WP k (entry_act self e f) g Q' E.
Proof.
  intros Hg Hf. unfold entry_act. eapply DP_entries; [exact Hg|]. intros s q G Hq Hw He HG.
  destruct (entries (get self s) !! e) as [j|] eqn:Hj; [|done].
  specialize (Hf j q _ G Hq Hw Hj He HG). destruct (f k j) as [[b j']|]; [|done].
  destruct Hf as (g0' & r' & q' & H1 & H2 & H3 & H4 & H5 & H6 & H7).
  exists (<[e:=j']> (entries (get self s))), g0', r', q'.
  do 7 (split; [done|]). intros g' Hg'. apply WP_ret. by apply H7.
Qed.

(** An entry keeps its pool, and is changed by its owner only. *)
Lemma entry_part_write m G k g g' e j j' :
  entry_part m G -> G !! k = Some g -> m !! e = Some j ->
  entry_pool j' = entry_pool j ->
  (mutex_owner (entry_state j) = None \/ mutex_owner (entry_state j) = Some k \/
   (mutex_owner (entry_state j') = mutex_owner (entry_state j) /\ entry_value j' = entry_value j)) ->
  (forall e1 v, dt_entry g' = Some (e1, v) ->
     e1 = e /\ mutex_owner (entry_state j') = Some k /\ entry_value j' = v \/
     e1 <> e /\ dt_entry g = Some (e1, v)) ->
  dt_mine g' ⊆ dt_mine g -> entry_part (<[e:=j']> m) (<[k:=g']> G).
Proof.
  intros [Hh Hm] Hg Hj Hp Ho Hg' Hmine. assert (Hlt : (k < length G)%nat) by (by eapply lookup_lt_Some). split.
  - intros u g1 e1 v Hu Hv. destruct (decide (u = k)) as [->|Hne].
    + rewrite list_lookup_insert_eq in Hu by done. simplify_eq. destruct (Hg' _ _ Hv) as [(-> & ? & ?)|[Hne Hv']].
      * exists j'. by rewrite lookup_insert_eq.
      * rewrite lookup_insert_ne by done. by eapply Hh.
    + rewrite list_lookup_insert_ne in Hu by done. destruct (Hh u g1 e1 v Hu Hv) as (j1 & Hj1 & Ho1 & Hv1).
      destruct (decide (e1 = e)) as [->|He]; [|exists j1; by rewrite lookup_insert_ne].
      simplify_eq. exists j'. rewrite lookup_insert_eq. split; [done|].
      destruct Ho as [Ho|[Ho|[Ho Hv']]]; [congruence|congruence|]. by rewrite Ho, Hv'.
  - assert (Hk : forall u g1 e1, G !! u = Some g1 -> e1 ∈ dt_mine g1 ->
      exists j1, <[e:=j']> m !! e1 = Some j1 /\ entry_pool j1 = true).
    { intros u g1 e1 Hu He. destruct (Hm u g1 e1 Hu He) as (j1 & Hj1 & Hp1).
      destruct (decide (e1 = e)) as [->|Hne]; [|exists j1; by rewrite lookup_insert_ne].
      simplify_eq. exists j'. rewrite lookup_insert_eq. split; [done|congruence]. }
    intros u g1 e1 Hu He. destruct (decide (u = k)) as [->|Hne].
    + rewrite list_lookup_insert_eq in Hu by done. simplify_eq. eapply (Hk k); [exact Hg|]. set_solver.
    + rewrite list_lookup_insert_ne in Hu by done. by eapply Hk.
Qed.

Lemma waits_bound j : (waits j <= 1)%nat.
Proof. unfold waits. destruct (is_queued _); lia. Qed.

Lemma waits_value j j' : entry_value j' = entry_value j -> waits j' = waits j.
Proof. unfold waits. by intros ->. Qed.

(** Actions that leave the waiting jobs where they are. *)
Lemma DP_entry_plain k e {R} (f : nat -> QueuedJob -> option (R * QueuedJob)) F g (Q' : R -> dtok -> Prop) E :
  dt_mon (F g) = dt_mon g -> dt_count (F g) = dt_count g -> dt_acct (F g) = dt_acct g ->
  (forall j m G, m !! e = Some j -> entry_part m G -> G !! k = Some g ->
     match f k j with
     | None => True
     | Some (b, j') => (waits j' <= waits j)%nat /\
         (forall g', dt_entry g' = dt_entry (F g) -> dt_mine g' = dt_mine (F g) ->
            entry_part (<[e:=j']> m) (<[k:=g']> G)) /\ Q' b (F g)
     end) ->
  WP k (entry_act self e f) g Q' E.
Proof.
  intros H1 H2 H3 Hf. eapply (DP_entry_act k e f g g (dt_acct g)); [apply (holds_self dt_acct_l)|].
  intros j q m G Hq Hw Hj He HG. specialize (Hf j m G Hj He HG). destruct (f k j) as [[b j']|]; [|done].
  destruct Hf as (Hle & Hep & HQ). exists (F g), (dt_acct g), q. do 3 (split; [done|]).
  split; [pose proof (waiting_insert m e j j' Hj); lia|]. split; [done|]. split; [done|].
  intros g'. rewrite <- H3. by intros ->%holds_exact.
Qed.

Lemma entry_held m G k g e v j :
  entry_part m G -> G !! k = Some g -> dt_entry g = Some (e, v) -> m !! e = Some j ->
  mutex_owner (entry_state j) = Some k /\ entry_value j = v.
Proof. intros [Hh _] Hg He Hj. destruct (Hh k g e v Hg He) as (j1 & Hj1 & ?). by simplify_eq. Qed.

Lemma DP_entry_lock k e g (Q' : unit -> dtok -> Prop) E :
  (forall v, Q' tt (with_entry (Some (e, v)) g)) -> WP k (entry_lock self e) g Q' E.
Proof.
  intros HQ. eapply (DP_entries k _ _ g g (dt_acct g)); [apply (holds_self dt_acct_l)|].
  intros s q G Hq Hw He HG. destruct (entries (get self s) !! e) as [j|] eqn:Hj; [|done].
  destruct (mutex_owner (entry_state j)) eqn:Ho; [done|].
  set (j' := MkQueuedJob _ _ _). exists (<[e:=j']> (entries (get self s))),
    (with_entry (Some (e, entry_value j)) g), (dt_acct g), q.
  do 4 (split; [done|]). split; [|split; [done|split]].
  - pose proof (waiting_insert _ e j j' Hj). rewrite (waits_value j j') in * by done. lia.
  - intros g' H1 H2. eapply entry_part_write; [exact He|exact HG|exact Hj|done|by left| |by rewrite H2].
    rewrite H1. intros ? ? [= <- <-]; by left.
  - intros g' Hg'. apply WP_ret. rewrite (holds_exact _ _ Hg'). apply HQ.
Qed.

Lemma DP_entry_read k e v g (Q' : QueuedJobState.t -> dtok -> Prop) E :
  dt_entry g = Some (e, v) -> Q' v g -> WP k (entry_read self e) g Q' E.
Proof.
  intros Hv HQ. apply (DP_entry_plain k e _ (fun g => g)); [done..|]. intros j m G Hj He HG.
  destruct (entry_held _ _ _ _ _ _ _ He HG Hv Hj) as [Ho Hval]. split; [done|]. split.
  - intros g' H1 H2. eapply entry_part_write; [exact He|exact HG|exact Hj|done|by right; left| |by rewrite H2].
    rewrite H1, Hv. intros ? ? [= <- <-]; by left.
  - change (Q' (entry_value j) g). by rewrite Hval.
Qed.

Lemma DP_entry_unlock k e v g (Q' : unit -> dtok -> Prop) E :
  dt_entry g = Some (e, v) -> Q' tt (with_entry None g) -> WP k (entry_unlock self e) g Q' E.
Proof.
  intros Hv HQ. apply (DP_entry_plain k e _ (with_entry None)); [done..|]. intros j m G Hj He HG.
  destruct (entry_held _ _ _ _ _ _ _ He HG Hv Hj) as [Ho Hval]. split; [done|]. split; [|done].
  intros g' H1 H2. eapply entry_part_write; [exact He|exact HG|exact Hj|done|by right; left| |by rewrite H2].
  rewrite H1. done.
Qed.

(** A write that does not queue a job. *)
Lemma DP_entry_write k e v v' g (Q' : unit -> dtok -> Prop) E :
  dt_entry g = Some (e, v) -> is_queued v' = false ->
  Q' tt (with_entry (Some (e, v')) g) -> WP k (entry_write self e v') g Q' E.
Proof.
  intros Hv Hv' HQ. apply (DP_entry_plain k e _ (with_entry (Some (e, v')))); [done..|]. intros j m G Hj He HG.
  destruct (entry_held _ _ _ _ _ _ _ He HG Hv Hj) as [Ho Hval]. split; [|split; [|done]].
  - unfold waits at 1. cbn. rewrite Hv'. lia.
  - intros g' H1 H2. eapply entry_part_write; [exact He|exact HG|exact Hj|done|by right; left| |by rewrite H2].
    rewrite H1. intros ? ? [= <- <-]; by left.
Qed.

Lemma DP_entry_set k e v g (Q' : unit -> dtok -> Prop) E :
  dt_entry g = None -> is_queued v = false -> Q' tt g -> WP k (entry_set self e v) g Q' E.
Proof.
  intros Hn Hv HQ. apply WP_bind, DP_entry_lock. intros v0. apply WP_bind.
  eapply DP_entry_write; [done|done|]. eapply DP_entry_unlock; [done|].
  change (Q' tt (with_entry None (with_entry (Some (e, v)) g))). by rewrite with_entry_back.
Qed.

Lemma DP_entry_notify k e g (Q' : unit -> dtok -> Prop) E : Q' tt g -> WP k (entry_notify self e) g Q' E.
Proof.
  intros HQ. apply (DP_entry_plain k e _ (fun g => g)); [done..|]. intros j m G Hj He HG.
  split; [done|]. split; [|done]. intros g' H1 H2.
  eapply entry_part_write; [exact He|exact HG|exact Hj|done|by right; right| |by rewrite H2].
  rewrite H1. intros e1 v Hv. destruct (decide (e1 = e)) as [->|Hne]; [left|by right].
  by destruct (entry_held _ _ _ _ _ _ _ He HG Hv Hj).
Qed.

(** [wait] releases the entry and takes it again, in whatever state it then is. *)
Lemma DP_entry_wait k e v g (Q' : unit -> dtok -> Prop) E :
  dt_entry g = Some (e, v) -> (forall v', Q' tt (with_entry (Some (e, v')) g)) ->
  WP k (entry_wait self e) g Q' E.
Proof.
  intros Hv HQ. apply WP_bind.
  apply (DP_entry_plain k e _ (with_entry None)); [done..|]. intros j m G Hj He HG.
  destruct (entry_held _ _ _ _ _ _ _ He HG Hv Hj) as [Ho Hval]. split; [done|]. split.
  { intros g' H1 H2. eapply entry_part_write; [exact He|exact HG|exact Hj|done|by right; left| |by rewrite H2].
    by rewrite H1. }
  clear j m G Hj He HG Ho Hval. apply WP_bind. unfold choose. apply WP_choose. intros spurious.
  apply WP_ret. set (g1 := with_entry None g).
  eapply (DP_entry_act k e _ g1 g1 (dt_acct g1)); [apply (holds_self dt_acct_l)|].
  intros j q m G Hq Hw Hj He HG. destruct (_ || _)%bool; [|done].
  destruct (mutex_owner (entry_state j)) eqn:Ho; [done|]. set (j' := MkQueuedJob _ _ _).
  exists (with_entry (Some (e, entry_value j)) g1), (dt_acct g1), q.
  do 3 (split; [done|]). split; [|split; [done|split]].
  - pose proof (waiting_insert _ e j j' Hj). rewrite (waits_value j j') in * by done. lia.
  - intros g' H1 H2. eapply entry_part_write; [exact He|exact HG|exact Hj|done|by left| |by rewrite H2].
    rewrite H1. intros ? ? [= <- <-]; by left.
  - intros g' Hg'. rewrite (holds_exact _ _ Hg'). apply HQ.
Qed.

(** Asking an entry for its pool uses up the knowledge that it is this one. *)
Lemma DP_entry_belongs k e g (Q' : bool -> dtok -> Prop) E :
  e ∈ dt_mine g -> Q' true (with_mine (dt_mine g ∖ {[e]}) g) ->
  WP k (entry_act self e (fun _ j => Some (belongs_to_pool j, j))) g Q' E.
Proof.
  intros Hin HQ. apply (DP_entry_plain k e _ (fun g => with_mine (dt_mine g ∖ {[e]}) g)); [done..|].
  intros j m G Hj He HG. destruct (ep_mine _ _ He k g e HG Hin) as (j1 & Hj1 & Hp). simplify_eq.
  unfold belongs_to_pool. rewrite Hp. split; [done|]. split; [|done]. intros g' H1 H2.
  eapply entry_part_write; [exact He|exact HG|exact Hj|done|by right; right| |].
  - rewrite H1. cbn. intros e1 v Hv. destruct (decide (e1 = e)) as [->|Hne]; [left|by right].
    by destruct (entry_held _ _ _ _ _ _ _ He HG Hv Hj).
  - rewrite H2. cbn. set_solver.
Qed.

(** *** Waiting jobs *)

Lemma only_waiting_add q o : (forall i, (forall o, i <> ix o Waiting) -> q i = 0%nat) ->
  forall i, (forall o, i <> ix o Waiting) -> tadd q (tk o Waiting) i = 0%nat.
Proof.
  intros Hq i Hi. unfold tadd. rewrite Hq by done. specialize (Hi o). unfold tk, one.
  destruct o, i as [[]|[]| | | | |]; done.
Qed.

Lemma all_add_waiting q o : all (tadd q (tk o Waiting)) Waiting = Datatypes.S (all q Waiting).
Proof. unfold all, tadd. destruct o; cbn; lia. Qed.

(** The owner queues a job in the entry: the queue gets the contribution. *)
Lemma DP_entry_queue k e v job o g0 g r (Q' : unit -> dtok -> Prop) E :
  holds g0 (tadd r (tk o Waiting)) g -> dt_entry g0 = Some (e, v) ->
  (forall g', holds (with_entry (Some (e, QueuedJobState.Queued job)) g0) r g' -> Q' tt g') ->
  WP k (entry_write self e (QueuedJobState.Queued job)) g Q' E.
Proof.
  intros Hg Hv HQ. assert (Hvg : dt_entry g = Some (e, v)) by (destruct Hg as [_ ->]; done).
  eapply DP_entry_act; [exact Hg|]. intros j q m G Hq Hw Hj He HG.
  destruct (entry_held _ _ _ _ _ _ _ He HG Hvg Hj) as [Ho Hval]. set (j' := MkQueuedJob _ _ _).
  exists (with_entry (Some (e, QueuedJobState.Queued job)) g0), r, (tadd q (tk o Waiting)).
  split; [done|]. split; [done|]. split; [by apply only_waiting_add|]. split; [|split; [|split]].
  - rewrite all_add_waiting. pose proof (waiting_insert m e j j' Hj). pose proof (waits_bound j'). lia.
  - intros i. unfold tadd. lia.
  - intros g' H1 H2. eapply entry_part_write; [exact He|exact HG|exact Hj|done|by right; left| |].
    + rewrite H1. intros ? ? [= <- <-]; by left.
    + rewrite H2. by destruct Hg as [_ ->].
  - exact HQ.
Qed.

(** Taking the job out of a queued entry takes a contribution from the queue. *)
Lemma DP_entry_dequeue k e job v' g0 g r (Q' : unit -> dtok -> Prop) E :
  holds g0 r g -> dt_entry g0 = Some (e, QueuedJobState.Queued job) -> is_queued v' = false ->
  (forall o g', holds (with_entry (Some (e, v')) g0) (tadd r (tk o Waiting)) g' -> Q' tt g') ->
  WP k (entry_write self e v') g Q' E.
Proof.
  intros Hg Hv Hv' HQ.
  assert (Hvg : dt_entry g = Some (e, QueuedJobState.Queued job)) by (destruct Hg as [_ ->]; done).
  eapply DP_entry_act; [exact Hg|]. intros j q m G Hq Hw Hj He HG.
  destruct (entry_held _ _ _ _ _ _ _ He HG Hvg Hj) as [Ho Hval]. set (j' := MkQueuedJob _ _ _).
  pose proof (waiting_insert m e j j' Hj) as Hins.
  assert (waits j = 1%nat) as Hj1 by (unfold waits; by rewrite Hval).
  assert (waits j' = 0%nat) as Hj0 by (unfold waits; cbn; by rewrite Hv').
  assert (exists o, (1 <= q (ix o Waiting))%nat) as [o Hqo].
  { unfold all in Hw. destruct (q (New Waiting)) eqn:?; [exists true|exists false]; cbn; lia. }
  exists (with_entry (Some (e, v')) g0), (tadd r (tk o Waiting)), (fun i => q i - tk o Waiting i)%nat.
  split; [done|]. split; [done|]. split; [|split; [|split; [|split]]].
  - intros i Hi. by rewrite Hq.
  - unfold all in *. destruct o; cbn in *; lia.
  - intros i. unfold tadd, tk, one. destruct (idx_eqb (ix o Waiting) i) eqn:Hi; [|lia].
    assert (i = ix o Waiting) as -> by (destruct o, i as [[]|[]| | | | |]; done). lia.
  - intros g' H1 H2. eapply entry_part_write; [exact He|exact HG|exact Hj|done|by right; left| |].
    + rewrite H1. intros ? ? [= <- <-]; by left.
    + rewrite H2. by destruct Hg as [_ ->].
  - intros g' Hg'. by apply (HQ o).
Qed.

(** [QueuedJob::take_queued]: whoever gets the job gets its contribution. *)
Lemma DP_take_queued k e g0 g r (Q' : option PoolJob -> dtok -> Prop) E :
  holds g0 r g -> dt_entry g0 = None ->
  (forall job o g', holds g0 (tadd r (tk o Waiting)) g' -> Q' (Some job) g') ->
  (forall g', holds g0 r g' -> Q' None g') ->
  WP k (take_queued self e) g Q' E.
Proof.
  intros Hg Hn HQs HQn. apply WP_bind, DP_entry_lock. intros v.
  assert (Hg1 : holds (with_entry (Some (e, v)) g0) r (with_entry (Some (e, v)) g)).
  { destruct Hg as [Hg1 Hg2]. split; [exact Hg1|]. rewrite Hg2. done. }
  apply WP_bind. eapply DP_entry_read; [done|]. apply WP_bind.
  assert (Hback : forall v1 r1 g1, holds (with_entry (Some (e, v1)) g0) r1 g1 ->
    (dt_entry g1 = Some (e, v1)) /\ holds g0 r1 (with_entry None g1)).
  { intros v1 r1 g1 [Ha Hb]. split; [by rewrite Hb|]. split; [exact Ha|]. rewrite Hb. cbn.
    destruct g0. cbn in *. by rewrite Hn. }
  destruct v as [|ow b|job| | | |]; cbn [take_queued_state fst snd];
    try (eapply DP_entry_write; [done|done|]; apply WP_bind; eapply DP_entry_unlock; [done|];
         apply WP_ret, HQn; eapply (Hback _ r); exact Hg1).
  eapply DP_entry_dequeue; [exact Hg1|done|done|]. intros o g2 Hg2. cbn beta in Hg2.
  destruct (Hback _ _ _ Hg2) as [He2 Hg3]. apply WP_bind. eapply DP_entry_unlock; [exact He2|].
  apply WP_ret. by eapply HQs.
Qed.

(** *** New entries *)

Lemma entry_part_alloc m G k g g' e j :
  entry_part m G -> G !! k = Some g -> m !! e = None ->
  dt_entry g' = dt_entry g ->
  (forall e', e' ∈ dt_mine g' -> e' ∈ dt_mine g \/ e' = e /\ entry_pool j = true) ->
  entry_part (<[e:=j]> m) (<[k:=g']> G).
Proof.
  intros [Hh Hm] Hg Hj He Hmine. assert (Hlt : (k < length G)%nat) by (by eapply lookup_lt_Some).
  assert (Hkeep : forall e1 j1, m !! e1 = Some j1 -> <[e:=j]> m !! e1 = Some j1).
  { intros e1 j1 H1. rewrite lookup_insert_ne; [done|congruence]. }
  split.
  - intros u g1 e1 v Hu Hv. assert (exists g2, G !! u = Some g2 /\ dt_entry g2 = Some (e1, v)) as (g2 & Hu2 & Hv2).
    { destruct (decide (u = k)) as [->|Hne].
      - rewrite list_lookup_insert_eq in Hu by done. simplify_eq. exists g. by rewrite <- He.
      - rewrite list_lookup_insert_ne in Hu by done. by exists g1. }
    destruct (Hh u g2 e1 v Hu2 Hv2) as (j1 & Hj1 & ?). exists j1. split; [by apply Hkeep|done].
  - intros u g1 e1 Hu Hin. destruct (decide (u = k)) as [->|Hne].
    + rewrite list_lookup_insert_eq in Hu by done. simplify_eq. destruct (Hmine _ Hin) as [Hin'|[-> Hp]].
      * destruct (Hm k g e1 Hg Hin') as (j1 & Hj1 & ?). exists j1. split; [by apply Hkeep|done].
      * exists j. by rewrite lookup_insert_eq.
    + rewrite list_lookup_insert_ne in Hu by done. destruct (Hm u g1 e1 Hu Hin) as (j1 & Hj1 & ?).
      exists j1. split; [by apply Hkeep|done].
Qed.

Lemma fresh_entry (m : gmap nat QueuedJob) : m !! fresh (dom m) = None.
Proof. apply not_elem_of_dom. apply is_fresh. Qed.

(** An entry for a job that will be submitted later. *)
Lemma DP_prepare k g (Q' : nat -> dtok -> Prop) E :
  (forall e, e ∉ dt_mine g -> Q' e (with_mine ({[e]} ∪ dt_mine g) g)) ->
  WP k (entry_alloc self queued_job_prepared) g Q' E.
Proof.
  intros HQ. eapply (DP_entries k _ _ g g (dt_acct g)); [apply (holds_self dt_acct_l)|].
  intros s q G Hq Hw He HG. set (m := entries (get self s)) in *. set (e := fresh (dom m)).
  pose proof (fresh_entry m) as Hf. fold e in Hf.
  exists (<[e:=queued_job_prepared]> m), (with_mine ({[e]} ∪ dt_mine g) g), (dt_acct g), q.
  do 4 (split; [done|]). split; [by rewrite waiting_fresh|]. split; [done|]. split.
  - intros g' H1 H2. eapply entry_part_alloc; [exact He|exact HG|done|by rewrite H1|].
    intros e'. rewrite H2. cbn. rewrite elem_of_union, elem_of_singleton. intros [->|?]; auto.
  - intros g' Hg'. apply WP_ret. rewrite (holds_exact _ _ Hg').
    apply HQ. intros Hin. destruct (ep_mine _ _ He k g e HG Hin) as (j & Hj & _). congruence.
Qed.

(** An ordinary entry, which holds its job from the start. *)
Lemma DP_alloc_queued k job o g0 g r (Q' : nat -> dtok -> Prop) E :
  holds g0 (tadd r (tk o Waiting)) g -> (forall e g', holds g0 r g' -> Q' e g') ->
  WP k (entry_alloc self (queued_job_new job)) g Q' E.
Proof.
  intros Hg HQ. eapply DP_entries; [exact Hg|].
  intros s q G Hq Hw He HG. set (m := entries (get self s)) in *. set (e := fresh (dom m)).
  pose proof (fresh_entry m) as Hf. fold e in Hf.
  exists (<[e:=queued_job_new job]> m), g0, r, (tadd q (tk o Waiting)).
  do 3 (split; [done|]). split; [by apply only_waiting_add|]. split; [|split; [|split]].
  - rewrite waiting_fresh by done. rewrite all_add_waiting. cbn. lia.
  - intros i. unfold tadd. lia.
  - intros g' H1 H2. eapply entry_part_alloc; [exact He|exact HG|done|..].
    + rewrite H1. by destruct Hg as [_ ->].
    + intros e'. rewrite H2. destruct Hg as [_ ->]. by left.
  - intros g' Hg'. apply WP_ret. by apply HQ.
Qed.
End rules.
