(* ===== verification/DynSpecs.v ===== *)
(** Specifications of the dynamic pool's shared functions under the pool
    invariant: none panics, and each returns every contribution it takes. *)
From S2P Require Import Prelude Prog Conc Sync AdmissionGate PoolAccounting AccountingLogic.
From S2P Require Import AccountingSpecs Types Hooks PoolJob DynState DynInner DynLogic DynEntryLogic UserSpecs.
Local Open Scope Z_scope.

(** A thread may run code of the application when it observes nothing and
    holds neither the monitor nor a queue entry. *)
Definition free (g : dtok) : Prop := dt_mon g = None /\ dt_entry g = None.
Definition calm (g : dtok) : Prop := dt_acct g Late = 0%nat /\ free g.

(** Applies a specification, finding the pool's interfaces. *)
Tactic Notation "client" uconstr(lem) :=
  eapply lem;
  try match goal with |- AcctClient _ _ _ _ _ _ => apply _ end;
  try match goal with |- LensLaws _ => apply _ end;
  try match goal with |- MonitorLaws _ => apply _ end;
  try match goal with |- UserSafeB _ _ _ _ _ _ => eassumption end.

Ltac solve_core :=
  first [apply same_core_refl
        |unfold locked, queue, mon; cbn [set get lens_comp]; rewrite ?get_set; split; try done; by intros []].

Section specs.
Context {S M : Type} `{MonitorLaws M} `{UserCode S}.
Variable self : lens S (ThreadPoolInner M).
Context `{!LensLaws self} (T : nat) (cap : option Z) (B : Z).
Context (Fin FinP : dtok -> Prop).
Local Abbreviation I := (dyn_inv self T cap B).
Local Abbreviation WP := (WP I Fin FinP).
Local Abbreviation holds := (holds dt_acct_l).
Local Abbreviation idle_gain := (idle_gain dt_acct_l).
Local Abbreviation UserSafe := (UserSafe I Fin FinP calm).
Implicit Types (r q : tok) (o : bool) (k e : nat) (g : dtok).

Lemma holds_mon g0 r g : holds g0 r g -> dt_mon g = dt_mon g0.
Proof. by intros [_ ->]. Qed.
Lemma holds_entry g0 r g : holds g0 r g -> dt_entry g = dt_entry g0.
Proof. by intros [_ ->]. Qed.
Lemma holds_count g0 r g : holds g0 r g -> dt_count g = dt_count g0.
Proof. by intros [_ ->]. Qed.
Lemma holds_free g0 r g : holds g0 r g -> free g0 -> free g.
Proof. by intros [_ ->]. Qed.
Lemma holds_calm g0 r g : holds g0 r g -> r Late = 0%nat -> free g0 -> calm g.
Proof.
  intros Hg Hr Hf. split; [|by eapply holds_free]. destruct Hg as [Hg _]. by rewrite <- Hr, <- Hg.
Qed.

(** Entering and leaving a state in which the monitor or an entry is held. *)
Lemma holds_with_mon m g0 r g : holds g0 r g -> holds (with_mon m g0) r (with_mon m g).
Proof. intros [Hg Hr]. split; [exact Hg|]. by rewrite Hr. Qed.
Lemma holds_drop_mon m g0 r g : dt_mon g0 = None -> holds (with_mon m g0) r g -> holds g0 r (with_mon None g).
Proof. intros Hn [Hg Hr]. split; [exact Hg|]. rewrite Hr. cbn. destruct g0. cbn in *. by rewrite Hn. Qed.
Lemma holds_with_entry x g0 r g : holds g0 r g -> holds (with_entry x g0) r (with_entry x g).
Proof. intros [Hg Hr]. split; [exact Hg|]. by rewrite Hr. Qed.
Lemma holds_drop_entry x g0 r g :
  dt_entry g0 = None -> holds (with_entry x g0) r g -> holds g0 r (with_entry None g).
Proof. intros Hn [Hg Hr]. split; [exact Hg|]. rewrite Hr. cbn. destruct g0. cbn in *. by rewrite Hn. Qed.
Lemma holds_inc c g0 r g : holds g0 r g -> holds (inc c g0) r (inc c g).
Proof. intros [Hg Hr]. split; [exact Hg|]. by rewrite Hr. Qed.
Lemma holds_dec c g0 r g : holds g0 r g -> holds (dec c g0) r (dec c g).
Proof. intros [Hg Hr]. split; [exact Hg|]. by rewrite Hr. Qed.

(** *** Plain accesses *)

Lemma DP_get k {R X} (f : S -> R) (kont : R -> prog S X) g Q' E :
  (forall b, WP k (kont b) g Q' E) -> WP k (Act (fun _ s => Some (f s, s)) kont) g Q' E.
Proof. intros Hk. client DP_core. intros s. split; [solve_core|apply Hk]. Qed.

Lemma DP_get_field k {R} (l : lens S R) g (Q' : R -> dtok -> Prop) E :
  (forall b, Q' b g) -> WP k (load l) g Q' E.
Proof. intros HQ. apply DP_get. intros b. by apply WP_ret. Qed.

Lemma DP_store_stop k v g (Q' : unit -> dtok -> Prop) E :
  Q' tt g -> WP k (store (self ⊚ stop_now_l) v) g Q' E.
Proof. intros HQ. client DP_core. intros s. split; [solve_core|by apply WP_ret]. Qed.

Lemma DP_store_lifecycle k v g (Q' : unit -> dtok -> Prop) E :
  Q' tt g -> WP k (store (locked self lifecycle_l) v) g Q' E.
Proof. intros HQ. client DP_core. intros s. split; [solve_core|by apply WP_ret]. Qed.

Lemma DP_store_keep_alive k v g (Q' : unit -> dtok -> Prop) E :
  Q' tt g -> WP k (store (locked self keep_alive_l) v) g Q' E.
Proof. intros HQ. client DP_core. intros s. split; [solve_core|by apply WP_ret]. Qed.

Lemma DP_store_core_timeout k v g (Q' : unit -> dtok -> Prop) E :
  Q' tt g -> WP k (store (locked self allow_core_thread_timeout_l) v) g Q' E.
Proof. intros HQ. client DP_core. intros s. split; [solve_core|by apply WP_ret]. Qed.

Lemma DP_update_wakes k f g (Q' : Result Z Z -> dtok -> Prop) E :
  (forall v, Q' v g) -> WP k (fetch_update (self ⊚ pending_worker_wakes_l) f) g Q' E.
Proof.
  intros HQ. client DP_core. intros s. destruct (f _); (split; [solve_core|by apply WP_ret]).
Qed.

Lemma DP_pop_front k g (Q' : option nat -> dtok -> Prop) E :
  (forall v, Q' v g) -> WP k (pop_front self) g Q' E.
Proof.
  intros HQ. client DP_core. intros s. destruct (mutex_data _); (split; [solve_core|by apply WP_ret]).
Qed.

Lemma DP_push_back k e g (Q' : unit -> dtok -> Prop) E :
  Q' tt g -> WP k (push_back self e) g Q' E.
Proof. intros HQ. client DP_core. intros s. split; [solve_core|by apply WP_ret]. Qed.

Lemma DP_store_queue k v g (Q' : unit -> dtok -> Prop) E :
  Q' tt g -> WP k (store (queue self ⊚ mutex_data_l) v) g Q' E.
Proof. intros HQ. client DP_core. intros s. split; [solve_core|by apply WP_ret]. Qed.

Lemma DP_current_thread k g (Q' : nat -> dtok -> Prop) E : Q' k g -> WP k current_thread g Q' E.
Proof. intros HQ. client DP_core. intros s. split; [solve_core|by apply WP_ret]. Qed.

(** The queue's lock guards nothing the invariant speaks about. *)
Lemma DP_with_queue k {R} (body : prog S R) g (Q' : R -> dtok -> Prop) E :
  WP k body g Q' (fun _ => False) -> WP k (with_mutex (queue self) body) g Q' E.
Proof.
  intros Hb. apply WP_bind. unfold mutex_lock. client DP_core. intros s.
  destruct (mutex_owner _); [done|]. split; [solve_core|]. apply WP_ret, WP_finally.
  eapply WP_mono; [exact Hb| |done]. intros b g' HQ. unfold mutex_unlock. client DP_core. intros s'.
  split; [solve_core|by apply WP_ret].
Qed.

(** *** Critical sections under the monitor that leave the sizes as they are *)

Lemma DP_with_lock_holds k {R} (body : prog S R) g0 g r (Q' : R -> dtok -> Prop) E :
  free g0 -> holds g0 r g ->
  (forall z g1, synced z -> sizes_ok B z -> holds (with_mon (Some z) g0) r g1 ->
     WP k body g1 (fun b g' => exists z' r', synced z' /\ holds (with_mon (Some z') g0) r' g' /\
       forall g'', holds g0 r' g'' -> Q' b g'') (fun _ => False)) ->
  WP k (with_lock (mon self) body) g Q' E.
Proof.
  intros [Hn _] Hg Hb. client DP_with_lock. intros z Hz Hok.
  eapply WP_mono; [apply (Hb z _ Hz Hok); by apply holds_with_mon| |done].
  intros b g' (z' & r' & Hz' & Hg' & HQ). exists z'. rewrite (holds_mon _ _ _ Hg').
  split; [done|]. split; [done|]. apply HQ. by eapply holds_drop_mon.
Qed.

Lemma DP_notify k g (Q' : unit -> dtok -> Prop) E :
  free g -> Q' tt g -> WP k (tp_notify_waiters_after_atomic_change self) g Q' E.
Proof. intros [Hn _] HQ. by client DP_lock_notify_all. Qed.

(** *** Admission, notifications, idleness *)

Lemma DP_inflight k g (Q' : Z -> dtok -> Prop) E : (forall n, Q' n g) -> WP k (tp_inflight_count self) g Q' E.
Proof. intros HQ. apply WP_bind, DP_get_field. intros. by apply WP_ret. Qed.

Lemma DP_queue_is_empty k g (Q' : bool -> dtok -> Prop) E :
  (forall b, Q' b g) -> WP k (n <- tp_queued_count self ;; Ret (n =? 0)) g Q' E.
Proof. intros HQ. apply WP_bind, DP_get_field. intros. by apply WP_ret. Qed.

Lemma DP_no_pending_wake k g (Q' : bool -> dtok -> Prop) E :
  (forall b, Q' b g) -> WP k (b <- tp_has_pending_worker_wake self ;; Ret (negb b)) g Q' E.
Proof. intros HQ. apply WP_bind, WP_bind, DP_get_field. intros. by apply WP_ret, WP_ret. Qed.

Lemma DP_observe k {R} (f : ThreadPoolState -> R) g (Q' : R -> dtok -> Prop) E :
  (forall v, Q' v g) -> WP k (state_read self f) g Q' E.
Proof. intros HQ. apply DP_get. intros b. by apply WP_ret. Qed.

(** Termination is reported only after an idle check. *)
Lemma DP_terminated_locked k g0 g r (Q' : bool -> dtok -> Prop) E :
  idle_gain g0 r false g -> (forall b g', idle_gain g0 r b g' -> Q' b g') ->
  WP k (tp_is_terminated_locked self) g Q' E.
Proof.
  intros Hg HQ.
  apply WP_andp, DP_observe. intros []; [|by apply HQ].
  apply WP_andp, DP_observe. intros []; [|by apply HQ].
  apply WP_andp, DP_observe. intros []; [|by apply HQ].
  by client WP_is_idle_seen; [exact Hg|].
Qed.

Lemma DP_idle0 k g0 g r (Q' : bool -> dtok -> Prop) E :
  r Late = 0%nat -> holds g0 r g -> (forall b g', holds g0 r g' -> Q' b g') ->
  WP k (is_idle_snapshot self) g Q' E.
Proof. intros Hr Hg HQ. by client WP_is_idle0; [done|exact Hg|]. Qed.

Lemma DP_terminated0 k g0 g r (Q' : bool -> dtok -> Prop) E :
  r Late = 0%nat -> holds g0 r g -> (forall b g', holds g0 r g' -> Q' b g') ->
  WP k (tp_is_terminated_locked self) g Q' E.
Proof.
  intros Hr Hg HQ. eapply DP_terminated_locked; [by apply idle_gain_start|].
  intros b g' Hg'. apply HQ. by eapply idle_gain_none0.
Qed.

Lemma DP_notify_if_terminated k g0 g r (Q' : unit -> dtok -> Prop) E :
  r Late = 0%nat -> holds g0 r g -> (forall g', holds g0 r g' -> Q' tt g') ->
  WP k (notify_if_terminated self) g Q' E.
Proof.
  intros Hr Hg HQ. apply WP_bind. eapply DP_terminated0; [done|exact Hg|]. intros b g1 Hg1.
  apply WP_when; [by apply HQ|]. client DP_notify_all. by apply HQ.
Qed.

Lemma DP_notify_if_idle_or_terminated k g0 g r (Q' : unit -> dtok -> Prop) E :
  r Late = 0%nat -> holds g0 r g -> (forall g', holds g0 r g' -> Q' tt g') ->
  WP k (notify_if_idle_or_terminated self) g Q' E.
Proof.
  intros Hr Hg HQ. apply WP_bind.
  assert (Hend : forall b g1, holds g0 r g1 -> WP k (when b (notify_all (mon self))) g1 Q' E).
  { intros b g1 Hg1. apply WP_when; [by apply HQ|]. client DP_notify_all. by apply HQ. }
  apply WP_orp. eapply DP_idle0; [done|exact Hg|]. intros [] g1 Hg1; [by apply Hend|].
  eapply DP_terminated0; [done|exact Hg1|]. intros b g2 Hg2. by apply Hend.
Qed.

Lemma DP_guard_drop k o g0 g r (Q' : unit -> dtok -> Prop) E :
  free g0 -> holds g0 (tadd r (tk o Inside)) g -> (forall g', holds g0 r g' -> Q' tt g') ->
  WP k (tp_submit_guard_drop self) g Q' E.
Proof.
  intros Hf Hg HQ. apply WP_bind. client WP_leave; [exact Hg|]. intros b g1 Hg1.
  apply WP_when; [by apply HQ|].
  assert (Hend : forall c, WP k (when c (tp_notify_waiters_after_atomic_change self)) g1 Q' E).
  { intros c. apply WP_when; [by apply HQ|]. apply DP_notify; [by eapply holds_free|by apply HQ]. }
  apply WP_bind, WP_orp. do 2 apply WP_bind. apply DP_get_field. intros w. apply WP_ret, WP_ret.
  destruct (negb _); [apply Hend|]. apply WP_bind, DP_get_field. intros n. apply WP_ret, Hend.
Qed.

Lemma DP_wake_one k g (Q' : unit -> dtok -> Prop) E :
  free g -> Q' tt g -> WP k (tp_wake_one_idle_worker self) g Q' E.
Proof.
  intros Hf HQ. apply WP_bind, DP_get_field. intros n. destruct (n =? 0); [by apply WP_ret|].
  apply WP_bind, DP_update_wakes. intros v. apply WP_when; [done|by apply DP_notify].
Qed.

Lemma DP_finish_cancelled_job k o g0 g r (Q' : unit -> dtok -> Prop) E :
  free g0 -> r Late = 0%nat -> holds g0 (tadd r (tk o Cancelling)) g ->
  (forall g', holds g0 r g' -> Q' tt g') -> WP k (tp_finish_cancelled_job self) g Q' E.
Proof.
  intros Hf Hr Hg HQ. apply WP_bind. client WP_finish_cancelled; [exact Hg|]. intros g1 Hg1.
  apply WP_bind. eapply DP_idle0; [done|exact Hg1|]. intros b g2 Hg2.
  apply WP_when; [by apply HQ|]. apply DP_notify; [by eapply holds_free|by apply HQ].
Qed.

Lemma DP_finish_running_job k o g0 g r (Q' : unit -> dtok -> Prop) E :
  free g0 -> r Late = 0%nat -> holds g0 (tadd r (tk o Running)) g ->
  (forall g', holds g0 r g' -> Q' tt g') -> WP k (tp_finish_running_job self) g Q' E.
Proof.
  intros Hf Hr Hg HQ. apply WP_bind. client WP_finish_running; [exact Hg|]. intros g1 Hg1.
  apply WP_bind. client WP_is_idle0; [done|exact Hg1|]. intros b g2 Hg2.
  apply WP_when; [by apply HQ|]. apply DP_notify; [by eapply holds_free|by apply HQ].
Qed.

(** *** Taking and cancelling queued jobs *)

Lemma DP_try_take k g0 g r (Q' : option PoolJob -> dtok -> Prop) E :
  free g0 -> holds g0 r g ->
  (forall job o g', holds g0 (tadd r (tk o Running)) g' -> Q' (Some job) g') ->
  (forall g', holds g0 r g' -> Q' None g') ->
  WP k (try_take_queued_job self) g Q' E.
Proof.
  intros [_ Hn] Hg HQs HQn. apply DP_with_queue, WP_bind, DP_get_field. intros []; [apply WP_ret; by apply HQn|].
  apply WP_bind, DP_pop_front. intros [e|]; [|apply WP_ret; by apply HQn].
  apply WP_bind. client DP_take_queued; [exact Hg|done|..].
  - intros job o g1 Hg1. apply WP_bind. client WP_claim; [exact Hg1|]. intros g2 Hg2.
    apply WP_ret. by eapply HQs.
  - intros g1 Hg1. apply WP_ret. by apply HQn.
Qed.

Lemma DP_drain k g0 g r (Q' : list PoolJob -> dtok -> Prop) E :
  dt_entry g0 = None -> holds g0 r g ->
  (forall jobs os g', length os = length jobs -> holds g0 (tadd r (tks os Cancelling)) g' -> Q' jobs g') ->
  WP k (drain_visible_queued_jobs self) g Q' E.
Proof.
  intros Hn Hg HQ. apply DP_with_queue. unfold loop.
  apply (WP_loop _ _ _ _ _ _ _ _ (fun jobs g => exists os, length os = length jobs /\
    holds g0 (tadd r (tks os Cancelling)) g)); cycle 1.
  { exists []. split; [done|]. eapply holds_ext; [|exact Hg]. intros i. unfold tadd. rewrite ?tks_nil. lia. }
  clear g Hg. intros jobs g (os & Hlen & Hg). apply WP_bind, DP_pop_front.
  intros [e|]; [|apply WP_ret, WP_ret; by eapply HQ].
  apply WP_bind. client DP_take_queued; [exact Hg|done|..].
  - intros job o g1 Hg1. apply WP_bind. client WP_begin_cancel; [exact Hg1|]. intros g2 Hg2.
    apply WP_ret. exists (os ++ [o]). split; [by rewrite !length_app, Hlen|]. by_tks Hg2.
  - intros g1 Hg1. apply WP_ret. by exists os.
Qed.

Context `{HU : !UserSafe}.

Lemma DP_cancel_entry k e g0 g r (Q' : bool -> dtok -> Prop) E :
  free g0 -> r Late = 0%nat -> holds g0 r g -> (forall b g', holds g0 r g' -> Q' b g') ->
  WP k (cancel_queued_entry self e) g Q' E.
Proof.
  intros Hf Hr Hg HQ. apply WP_bind, DP_with_queue, WP_bind, DP_get_field. intros q.
  destruct (position e q) as [index|]; [|apply WP_ret, WP_ret; by apply HQ].
  apply WP_bind. client DP_take_queued; [exact Hg|apply Hf|..].
  - intros job o g1 Hg1. apply WP_bind, DP_store_queue, WP_bind.
    client WP_begin_cancel; [exact Hg1|]. intros g2 Hg2. apply WP_ret, WP_bind.
    client WP_job_cancel; [eapply holds_calm; [exact Hg2|by apply late_tadd|done]|].
    apply WP_bind. eapply DP_finish_cancelled_job; [done|done|exact Hg2|]. intros g3 Hg3.
    apply WP_ret. by apply HQ.
  - intros g1 Hg1. apply WP_ret, WP_ret. by apply HQ.
Qed.

(** Publication: either the job waits in the queue, or a ticket has asked for
    its cancellation meanwhile and the publisher keeps it. *)
Lemma DP_publish_reserved k entry job o g0 g r (Q' : bool -> dtok -> Prop) E :
  dt_entry g0 = None -> holds g0 (tadd r (tk o Reserved)) g ->
  (forall g', holds g0 (tadd r (tk o Cancelling)) g' -> Q' true g') ->
  (forall g', holds g0 r g' -> Q' false g') ->
  WP k (publish_reserved self entry job) g Q' E.
Proof.
  intros Hn Hg HQt HQf. apply WP_bind. client WP_publish; [exact Hg|]. intros g1 Hg1.
  destruct entry as [e|].
  2: { apply WP_bind. client DP_alloc_queued; [exact Hg1|]. intros e g2 Hg2.
       apply WP_bind, DP_push_back, WP_ret. by apply HQf. }
  apply WP_bind. client DP_entry_lock. intros v.
  pose proof (holds_with_entry (Some (e, v)) _ _ _ Hg1) as Hg2.
  apply WP_bind, WP_finally, WP_bind. client DP_entry_read; [by rewrite (holds_entry _ _ _ Hg2)|].
  assert (Hqueue : WP k (entry_write self e (QueuedJobState.Queued job) ;; Ret false)
    (with_entry (Some (e, v)) g1)
    (fun a g' => WP k (entry_unlock self e) g' (fun _ g3 => WP k
       (if a then Ret true else push_back self e ;; Ret false) g3 Q' E) E)
    (fun g' => WP k (entry_unlock self e) g' (fun _ g3 => E g3) E)).
  { apply WP_bind. client DP_entry_queue; [exact Hg2|done|]. intros g3 Hg3. apply WP_ret.
    cbn beta in Hg3. client DP_entry_unlock; [by rewrite (holds_entry _ _ _ Hg3)|].
    apply WP_bind, DP_push_back, WP_ret, HQf. by eapply holds_drop_entry. }
  destruct v as [|ow []|j| | | |]; try exact Hqueue.
  apply WP_bind. client DP_entry_write; [by rewrite (holds_entry _ _ _ Hg2)|done|].
  apply WP_bind. client (WP_begin_cancel _ _ _ _ _ _ _ _ _ (with_entry (Some (e, QueuedJobState.Cancelling)) g0)
    _ r o); [by apply (holds_with_entry (Some (e, QueuedJobState.Cancelling)) _ _ _ Hg1)|].
  intros g3 Hg3. apply WP_ret. client DP_entry_unlock; [by rewrite (holds_entry _ _ _ Hg3)|].
  apply WP_ret, HQt. by eapply holds_drop_entry.
Qed.

Lemma DP_accept_and_enqueue k job o g0 g r (Q' : Result unit PoolJobSubmissionError -> dtok -> Prop) E :
  free g0 -> r Late = 0%nat -> holds g0 (tadd r (tk o Reserved)) g ->
  (forall v g', holds g0 r g' -> (standard job = true -> v <> Err AcceptancePanicked) -> Q' v g') ->
  WP k (accept_and_enqueue_reserved_job self job) g Q' E.
Proof.
  intros Hf Hr Hg HQ. unfold accept_and_enqueue_reserved_job. destruct job as [inner entry].
  cbn [take_queue_entry job_queued job_inner].
  assert (Hset : forall v (p : prog S (Result unit PoolJobSubmissionError)) g1, is_queued v = false -> free g1 ->
    WP k p g1 Q' E -> WP k (match entry with
      | Some e => entry_set self e v ;; entry_notify self e | None => Ret tt end ;; p) g1 Q' E).
  { intros v p g1 Hv [_ Hn] Hp. apply WP_bind. destruct entry as [e|]; [|by apply WP_ret].
    apply WP_bind. client DP_entry_set; [done|done|]. client DP_entry_notify. exact Hp. }
  apply WP_bind.
  apply (WP_mono _ _ _ _ _ _ (fun _ => holds g0 (tadd r (tk o Reserved))) _ E); [|intros [] g1 Hg1|done].
  { destruct entry as [e|]; [|by apply WP_ret]. apply WP_bind, DP_current_thread.
    by client DP_entry_set; [by eapply holds_free|done|]. }
  apply WP_bind. client WP_job_accept; [eapply holds_calm; [exact Hg1|by apply late_tadd|done]|].
  intros [[u|u] job'] Hstd; cbn [fst snd] in *.
  - apply WP_bind, DP_with_queue. eapply DP_publish_reserved; [apply Hf|exact Hg1|..]; intros g2 Hg2.
    + apply WP_bind. client WP_job_cancel; [eapply holds_calm; [exact Hg2|by apply late_tadd|done]|].
      apply WP_bind. eapply DP_finish_cancelled_job; [done|done|exact Hg2|]. intros g3 Hg3.
      apply Hset; [done|by eapply holds_free|]. apply WP_ret. by apply HQ.
    + apply WP_bind, DP_wake_one; [by eapply holds_free|]. apply WP_ret. by apply HQ.
  - apply WP_bind. client WP_rollback_slot; [exact Hg1|]. intros g2 Hg2.
    apply Hset; [done|by eapply holds_free|]. apply WP_bind, DP_notify; [by eapply holds_free|].
    apply WP_bind. client WP_discard; [by eapply holds_calm|]. apply WP_ret, HQ; [done|].
    intros Hs. by specialize (Hstd Hs).
Qed.
End specs.
