(* ===== verification/DynWorkerSpecs.v ===== *)
(** Specifications of the dynamic pool's workers and of starting them, under
    the pool invariant. *)
From S2P Require Import Prelude Prog Conc Sync AdmissionGate PoolAccounting AccountingLogic.
From S2P Require Import AccountingSpecs Types Hooks PoolJob DynState DynInner DynWorker DynSubmit.
From S2P Require Import DynLogic DynEntryLogic UserSpecs DynSpecs.
Local Open Scope Z_scope.

Section ops.
Context {S M : Type} `{MonitorLaws M} `{UserCode S}.
Variable self : lens S (ThreadPoolInner M).
Context `{!LensLaws self} (T : nat) (cap : option Z) (B : Z).
Context (Fin FinP : dtok -> Prop).
Local Abbreviation I := (dyn_inv self T cap B).
Local Abbreviation WP := (WP I Fin FinP).
Local Abbreviation holds := (holds dt_acct_l).
Local Abbreviation idle_gain := (idle_gain dt_acct_l).
Context `{HU : !UserSafe I Fin FinP calm}.
Implicit Types (r q : tok) (o : bool) (k e : nat) (g : dtok).

(** *** Parking *)

Ltac count_pos := unfold inc, dec, with_count; cbn; repeat (destruct (decide _); try done); lia.


Lemma DP_mark_idle k g (Q' : unit -> dtok -> Prop) E :
  Q' tt (inc DIdleAtomic (inc DIdle g)) -> WP k (mark_thread_pool_worker_idle self) g Q' E.
Proof.
  intros HQ. apply WP_bind.
  change (locked self idle_workers_l) with (self ⊚ @dcounter_l M DIdle).
  client DP_guarded_incr_count; [done|]. apply WP_bind.
  change (self ⊚ idle_worker_count_l) with (self ⊚ @dcounter_l M DIdleAtomic).
  client DP_fetch_add_count; [done|]. intros _. by apply WP_ret.
Qed.

Lemma DP_unmark_idle k g0 g r (Q' : unit -> dtok -> Prop) E :
  holds (inc DIdleAtomic (inc DIdle g0)) r g -> (forall g', holds g0 r g' -> Q' tt g') ->
  WP k (unmark_thread_pool_worker_idle self) g Q' E.
Proof.
  intros Hg HQ. pose proof (holds_count _ _ _ Hg) as Hc. apply WP_bind.
  change (locked self idle_workers_l) with (self ⊚ @dcounter_l M DIdle).
  client DP_guarded_decr_count; [done|rewrite Hc; count_pos|].
  apply WP_bind. change (self ⊚ idle_worker_count_l) with (self ⊚ @dcounter_l M DIdleAtomic).
  client DP_fetch_sub_count; [done|cbn; rewrite Hc; count_pos|].
  intros v Hv. apply Z.ltb_lt in Hv. rewrite Hv. cbn [assert bind].
  apply WP_bind. client DP_update_wakes. intros ?. apply WP_ret, HQ.
  apply (holds_dec DIdle), (holds_dec DIdleAtomic) in Hg.
  rewrite dyn_dec_inc_ne, dyn_dec_inc in Hg by done. rewrite dyn_dec_inc in Hg. exact Hg.
Qed.

(** Inside a critical section, with the two counts of live workers equal. *)
Definition inlock (g0 : dtok) (r : tok) (g : dtok) : Prop :=
  exists z, synced z /\ holds (with_mon (Some z) g0) r g.

Lemma inlock_inc c g0 r g : inlock g0 r g -> inlock (inc c g0) r (inc c g).
Proof. intros (z & Hz & Hg). exists z. split; [done|]. apply (holds_inc c _ _ _ Hg). Qed.

Lemma inlock_ext g0 r r' g : (forall i, r i = r' i) -> inlock g0 r g -> inlock g0 r' g.
Proof. intros He (z & Hz & Hg). exists z. split; [done|]. by eapply holds_ext. Qed.

Lemma DP_locked k {R} (body : prog S R) g0 g r (Q' : R -> dtok -> Prop) E :
  free g0 -> holds g0 r g ->
  (forall g1, inlock g0 r g1 -> WP k body g1 (fun b g' => exists g0' r', free g0' /\ inlock g0' r' g' /\
     forall g'', holds g0' r' g'' -> Q' b g'') (fun _ => False)) ->
  WP k (with_lock (mon self) body) g Q' E.
Proof.
  intros _ Hg Hb. client DP_with_lock. intros z Hz _.
  eapply WP_mono; [apply Hb; exists z; split; [done|by apply holds_with_mon]| |done].
  intros b g' (g0' & r' & [Hn _] & (z' & Hz' & Hg') & HQ). exists z'. rewrite (holds_mon _ _ _ Hg').
  split; [done|]. split; [done|]. apply HQ. by eapply holds_drop_mon.
Qed.

Lemma DP_wait_in k g0 g r (Q' : unit -> dtok -> Prop) E :
  inlock g0 r g -> (forall g', inlock g0 r g' -> Q' tt g') -> WP k (wait (mon self)) g Q' E.
Proof.
  intros (z & Hz & Hg) HQ. client DP_wait; [by rewrite (holds_mon _ _ _ Hg)|done|].
  intros z' Hz' _. apply HQ. exists z'. split; [done|]. apply (holds_with_mon (Some z') _ _ _ Hg).
Qed.

Lemma DP_wait_for_in k g0 g r (Q' : Result bool unit -> dtok -> Prop) E :
  inlock g0 r g -> (forall b g', inlock g0 r g' -> Q' (Ok b) g') -> WP k (wait_for (mon self)) g Q' E.
Proof.
  intros (z & Hz & Hg) HQ. client DP_wait_for; [by rewrite (holds_mon _ _ _ Hg)|done|].
  intros b z' Hz' _. apply HQ. exists z'. split; [done|]. apply (holds_with_mon (Some z') _ _ _ Hg).
Qed.

Lemma DP_unmark_in k g0 g r (Q' : unit -> dtok -> Prop) E :
  inlock (inc DIdleAtomic (inc DIdle g0)) r g -> (forall g', inlock g0 r g' -> Q' tt g') ->
  WP k (unmark_thread_pool_worker_idle self) g Q' E.
Proof.
  intros (z & Hz & Hg) HQ. apply (DP_unmark_idle k (with_mon (Some z) g0) g r); [exact Hg|].
  intros g' Hg'. apply HQ. by exists z.
Qed.

(** *** Retiring *)

(** A worker that has counted itself out. *)
Definition retired (g : dtok) : dtok := dec DLive (inc DExit g).

Lemma DP_unregister k index g0 g r (Q' : unit -> dtok -> Prop) E :
  r Late = 0%nat -> (1 <= dt_count g0 DLive)%nat -> inlock g0 r g ->
  (forall g', inlock (retired g0) r g' -> Q' tt g') ->
  WP k (unregister_exiting_worker self index) g Q' E.
Proof.
  intros Hr Hlv (z & Hz & Hg) HQ. apply WP_bind.
  change (locked self exiting_workers_l) with (self ⊚ @dcounter_l M DExit).
  client DP_guarded_incr_count; [done|]. apply (holds_inc DExit) in Hg.
  pose proof (holds_mon _ _ _ Hg) as Hm. pose proof (holds_count _ _ _ Hg) as Hc.
  apply WP_bind. client DP_live_decr; [exact Hm|rewrite Hc; count_pos|].
  apply (holds_dec DLive), (holds_with_mon (Some (set_live (sz_live z - 1) z))) in Hg.
  apply WP_bind. client DP_atomic_decr; [exact (holds_mon _ _ _ Hg)|cbn; unfold synced in Hz; lia|].
  intros v Hv. apply Z.ltb_lt in Hv. rewrite Hv. cbn [assert bind].
  set (z' := set_atomic _ _). apply (holds_with_mon (Some z')) in Hg.
  client DP_notify_if_terminated; [done|exact Hg|]. intros g' Hg'. apply HQ. by exists z'.
Qed.

(** The outcome of a look at the lifecycle or of a park. *)
Definition decided (g0 : dtok) (r : tok) (d : Decision) (g : dtok) : Prop :=
  holds (match d with Leave => retired g0 | _ => g0 end) r g.

Lemma free_retired g0 : free g0 -> free (retired g0).
Proof. done. Qed.

(** Every way out of a critical section that decides. *)
Definition decides_in (g0 : dtok) (r : tok) (d : Decision) (g : dtok) : Prop :=
  inlock (match d with Leave => retired g0 | _ => g0 end) r g.

Lemma DP_leave_in k index g0 g r E :
  r Late = 0%nat -> (1 <= dt_count g0 DLive)%nat -> inlock g0 r g ->
  WP k (unregister_exiting_worker self index ;; Ret Leave) g (decides_in g0 r) E.
Proof.
  intros Hr Hlv Hg. apply WP_bind. eapply DP_unregister; [done|done|exact Hg|].
  intros g' Hg'. by apply WP_ret.
Qed.

Lemma DP_decided k (body : prog S Decision) g0 g r (Q' : Decision -> dtok -> Prop) E :
  free g0 -> holds g0 r g ->
  (forall g1, inlock g0 r g1 -> WP k body g1 (decides_in g0 r) (fun _ => False)) ->
  (forall d g', decided g0 r d g' -> Q' d g') ->
  WP k (with_lock (mon self) body) g Q' E.
Proof.
  intros Hf Hg Hb HQ. eapply DP_locked; [done|exact Hg|]. intros g1 Hg1.
  eapply WP_mono; [by apply Hb| |done]. intros d g' Hd.
  exists (match d with Leave => retired g0 | _ => g0 end), r. split; [by destruct d|].
  split; [exact Hd|]. intros g'' Hg''. by apply HQ.
Qed.

Lemma DP_nothing k g (Q' : bool -> dtok -> Prop) E :
  (forall b, Q' b g) -> WP k (andp (queue_is_empty self) (no_pending_wake self)) g Q' E.
Proof.
  intros HQ. apply WP_andp. client DP_queue_is_empty. intros []; [|done]. by client DP_no_pending_wake.
Qed.

Lemma DP_timed_park k index g0 g r E :
  r Late = 0%nat -> (1 <= dt_count g0 DLive)%nat -> inlock g0 r g ->
  WP k (timed_park self index) g (decides_in g0 r) E.
Proof.
  intros Hr Hlv Hg. apply WP_bind. client DP_get_field. intros _.
  apply WP_bind, DP_mark_idle. apply (inlock_inc DIdle), (inlock_inc DIdleAtomic) in Hg.
  set (g1 := inc DIdleAtomic (inc DIdle g)) in *. set (i0 := inc DIdleAtomic (inc DIdle g0)) in *.
  apply WP_bind, DP_nothing. intros nothing. apply WP_bind.
  apply (WP_mono _ _ _ _ _ _ (fun _ => inlock i0 r) _ E); [|intros timed_out g2 Hg2|done].
  { destruct nothing; [|by apply WP_ret]. apply WP_bind. eapply DP_wait_for_in; [exact Hg|].
    intros b g' Hg'. by apply WP_ret. }
  apply WP_bind.
  apply (WP_mono _ _ _ _ _ _ (fun _ => inlock i0 r) _ E); [|intros retire g3 Hg3|done].
  { apply WP_andp, WP_ret. destruct timed_out; [|done].
    apply WP_andp. client DP_queue_is_empty. intros []; [|done].
    apply WP_andp. client DP_no_pending_wake. intros []; [|done].
    apply WP_andp, WP_orp. client DP_observe. intros b1.
    assert (Hlast : WP k (state_read self idle_worker_can_retire) g2 (fun _ => inlock i0 r) E)
      by (by client DP_observe).
    destruct b1; [exact Hlast|]. apply WP_bind. client DP_inflight. intros n. apply WP_ret.
    by destruct (n =? 0). }
  apply WP_bind. eapply DP_unmark_in; [exact Hg3|]. intros g4 Hg4.
  destruct retire; [by apply DP_leave_in|by apply WP_ret].
Qed.

Lemma DP_untimed_park k g0 g r E :
  inlock g0 r g -> WP k (untimed_park self) g (decides_in g0 r) E.
Proof.
  intros Hg. apply WP_bind, DP_mark_idle. apply (inlock_inc DIdle), (inlock_inc DIdleAtomic) in Hg.
  apply WP_bind, DP_nothing. intros nothing.
  assert (Hend : forall g1, inlock (inc DIdleAtomic (inc DIdle g0)) r g1 ->
    WP k (unmark_thread_pool_worker_idle self ;; Ret Again) g1 (decides_in g0 r) E).
  { intros g1 Hg1. apply WP_bind. eapply DP_unmark_in; [exact Hg1|]. intros g2 Hg2. by apply WP_ret. }
  apply WP_bind. client WP_when; [by apply Hend|]. eapply DP_wait_in; [exact Hg|]. exact Hend.
Qed.

Lemma DP_park k index g0 g r (Q' : Decision -> dtok -> Prop) E :
  r Late = 0%nat -> free g0 -> (1 <= dt_count g0 DLive)%nat -> holds g0 r g ->
  (forall d g', decided g0 r d g' -> Q' d g') -> WP k (park self index) g Q' E.
Proof.
  intros Hr Hf Hlv Hg HQ. eapply DP_decided; [done|exact Hg| |exact HQ]. intros g1 Hg1.
  apply WP_bind. client DP_observe. intros []; [by apply DP_timed_park|].
  apply WP_bind. client DP_observe. intros []; [by apply DP_untimed_park|by apply WP_ret].
Qed.

Lemma DP_inspect k index g0 g r (Q' : Decision -> dtok -> Prop) E :
  r Late = 0%nat -> free g0 -> (1 <= dt_count g0 DLive)%nat -> holds g0 r g ->
  (forall d g', decided g0 r d g' -> Q' d g') -> WP k (inspect self index) g Q' E.
Proof.
  intros Hr Hf Hlv Hg HQ. eapply DP_decided; [done|exact Hg| |exact HQ]. intros g1 Hg1.
  apply WP_bind. client DP_get_field. intros [| | |]; try by apply DP_leave_in.
  - apply WP_bind, WP_andp. client DP_queue_is_empty. intros []; [|by apply WP_ret].
    client DP_observe. intros []; [by apply DP_leave_in|by apply WP_ret].
  - apply WP_bind. client DP_queue_is_empty. intros []; cbn [negb]; [|by apply WP_ret].
    apply WP_bind. client DP_inflight. intros n. destruct (n =? 0); [by apply DP_leave_in|].
    apply WP_bind, DP_mark_idle. apply (inlock_inc DIdle), (inlock_inc DIdleAtomic) in Hg1.
    assert (Hend : forall g2, inlock (inc DIdleAtomic (inc DIdle g0)) r g2 ->
      WP k (unmark_thread_pool_worker_idle self ;; Ret Again) g2 (decides_in g0 r) (fun _ => False)).
    { intros g2 Hg2. apply WP_bind. eapply DP_unmark_in; [exact Hg2|]. intros g3 Hg3. by apply WP_ret. }
    assert (Hwhen : forall b, WP k (when b (wait (mon self))) (inc DIdleAtomic (inc DIdle g1))
      (fun _ g2 => WP k (unmark_thread_pool_worker_idle self ;; Ret Again) g2 (decides_in g0 r) (fun _ => False))
      (fun _ => False)).
    { intros b. client WP_when; [by apply Hend|]. eapply DP_wait_in; [exact Hg1|]. exact Hend. }
    apply WP_bind, WP_andp. client DP_queue_is_empty. intros []; [|apply WP_bind, Hwhen].
    apply WP_bind. client DP_inflight. intros m. apply WP_ret, WP_bind, Hwhen.
Qed.

(** *** The worker loop *)

Lemma DP_wait_for_job k index g0 g r (Q' : option PoolJob -> dtok -> Prop) E :
  r Late = 0%nat -> free g0 -> (1 <= dt_count g0 DLive)%nat -> holds g0 r g ->
  (forall job o g', holds g0 (tadd r (tk o Running)) g' -> Q' (Some job) g') ->
  (forall g', holds (retired g0) r g' -> Q' None g') ->
  WP k (wait_for_job self index) g Q' E.
Proof.
  intros Hr Hf Hlv Hg HQs HQn. unfold wait_for_job, loop.
  apply (WP_loop _ _ _ _ _ _ _ _ (fun _ g => holds g0 r g)); [|done].
  clear g Hg. intros [] g Hg. apply WP_bind. client DP_try_take; [done|exact Hg|..].
  - intros job o g1 Hg1. apply WP_ret, WP_ret. by eapply HQs.
  - intros g1 Hg1. apply WP_bind. eapply DP_inspect; [done|done|done|exact Hg1|].
    intros d g2 Hd. apply WP_bind.
    destruct d; [do 3 apply WP_ret; by apply HQn|do 2 apply WP_ret; exact Hd|].
    eapply DP_park; [done|done|done|exact Hd|]. intros d g3 Hg3. apply WP_ret.
    destruct d; [apply WP_ret; by apply HQn|exact Hg3|exact Hg3].
Qed.

Lemma DP_get_hooks k g (Q' : ThreadPoolHooks -> dtok -> Prop) E :
  (forall v, Q' v g) -> WP k (get_hooks self) g Q' E.
Proof. intros HQ. client DP_get. intros. by apply WP_ret. Qed.

Lemma DP_execute k (b : bool) job index g (Q' : unit -> dtok -> Prop) E :
  calm g -> Q' tt g ->
  WP k (if b then hooks <- get_hooks self ;; tp_run_with_task_hooks job hooks index
        else tp_run_without_hooks job) g Q' E.
Proof.
  intros HL HQ. destruct b; [|by client WP_contained_run].
  apply WP_bind, DP_get_hooks. intros hks. apply WP_bind. client WP_run_hook; [done|].
  apply WP_bind. client WP_contained; [by client quiet_job_run|done|]. intros _. by client WP_run_hook.
Qed.

Lemma DP_finish_worker_exit k g0 g r (Q' : unit -> dtok -> Prop) E :
  r Late = 0%nat -> free g0 -> (1 <= dt_count g0 DExit)%nat -> holds g0 r g ->
  (forall g', holds (dec DExit g0) r g' -> Q' tt g') -> WP k (finish_worker_exit self) g Q' E.
Proof.
  intros Hr Hf Hlv Hg HQ. eapply DP_locked; [done|exact Hg|]. intros g1 (z & Hz & Hg1).
  apply WP_bind. change (locked self exiting_workers_l) with (self ⊚ @dcounter_l M DExit).
  client DP_guarded_decr_count; [done|by rewrite (holds_count _ _ _ Hg1)|].
  apply (holds_dec DExit) in Hg1. apply WP_bind. client DP_notify_if_terminated; [done|exact Hg1|].
  intros g2 Hg2. client DP_notify_all. exists (dec DExit g0), r. split; [done|]. split; [by exists z|exact HQ].
Qed.


(** A worker gives back its live slot when it ends. *)
Lemma DP_worker k index g0 g r (Q' : unit -> dtok -> Prop) E :
  r Late = 0%nat -> free g0 -> (1 <= dt_count g0 DLive)%nat -> holds g0 r g ->
  (forall g', holds (dec DExit (retired g0)) r g' -> Q' tt g') ->
  WP k (thread_pool_worker_run self index) g Q' E.
Proof.
  intros Hr Hf Hlv Hg HQ. apply WP_bind, DP_get_hooks. intros hks.
  apply WP_bind. client WP_run_hook; [by eapply holds_calm|]. unfold loop.
  apply (WP_loop _ _ _ _ _ _ _ _ (fun _ g => holds g0 r g)); [|done].
  clear g Hg. intros [] g Hg. apply WP_bind. eapply DP_wait_for_job; [done|done|done|exact Hg|..].
  - intros job o g1 Hg1. apply WP_bind.
    apply DP_execute; [eapply holds_calm; [exact Hg1|by apply late_tadd|done]|].
    apply WP_bind. client DP_finish_running_job; [done|done|exact Hg1|]. intros g2 Hg2. by apply WP_ret.
  - intros g1 Hg1. apply WP_bind, DP_get_hooks. intros hks'.
    apply WP_bind. client WP_run_hook; [by eapply holds_calm; [exact Hg1|..]|].
    apply WP_bind. apply (DP_finish_worker_exit k (retired g0) g1 r); [done|done| |exact Hg1|]; [unfold retired; count_pos|].
    intros g2 Hg2. apply WP_ret, WP_ret. by apply HQ.
Qed.

(** *** Starting workers *)

(** The contribution a worker starts with. *)
Definition worker_token : dtok := inc DLive dtok0.

Context (HFin : forall g, (forall i, dt_acct g i = 0%nat) -> Fin g).

Lemma DP_worker_thread k index :
  WP k (thread_pool_worker_run self index) worker_token (fun _ => Fin) FinP.
Proof.
  apply (DP_worker k index worker_token worker_token tok0); [done|done|by apply dyn_inc_has|
    by apply (holds_self dt_acct_l)|].
  intros g' [Hg _]. by apply HFin.
Qed.

(** Starting a thread hands over a live slot. *)
Lemma dyn_inv_spawn h s G k g g' gc :
  in_time h -> I h s G -> G !! k = Some g ->
  (forall i, dt_acct gc i = 0%nat) -> free gc -> dt_mine gc = ∅ ->
  g' = with_count (dt_count g') g ->
  (forall c, (dt_count g' c + dt_count gc c = dt_count g c)%nat) ->
  I (s :: h) s (<[k := g']> G ++ [gc]).
Proof.
  intros Ht [(q & Hq & Hw & Ha) [Hc Hi] [Ho Hk Hs Hb] [Hh Hm]] Hg Hac [Hmc Hec] Hmi Hg' Hcnt.
  assert (Hlt : (k < length G)%nat) by (by eapply lookup_lt_Some).
  assert (Hlook : forall u g1, (<[k:=g']> G ++ [gc]) !! u = Some g1 ->
    (exists g2, G !! u = Some g2 /\ dt_mon g1 = dt_mon g2 /\ dt_entry g1 = dt_entry g2 /\
       dt_mine g1 = dt_mine g2) \/ g1 = gc).
  { intros u g1 [Hu|[_ Hu]]%lookup_app_Some; [left|right].
    - destruct (decide (u = k)) as [->|Hne].
      + rewrite list_lookup_insert_eq in Hu by done. injection Hu as <-. exists g.
        rewrite Hg'. done.
      + rewrite list_lookup_insert_ne in Hu by done. by exists g1.
    - by apply list_lookup_singleton_Some in Hu as [_ <-]. }
  assert (Hct : forall c, count_total c (<[k:=g']> G ++ [gc]) = count_total c G).
  { intros c. unfold count_total at 1. rewrite sum_with_app.
    pose proof (dyn_count_insert c G k g g' Hg) as He. unfold count_total in *. specialize (Hcnt c).
    change (sum_with (fun g => dt_count g c) [gc]) with (dt_count gc c + 0)%nat. lia. }
  split.
  - exists q. split; [done|]. split; [done|].
    replace (acct_total (<[k:=g']> G ++ [gc])) with (acct_total G); [by eapply acct_frame|].
    apply FunctionalExtensionality.functional_extensionality. intros i.
    unfold acct_total at 2. rewrite sum_with_app.
    pose proof (dyn_acct_insert G k g g' i Hg) as He.
    assert (dt_acct g' = dt_acct g) as Ea by (by rewrite Hg'). rewrite Ea in He.
    unfold acct_total in *. specialize (Hac i).
    change (sum_with (fun g => dt_acct g i) [gc]) with (dt_acct gc i + 0)%nat. lia.
  - split; [|cbn [length]; lia]. intros c. rewrite Hct. destruct (Hc c) as [-> ?]. cbn [length]. lia.
  - split; [|intros u g1 z Hu Hz|exact Hs|exact Hb].
    + intros u. rewrite Ho. split.
      * intros (g1 & Hu & Hz). destruct (decide (u = k)) as [->|Hne].
        -- exists g'. rewrite lookup_app_l by (by rewrite length_insert).
           rewrite list_lookup_insert_eq by done. split; [done|]. rewrite Hg'. cbn. by simplify_eq.
        -- exists g1. rewrite lookup_app_l by (rewrite length_insert; by eapply lookup_lt_Some).
           by rewrite list_lookup_insert_ne.
      * intros (g1 & Hu & Hz). destruct (Hlook u g1 Hu) as [(g2 & Hu2 & Hm2 & _)| ->].
        -- exists g2. by rewrite <- Hm2.
        -- rewrite Hmc in Hz. by destruct Hz.
    + destruct (Hlook u g1 Hu) as [(g2 & Hu2 & Hm2 & _)| ->]; [|congruence].
      apply (Hk u g2); [done|congruence].
  - split.
    + intros u g1 e v Hu Hv. destruct (Hlook u g1 Hu) as [(g2 & Hu2 & _ & He2 & _)| ->]; [|congruence].
      apply (Hh u g2); [done|congruence].
    + intros u g1 e Hu Hv. destruct (Hlook u g1 Hu) as [(g2 & Hu2 & _ & _ & Hm2)| ->];
        [|rewrite Hmi in Hv; by apply elem_of_empty in Hv].
      apply (Hm u g2); [done|]. by rewrite <- Hm2.
Qed.

(** Reserving a worker and starting it; the monitor is held throughout. *)
Lemma DP_start_worker k g0 g r z (Q' : Result unit SubmissionError -> dtok -> Prop) E :
  r Late = 0%nat -> synced z -> sz_live z < B -> holds (with_mon (Some z) g0) r g ->
  (forall v g', inlock g0 r g' -> Q' v g') ->
  WP k (worker <- reserve_worker_locked self ;; spawn_reserved_worker_locked self worker) g Q' E.
Proof.
  intros Hr Hz Hb Hg HQ. unfold reserve_worker_locked. rewrite !bind_assoc.
  apply WP_bind. client DP_get_field. intros index. rewrite bind_assoc.
  apply WP_bind. client DP_incr_index; [exact (holds_mon _ _ _ Hg)|]. rewrite bind_assoc.
  apply WP_bind. client DP_live_incr; [exact (holds_mon _ _ _ Hg)|done|].
  set (z1 := set_live _ z). apply (holds_inc DLive), (holds_with_mon (Some z1)) in Hg.
  set (g1 := with_mon (Some z1) (inc DLive g)) in *. cbn [bind].
  unfold spawn_reserved_worker_locked. apply WP_bind. client DP_get. intros prefix.
  apply WP_ret, WP_bind. client DP_get. intros stk. apply WP_ret.
  unfold thread_spawn, choose. cbn [bind]. apply WP_choose. intros []; cbn [bind].
  - apply WP_spawn. intros h s G Ht HI Hlk. exists (dec DLive g1), worker_token. split; [|split].
    + eapply dyn_inv_spawn; [done|done|exact Hlk|done|done|done|done|].
      intros c. subst g1. unfold worker_token, inc, dec, with_count, with_mon. cbn.
      destruct (decide (c = DLive)); lia.
    + apply DP_worker_thread.
    + apply (holds_dec DLive) in Hg. fold g1 in Hg.
      assert (Hg2 : holds (with_mon (Some z1) g0) r (dec DLive g1)).
      { replace (with_mon (Some z1) g0) with (with_mon (Some z1) (dec DLive (inc DLive g0)))
          by (by rewrite dyn_dec_inc). exact Hg. }
      apply WP_bind. client DP_atomic_incr; [exact (holds_mon _ _ _ Hg2)|cbn; unfold synced in Hz; lia|].
      intros v. apply WP_ret, HQ. set (z2 := set_atomic _ _). exists z2. split; [done|].
      apply (holds_with_mon (Some z2) _ _ _ Hg2).
  - apply WP_bind. client DP_live_decr; [exact (holds_mon _ _ _ Hg)|rewrite (holds_count _ _ _ Hg); apply dyn_inc_has|].
    set (z2 := set_live _ z1). apply (holds_dec DLive), (holds_with_mon (Some z2)) in Hg.
    assert (Hg2 : holds (with_mon (Some z2) g0) r (with_mon (Some z2) (dec DLive g1))).
    { replace (with_mon (Some z2) g0) with (with_mon (Some z2) (dec DLive (inc DLive g0)))
        by (by rewrite dyn_dec_inc). exact Hg. }
    apply WP_bind. client DP_notify_if_idle_or_terminated; [done|exact Hg2|]. intros g2 Hg3.
    apply WP_ret, HQ. exists z2. split; [|done]. unfold synced in *. cbn. lia.
Qed.
End ops.
