(* ===== verification/DynOps.v ===== *)
(** Specifications of the dynamic pool's admission path and of its callers'
    methods, under the pool invariant. *)
From S2P Require Import Prelude Prog Conc Sync AdmissionGate PoolAccounting AccountingLogic.
From S2P Require Import AccountingSpecs Types Hooks PoolJob DynState DynInner DynWorker DynSubmit.
From S2P Require Import DynLogic DynEntryLogic UserSpecs DynSpecs DynWorkerSpecs.
Local Open Scope Z_scope.

Section ops.
Context {S M : Type} `{MonitorLaws M} `{UserCode S}.
Variable self : lens S (ThreadPoolInner M).
Context `{!LensLaws self} (T : nat) (cap : option Z) (B : Z).
Context (Fin FinP : dtok -> Prop).
Local Abbreviation I := (dyn_inv self T cap B).
Local Abbreviation WP := (WP I Fin FinP).
Local Abbreviation holds := (holds dt_acct_l).
Local Abbreviation idle_gain := (idle_gain dt_acct_l).
Context `{HU : !UserSafe I Fin FinP calm}.
Implicit Types (r q : tok) (o : bool) (k e : nat) (g : dtok).

(** *** Admission *)

Context (HFin : forall g, (forall i, dt_acct g i = 0%nat) -> Fin g).
Context (HB : 1 <= B).

Lemma DP_grow k o g0 g r z (Q' : Result unit PoolJobSubmissionError -> dtok -> Prop) E :
  r Late = 0%nat -> synced z -> sz_live z < B -> holds (with_mon (Some z) g0) (tadd r (tk o Inside)) g ->
  (forall g', inlock g0 (tadd (tadd r (tk o Inside)) (tk o Reserved)) g' -> Q' (Ok tt) g') ->
  (forall v g', inlock g0 (tadd r (tk o Inside)) g' -> Q' (Err (Rejected v)) g') ->
  WP k (grow self) g Q' E.
Proof.
  intros Hr Hz Hb Hg HQ HE. unfold grow. rewrite <- bind_assoc. apply WP_bind.
  client DP_start_worker; [exact HFin|by apply (late_tadd r o)|done|done|exact Hg|].
  intros [u|v] g1 (z1 & Hz1 & Hg1); [|apply WP_ret, HE; by exists z1].
  apply WP_bind. client WP_handoff_slot; [done|exact Hg1|]. intros g2 Hg2. apply WP_ret, HQ. by exists z1.
Qed.

Lemma DP_reserve_submission k o g0 g r (Q' : Result unit PoolJobSubmissionError -> dtok -> Prop) E :
  free g0 -> r Late = 0%nat -> holds g0 (tadd r (tk o Inside)) g ->
  (forall g', holds g0 (tadd (tadd r (tk o Inside)) (tk o Reserved)) g' -> Q' (Ok tt) g') ->
  (forall v g', holds g0 (tadd r (tk o Inside)) g' -> Q' (Err (Rejected v)) g') ->
  WP k (reserve_submission_with_state_lock self) g Q' E.
Proof.
  intros Hf Hr Hg HQ HE. client DP_with_lock_holds; [done|exact Hg|].
  intros z g1 Hz Hok Hg1. pose proof (holds_mon _ _ _ Hg1) as Hm1. cbn in Hm1.
  set (Q1 := fun b g' => exists z' r', _).
  assert (HO : forall g', inlock g0 (tadd (tadd r (tk o Inside)) (tk o Reserved)) g' -> Q1 (Ok tt) g').
  { intros g' (z' & Hz' & Hg'). by exists z', (tadd (tadd r (tk o Inside)) (tk o Reserved)). }
  assert (HEr : forall v g', inlock g0 (tadd r (tk o Inside)) g' -> Q1 (Err (Rejected v)) g').
  { intros v g' (z' & Hz' & Hg'). exists z', (tadd r (tk o Inside)). split; [done|]. split; [done|]. apply HE. }
  assert (Hgrow : sz_live z < B -> forall g2, holds (with_mon (Some z) g0) (tadd r (tk o Inside)) g2 ->
    WP k (grow self) g2 Q1 (fun _ => False)).
  { intros Hlt g2 Hg2. by eapply DP_grow. }
  apply WP_bind. client DP_get_field. intros lc. destruct (negb _); [apply WP_ret, HEr; by exists z|].
  unfold sizes_ok in Hok.
  apply WP_bind. client DP_state_read; [exact Hm1|]. intros st Hc1 Hm Hl.
  destruct (live_workers st <? core_pool_size st) eqn:Hb1; [apply Hgrow; [lia|exact Hg1]|].
  clear st Hc1 Hm Hl Hb1. apply WP_bind. client DP_state_read; [exact Hm1|]. intros st Hc1 Hm Hl.
  destruct (live_workers st =? 0) eqn:Hb1; [apply Hgrow; [lia|exact Hg1]|].
  apply WP_bind. client WP_bounded_slot; [exact Hg1|..]; intros g2 Hg2.
  - apply WP_ret, HO. by exists z.
  - pose proof (holds_mon _ _ _ Hg2) as Hm2. cbn in Hm2.
    clear st Hc1 Hm Hl Hb1. apply WP_bind. client DP_state_read; [exact Hm2|]. intros st Hc1 Hm Hl.
    destruct (live_workers st <? maximum_pool_size st) eqn:Hb1; [apply Hgrow; [lia|exact Hg2]|].
    apply WP_ret, HEr. by exists z.
Qed.

Lemma DP_submit_with_state_lock k job o g0 g r (Q' : Result unit PoolJobSubmissionError -> dtok -> Prop) E :
  free g0 -> r Late = 0%nat -> holds g0 (tadd r (tk o Inside)) g ->
  (forall v g', holds g0 (tadd r (tk o Inside)) g' ->
     (standard job = true -> v <> Err AcceptancePanicked) -> Q' v g') ->
  WP k (submit_with_state_lock self job) g Q' E.
Proof.
  intros Hf Hr Hg HQ. apply WP_bind. eapply DP_reserve_submission; [done|done|exact Hg|..].
  - intros g1 Hg1. client DP_accept_and_enqueue; [done|by apply (late_tadd r o Inside)|exact Hg1|done].
  - intros v g1 Hg1. apply WP_bind. client WP_discard; [eapply holds_calm; [exact Hg1|by apply late_tadd|done]|].
    apply WP_ret. by apply HQ.
Qed.

(** A job made for a ticket is submitted by whoever prepared it. *)
Definition may_submit (job : PoolJob) (g : dtok) : Prop :=
  match job_queued job with Some e => e ∈ dt_mine g | None => True end.
Definition submitted (job : PoolJob) (g : dtok) : dtok :=
  match job_queued job with Some e => with_mine (dt_mine g ∖ {[e]}) g | None => g end.

Lemma DP_submit k job g (Q' : Result unit PoolJobSubmissionError -> dtok -> Prop) E :
  calm g -> may_submit job g ->
  (forall v, (standard job = true -> v <> Err AcceptancePanicked) -> Q' v (submitted job g)) ->
  WP k (tp_submit self job) g Q' E.
Proof.
  intros [HL Hf] Hmay HQ. apply WP_bind, WP_on_unwind.
  apply (WP_mono _ _ _ _ _ _ (fun _ g' => g' = submitted job g) _ (fun _ => False)); [|intros [] ? ->|done].
  { unfold assert_pool, may_submit, submitted in *. destruct (job_queued job) as [e|]; [|by apply WP_ret].
    apply WP_bind. client DP_entry_belongs; [done|]. by apply WP_ret. }
  set (g1 := submitted job g) in *.
  assert (Hg : holds g1 (dt_acct g1) g1) by apply (holds_self dt_acct_l).
  assert (Hf1 : free g1) by (subst g1; unfold submitted; by destruct (job_queued job)).
  assert (Hr : dt_acct g1 Late = 0%nat) by (subst g1; unfold submitted; by destruct (job_queued job)).
  unfold tp_begin_submit. rewrite bind_assoc. apply WP_bind.
  client WP_try_enter; [exact Hg|..]; cbn [bind].
  - intros o g2 Hg2. apply WP_finally. eapply DP_submit_with_state_lock; [done|done|exact Hg2|].
    intros v g3 Hg3 Hv. client DP_guard_drop; [done|exact Hg3|]. intros g4 ->%holds_exact. by apply HQ.
  - intros g2 Hg2. apply WP_bind. client WP_discard; [by eapply holds_calm|]. apply WP_ret.
    rewrite (holds_exact _ _ Hg2). by apply HQ.
Qed.

(** Whoever knows admission closed is refused. *)
Lemma DP_submit_closed k job g (Q' : Result unit PoolJobSubmissionError -> dtok -> Prop) E :
  (1 <= dt_acct g KnowClosed)%nat -> calm g -> job_queued job = None ->
  Q' (Err (Rejected Shutdown)) g -> WP k (tp_submit self job) g Q' E.
Proof.
  intros Hc [HL Hf] Hn HQ. unfold tp_submit, assert_pool. rewrite Hn. apply WP_bind, WP_on_unwind, WP_ret.
  pose proof (holds_self dt_acct_l g) as Hg. unfold tp_begin_submit. rewrite bind_assoc. apply WP_bind.
  client WP_try_enter_closed; [exact Hc|exact Hg|]. intros g1 ->%holds_exact. cbn [bind].
  apply WP_bind. client WP_discard; [done|]. by apply WP_ret.
Qed.

Lemma DP_prestart_one k g (Q' : Result bool SubmissionError -> dtok -> Prop) E :
  calm g -> (forall v, Q' v g) -> WP k (prestart_core_thread self) g Q' E.
Proof.
  intros [HL Hf] HQ. pose proof (holds_self dt_acct_l g) as Hg.
  client DP_with_lock_holds; [done|exact Hg|]. intros z g1 Hz Hok Hg1.
  pose proof (holds_mon _ _ _ Hg1) as Hm1. cbn in Hm1. set (Q1 := fun b g' => exists z' r', _).
  assert (Hend : forall v g', inlock g (dt_acct g) g' -> Q1 v g').
  { intros v g' (z' & Hz' & Hg'). exists z', (dt_acct g). split; [done|]. split; [done|].
    intros g'' ->%holds_exact. apply HQ. }
  unfold sizes_ok in Hok.
  apply WP_bind. client DP_get_field. intros lc. destruct (negb _); [apply WP_ret, Hend; by exists z|].
  apply WP_bind. client DP_state_read; [exact Hm1|]. intros st Hc1 Hm Hl.
  destruct (core_pool_size st <=? live_workers st) eqn:Hb1; [apply WP_ret, Hend; by exists z|].
  rewrite <- bind_assoc. apply WP_bind. client DP_start_worker; [exact HFin|exact HL|done|lia|exact Hg1|].
  intros v g2 Hg2. apply WP_ret. by apply Hend.
Qed.

Lemma DP_prestart_all k g (Q' : Result Z SubmissionError -> dtok -> Prop) E :
  calm g -> (forall v, Q' v g) -> WP k (prestart_all_core_threads self) g Q' E.
Proof.
  intros Hc HQ. unfold prestart_all_core_threads, loop.
  apply (WP_loop _ _ _ _ _ _ _ _ (fun _ g' => g' = g)); [|done]. intros started ? ->.
  apply WP_bind, DP_prestart_one; [done|]. intros [[]|e]; apply WP_ret; [done|apply WP_ret, HQ..].
Qed.

(** *** Waiting for the pool *)

(** An idle check inside a critical section. *)
Definition gain_in (g0 : dtok) (r : tok) (b : bool) (g : dtok) : Prop :=
  exists z, synced z /\ idle_gain (with_mon (Some z) g0) r b g.

Lemma gain_in_start g0 r z g :
  synced z -> idle_gain g0 r false g -> gain_in g0 r false (with_mon (Some z) g).
Proof.
  intros Hz (e & Hg & He). exists z. split; [done|]. exists e. split; [|done]. by apply holds_with_mon.
Qed.

Lemma gain_in_drop g0 r b g : dt_mon g0 = None -> gain_in g0 r b g -> idle_gain g0 r b (with_mon None g).
Proof.
  intros Hn (z & _ & e & Hg & He). exists e. split; [by eapply holds_drop_mon|done].
Qed.

Lemma gain_in_mon g0 r b g : gain_in g0 r b g -> exists z, dt_mon g = Some z /\ synced z.
Proof. intros (z & Hz & e & Hg & _). exists z. by rewrite (holds_mon _ _ _ Hg). Qed.

Lemma DP_wait_gain k g0 g r (Q' : unit -> dtok -> Prop) E :
  gain_in g0 r false g -> (forall g', gain_in g0 r false g' -> Q' tt g') -> WP k (wait (mon self)) g Q' E.
Proof.
  intros (z & Hz & e & Hg & He) HQ. client DP_wait; [by rewrite (holds_mon _ _ _ Hg)|done|].
  intros z' Hz' _. apply HQ. exists z'. split; [done|]. exists e. split; [|exact He].
  apply (holds_with_mon (Some z') _ _ _ Hg).
Qed.

Lemma DP_wait_for_gain k g0 g r (Q' : Result bool unit -> dtok -> Prop) E :
  gain_in g0 r false g -> (forall b g', gain_in g0 r false g' -> Q' (Ok b) g') ->
  WP k (wait_for (mon self)) g Q' E.
Proof.
  intros (z & Hz & e & Hg & He) HQ. client DP_wait_for; [by rewrite (holds_mon _ _ _ Hg)|done|].
  intros b z' Hz' _. apply HQ. exists z'. split; [done|]. exists e. split; [|exact He].
  apply (holds_with_mon (Some z') _ _ _ Hg).
Qed.

Lemma DP_lock_gain k {R} (body : prog S R) g0 g r (Q' : R -> dtok -> Prop) E :
  free g0 -> idle_gain g0 r false g ->
  (forall g1, gain_in g0 r false g1 -> WP k body g1 (fun b g' => exists g0' c, free g0' /\ gain_in g0' r c g' /\
     forall g'', idle_gain g0' r c g'' -> Q' b g'') (fun _ => False)) ->
  WP k (with_lock (mon self) body) g Q' E.
Proof.
  intros Hf Hg Hb. client DP_with_lock. intros z Hz _.
  eapply WP_mono; [by apply Hb, (gain_in_start _ _ z)| |done].
  intros b g' (g0' & c & [Hn _] & Hg' & HQ). destruct (gain_in_mon _ _ _ _ Hg') as (z' & Hz1 & Hz2).
  exists z'. split; [done|]. split; [done|]. apply HQ. by apply gain_in_drop.
Qed.

Lemma DP_idle_in k g0 g r (Q' : bool -> dtok -> Prop) E :
  gain_in g0 r false g -> (forall b g', gain_in g0 r b g' -> Q' b g') ->
  WP k (is_idle_snapshot self) g Q' E.
Proof.
  intros (z & Hz & Hg) HQ. client WP_is_idle_seen; [exact Hg|]. intros b g' Hg'. apply HQ. by exists z.
Qed.

Lemma DP_terminated_in k g0 g r (Q' : bool -> dtok -> Prop) E :
  gain_in g0 r false g -> (forall b g', gain_in g0 r b g' -> Q' b g') ->
  WP k (tp_is_terminated_locked self) g Q' E.
Proof.
  intros (z & Hz & Hg) HQ. client DP_terminated_locked; [exact Hg|]. intros b g' Hg'. apply HQ. by exists z.
Qed.

Lemma DP_wait_for_termination k g0 g r (Q' : unit -> dtok -> Prop) E :
  free g0 -> holds g0 r g -> (forall g', idle_gain g0 r true g' -> Q' tt g') ->
  WP k (tp_wait_for_termination self) g Q' E.
Proof.
  intros Hf Hg HQ. eapply DP_lock_gain; [done|by apply idle_gain_start|]. intros g1 Hg1. unfold loop.
  apply (WP_loop _ _ _ _ _ _ _ _ (fun _ => gain_in g0 r false)); [|done].
  clear g g1 Hg Hg1. intros [] g Hg. apply WP_bind. eapply DP_terminated_in; [exact Hg|].
  intros [] g1 Hg1.
  - apply WP_ret, WP_ret. exists g0, true. done.
  - apply WP_bind. eapply DP_wait_gain; [exact Hg1|]. intros g2 Hg2. by apply WP_ret.
Qed.

Lemma gain_in_inc c g0 r b g : gain_in g0 r b g -> gain_in (inc c g0) r b (inc c g).
Proof. intros (z & Hz & e & Hg & He). exists z. split; [done|]. exists e. split; [|done]. apply (holds_inc c _ _ _ Hg). Qed.

Lemma DP_wait_until_idle k g0 g r (Q' : unit -> dtok -> Prop) E :
  free g0 -> holds g0 r g -> (forall g', idle_gain g0 r true g' -> Q' tt g') ->
  WP k (tp_wait_until_idle self) g Q' E.
Proof.
  intros Hf Hg HQ. apply WP_bind.
  change (self ⊚ idle_waiter_count_l) with (self ⊚ @dcounter_l M DIdleWaiter).
  client DP_fetch_add_count; [done|]. intros _. apply (holds_inc DIdleWaiter) in Hg.
  eapply (DP_lock_gain k _ (inc DIdleWaiter g0)); [done|by apply idle_gain_start|]. intros g1 Hg1. apply WP_bind. unfold loop.
  apply (WP_loop _ _ _ _ _ _ _ _ (fun _ => gain_in (inc DIdleWaiter g0) r false)); [|done].
  clear g g1 Hg Hg1. intros [] g Hg. apply WP_bind. eapply DP_idle_in; [exact Hg|]. intros [] g1 Hg1.
  - apply WP_ret, WP_ret. destruct Hg1 as (z & Hz & e & Hg1 & He). apply WP_bind.
    client DP_fetch_sub_count; [done|rewrite (holds_count _ _ _ Hg1); apply dyn_inc_has|].
    intros v Hv. apply Z.ltb_lt in Hv. rewrite Hv. apply WP_ret. exists g0, true. split; [done|].
    split; [|done]. exists z. split; [done|]. exists e. split; [|done].
    apply (holds_dec DIdleWaiter) in Hg1.
    replace (with_mon (Some z) g0) with (with_mon (Some z) (dec DIdleWaiter (inc DIdleWaiter g0)))
      by (by rewrite dyn_dec_inc). exact Hg1.
  - apply WP_bind. eapply DP_wait_gain; [exact Hg1|]. intros g2 Hg2. by apply WP_ret.
Qed.

(** *** Shutdown, stop, and observers *)

Lemma DP_close k g (Q' : unit -> dtok -> Prop) E : Q' tt g -> WP k (close_admission (acc self)) g Q' E.
Proof.
  intros HQ. client WP_close_admission; [apply (holds_self dt_acct_l)|]. by intros g' ->%holds_exact.
Qed.

(** A critical section that neither observes nor changes a contribution. *)
Lemma DP_plain_section k {R} (body : prog S R) g (Q' : R -> dtok -> Prop) E :
  free g -> (forall z, synced z -> sizes_ok B z -> WP k body (with_mon (Some z) g)
    (fun b g' => exists z', synced z' /\ g' = with_mon (Some z') g /\ Q' b g) (fun _ => False)) ->
  WP k (with_lock (mon self) body) g Q' E.
Proof.
  intros [Hn _] Hb. client DP_with_lock. intros z Hz Hok. eapply WP_mono; [by apply Hb| |done].
  intros b g' (z' & Hz' & -> & HQ). exists z'. split; [done|]. split; [done|].
  change (Q' b (with_mon None (with_mon None g))). by rewrite !with_mon_back.
Qed.

Lemma DP_shutdown k g (Q' : unit -> dtok -> Prop) E : free g -> Q' tt g -> WP k (tp_shutdown self) g Q' E.
Proof.
  intros Hf HQ. apply WP_bind, DP_close, DP_plain_section; [done|]. intros z Hz _.
  assert (Hend : WP k (notify_all (mon self)) (with_mon (Some z) g) (fun b g' =>
    exists z', synced z' /\ g' = with_mon (Some z') g /\ Q' b g) (fun _ => False)).
  { client DP_notify_all. by exists z. }
  apply WP_bind. client DP_get_field. intros lc. apply WP_bind. client WP_when; [exact Hend|].
  by client DP_store_lifecycle.
Qed.

Lemma DP_wait_for_submitters k g0 g r (Q' : unit -> dtok -> Prop) E :
  inlock g0 r g -> (forall g', inlock g0 r g' -> Q' tt g') -> WP k (tp_wait_for_submitters self) g Q' E.
Proof.
  intros Hg HQ. apply WP_bind. client DP_inflight. intros n. client WP_when; [by apply HQ|].
  apply WP_bind. change (self ⊚ submit_waiter_count_l) with (self ⊚ @dcounter_l M DSubmitWaiter).
  client DP_fetch_add_count; [done|]. intros _. apply (inlock_inc DSubmitWaiter) in Hg.
  apply WP_bind. unfold loop.
  apply (WP_loop _ _ _ _ _ _ _ _ (fun _ => inlock (inc DSubmitWaiter g0) r)); [|done].
  clear g Hg. intros [] g Hg. apply WP_bind. client DP_inflight. intros m. destruct (0 <? m).
  - apply WP_bind. client DP_wait_in; [exact Hg|]. intros g1 Hg1. by apply WP_ret.
  - apply WP_ret, WP_ret, WP_bind. destruct Hg as (z & Hz & Hg).
    client DP_fetch_sub_count; [done|rewrite (holds_count _ _ _ Hg); apply dyn_inc_has|].
    intros v Hv. apply Z.ltb_lt in Hv. rewrite Hv. apply WP_ret, HQ. exists z. split; [done|].
    apply (holds_dec DSubmitWaiter) in Hg.
    replace (with_mon (Some z) g0) with (with_mon (Some z) (dec DSubmitWaiter (inc DSubmitWaiter g0)))
      by (by rewrite dyn_dec_inc). exact Hg.
Qed.

Lemma DP_cancels k (jobs : list PoolJob) os g0 g r (Q' : unit -> dtok -> Prop) E :
  free g0 -> r Late = 0%nat -> length os = length jobs -> holds g0 (tadd r (tks os Cancelling)) g ->
  (forall g', holds g0 r g' -> Q' tt g') ->
  WP k (for_each jobs (fun job => job_cancel job ;; tp_finish_cancelled_job self)) g Q' E.
Proof.
  intros Hf Hr Hlen Hg HQ.
  apply (WP_for_each _ _ _ _ _ _ (fun js g => exists os, length os = length js /\
    holds g0 (tadd r (tks os Cancelling)) g)); [..|by exists os].
  - intros j js g1 ([|o os1] & Hl & Hg1); [done|]. apply WP_bind. client WP_job_cancel.
    { eapply holds_calm; [exact Hg1| |done]. unfold tadd. rewrite tks_late. lia. }
    client (DP_finish_cancelled_job _ _ _ _ _ _ _ o g0 g1 (tadd r (tks os1 Cancelling)));
      [done|unfold tadd; rewrite tks_late; lia|by_tks Hg1|].
    intros g2 Hg2. exists os1. by injection Hl.
  - intros g1 ([|] & Hl & Hg1); [|done]. apply HQ. eapply holds_ext; [|exact Hg1].
    intros i. unfold tadd. rewrite ?tks_nil. lia.
Qed.

Lemma DP_stop k g (Q' : StopReport -> dtok -> Prop) E :
  calm g -> (forall v, Q' v g) -> WP k (tp_stop self) g Q' E.
Proof.
  intros [HL Hf] HQ. pose proof (holds_self dt_acct_l g) as Hg. set (r := dt_acct g) in *.
  apply WP_bind, DP_close, WP_bind. client DP_store_stop. apply WP_bind.
  client DP_locked; [done|exact Hg|]. intros g1 Hg1. apply WP_bind. client DP_store_stop.
  apply WP_bind. client DP_get_field. intros lc. apply WP_bind.
  apply (WP_mono _ _ _ _ _ _ (fun _ => inlock g r) _ (fun _ => False)); [|intros [] g2 Hg2|done].
  { client WP_when; [done|]. by client DP_store_lifecycle. }
  apply WP_bind. eapply DP_wait_for_submitters; [exact Hg2|]. intros g3 (z & Hz & Hg3).
  apply WP_bind. client DP_get_field. intros running. apply WP_bind.
  client (DP_drain self T cap B Fin FinP k (with_mon (Some z) g)); [apply Hf|exact Hg3|]. intros jobs os g4 Hl Hg4.
  apply WP_bind. client DP_notify_all. apply WP_ret. exists g, (tadd r (tks os Cancelling)).
  split; [done|]. split; [by exists z|]. intros g5 Hg5. apply WP_bind.
  eapply DP_cancels; [done|exact HL|exact Hl|exact Hg5|]. intros g6 Hg6.
  apply WP_bind. client DP_lock_notify_all; [by rewrite (holds_mon _ _ _ Hg6); apply Hf|]. apply WP_ret.
  rewrite (holds_exact _ _ Hg6). apply HQ.
Qed.

Lemma DP_snapshot k g (Q' : PoolCounterSnapshot -> dtok -> Prop) E :
  (forall v, Q' v g) -> WP k (snapshot (acc self)) g Q' E.
Proof.
  intros HQ. apply WP_bind. client DP_inflight. intros n1.
  do 6 (apply WP_bind; client DP_get_field; intros ?). by apply WP_ret.
Qed.

(** What an observer computes under the lock after a termination check. *)
Lemma DP_observer k {R} (rest : bool -> prog S R) g0 g r (Q' : R -> dtok -> Prop) E :
  free g0 -> holds g0 r g ->
  (forall b g1 Q1 E1, (forall v, Q1 v g1) -> WP k (rest b) g1 Q1 E1) ->
  (forall v g', idle_gain g0 r false g' -> Q' v g') ->
  WP k (with_lock (mon self) (t <- tp_is_terminated_locked self ;; rest t)) g Q' E.
Proof.
  intros Hf Hg Hrest HQ. eapply DP_lock_gain; [done|by apply idle_gain_start|]. intros g1 Hg1.
  apply WP_bind. eapply DP_terminated_in; [exact Hg1|]. intros b g2 (z & Hz & Hg2).
  apply Hrest. intros v. exists g0, false. split; [done|]. split; [|intros; by apply HQ].
  exists z. split; [done|]. by eapply idle_gain_forget.
Qed.

Lemma DP_lifecycle k g0 g r (Q' : ExecutorServiceLifecycle -> dtok -> Prop) E :
  free g0 -> holds g0 r g -> (forall v g', idle_gain g0 r false g' -> Q' v g') ->
  WP k (tp_lifecycle self) g Q' E.
Proof.
  intros Hf Hg HQ. eapply DP_observer; [done|exact Hg| |exact HQ].
  intros b g1 Q1 E1 HQ1. destruct b; [by apply WP_ret|by client DP_observe].
Qed.

Lemma DP_is_terminated k g0 g r (Q' : bool -> dtok -> Prop) E :
  free g0 -> idle_gain g0 r false g -> (forall v g', idle_gain g0 r v g' -> Q' v g') ->
  WP k (tp_is_terminated self) g Q' E.
Proof.
  intros Hf Hg HQ. eapply DP_lock_gain; [done|exact Hg|]. intros g1 Hg1.
  eapply DP_terminated_in; [exact Hg1|]. intros b g2 Hg2. exists g0, b. split; [done|]. split; [done|].
  intros g3 Hg3. by apply HQ.
Qed.

Lemma DP_wait_for_termination_timeout k timeout g0 g r (Q' : bool -> dtok -> Prop) E :
  free g0 -> holds g0 r g -> (forall b g', idle_gain g0 r b g' -> Q' b g') ->
  WP k (tp_wait_for_termination_timeout self timeout) g Q' E.
Proof.
  intros Hf Hg HQ. unfold tp_wait_for_termination_timeout, loop.
  apply (WP_loop _ _ _ _ _ _ _ _ (fun _ => idle_gain g0 r false)); [|by apply idle_gain_start].
  clear g Hg. intros [] g Hg. apply WP_bind.
  apply (WP_mono _ _ _ _ _ _ (fun _ g' => g' = g) _ (fun _ => False)); [|intros over ? ->|done].
  { unfold time_is_over. destruct (timeout =? 0); [by apply WP_ret|]. apply WP_choose. intros. by apply WP_ret. }
  assert (Hpoll : forall Q1 E1, (forall b g', idle_gain g0 r b g' -> Q1 (inr b) g') ->
    WP k (terminated <- tp_is_terminated self ;; Ret (inr terminated : unit + bool)) g Q1 E1).
  { intros Q1 E1 HQ1. apply WP_bind. client DP_is_terminated; [done|exact Hg|].
    intros b g' Hg'. by apply WP_ret, HQ1. }
  destruct over; [apply Hpoll; intros b g1 Hg1; by apply WP_ret, HQ|]. apply WP_bind. eapply DP_lock_gain; [done|exact Hg|].
  intros g1 Hg1. unfold loop. apply (WP_loop _ _ _ _ _ _ _ _ (fun _ => gain_in g0 r false)); [|done].
  clear g g1 Hg Hg1 Hpoll. intros [] g Hg. apply WP_bind. eapply DP_terminated_in; [exact Hg|].
  intros [] g1 Hg1.
  - apply WP_ret, WP_ret. exists g0, true. split; [done|]. split; [done|]. intros g2 Hg2.
    apply WP_ret, WP_ret. by apply HQ.
  - apply WP_bind, WP_choose. intros []; apply WP_ret.
    + apply WP_ret, WP_ret. exists g0, false. split; [done|]. split; [done|]. intros g2 Hg2.
      by apply WP_ret.
    + apply WP_bind. eapply DP_wait_for_gain; [exact Hg1|]. intros b g2 Hg2. by apply WP_ret.
Qed.

Lemma DP_stats k g0 g r (Q' : ThreadPoolStats -> dtok -> Prop) E :
  free g0 -> holds g0 r g -> (forall v g', idle_gain g0 r false g' -> Q' v g') ->
  WP k (tp_stats self) g Q' E.
Proof.
  intros Hf Hg HQ. apply WP_bind, DP_snapshot. intros c.
  eapply DP_observer; [done|exact Hg| |exact HQ]. intros b g1 Q1 E1 HQ1.
  apply WP_bind. client DP_observe. intros st. apply WP_bind. client DP_get. intros cp.
  apply WP_ret. by apply WP_ret.
Qed.

(** *** Tickets *)

Lemma DP_cancel_queued k alive e g (Q' : bool -> dtok -> Prop) E :
  calm g -> (forall b, Q' b g) -> WP k (cancel_queued self alive e) g Q' E.
Proof.
  intros [HL [Hm Hn]] HQ. destruct alive; cbn [negb]; [|by apply WP_ret].
  assert (Hout : forall v b, WP k (entry_unlock self e ;; Ret b) (with_entry (Some (e, v)) g) Q' E).
  { intros v b. apply WP_bind. client DP_entry_unlock; [done|]. apply WP_ret.
    change (Q' b (with_entry None (with_entry (Some (e, v)) g))). by rewrite with_entry_back. }
  apply WP_bind. client DP_entry_lock. intros v. apply WP_bind. client DP_entry_read; [done|].
  destruct v as [|owner requested|job| | | |]; try apply Hout.
  - apply WP_bind. client DP_current_thread. destruct (_ || _)%bool; [apply Hout|].
    apply WP_bind. client DP_entry_write; [done|done|]. apply WP_bind. unfold loop.
    apply (WP_loop _ _ _ _ _ _ _ _ (fun _ g' => exists v, g' = with_entry (Some (e, v)) g)); [|by eexists].
    intros [] ? [v ->]. apply WP_bind. client DP_entry_read; [done|].
    assert (Hend : WP k (Ret (inr tt : unit + unit)) (with_entry (Some (e, v)) g)
      (fun x g' => match x with
         | inl _ => exists v, g' = with_entry (Some (e, v)) g
         | inr b => WP k (Ret b) g' (fun _ g1 => WP k (state <- entry_read self e ;; entry_unlock self e ;;
             Ret (match state with QueuedJobState.Cancelled => true | _ => false end)) g1 Q' E) E
         end) E).
    { apply WP_ret, WP_ret, WP_bind. client DP_entry_read; [done|]. apply Hout. }
    destruct v; try exact Hend;
      (apply WP_bind; client DP_entry_wait; [done|]; intros v'; apply WP_ret; by exists v').
  - apply WP_bind. client DP_entry_unlock; [done|].
    pose proof (holds_self dt_acct_l g) as Hg. change (with_entry None (with_entry (Some (e, QueuedJobState.Queued job)) g))
      with (with_entry None (with_entry None g)). rewrite !with_entry_back by done.
    client DP_cancel_entry; [done|exact HL|exact Hg|]. by intros b g' ->%holds_exact.
Qed.

(** *** Configuration *)

Lemma DP_set_core k n g (Q' : Result unit ExecutorServiceBuilderError -> dtok -> Prop) E :
  free g -> (forall v, Q' v g) -> WP k (DynInner.set_core_pool_size self n) g Q' E.
Proof.
  intros Hf HQ. apply WP_bind, DP_plain_section; [done|]. intros z Hz Hok.
  apply WP_bind. client DP_locked_load; [done|]. intros st Hc Hm Hl. cbn [get maximum_pool_size_l].
  destruct (maximum_pool_size st <? n) eqn:Hlt.
  - apply WP_ret. exists z. split; [done|]. split; [done|]. apply WP_ret, HQ.
  - apply WP_bind. client DP_store_core; [done|lia|]. apply WP_ret. eexists. split; [|split; [reflexivity|]].
    + exact Hz.
    + apply WP_bind. client DP_notify_all. by apply WP_ret.
Qed.

Lemma DP_set_maximum k n g (Q' : Result unit ExecutorServiceBuilderError -> dtok -> Prop) E :
  free g -> n <= B -> (forall v, Q' v g) -> WP k (DynInner.set_maximum_pool_size self n) g Q' E.
Proof.
  intros Hf Hn HQ. unfold DynInner.set_maximum_pool_size. destruct (n =? 0); [by apply WP_ret|].
  apply WP_bind, DP_plain_section; [done|]. intros z Hz Hok.
  apply WP_bind. client DP_locked_load; [done|]. intros st Hc Hm Hl. cbn [get core_pool_size_l].
  destruct (n <? core_pool_size st) eqn:Hlt.
  - apply WP_ret. exists z. split; [done|]. split; [done|]. apply WP_ret, HQ.
  - apply WP_bind. client DP_store_max; [done|lia|]. apply WP_ret. eexists. split; [|split; [reflexivity|]].
    + exact Hz.
    + apply WP_bind. client DP_notify_all. by apply WP_ret.
Qed.

Lemma DP_write_notify k (body : prog S unit) g (Q' : unit -> dtok -> Prop) E :
  free g -> (forall g Q1 E1, Q1 tt g -> WP k body g Q1 E1) -> Q' tt g ->
  WP k (with_write_notify_all (mon self) body) g Q' E.
Proof.
  intros Hf Hb HQ. apply DP_plain_section; [done|]. intros z Hz _. apply WP_bind, Hb.
  apply WP_bind. client DP_notify_all. apply WP_ret. by exists z.
Qed.

Lemma DP_set_keep_alive k d g (Q' : Result unit ExecutorServiceBuilderError -> dtok -> Prop) E :
  free g -> (forall v, Q' v g) -> WP k (set_keep_alive self d) g Q' E.
Proof.
  intros Hf HQ. unfold set_keep_alive. destruct (d =? 0); [by apply WP_ret|].
  apply WP_bind, DP_write_notify; [done|intros; by client DP_store_keep_alive|]. by apply WP_ret.
Qed.

Lemma DP_allow_timeout k b g (Q' : unit -> dtok -> Prop) E :
  free g -> Q' tt g -> WP k (tp_allow_core_thread_timeout self b) g Q' E.
Proof.
  intros Hf HQ. apply DP_write_notify; [done|intros; by client DP_store_core_timeout|done].
Qed.

Lemma DP_read_state k {R} (f : ThreadPoolState -> R) g (Q' : R -> dtok -> Prop) E :
  free g -> (forall v, Q' v g) -> WP k (read_state self f) g Q' E.
Proof.
  intros Hf HQ. apply DP_plain_section; [done|]. intros z Hz _. client DP_observe. intros v. by exists z.
Qed.
End ops.
