(* ===== verification/DynSafety.v ===== *)
(** The dynamic pool as a whole under every interleaving: a thread that builds
    it, any number of clients calling its methods, and the workers started on
    demand. *)
From S2P Require Import Prelude Prog Conc Sync AdmissionGate PoolAccounting AccountingLogic.
From S2P Require Import AccountingSpecs Types Hooks PoolJob DynState DynInner DynWorker DynSubmit.
From S2P Require Import DynLogic DynEntryLogic UserSpecs DynSpecs DynWorkerSpecs DynOps Builder DynPool.
Local Open Scope Z_scope.

(** Calls a client may make.  [OpSubmitCustom] submits a job of the caller's
    callbacks; [OpSubmitCancellable] prepares a job with a ticket and submits it;
    [OpCancel] uses the ticket of an entry, wherever it was obtained. *)
Inductive DynOp : Type :=
| OpSubmit (task : nat)
| OpSubmitCallable (task completion handle : nat)
| OpSubmitTrackedCallable (task completion handle : nat)
| OpSubmitCustom (accept run cancel : nat)
| OpSubmitCancellable (accept run cancel : nat)
| OpCancel (alive : bool) (entry : nat)
| OpPrestartOne | OpPrestartAll
| OpJoin | OpShutdown | OpDrop | OpStop | OpWaitTermination
| OpWaitTerminationTimeout (timeout : Z)
| OpLifecycle | OpIsNotRunning | OpIsTerminated | OpStats
| OpQueuedCount | OpRunningCount | OpLiveWorkerCount | OpCorePoolSize | OpMaximumPoolSize
| OpSetCorePoolSize (n : Z) | OpSetMaximumPoolSize (n : Z)
| OpSetKeepAlive (d : Z) | OpAllowCoreThreadTimeout (allow : bool).

Section system.
Context {S M : Type} `{Monitor M} `{UserCode S}.
Variable self : lens S (ThreadPoolInner M).

Definition dyn_op (op : DynOp) : prog S unit :=
  match op with
  | OpSubmit task => tp_submit_runnable self task ;; Ret tt
  | OpSubmitCallable t c h => tp_submit_callable self t c h ;; Ret tt
  | OpSubmitTrackedCallable t c h => tp_submit_tracked_callable self t c h ;; Ret tt
  | OpSubmitCustom a r c => submit_job self (with_accept a r c) ;; Ret tt
  | OpSubmitCancellable a r c =>
      prepared <- prepare_cancellable_job self a r c ;; submit_job self prepared.1 ;; Ret tt
  | OpCancel alive entry => cancel_queued self alive entry ;; Ret tt
  | OpPrestartOne => prestart_core_thread self ;; Ret tt
  | OpPrestartAll => prestart_all_core_threads self ;; Ret tt
  | OpJoin => tp_join self
  | OpShutdown => tp_shutdown self
  | OpDrop => tp_drop self
  | OpStop => tp_stop self ;; Ret tt
  | OpWaitTermination => tp_wait_for_termination self
  | OpWaitTerminationTimeout d => tp_wait_for_termination_timeout self d ;; Ret tt
  | OpLifecycle => tp_lifecycle self ;; Ret tt
  | OpIsNotRunning => tp_is_not_running self ;; Ret tt
  | OpIsTerminated => tp_is_terminated self ;; Ret tt
  | OpStats => tp_stats self ;; Ret tt
  | OpQueuedCount => tp_queued_count self ;; Ret tt
  | OpRunningCount => tp_running_count self ;; Ret tt
  | OpLiveWorkerCount => tp_live_worker_count self ;; Ret tt
  | OpCorePoolSize => tp_core_pool_size self ;; Ret tt
  | OpMaximumPoolSize => tp_maximum_pool_size self ;; Ret tt
  | OpSetCorePoolSize n => DynInner.set_core_pool_size self n ;; Ret tt
  | OpSetMaximumPoolSize n => DynInner.set_maximum_pool_size self n ;; Ret tt
  | OpSetKeepAlive d => set_keep_alive self d ;; Ret tt
  | OpAllowCoreThreadTimeout allow => tp_allow_core_thread_timeout self allow
  end.

Definition dyn_client (ops : list DynOp) : prog S unit := for_each ops dyn_op.

(** The thread in [build], once the shared state exists. *)
Definition dyn_builder_thread `{BuilderErrors} (b : ThreadPoolBuilder) : prog S unit :=
  start_pool self b ;; Ret tt.

Definition dyn_system `{BuilderErrors} (b : ThreadPoolBuilder) (clients : list (list DynOp)) (s : S) : config S :=
  Config (dyn_builder_thread b :: map dyn_client clients) s.

(** The state [s] holds the pool the builder creates. *)
Definition dyn_initial (b : ThreadPoolBuilder) (s : S) : Prop :=
  get self s = thread_pool_inner_new (Builder.config b) (b_hooks b).

(** [B] bounds the maximum pool size a client may configure. *)
Definition op_within (B : Z) (op : DynOp) : Prop :=
  match op with OpSetMaximumPoolSize n => n <= B | _ => True end.

(** [B] bounds the pool size at all times: the builder's, and what clients set. *)
Record within (B : Z) (b : ThreadPoolBuilder) (clients : list (list DynOp)) : Prop := {
  wi_positive : 1 <= B;
  wi_builder : b_core_pool_size b <= b_maximum_pool_size b <= B;
  wi_clients : Forall (Forall (op_within B)) clients;
}.

(** Callbacks respect the pool: see [UserSafe]. *)
Definition dyn_callbacks_respect (b : ThreadPoolBuilder) (B : Z) : Prop :=
  forall T Fin FinP, (forall g, (forall i, dt_acct g i = 0%nat) -> Fin g) ->
    UserSafe (dyn_inv self T (b_queue_capacity b) B) Fin FinP calm.
End system.

Section safety.
Context {S M : Type} `{MonitorLaws M} `{UserCode S} `{BuilderErrors}.
Variable self : lens S (ThreadPoolInner M).
Context `{!LensLaws self} (T : nat) (cap : option Z) (B : Z).
Context (Fin FinP : dtok -> Prop).
Local Abbreviation I := (dyn_inv self T cap B).
Local Abbreviation WP := (WP I Fin FinP).
Local Abbreviation holds := (holds dt_acct_l).
Local Abbreviation idle_gain := (idle_gain dt_acct_l).
Context `{HU : !UserSafe I Fin FinP calm}.
Context (HFin : forall g, (forall i, dt_acct g i = 0%nat) -> Fin g).
Context (HB : 1 <= B).
Implicit Types (r q : tok) (o : bool) (k e : nat) (g : dtok).

Lemma DP_map_submission_error k {A} (v : Result A PoolJobSubmissionError) g
    (Q' : Result A SubmissionError -> dtok -> Prop) E :
  v <> Err AcceptancePanicked -> (forall v, Q' v g) -> WP k (map_submission_error v) g Q' E.
Proof.
  intros Hv HQ. destruct v as [a|[e|]]; [by apply WP_ret| |done]. cbn. apply WP_ret, HQ.
Qed.

Lemma idle_gain_same g b g' : calm g -> idle_gain g (dt_acct g) b g' -> g' = g.
Proof. intros [HL _] Hg'%idle_gain_none0; [|done]. by apply holds_exact. Qed.

(** Submitting a job made from a task, whatever is done with the answer. *)
Lemma DP_submit_standard k job {A} (kont : _ -> prog S A) g (Q' : A -> dtok -> Prop) E :
  calm g -> standard job = true -> job_queued job = None ->
  (forall v, v <> Err AcceptancePanicked -> WP k (kont v) g Q' E) ->
  WP k (bind (tp_submit self job) kont) g Q' E.
Proof.
  intros Hc Hs Hn Hk. apply WP_bind. client DP_submit; [exact HFin|exact HB|exact Hc| |].
  - unfold may_submit. by rewrite Hn.
  - intros v Hv. unfold submitted. rewrite Hn. apply Hk. by apply Hv.
Qed.

(** Every call of the interface keeps the contribution and does not panic. *)
Lemma DP_dyn_op k op g (Q' : unit -> dtok -> Prop) E :
  calm g -> op_within B op -> Q' tt g -> WP k (dyn_op self op) g Q' E.
Proof.
  intros Hc Hop HQ. pose proof (holds_self dt_acct_l g) as Hg. pose proof (proj2 Hc) as Hf.
  assert (Hread : forall A (f : ThreadPoolState -> A), WP k (read_state self f ;; Ret tt) g Q' E).
  { intros A f. apply WP_bind. client DP_read_state; [done|]. intros v. by apply WP_ret. }
  destruct op; cbn [dyn_op].
  - unfold tp_submit_runnable. rewrite bind_assoc. apply DP_submit_standard; [done..|]. intros v Hv.
    apply WP_bind, DP_map_submission_error; [done|]. intros. by apply WP_ret.
  - unfold tp_submit_callable. rewrite bind_assoc. apply DP_submit_standard; [done..|]. intros v Hv.
    rewrite bind_assoc. apply WP_bind, DP_map_submission_error; [done|]. intros. by apply WP_ret.
  - unfold tp_submit_tracked_callable. rewrite bind_assoc. apply DP_submit_standard; [done..|]. intros v Hv.
    rewrite bind_assoc. apply WP_bind, DP_map_submission_error; [done|]. intros. by apply WP_ret.
  - apply WP_bind. client DP_submit; [exact HFin|exact HB|exact Hc|done|]. intros v Hv. by apply WP_ret.
  - apply WP_bind. unfold prepare_cancellable_job, prepare_cancellable. apply WP_bind.
    client DP_prepare. intros e Hne. apply WP_ret, WP_bind.
    client DP_submit; [exact HFin|exact HB|exact Hc|unfold may_submit; cbn; set_solver|]. intros v Hv.
    apply WP_ret. cbn [fst]. unfold submitted. cbn.
    assert (({[e]} ∪ dt_mine g) ∖ {[e]} = dt_mine g) as -> by set_solver. by destruct g.
  - apply WP_bind. client DP_cancel_queued; [done|]. intros b. by apply WP_ret.
  - apply WP_bind. client DP_prestart_one; [exact HFin|done|]. intros v. by apply WP_ret.
  - apply WP_bind. client DP_prestart_all; [exact HFin|done|]. intros v. by apply WP_ret.
  - client DP_wait_until_idle; [done|exact Hg|]. intros g' Hg'. by rewrite (idle_gain_same _ _ _ Hc Hg').
  - by client DP_shutdown.
  - by client DP_shutdown.
  - apply WP_bind. client DP_stop; [done|]. intros v. by apply WP_ret.
  - client DP_wait_for_termination; [done|exact Hg|]. intros g' Hg'. by rewrite (idle_gain_same _ _ _ Hc Hg').
  - apply WP_bind. client DP_wait_for_termination_timeout; [done|exact Hg|]. intros v g' Hg'.
    rewrite (idle_gain_same _ _ _ Hc Hg'). by apply WP_ret.
  - apply WP_bind. client DP_lifecycle; [done|exact Hg|]. intros v g' Hg'.
    rewrite (idle_gain_same _ _ _ Hc Hg'). by apply WP_ret.
  - apply Hread.
  - apply WP_bind. client DP_is_terminated; [done|by apply idle_gain_start|]. intros v g' Hg'.
    rewrite (idle_gain_same _ _ _ Hc Hg'). by apply WP_ret.
  - apply WP_bind. client DP_stats; [done|exact Hg|]. intros v g' Hg'.
    rewrite (idle_gain_same _ _ _ Hc Hg'). by apply WP_ret.
  - apply WP_bind. client DP_get_field. intros. by apply WP_ret.
  - apply WP_bind. client DP_get_field. intros. by apply WP_ret.
  - apply Hread.
  - apply Hread.
  - apply Hread.
  - apply WP_bind. client DP_set_core; [done|]. intros v. by apply WP_ret.
  - apply WP_bind. client DP_set_maximum; [done|done|]. intros v. by apply WP_ret.
  - apply WP_bind. client DP_set_keep_alive; [done|]. intros v. by apply WP_ret.
  - by client DP_allow_timeout.
Qed.

Lemma DP_client k ops g (Q' : unit -> dtok -> Prop) E :
  calm g -> Forall (op_within B) ops -> Q' tt g -> WP k (dyn_client self ops) g Q' E.
Proof.
  intros Hc Hops HQ.
  apply (WP_for_each _ _ _ _ _ _ (fun js g' => g' = g /\ Forall (op_within B) js)); [|by intros ? [-> _]|done].
  intros op ops' ? [-> Hall]. apply Forall_cons in Hall as [Hop Hall]. by apply DP_dyn_op.
Qed.

Lemma DP_start_pool k b g (Q' : _ -> dtok -> Prop) E :
  calm g -> (forall v, Q' v g) -> WP k (start_pool self b) g Q' E.
Proof.
  intros Hc HQ. apply WP_bind.
  apply (WP_mono _ _ _ _ _ _ (fun _ g' => g' = g) _ E); [|intros v ? ->|done].
  { destruct (b_prestart_core_threads b); [|by apply WP_ret]. by client DP_prestart_all; [exact HFin|done|]. }
  destruct v as [n|e]; [by apply WP_ret|].
  apply WP_bind. client DP_stop; [done|]. intros v.
  apply WP_bind. client DP_wait_for_termination; [apply Hc|apply (holds_self dt_acct_l)|].
  intros g' Hg'. rewrite (idle_gain_same _ _ _ Hc Hg'). by apply WP_ret.
Qed.

(** The contributions the threads of the system start with. *)
Definition dyn_tokens (n : nat) : list dtok := replicate n dtok0.

Lemma dyn_initial_inv b s n :
  dyn_initial self b s -> cap = b_queue_capacity b ->
  b_core_pool_size b <= b_maximum_pool_size b <= B -> I [] s (dyn_tokens n).
Proof.
  intros Hs Hcap Hle.
  assert (Hz : forall (f : dtok -> nat), f dtok0 = 0%nat -> sum_with f (dyn_tokens n) = 0%nat).
  { intros f Hf. apply sum_with_zero. intros x Hx. by apply elem_of_replicate in Hx as [-> _]. }
  assert (Hg : forall k g, dyn_tokens n !! k = Some g -> g = dtok0).
  { intros k g Hk. by apply lookup_replicate in Hk as [-> _]. }
  unfold dyn_initial in Hs. split.
  - exists tok0. split; [done|]. split; [rewrite Hs; done|].
    replace (tadd (acct_total (dyn_tokens n)) tok0) with tok0; cycle 1.
    { apply FunctionalExtensionality.functional_extensionality. intros i. unfold tadd, acct_total.
      by rewrite Hz. }
    unfold acc. constructor; cbn; rewrite ?Hs; cbn; try done; try lia.
    + exists true. done.
    + intros sT Hat. unfold at_time in Hat. destruct (decide _) as [Hle'|]; [|done].
      cbn in Hle'. destruct T; cbn in Hat; [|lia]. simplify_eq. rewrite Hs. cbn. lia.
  - split; [|rewrite Hs; cbn; lia]. intros c. unfold count_total. rewrite Hz by done.
    split; [|cbn; lia]. rewrite Hs. by destruct c.
  - rewrite Hs. split.
    + intros k. unfold owner_of. cbn. rewrite mon_new_free. split; [done|].
      intros (g & Hk & Hm). rewrite (Hg _ _ Hk) in Hm. by destruct Hm.
    + intros k g z Hk Hm. by rewrite (Hg _ _ Hk) in Hm.
    + done.
    + unfold sizes_ok. cbn. lia.
  - rewrite Hs. split.
    + intros k g e v Hk He. by rewrite (Hg _ _ Hk) in He.
    + intros k g e Hk He. rewrite (Hg _ _ Hk) in He. by apply elem_of_empty in He.
Qed.

Lemma dyn_system_safe b clients s n :
  dyn_initial self b s -> cap = b_queue_capacity b -> within B b clients ->
  safe I Fin FinP (fun _ => Fin) n [] (dyn_system self b clients s)
    (dyn_tokens (Datatypes.S (length clients))).
Proof.
  intros Hs Hcap [_ Hb Hc]. apply safe_init; [by eapply dyn_initial_inv|].
  assert (Hfin : Fin dtok0) by (by apply HFin). constructor.
  - intros t. apply WP_bind, DP_start_pool; [done|]. intros v. by apply WP_ret.
  - induction Hc as [|ops clients Hops Hc IH]; cbn; constructor; [|exact IH].
    intros t. by apply DP_client.
Qed.
End safety.
