(* ===== verification/DynTheorems.v ===== *)
(** What the dynamic pool guarantees, for every schedule of its threads. *)
From S2P Require Import Prelude Prog Conc Sync AdmissionGate PoolAccounting AccountingLogic.
From S2P Require Import AccountingSpecs Observers Types Hooks PoolJob DynState DynInner DynWorker DynSubmit.
From S2P Require Import DynLogic DynEntryLogic UserSpecs DynSpecs DynWorkerSpecs DynOps Builder DynPool.
From S2P Require Import DynSafety Concrete.
Local Open Scope Z_scope.

(** The relations between the counters of a pool with at most [B] workers. *)
Record dyn_consistent {M} (B : Z) (p : ThreadPoolInner M) : Prop := {
  dc_queued : 0 <= queued_task_count (accounting p) <= queue_slot_count (accounting p);
  dc_entries : Z.of_nat (waiting_entries (entries p)) <= queued_task_count (accounting p);
  dc_running : 0 <= running_task_count (accounting p);
  dc_cancelling : 0 <= cancelling_task_count (accounting p) <= queue_slot_count (accounting p);
  (** every accepted job is completed, cancelled, or still held somewhere *)
  dc_conserved : exists n, 0 <= n <= queue_slot_count (accounting p) + running_task_count (accounting p) /\
    submitted_task_count (accounting p) =
    completed_task_count (accounting p) + cancelled_task_count (accounting p) + n;
  dc_sizes : core_pool_size (locked_data p) <= maximum_pool_size (locked_data p) <= B;
  dc_workers : 0 <= live_workers (locked_data p) <= B;
  dc_counts : 0 <= idle_workers (locked_data p) /\ 0 <= exiting_workers (locked_data p) /\
    0 <= idle_worker_count p /\ 0 <= submit_waiter_count p /\ 0 <= idle_waiter_count p;
}.

Lemma dyn_inv_consistent {S M} `{Monitor M} (self : lens S (ThreadPoolInner M)) T cap B h s G :
  dyn_inv self T cap B h s G ->
  dyn_consistent B (get self s) /\
  (owner_of (get self s) = None -> live_worker_count (get self s) = live_workers (locked_data (get self s))).
Proof.
  intros [(q & Hq & Hw & Ha) [Hc _] [_ _ Hsy Hok] _]. split; [|by intros Hn; specialize (Hsy Hn)].
  set (t := tadd (acct_total G) q) in *.
  pose proof (ai_slots _ _ _ _ _ _ _ Ha) as H1. pose proof (ai_queued _ _ _ _ _ _ _ Ha) as H2.
  pose proof (ai_running _ _ _ _ _ _ _ Ha) as H3. pose proof (ai_cancelling _ _ _ _ _ _ _ Ha) as H4.
  pose proof (ai_conserve _ _ _ _ _ _ _ Ha) as H5. pose proof (all_split t) as Hsp.
  cbn in H1, H2, H3, H4, H5.
  assert (Hwt : (all q Waiting <= all t Waiting)%nat) by (unfold t, all, tadd; lia).
  unfold sizes_ok in Hok. cbn in Hok.
  pose proof (proj1 (Hc DLive)) as L1. pose proof (proj1 (Hc DExit)) as L2. pose proof (proj1 (Hc DIdle)) as L3.
  pose proof (proj1 (Hc DIdleAtomic)) as L4. pose proof (proj1 (Hc DSubmitWaiter)) as L5.
  pose proof (proj1 (Hc DIdleWaiter)) as L6. cbn in L1, L2, L3, L4, L5, L6. unfold locked_data in *.
  split; unfold locked_data; try lia.
  exists (Z.of_nat (unfinished_of (all t))). split; [|exact H5].
  unfold unfinished_of, slots_of, running_of in *. lia.
Qed.

Section theorems.
Context {S M : Type} `{MonitorLaws M} `{UserCode S} `{BuilderErrors}.
Context (self : lens S (ThreadPoolInner M)) `{!LensLaws self}.
Implicit Types (b : ThreadPoolBuilder) (s : S).

Definition any (g : dtok) : Prop := True.
Definition none (g : dtok) : Prop := False.

(** Any run keeps the invariant, for any observed moment. *)
Lemma dyn_reaches T B b clients s sched h' c' n :
  dyn_initial self b s -> dyn_callbacks_respect self b B -> within B b clients ->
  exec sched [] (dyn_system self b clients s) = Some (h', c') -> in_time h' ->
  exists G, safe (dyn_inv self T (b_queue_capacity b) B) any none (fun _ => any) n h' c' G.
Proof.
  intros Hs Hu Hw He Ht. eapply safe_exec; [apply _| |exact He|exact Ht].
  apply (dyn_system_safe self T (b_queue_capacity b) B any none (HU := Hu T any none (fun _ _ => Logic.I)));
    [done|apply Hw|done|done|done].
Qed.

(** The contribution of a thread that knows one fact: that the observed moment
    is past ([Late]), that admission is closed ([KnowClosed]). *)
Definition knows (i : idx) : dtok := MkDtok (one i) (fun _ => 0%nat) None None ∅.

Lemma dyn_inv_joins T cap B h s G i :
  (forall t t', acct_inv (acc self) T cap false h s t -> (forall j, t' j = (t j + one i j)%nat) ->
     acct_inv (acc self) T cap false h s t') ->
  dyn_inv self T cap B h s G -> dyn_inv self T cap B h s (G ++ [knows i]).
Proof.
  intros Hi [(q & Hq & Hw & Ha) [Hc Hbud] [Ho Hk Hs Hb] [Hh Hm]].
  assert (Hlook : forall u g1, (G ++ [knows i]) !! u = Some g1 -> G !! u = Some g1 \/ g1 = knows i).
  { intros u g1 [Hu|[_ Hu]]%lookup_app_Some; [by left|right].
    by apply list_lookup_singleton_Some in Hu as [_ <-]. }
  split.
  - exists q. split; [done|]. split; [done|]. eapply Hi; [exact Ha|].
    intros j. unfold tadd, acct_total. rewrite sum_with_app.
    change (sum_with (fun g => dt_acct g j) [knows i]) with (one i j + 0)%nat. lia.
  - split; [|done]. intros c. replace (count_total c (G ++ [knows i])) with (count_total c G); [apply Hc|].
    unfold count_total. rewrite sum_with_app. change (sum_with (fun g => dt_count g c) [knows i]) with 0%nat. lia.
  - split; [|intros u g z Hu Hz|exact Hs|exact Hb].
    + intros u. rewrite Ho. split.
      * intros (g & Hu & Hz). exists g. split; [by apply lookup_app_l_Some|done].
      * intros (g & [Hu| ->]%Hlook & Hz); [by exists g|by destruct Hz].
    + apply Hlook in Hu as [Hu| ->]; [by eapply Hk|done].
  - split.
    + intros u g e v [Hu| ->]%Hlook Hv; [by eapply Hh|done].
    + intros u g e [Hu| ->]%Hlook Hv; [by eapply Hm|by apply elem_of_empty in Hv].
Qed.

Lemma dyn_inv_late T cap B h s G :
  (T <= length h)%nat -> dyn_inv self T cap B h s G -> dyn_inv self T cap B h s (G ++ [knows Late]).
Proof. intros HT. apply dyn_inv_joins. intros t t'. by apply acct_inv_late. Qed.

Lemma dyn_inv_closed T cap B h s G :
  admission_closed (accounting (get self s)) ->
  dyn_inv self T cap B h s G -> dyn_inv self T cap B h s (G ++ [knows KnowClosed]).
Proof. intros Hc. apply dyn_inv_joins. intros t t'. by apply acct_inv_closed. Qed.

Lemma dyn_inv_acct T cap B h s G :
  dyn_inv self T cap B h s G ->
  exists t, acct_inv (acc self) T cap false h s t /\
    forall k g i, G !! k = Some g -> (get dt_acct_l g i <= t i)%nat.
Proof.
  intros [(q & _ & _ & Ha) _ _ _]. exists (tadd (acct_total G) q). split; [done|].
  intros k g i Hg. pose proof (dyn_acct_lookup G k g i Hg). unfold tadd. cbn. lia.
Qed.

(** An observer that starts late and ends after an idle check. *)
Lemma dyn_observer_sees B b clients s sched1 h1 c1 sched2 h2 c2 (p : prog S unit) :
  dyn_initial self b s -> dyn_callbacks_respect self b B -> within B b clients ->
  exec sched1 [] (dyn_system self b clients s) = Some (h1, c1) ->
  exec sched2 h1 (Config (threads c1 ++ [p]) (shared c1)) = Some (h2, c2) -> in_time h2 ->
  (forall k g (Q' : unit -> dtok -> Prop) E, free g ->
     holds dt_acct_l g (dt_acct g) g ->
     (forall g', idle_gain dt_acct_l g (dt_acct g) true g' -> Q' tt g') ->
     WP (dyn_inv self (length h1) (b_queue_capacity b) B) any none k p g Q' E) ->
  threads c2 !! length (threads c1) = Some (Ret tt) ->
  submitted_task_count (accounting (get self (shared c1))) <=
  completed_task_count (accounting (get self (shared c2))) +
  cancelled_task_count (accounting (get self (shared c2))).
Proof.
  intros Hs Hu Hw He1 He2 Ht Hp Hend.
  apply (observer_learns (acc self) dt_acct_l (b_queue_capacity b) false
    (fun T => dyn_inv self T (b_queue_capacity b) B)
    (fun T h s G => dyn_inv_acct T (b_queue_capacity b) B h s G) (knows Late)
    (fun T h s G => dyn_inv_late T (b_queue_capacity b) B h s G)
    h1 c1 sched2 h2 c2 p); [|done|done| |done].
  - intros T n. eapply dyn_reaches; [done..|]. apply exec_length in He2. unfold in_time in *. lia.
  - intros t. apply Hp; [done|apply (holds_self dt_acct_l)|]. intros g'. by apply idle_gain_knows.
Qed.
End theorems.

(** *** An application whose tasks use the pool they run on

    Task 0 panics; any other task submits its predecessor to the same pool,
    which may start a further worker for it.  [n] bounds the depth. *)
Abbreviation DPool := (ThreadPoolInner CMon).

Fixpoint chain_user (n : nat) : UserCode (CState DPool) :=
  match n with
  | O => log_user
  | Datatypes.S n => {|
      call_closure := noisy;
      drop_closure := noisy;
      call_hook h _ := noisy h;
      runnable_run t :=
        note t ;;
        match t with
        | O => Panic
        | Datatypes.S t' => tp_submit (H0 := chain_user n) cs_pool_l (detached t') ;; Ret tt
        end;
      drop_runnable := note;
      task_runner_run t _ := note t;
      task_slot_accept := note;
      task_slot_cancel_unstarted c := note c ;; Ret true;
      drop_callable := note;
      drop_task_slot := note;
    |}
  end.

Section chain.
Context (T : nat) (cap : option Z) (B : Z) (Fin FinP : dtok -> Prop).
Context (HFin : forall g, (forall i, dt_acct g i = 0%nat) -> Fin g) (HB : 1 <= B).
Local Abbreviation I := (dyn_inv (cs_pool_l (P := DPool)) T cap B).

Lemma dyn_chain_user_safe n : UserSafeB (H := chain_user n) may_block may_join I Fin FinP calm.
Proof.
  assert (Hnote : forall n k g, calm g ->
    WP I Fin FinP k (note n) g (fun _ g' => g' = g) (fun _ => False)).
  { intros m k g _. client DP_core. intros s. split; [apply same_core_refl|by apply WP_ret]. }
  induction n as [|n IH]; [by apply log_user_safe_if|].
  destruct (log_user_safe_if _ _ I Fin FinP calm Hnote). split; try assumption.
  intros t. unfold chain_user, runnable_run. fold chain_user. apply quiet_bind.
  - intros k g Hg. eapply WP_mono; [by apply Hnote|done|done].
  - intros _. destruct t as [|t]; [apply quiet_panic|]. intros k g Hg. apply WP_bind.
    eapply (DP_submit (H1 := chain_user n)); [apply _|exact IH|exact HFin|exact HB|exact Hg|done|].
    intros v _. by apply WP_ret.
Qed.
End chain.

Lemma dyn_chain_respects n b B : 1 <= B -> dyn_callbacks_respect (H0 := chain_user n) (cs_pool_l (P := DPool)) b B.
Proof. intros HB T Fin FinP HFin. by apply dyn_chain_user_safe. Qed.

(** A pool of one core and at most two workers with room for three queued jobs. *)
Definition demo_builder : ThreadPoolBuilder :=
  MkThreadPoolBuilder 1 2 (Some 3) "worker" None 5 false true
    (MkThreadPoolHooks (Some 0%nat) None (Some 9%nat) None).
#[export] Instance demo_errors : BuilderErrors := fun _ => OtherBuilderError 0.
Definition demo_state : CState DPool :=
  MkCState (thread_pool_inner_new (Builder.config demo_builder) (b_hooks demo_builder)) [].
Definition demo_clients : list (list DynOp) :=
  [[OpSubmit 2; OpSubmitCallable 5 6 7; OpSetMaximumPoolSize 3; OpJoin; OpShutdown; OpWaitTermination];
   [OpSubmitCancellable 4 5 0; OpCancel true 0; OpSubmitCustom 0 1 2; OpStats]].
Definition demo_system : config (CState DPool) :=
  dyn_system (H0 := chain_user 2) cs_pool_l demo_builder demo_clients demo_state.

Definition demo_sched : list (nat * bool) := steady 2000 0 demo_system.
(** The clients' first steps, and what follows when an observer joins. *)
Definition demo_sched1 : list (nat * bool) := take 150 demo_sched.
Definition demo_sched2 (p : prog (CState DPool) unit) : list (nat * bool) :=
  steady 900 0 (with_observer p (after demo_system demo_sched1)).

Lemma demo_within : within 3 demo_builder demo_clients.
Proof. split; [done|cbn; lia|]. repeat constructor; cbn; done. Qed.



(** C9. At every moment of every run the counters of a dynamic pool are
    consistent: the queue never holds more jobs than are counted as queued, every
    accepted job is completed, cancelled or accounted for by a slot or the running
    counter, the core size never exceeds the maximum even while both are being
    changed, there are never more live workers than the largest maximum
    configured, and the atomic copy of their number agrees with the locked one
    whenever the monitor is free. *)
Theorem dyn_pool_consistent {S M} `{Monitor M} (HM : MonitorLaws M) `{UserCode S} `{BuilderErrors}
    (self : lens S (ThreadPoolInner M)) (HL : LensLaws self) B b clients s sched h' c' :
  dyn_initial self b s -> dyn_callbacks_respect self b B -> within B b clients ->
  exec sched [] (dyn_system self b clients s) = Some (h', c') -> in_time h' ->
  dyn_consistent B (get self (shared c')) /\
  (owner_of (get self (shared c')) = None ->
   live_worker_count (get self (shared c')) = live_workers (locked_data (get self (shared c')))).
Proof.
  intros Hs Hu Hw He Ht. destruct (dyn_reaches self 0 _ _ _ _ _ _ _ 1 Hs Hu Hw He Ht) as [G [HI _]].
  by eapply dyn_inv_consistent.
Qed.

Lemma dyn_pool_consistent_witness :
  exists h' c', exec demo_sched1 [] demo_system = Some (h', c') /\
    submitted_task_count (accounting (cs_pool (shared c'))) = 3 /\
    dyn_consistent 3 (cs_pool (shared c')).
Proof.
  assert (Hd : match exec demo_sched1 [] demo_system with
    | Some (h, c) => length h = 150%nat /\ submitted_task_count (accounting (cs_pool (shared c))) = 3
    | None => False end) by (vm_compute; split; reflexivity).
  destruct (exec demo_sched1 [] demo_system) as [[h' c']|] eqn:He; [|contradiction].
  exists h', c'. split; [reflexivity|]. split; [apply Hd|].
  apply (dyn_pool_consistent (H0 := chain_user 2) _ cs_pool_l _ 3 demo_builder demo_clients demo_state
           demo_sched1 h' c'); [reflexivity|by apply dyn_chain_respects|apply demo_within|exact He|].
  unfold in_time, STEP_BOUND. destruct Hd as [-> _]. reflexivity.
Defined.




