(* ===== verification/ShutdownRace.v ===== *)
(** A job accepted just before a shutdown may never run: runs of both pools that
    reach a deadlock, found by following the order in which a worker reads the
    counters before it exits. *)
From S2P Require Import Prelude Prog Conc Sync AdmissionGate PoolAccounting Types Hooks PoolJob.
From S2P Require Import Builder Concrete.
From S2P Require FixedInner FixedWorker FixedPool FixedSafety.
From S2P Require DynState DynInner DynWorker DynSubmit DynPool DynSafety.
Local Open Scope Z_scope.

(** [n] steps of thread [t]. *)
Definition turns (n t : nat) : list (nat * bool) := repeat (t, true) n.

(** A schedule continued until nothing can move. *)
Definition then_steady {S} (fuel : nat) (c : config S) (sched : list (nat * bool)) : list (nat * bool) :=
  sched ++ steady fuel 0 (after c sched).

(** The accounting of a pool that accepted one job, lost it, and is closed. *)
Definition one_job_stranded (a : PoolAccounting) : Prop :=
  submitted_task_count a = 1 /\ queued_task_count a = 1 /\
  completed_task_count a = 0 /\ cancelled_task_count a = 0.

Module Fixed.
Import FixedInner FixedPool FixedSafety.
Abbreviation Pool := (FixedThreadPoolInner CMon (list PoolJob)).

(** One worker; one client submits, another shuts down and waits. *)
Definition builder : FixedThreadPoolBuilder :=
  MkFixedThreadPoolBuilder 1 None "worker" None thread_pool_hooks_new.
Definition start : CState Pool := MkCState (fixed_with_hooks 1 None thread_pool_hooks_new) [].
Definition system : config (CState Pool) :=
  fixed_system (H1 := log_user) cs_pool_l builder
    [[OpSubmit 1]; [OpShutdown; OpWaitTermination]] start.

(** The worker is started; the submitter is admitted; the pool is shut down; the
    worker reads that nothing is queued; the submitter publishes its job and
    leaves; the worker reads that nobody is being admitted. *)
Definition schedule : list (nat * bool) :=
  then_steady 200 system (turns 5 0 ++ turns 4 1 ++ turns 6 2 ++ turns 10 3 ++ turns 8 1).

(** C10. A fixed pool can lose a job it accepted: there is a run of one worker, a
    client that submits one job and a client that shuts the pool down, at whose end
    no thread can move, the accepted job is still queued, no worker is left to run
    it, and the client waiting for termination waits for ever.  A worker that sees
    the shutdown reads the number of queued jobs before the number of submitters in
    admission, so a submission that completes between the two reads is missed. *)
Theorem fixed_shutdown_strands_accepted_job :
  exists h c, exec schedule [] system = Some (h, c) /\ stuck c /\
    one_job_stranded (accounting (cs_pool (shared c))) /\
    fixed_live_workers (mon_data (state (cs_pool (shared c)))) = 0 /\
    inj_jobs (global_queue (cs_pool (shared c))) = [detached 1] /\
    threads c !! 1%nat = Some (Ret tt) /\
    exists waiting, threads c !! 2%nat = Some waiting /\ finished waiting = false.
Proof.
  assert (Hd : match exec schedule [] system with
    | Some (h, c) => stuckb c = true /\
        one_job_stranded (accounting (cs_pool (shared c))) /\
        fixed_live_workers (mon_data (state (cs_pool (shared c)))) = 0 /\
        inj_jobs (global_queue (cs_pool (shared c))) = [detached 1] /\
        threads c !! 1%nat = Some (Ret tt) /\
        match threads c !! 2%nat with Some p => finished p = false | None => False end
    | None => False end) by (vm_compute; repeat split; reflexivity).
  destruct (exec schedule [] system) as [[h c]|]; [|contradiction].
  destruct Hd as (Hs & Hj & Hl & Hq & H1 & H2). exists h, c.
  split; [done|]. split; [by apply stuckb_stuck|]. do 4 (split; [done|]).
  destruct (threads c !! 2%nat) as [p|]; [by exists p|contradiction].
Qed.
End Fixed.

Module Dynamic.
Import DynState DynInner DynPool DynSafety.
Abbreviation Pool := (ThreadPoolInner CMon).

Definition builder : ThreadPoolBuilder :=
  MkThreadPoolBuilder 1 1 None "worker" None 5 false true thread_pool_hooks_new.
#[export] Instance errors : BuilderErrors := fun _ => OtherBuilderError 0.
Definition start : CState Pool :=
  MkCState (thread_pool_inner_new (Builder.config builder) (b_hooks builder)) [].
Definition system : config (CState Pool) :=
  dyn_system (H0 := log_user) cs_pool_l builder
    [[OpSubmit 1]; [OpShutdown; OpWaitTermination]] start.

(** As for the fixed pool, the core worker being prestarted. *)
Definition schedule : list (nat * bool) :=
  then_steady 300 system (turns 18 0 ++ turns 11 1 ++ turns 6 2 ++ turns 10 3 ++ turns 9 1).

(** C11. A dynamic pool can lose a job it accepted, in the same way: its last
    worker reads that nothing is queued, a submitter admitted before the shutdown
    publishes its job and leaves, the worker reads that nobody is in admission and
    exits; the job stays queued and the client waiting for termination is never
    woken. *)
Theorem dyn_shutdown_strands_accepted_job :
  exists h c, exec schedule [] system = Some (h, c) /\ stuck c /\
    one_job_stranded (accounting (cs_pool (shared c))) /\
    live_workers (mon_data (state_monitor (cs_pool (shared c)))) = 0 /\
    length (mutex_data (global_queue (cs_pool (shared c)))) = 1%nat /\
    threads c !! 1%nat = Some (Ret tt) /\
    exists waiting, threads c !! 2%nat = Some waiting /\ finished waiting = false.
Proof.
  assert (Hd : match exec schedule [] system with
    | Some (h, c) => stuckb c = true /\
        one_job_stranded (accounting (cs_pool (shared c))) /\
        live_workers (mon_data (state_monitor (cs_pool (shared c)))) = 0 /\
        length (mutex_data (global_queue (cs_pool (shared c)))) = 1%nat /\
        threads c !! 1%nat = Some (Ret tt) /\
        match threads c !! 2%nat with Some p => finished p = false | None => False end
    | None => False end) by (vm_compute; repeat split; reflexivity).
  destruct (exec schedule [] system) as [[h c]|]; [|contradiction].
  destruct Hd as (Hs & Hj & Hl & Hq & H1 & H2). exists h, c.
  split; [done|]. split; [by apply stuckb_stuck|]. do 4 (split; [done|]).
  destruct (threads c !! 2%nat) as [p|]; [by exists p|contradiction].
Qed.
End Dynamic.
