(* ===== verification/ClosedPool.v ===== *)
(** A pool whose admission has been closed refuses every later submission,
    whatever else is running. *)
From S2P Require Import Prelude Prog Conc Sync AdmissionGate PoolAccounting AccountingLogic.
From S2P Require Import AccountingSpecs Observers Types Hooks PoolJob UserSpecs Builder Concrete.
From S2P Require FixedInner FixedLogic FixedSpecs FixedPool FixedSafety FixedTheorems.
From S2P Require DynState DynInner DynSubmit DynLogic DynSpecs DynOps DynPool DynSafety DynTheorems.
Local Open Scope Z_scope.

(** [assert!(matches!(r, Err(Rejected(Shutdown))))] *)
Definition assert_shutdown {S} (r : Result unit PoolJobSubmissionError) : prog S unit :=
  assert (match r with Err (Rejected Shutdown) => true | _ => false end).

Module Fixed.
Import FixedInner FixedLogic FixedSpecs FixedPool FixedSafety FixedTheorems.

(** A caller that submits [job] and expects to be refused. *)
Definition expect_refusal {S M Q} `{Monitor M} `{Injector Q PoolJob} `{UserCode S}
    (self : lens S (FixedThreadPoolInner M Q)) (job : PoolJob) : prog S unit :=
  r <- fixed_submit self job ;; assert_shutdown r.

(** The demonstration run up to its end, then one more submission. *)
Definition demo_late : list (nat * bool) := fair 60 0 true
  (with_observer (expect_refusal (H1 := chain_user) cs_pool_l (with_accept 1 2 4)) (after demo_system demo_sched)).

End Fixed.

Module Dynamic.
Import DynState DynInner DynSubmit DynLogic DynSpecs DynOps DynPool DynSafety DynTheorems.

Definition expect_refusal {S M} `{Monitor M} `{UserCode S}
    (self : lens S (ThreadPoolInner M)) (job : PoolJob) : prog S unit :=
  r <- tp_submit self job ;; assert_shutdown r.


Definition demo_late : list (nat * bool) := steady 60 0
  (with_observer (expect_refusal (H0 := chain_user 2) cs_pool_l (with_accept 1 2 4)) (after demo_system demo_sched)).

End Dynamic.
